(* ===== verification/_CoqProject ===== *)
-Q . S2P
Prelude.v
AdTypes.v
AdPort.v
AdMachine.v
AdControl.v
AdEntry.v
AdInv.v
AdSelect.v
AdAttach.v
AdSafe.v
AdMux.v
AdUnbind.v
AdBind.v
AdReach.v
AdSample.v
AdRx.v
AdTimers.v
AdProps.v
MsgTypes.v
MsgOps.v
MsgCtl.v
MsgLoops.v
MsgInv.v
MsgSend.v
MsgSndCall.v
MsgRecv.v
MsgRcvCall.v
MsgRemove.v
MsgReach.v
MsgSample.v
MsgProps.v
Math64.v
Stdio.v
StdioNumber.v
StdioFormat.v
StdioProps.v
BondHash.v
BondSpec.v
BondSample.v
AlbTypes.v
AlbOps.v
AlbEntry.v
AlbLinks.v
AlbInv.v
AlbTlb.v
AlbRlb.v
AlbSide.v
AlbServe.v
AlbMac.v
AlbXmit.v
AlbSlaves.v
AlbReach.v
AlbSample.v
AlbProps.v
BondXmit.v
BondTx.v
BondModes.v
BondProps.v
MonTypes.v
MonOps.v
MonLinks.v
MonEntry.v
MonSwitch.v
MonBest.v
MonInv.v
MonKeep.v
MonMon.v
MonSlaves.v
MonReach.v
MonTime.v
MonSample.v
MonProps.v
