(* ===== verification/Prelude.v ===== *)
(** * A verification of parts of a Unix-like kernel

    The repository is a port of a Unix-like kernel.  Its largest stateful part is the
    bonding driver, which makes one network device, the bond, of several, its slaves.
    Verified here are its IEEE 802.3ad (LACP) module, [src/servers/bond_3ad.c]; its load
    balancing module, [src/servers/bond_alb.c]; and of [src/servers/bonding.c] the hash
    policies, the transmission of packets, failover and the monitors of the links, with
    the places that enslave and release slaves.  Another stateful part is System V message
    queues, [src/msg.c] with the 32-bit conversions of [src/ipc/compat.c].  Two smaller
    ones are pure computations: the 64-bit arithmetic of [src/io_uring/math64.h] and
    [src/io_uring/math.h], and the formatted output of the boot loaders,
    [src/rust/arch/boot/stdio.c].

    The parts of the bonding driver work on the same slaves but on different data of them,
    and each has a state of its own with that data.  Transmission is on top of load
    balancing and shares its state; failover and monitoring record the calls that they
    make into 802.3ad and load balancing as events, and the modules have these calls as
    entry points.

    ** Common ground

    [Prelude] has functional record update, machine integers, bit flags, the state
    monad with faults [M S A] in which the stateful code is written, and the total
    correctness predicate [wp m Q s]: [m] run in [s] ends without a fault, in a result
    and a state that satisfy [Q].  A fault is a null dereference, a dereference of
    memory that is not there, an access outside an array, a signed overflow, a variable
    argument of the wrong type, the use of a variable that was not set or an exhausted
    bound of a loop, so every theorem that gives a result also says that the code is memory
    safe and that its loops end.

    Code that is not in the repository is a field of a type class: [Kernel] for what
    [bond_3ad.c] calls, [Alb] for [bond_alb.c], [Flow] for the hash policies, [Xmit] for
    transmission, [Mon] for failover and monitoring, [Ipc] and [IpcUser] for [msg.c].
    What the code relies on is stated in [KernelLaws], [AlbLaws], [FlowLaws], [XmitLaws],
    [MonLaws] and [IpcLaws]; [LinuxKernel], [LinuxAlb], [LinuxFlow], [LinuxXmit],
    [LinuxMon] and [LinuxIpc] are instances that satisfy the laws, on which the theorems
    are evaluated.

    ** 802.3ad

    A bond has slaves, each with a port and an aggregator; the ports of an aggregator
    form a list through [next_port_in_aggregator].  The state is a heap of slaves with
    pointers between them ([AdTypes]).

    - [AdTypes]: constants, [port], [aggregator], [slave], [bonding], LACPDUs.
    - [AdPort]: the receive, periodic and churn machines, which work on one port.
    - [AdMachine], [AdControl]: aggregator queries, transmission, aggregator selection,
      port selection, the mux machine.
    - [AdEntry]: binding and unbinding, the periodic handler, received frames, link and
      parameter changes, reports.
    - [AdInv], [AdSelect], [AdAttach], [AdSafe], [AdMux], [AdUnbind], [AdBind]: the
      invariant of the port lists, a specification of aggregator selection as a ranking,
      and that each operation keeps the invariant.
    - [AdReach]: the states that any sequence of calls reaches.
    - [AdSample], [AdRx], [AdTimers], [AdProps]: concrete bonds and the properties.

    The theorems show that no call in a reachable state follows a bad pointer or runs
    on; that port lists, aggregator membership, the number of ports, the active
    aggregator and the mux flags are consistent in every reachable state; that
    aggregator selection refines its specification and is optimal or stable as the
    policy says; that a released slave leaves no pointer behind; that the machines
    follow their diagrams, the timers their periods, and that two ports learn from
    each other what they send.

    A walk along a port list has one unit of fuel more than there are slaves, which is
    enough for a list without repetitions.  Calls run under the locks of the driver and
    are atomic; enslaving and releasing a slave are each one step, so the window between
    unbinding a slave and unlinking it is not seen by other calls.  [num_of_ports] is a
    16-bit count, and a bond has fewer than 2^16 slaves.

    ** Load balancing

    Transmit load balancing has a table that gives each flow a slave; receive load
    balancing has a table of clients, each with the slave that it is told to send to.
    Entries of both tables are linked by index.

    - [AlbTypes]: slaves, the two tables, packets, [Alb].
    - [AlbOps]: the functions on the tables, the clients and what they are told;
      [AlbEntry]: addresses, packets and the choice of a slave for them, slaves that come
      and go, the monitor.
    - [AlbLinks]: lists that are linked by index.
    - [AlbInv]: the invariant of the tables; [AlbTlb], [AlbRlb], [AlbSide], [AlbServe],
      [AlbMac], [AlbXmit], [AlbSlaves]: that each operation keeps it,
      and what it does.
    - [AlbReach]: the states that any sequence of calls reaches.
    - [AlbSample], [AlbProps]: an instance, concrete bonds and the properties.

    The theorems show that no call in a reachable state follows a bad pointer, leaves a
    table or runs along a list without end; that the links of the tables are lists of
    exactly the entries they should have; that a released slave is in neither table; which
    slave a flow and a client get, and that clients are shared out in turn; that no two
    slaves have the same address if devices accept one; and that setting the address of the
    bond is undone on failure.  A walk along a list has one unit of fuel more than the
    table has entries ([tlb_fuel], [rlb_fuel]).  Calls are atomic.  A packet has the fields
    that the code reads from its headers.

    ** Transmission

    - [BondHash]: the hash policies, on the bytes of a packet whose linear part is an area
      of memory; [BondSpec]: the hash as a function of the bytes; [BondSample]: an instance.
    - [BondXmit]: the choice of slaves in every mode, the arrays of slaves, queues, frames
      without a buffer.
    - [BondTx], [BondModes], [BondProps]: what the modes do, and the properties.

    The theorems show that a buffer is consumed exactly once and reaches only slaves that
    exist; that the hash is the specified one, is read within bounds, and agrees for frames
    without a buffer and for fragments; where it reads through a pointer to freed memory;
    that round robin gives every slave the same share; and what the arrays of slaves hold.
    Words are little-endian.  The loop that takes a queue number into range has one unit of
    fuel more than the number.  Offload of TLS is left out.

    ** Failover and monitoring

    A bond has slaves with the state of their links, one of which may be the active one.
    Monitors look at the links from time to time: they first inspect the slaves and propose
    new states without a lock, and then commit these under the lock.

    - [MonTypes]: slaves, the bond with its parameters, events, [Mon].
    - [MonOps]: the best slave, the change of the active slave, addresses, the carrier,
      notifications of peers.
    - [MonLinks]: the MII monitor and the ARP monitors.
    - [MonEntry]: enslaving and releasing, opening and closing, events of slaves, the options
      that concern the active slave ([src/servers/bond_options.c]).
    - [MonSwitch], [MonBest], [MonInv], [MonKeep], [MonMon], [MonSlaves]: states that agree
      on links and pointers, what a change of the active slave does, the specification of the
      best slave, the invariant of active backup mode, and that each operation keeps it.
    - [MonReach]: the states that any sequence of calls reaches; the phases of the monitors
      are calls of their own, so that others come in between.
    - [MonTime]: how long the MII monitor takes, how often peers are told, the addresses of
      the slaves.
    - [MonSample], [MonProps]: an instance, concrete bonds and the properties.

    The theorems show that in active backup mode no call follows a bad pointer; that the
    active slave is a usable one whenever there is one, and the carrier is right; that the
    best slave is found; that failover happens within [downdelay] and a slave is used within
    [updelay]; that a released slave or a failed enslaving leaves no pointer; and four ways
    in which a bond is left without what it could have.  All loops are over the list of
    slaves and need no fuel.  [jiffies] and the counters of a slave are exact, and times are
    compared by [time_in_range].  The search for a candidate of the ARP monitor is one step,
    though it runs without the lock that other calls hold.  Of enslaving and releasing, the
    checks on the device and its addresses, MTU and VLANs are left out.

    ** Message queues

    A namespace has queues; a queue has messages and lists of sleeping receivers and
    senders.  The list entries live on the stacks of the sleeping tasks, and a queue that
    is removed stays in memory until its references are gone and an RCU grace period has
    passed.  The state [msg_ns] has all of this: the queues in memory, the stack frames of
    the tasks inside a call, the tasks that were made runnable, and the pending callbacks
    with the readers they wait for.

    - [MsgTypes]: queues, messages, records of senders and receivers, [Ipc], [msg_ns].
    - [MsgOps]: creating and removing a queue, sending, receiving, waking.
    - [MsgCtl]: [msgctl], layouts for native and 32-bit callers, the system calls,
      namespaces.
    - [MsgLoops]: what the loops compute.
    - [MsgInv]: the invariant of a namespace, and steps on one task's frame.
    - [MsgSend], [MsgSndCall], [MsgRecv], [MsgRcvCall], [MsgRemove]: each
      operation as a function of the state, and that it keeps the invariant.
    - [MsgReach]: that [msgctl] keeps it; the states that any interleaving of the steps of all tasks reaches.
    - [MsgSample], [MsgProps]: concrete runs and the properties.

    A system call is cut into atomic steps where it releases the lock of the queue:
    [do_msgsnd] and [do_msgrcv] look up the queue in one step and run under its lock in
    another, so that the queue may have been removed in between; a task that wakes up
    from [schedule()] makes a step under the lock, a receiver first one without it.

    The theorems show that no step uses a queue that was freed or the stack frame of a
    task that has returned; that bytes and messages are accounted for exactly; that no
    wake-up is lost; that a queue outlives its users; that [do_msgsnd] and [do_msgrcv]
    refine functional specifications; which receiver gets a message and which message a
    receiver gets; that removing a queue ends every call that sleeps on it; that the
    test against the limit of a queue cannot overflow; and what IPC_SET and the old
    layouts do to a limit.

    The hypothesis [room] of these theorems says that no queue holds 2^62 bytes or
    messages and that fewer than 2^30 tasks sleep, so that sums of 64 bits do not wrap
    around and reference counts do not saturate.  The loop of [ss_wakeup] has fuel for
    twice the number of senders, as a sender is visited once and moved at most once.
    The build is a 64-bit one.  [freeque] is one step: what it does after it has released
    the lock concerns only the removed queue and the counters.  A report of [msgctl] is
    one step.  Memory barriers, audit
    records and the freeing of single messages are not modelled.

    ** 64-bit arithmetic

    [Math64] has the divisions, multiplications and roundings of [math64.h] and [math.h]
    on integers of 64 bits; the 128-bit product is there on 128-bit integers and on 32-bit
    halves.  The theorems say that both versions agree with the exact product, that a
    product is divided without loss, and for which operands the roundings are exact.
    [do_div] and [mul_u64_add_u64_div_u64] are compiled elsewhere and are parameters; the
    first is assumed to divide.

    ** Formatted output

    - [Stdio]: [number], the steps of [vsprintf] and its loop; the state is the text
      written, the arguments left and the stores of [%n].
    - [StdioNumber]: what each loop writes; the numeral of a number and the
      layout of a field.
    - [StdioFormat]: formats as a sequence of characters and conversions, their text and
      their meaning, and that [vsprintf] reads one and writes the other.
    - [StdioProps]: the properties.

    The theorems say that [vsprintf] implements the language of formats; that no format
    and no arguments make it run on, leave [tmp] or a string, or store through a null
    pointer; and that a printed integer reads back.  The loop that takes digits has fuel
    for the 66 characters of [tmp], of which a 64-bit number needs at most 64; the loop
    over the format has one unit of fuel for each character; the loops that pad have as
    much fuel as they have characters to write.  The buffer is as large as the text.

    ** Not modelled

    Of the bonding driver: the setup of devices, addresses, ioctls, the sending and checking
    of ARP and neighbour probes, features and IPsec offload in [bonding.c], the options that
    do not concern the active slave in [bond_options.c], and [bond_netlink.c], which drive
    network devices and the netlink library; drivers, boot code and assembly, which work on
    hardware; the ports of kernel, io_uring and file system code whose data structures are
    declared in headers that are not in the repository; compiler plugins, scripts and the
    programs in D and Rust, which are separate from the kernel.  Of [bond_3ad.c] the
    netlink statistics are left out, of [msg.c] the wrappers that parse a version, the
    line printed to /proc and the registration of that file. *)

From stdpp Require Export base tactics list gmap.
From Stdlib Require Export ZArith Lia.

#[global] Open Scope Z_scope.

(** ** Functional record update

    [r <| f := v |>] writes field [f], [r <| f ::= g |>] applies [g] to it.
    A record type opts in with an [Eta] instance (its eta-expansion); the
    setter of a projection is then built by abstracting that projection in the
    eta-expansion, so every law of the setters holds by computation. *)

Class Eta (R : Type) := eta : R -> R.
Class Setter {R A : Type} (proj : R -> A) := upd_field : (A -> A) -> R -> R.
Arguments upd_field {R A} proj {_} _ _ : simpl never.

Ltac solve_setter :=
  match goal with
  | |- @Setter ?R ?A ?proj =>
      let e := constr:(_ : Eta R) in
      let h := eval hnf in e in
      exact (fun (g : A -> A) (r : R) =>
        ltac:(let b := eval cbv beta in (h r) in
              match eval pattern proj in b with
              | ?F _ =>
                  let t := eval cbv beta in (F (fun y => g (proj y))) in
                  exact t
              end))
  end.

#[export] Hint Extern 0 (Setter _) => solve_setter : typeclass_instances.

Declare Scope rec_scope.
Delimit Scope rec_scope with rec.
#[warnings="-postfix-notation-not-level-1"]
Notation "r <| f ::= g |>" := (upd_field f g r)
  (at level 12, left associativity, f at next level, g at level 99) : rec_scope.
#[warnings="-postfix-notation-not-level-1"]
Notation "r <| f := v |>" := (upd_field f (fun _ => v) r)
  (at level 12, left associativity, f at next level, v at level 99) : rec_scope.
#[global] Open Scope rec_scope.

(** Projections of updated records, in the goal and in the hypotheses.  Each
    equation is proved on a variable record, which keeps conversion cheap. *)
Ltac rec_equation p R A q S g r k :=
  let H := fresh in
  first
    [ constr_eq p q;
      assert (forall r0 : R, p (@upd_field R A q S g r0) = g (p r0)) as H
        by (intros; reflexivity)
    | assert (forall r0 : R, p (@upd_field R A q S g r0) = p r0) as H
        by (intros; reflexivity) ];
  specialize (H r); k H; clear H.
Ltac rec_step_in_goal :=
  match goal with
  | |- context [?p (@upd_field ?R ?A ?q ?S ?g ?r)] =>
      rec_equation p R A q S g r ltac:(fun H => rewrite H)
  end.
Ltac rec_step_in_hyp :=
  match goal with
  | H' : context [?p (@upd_field ?R ?A ?q ?S ?g ?r)] |- _ =>
      rec_equation p R A q S g r ltac:(fun H => rewrite H in H')
  end.
Ltac rec_simpl := repeat (rec_step_in_goal; cbv beta).
Ltac rec_simpl_all :=
  repeat first [ rec_step_in_goal; cbv beta
               | rec_step_in_hyp; cbv beta in * ].

(** ** Machine integers: unsigned values as [Z] with the wrap written out *)

Definition u8 (z : Z) : Z := z mod 2 ^ 8.
Definition u16 (z : Z) : Z := z mod 2 ^ 16.
Definition u32 (z : Z) : Z := z mod 2 ^ 32.
Definition u64 (z : Z) : Z := z mod 2 ^ 64.

Lemma u16_id z : 0 <= z < 65536 -> u16 z = z.
Proof. intros. unfold u16. apply Z.mod_small. lia. Qed.

Lemma u32_id z : 0 <= z < 2 ^ 32 -> u32 z = z.
Proof. intros. unfold u32. apply Z.mod_small. lia. Qed.

Lemma u64_id z : 0 <= z < 2 ^ 64 -> u64 z = z.
Proof. intros. unfold u64. apply Z.mod_small. lia. Qed.

Lemma u16_range z : 0 <= u16 z < 65536.
Proof. unfold u16. pose proof (Z.mod_pos_bound z (2 ^ 16)). lia. Qed.

Lemma u32_range z : 0 <= u32 z < 2 ^ 32.
Proof. unfold u32. apply Z.mod_pos_bound. lia. Qed.

Lemma u64_range z : 0 <= u64 z < 2 ^ 64.
Proof. unfold u64. apply Z.mod_pos_bound. lia. Qed.

(** ** Flag words

    [has v f] is the C condition [v & f]; [setf] and [clrf] are [v |= f] and
    [v &= ~f]. *)

Definition has (v f : Z) : bool := negb (Z.land v f =? 0).
Definition setf (v f : Z) : Z := Z.lor v f.
Definition clrf (v f : Z) : Z := Z.land v (Z.lnot f).

Lemma land_clrf_same v f : Z.land (clrf v f) f = 0.
Proof.
  unfold clrf. rewrite <-Z.land_assoc, (Z.land_comm (Z.lnot f)).
  rewrite Z.land_lnot_diag. apply Z.land_0_r.
Qed.

Lemma land_clrf_other v f g : Z.land f g = 0 -> Z.land (clrf v f) g = Z.land v g.
Proof.
  intros Hfg. unfold clrf. apply Z.bits_inj'. intros i Hi.
  rewrite !Z.land_spec, Z.lnot_spec by lia.
  assert (Z.testbit (Z.land f g) i = false) as Hb
    by (rewrite Hfg; apply Z.bits_0).
  rewrite Z.land_spec in Hb.
  destruct (Z.testbit v i), (Z.testbit f i), (Z.testbit g i); auto.
Qed.

Lemma land_setf_other v f g : Z.land f g = 0 -> Z.land (setf v f) g = Z.land v g.
Proof.
  intros Hfg. unfold setf. rewrite Z.land_lor_distr_l, Hfg. apply Z.lor_0_r.
Qed.

Lemma land_setf_same v f : Z.land (setf v f) f = f.
Proof.
  unfold setf. apply Z.bits_inj'. intros i Hi. rewrite Z.land_spec, Z.lor_spec.
  destruct (Z.testbit v i), (Z.testbit f i); auto.
Qed.

Lemma has_clrf_same v f : has (clrf v f) f = false.
Proof. unfold has. by rewrite land_clrf_same. Qed.

Lemma has_clrf_other v f g : Z.land f g = 0 -> has (clrf v f) g = has v g.
Proof. intros. unfold has. by rewrite land_clrf_other. Qed.

Lemma has_setf_same v f : f <> 0 -> has (setf v f) f = true.
Proof.
  intros. unfold has. rewrite land_setf_same. destruct (Z.eqb_spec f 0); done.
Qed.

Lemma has_setf_other v f g : Z.land f g = 0 -> has (setf v f) g = has v g.
Proof. intros. unfold has. by rewrite land_setf_other. Qed.

Lemma has_disjoint v f : Z.land v f = 0 -> has v f = false.
Proof. intros H. unfold has. by rewrite H. Qed.

Lemma has_0 f : has 0 f = false.
Proof. unfold has. by rewrite Z.land_0_l. Qed.

(** ** Results of C code that can fault

    [NullDeref] is a dereference of a null pointer, [Dangling] one of a pointer
    to an object that does not exist, [Overrun] an access outside an array, [Overflow]
    one of signed arithmetic, [BadVarArg] a variable argument that is missing or has
    another type, [Uninit] the use of a variable that was not set, [OutOfFuel] a loop that did not end within the bound given to it. *)

Inductive fault := NullDeref | Dangling | Overrun | Overflow | BadVarArg | Uninit | OutOfFuel.
Inductive res (A : Type) := Ok (a : A) | Err (f : fault).
Arguments Ok {A} a.
Arguments Err {A} f.

#[export] Instance fault_eq_dec : EqDecision fault.
Proof. solve_decision. Defined.

Definition res_bind {A B} (m : res A) (k : A -> res B) : res B :=
  match m with Ok a => k a | Err f => Err f end.

Definition is_ok {A} (m : res A) : bool := match m with Ok _ => true | Err _ => false end.

(** One turn of a loop body: go on with a new accumulator, or leave. *)
Inductive ctl (A : Type) := Continue (a : A) | Break (a : A).
Arguments Continue {A} a.
Arguments Break {A} a.

(** ** A state monad with faults *)

Definition M (S A : Type) : Type := S -> res (A * S).

Definition ret {S A} (a : A) : M S A := fun s => Ok (a, s).
Definition fail_with {S A} (f : fault) : M S A := fun _ => Err f.
Definition bind {S A B} (m : M S A) (k : A -> M S B) : M S B :=
  fun s => match m s with Ok (a, s') => k a s' | Err f => Err f end.
Definition get {S} : M S S := fun s => Ok (s, s).
Definition gets {S A} (f : S -> A) : M S A := fun s => Ok (f s, s).
Definition modify {S} (f : S -> S) : M S unit := fun s => Ok (tt, f s).
Definition lift {S A} (r : res A) : M S A :=
  fun s => match r with Ok a => Ok (a, s) | Err f => Err f end.
Definition when_ {S} (b : bool) (m : M S unit) : M S unit :=
  if b then m else ret tt.

Declare Scope m_scope.
Delimit Scope m_scope with m.
Notation "'let*' x := e 'in' k" := (bind e (fun x => k))
  (at level 10, x name, e at level 100, k at level 200) : m_scope.
Notation "'let*' ' p := e 'in' k" := (bind e (fun x => let p := x in k))
  (at level 10, p pattern, e at level 100, k at level 200) : m_scope.
Notation "e ;;; k" := (bind e (fun _ => k))
  (at level 190, right associativity) : m_scope.
#[global] Open Scope m_scope.

(** [for_each l a body] runs [body] on the elements of [l] in order, threading
    the accumulator, until the list ends or the body breaks. *)
Fixpoint for_each {S A B} (l : list B) (a : A) (body : A -> B -> M S (ctl A)) : M S A :=
  match l with
  | [] => ret a
  | x :: l' =>
      let* c := body a x in
      match c with
      | Continue a' => for_each l' a' body
      | Break a' => ret a'
      end
  end.

(** *** Total correctness: the run ends without a fault in a state that
    satisfies the postcondition *)

Definition wp {S A} (m : M S A) (Q : A -> S -> Prop) (s : S) : Prop :=
  match m s with Ok (a, s') => Q a s' | Err _ => False end.

Section wp_rules.
Context {S : Type}.

Lemma wp_ret {A} (a : A) (Q : A -> S -> Prop) s : Q a s -> wp (ret a) Q s.
Proof. done. Qed.

Lemma wp_bind {A B} (m : M S A) (k : A -> M S B) (Q : B -> S -> Prop) s :
  wp m (fun a s' => wp (k a) Q s') s -> wp (bind m k) Q s.
Proof. unfold wp, bind. destruct (m s) as [[a s']|]; done. Qed.

Lemma wp_mono {A} (m : M S A) (Q R : A -> S -> Prop) s :
  wp m Q s -> (forall a s', Q a s' -> R a s') -> wp m R s.
Proof. unfold wp. destruct (m s) as [[a s']|]; auto. Qed.

Lemma wp_mod (f : S -> S) (Q : unit -> S -> Prop) s : Q tt (f s) -> wp (modify f) Q s.
Proof. done. Qed.

Lemma wp_gets {A} (f : S -> A) (Q : A -> S -> Prop) s : Q (f s) s -> wp (gets f) Q s.
Proof. done. Qed.

Lemma wp_run {A} (m : M S A) (Q : A -> S -> Prop) s a s' :
  m s = Ok (a, s') -> Q a s' -> wp m Q s.
Proof. intros Hm HQ. unfold wp. by rewrite Hm. Qed.

Lemma wp_inv {A} (m : M S A) (Q : A -> S -> Prop) s :
  wp m Q s -> exists a s', m s = Ok (a, s') /\ Q a s'.
Proof. unfold wp. destruct (m s) as [[a s']|]; naive_solver. Qed.

(** A loop over a list keeps an invariant indexed by the elements done. *)
Lemma wp_for_each_gen {A B} (I : list B -> A -> S -> Prop) (Q : A -> S -> Prop)
    (body : A -> B -> M S (ctl A)) l0 l pre a s :
  l0 = pre ++ l ->
  I pre a s ->
  (forall pre x post a s, l0 = pre ++ x :: post -> I pre a s ->
     wp (body a x) (fun c s' =>
       match c with
       | Continue a' => I (pre ++ [x]) a' s'
       | Break a' => Q a' s'
       end) s) ->
  (forall a s, I l0 a s -> Q a s) ->
  wp (for_each l a body) Q s.
Proof.
  intros Hl0 HI Hbody Hend. revert pre a s Hl0 HI.
  induction l as [|x l IH]; intros pre a s Hl0 HI; simpl.
  - apply wp_ret, Hend. rewrite app_nil_r in Hl0. by subst.
  - apply wp_bind. eapply wp_mono; [by eapply Hbody|].
    intros [a'|a'] s'; [|done]. intros HI'.
    apply (IH (pre ++ [x])); [|done]. by rewrite <-app_assoc.
Qed.

Lemma wp_for_each {A B} (I : list B -> A -> S -> Prop) (Q : A -> S -> Prop)
    (body : A -> B -> M S (ctl A)) l a s :
  I [] a s ->
  (forall pre x post a s, l = pre ++ x :: post -> I pre a s ->
     wp (body a x) (fun c s' =>
       match c with
       | Continue a' => I (pre ++ [x]) a' s'
       | Break a' => Q a' s'
       end) s) ->
  (forall a s, I l a s -> Q a s) ->
  wp (for_each l a body) Q s.
Proof. intros. by apply (wp_for_each_gen I Q body l l []). Qed.
End wp_rules.

(** ** Lists and finite maps *)

Lemma filter_bool_cons {A} (f : A -> bool) (a : A) (l : list A) :
  filter (fun x => f x = true) (a :: l) =
  if f a then a :: filter (fun x => f x = true) l else filter (fun x => f x = true) l.
Proof. rewrite filter_cons. case_decide as E; destruct (f a); done. Qed.
