(* ===== verification/AdTypes.v ===== *)
(** * 802.3ad: the data of the bonding driver's LACP module

    The constants and structures that [servers/bond_3ad.c] works on.  What the
    file takes from kernel headers that are not part of the repository
    (net/bonding.h, net/bond_3ad.h, linux/if_bonding.h, linux/ethtool.h,
    linux/netdevice.h, linux/etherdevice.h) is a field of the class [Kernel];
    what the code relies on about them is stated in [KernelLaws]. *)

From S2P Require Import Prelude.

(** ** Constants of bond_3ad.c *)

Definition AD_SHORT_TIMEOUT : Z := 1.
Definition AD_LONG_TIMEOUT : Z := 0.
Definition AD_MAX_TX_IN_SECOND : Z := 3.
Definition AD_COLLECTOR_MAX_DELAY : Z := 0.

Definition AD_FAST_PERIODIC_TIME : Z := 1.
Definition AD_SLOW_PERIODIC_TIME : Z := 30.
Definition AD_SHORT_TIMEOUT_TIME : Z := 3 * AD_FAST_PERIODIC_TIME.
Definition AD_LONG_TIMEOUT_TIME : Z := 3 * AD_SLOW_PERIODIC_TIME.
Definition AD_CHURN_DETECTION_TIME : Z := 60.
Definition AD_AGGREGATE_WAIT_TIME : Z := 2.
Definition AD_AGGREGATOR_SELECTION_TIMER : Z := 8.

Definition AD_PORT_BEGIN : Z := 0x1.
Definition AD_PORT_LACP_ENABLED : Z := 0x2.
Definition AD_PORT_ACTOR_CHURN : Z := 0x4.
Definition AD_PORT_PARTNER_CHURN : Z := 0x8.
Definition AD_PORT_READY : Z := 0x10.
Definition AD_PORT_READY_N : Z := 0x20.
Definition AD_PORT_MATCHED : Z := 0x40.
Definition AD_PORT_STANDBY : Z := 0x80.
Definition AD_PORT_SELECTED : Z := 0x100.
Definition AD_PORT_MOVED : Z := 0x200.
Definition AD_PORT_CHURNED : Z := Z.lor AD_PORT_ACTOR_CHURN AD_PORT_PARTNER_CHURN.

Definition AD_DUPLEX_KEY_MASKS : Z := 0x1.
Definition AD_SPEED_KEY_MASKS : Z := 0x3E.
Definition AD_USER_KEY_MASKS : Z := 0xFFC0.

(** [enum ad_link_speed_type] *)
Definition AD_LINK_SPEED_1MBPS : Z := 1.
Definition AD_LINK_SPEED_10MBPS : Z := 2.
Definition AD_LINK_SPEED_100MBPS : Z := 3.
Definition AD_LINK_SPEED_1000MBPS : Z := 4.
Definition AD_LINK_SPEED_2500MBPS : Z := 5.
Definition AD_LINK_SPEED_5000MBPS : Z := 6.
Definition AD_LINK_SPEED_10000MBPS : Z := 7.
Definition AD_LINK_SPEED_14000MBPS : Z := 8.
Definition AD_LINK_SPEED_20000MBPS : Z := 9.
Definition AD_LINK_SPEED_25000MBPS : Z := 10.
Definition AD_LINK_SPEED_40000MBPS : Z := 11.
Definition AD_LINK_SPEED_50000MBPS : Z := 12.
Definition AD_LINK_SPEED_56000MBPS : Z := 13.
Definition AD_LINK_SPEED_80000MBPS : Z := 14.
Definition AD_LINK_SPEED_100000MBPS : Z := 15.
Definition AD_LINK_SPEED_200000MBPS : Z := 16.
Definition AD_LINK_SPEED_400000MBPS : Z := 17.
Definition AD_LINK_SPEED_800000MBPS : Z := 18.
Definition AD_LINK_SPEED_1600000MBPS : Z := 19.

(** ** States of the machines

    The enumerators the code names.  [*_OTHER] stands for every other value of
    the enumeration: no [case] label names it, so it takes the [default]. *)

Inductive rx_states_t :=
  | AD_RX_OTHER | AD_RX_INITIALIZE | AD_RX_PORT_DISABLED | AD_RX_LACP_DISABLED
  | AD_RX_EXPIRED | AD_RX_DEFAULTED | AD_RX_CURRENT.
Inductive periodic_states_t :=
  | AD_PERIODIC_OTHER | AD_NO_PERIODIC | AD_FAST_PERIODIC | AD_SLOW_PERIODIC
  | AD_PERIODIC_TX.
Inductive mux_states_t :=
  | AD_MUX_OTHER | AD_MUX_DETACHED | AD_MUX_WAITING | AD_MUX_ATTACHED
  | AD_MUX_COLLECTING_DISTRIBUTING | AD_MUX_COLLECTING | AD_MUX_DISTRIBUTING.
Inductive churn_state_t :=
  | AD_CHURN_OTHER | AD_CHURN_MONITOR | AD_CHURN | AD_NO_CHURN.
Inductive ad_timers_t :=
  | AD_CURRENT_WHILE_TIMER | AD_ACTOR_CHURN_TIMER | AD_PERIODIC_TIMER
  | AD_PARTNER_CHURN_TIMER | AD_WAIT_WHILE_TIMER.

#[export] Instance rx_states_eq_dec : EqDecision rx_states_t.
Proof. solve_decision. Defined.
#[export] Instance periodic_states_eq_dec : EqDecision periodic_states_t.
Proof. solve_decision. Defined.
#[export] Instance mux_states_eq_dec : EqDecision mux_states_t.
Proof. solve_decision. Defined.
#[export] Instance churn_state_eq_dec : EqDecision churn_state_t.
Proof. solve_decision. Defined.

(** ** Addresses, PDUs *)

(** A pointer to a [struct slave]; since a port and an aggregator are embedded
    in the slave's AD info, the same number names them. *)
Abbreviation ptr := nat.

Abbreviation mac_addr := (list Z).

Record port_params := PortParams {
  pp_system : mac_addr;
  pp_system_priority : Z;
  pp_key : Z;
  pp_port_number : Z;
  pp_port_priority : Z;
  pp_port_state : Z }.
#[export] Instance eta_port_params : Eta port_params := fun r =>
  PortParams (pp_system r) (pp_system_priority r) (pp_key r) (pp_port_number r)
    (pp_port_priority r) (pp_port_state r).

(** [struct lacpdu]; the 16-bit fields are in network byte order, the reserved
    and terminator bytes are always zero and left out. *)
Record lacpdu := Lacpdu {
  l_subtype : Z;
  l_version_number : Z;
  l_tlv_type_actor_info : Z;
  l_actor_information_length : Z;
  l_actor_system_priority : Z;
  l_actor_system : mac_addr;
  l_actor_key : Z;
  l_actor_port_priority : Z;
  l_actor_port : Z;
  l_actor_state : Z;
  l_tlv_type_partner_info : Z;
  l_partner_information_length : Z;
  l_partner_system_priority : Z;
  l_partner_system : mac_addr;
  l_partner_key : Z;
  l_partner_port_priority : Z;
  l_partner_port : Z;
  l_partner_state : Z;
  l_tlv_type_collector_info : Z;
  l_collector_information_length : Z;
  l_collector_max_delay : Z }.
#[export] Instance eta_lacpdu : Eta lacpdu := fun r =>
  Lacpdu (l_subtype r) (l_version_number r) (l_tlv_type_actor_info r)
    (l_actor_information_length r) (l_actor_system_priority r) (l_actor_system r)
    (l_actor_key r) (l_actor_port_priority r) (l_actor_port r) (l_actor_state r)
    (l_tlv_type_partner_info r) (l_partner_information_length r)
    (l_partner_system_priority r) (l_partner_system r) (l_partner_key r)
    (l_partner_port_priority r) (l_partner_port r) (l_partner_state r)
    (l_tlv_type_collector_info r) (l_collector_information_length r)
    (l_collector_max_delay r).

(** [struct bond_marker]: the code touches only the two type bytes. *)
Record bond_marker := BondMarker {
  mk_subtype : Z;
  mk_tlv_type : Z;
  mk_rest : list Z }.
#[export] Instance eta_bond_marker : Eta bond_marker := fun r =>
  BondMarker (mk_subtype r) (mk_tlv_type r) (mk_rest r).

(** ** Ports and aggregators *)

Record port := Port {
  actor_port_number : Z;
  actor_port_priority : Z;
  actor_system : mac_addr;
  actor_system_priority : Z;
  actor_port_aggregator_identifier : Z;
  ntt : bool;
  actor_admin_port_key : Z;
  actor_oper_port_key : Z;
  actor_admin_port_state : Z;
  actor_oper_port_state : Z;
  partner_admin : port_params;
  partner_oper : port_params;
  is_enabled : bool;
  sm_vars : Z;
  sm_rx_state : rx_states_t;
  sm_rx_timer_counter : Z;
  sm_periodic_state : periodic_states_t;
  sm_periodic_timer_counter : Z;
  sm_mux_state : mux_states_t;
  sm_mux_timer_counter : Z;
  sm_tx_state : Z;
  sm_tx_timer_counter : Z;
  port_slave : option ptr;
  port_aggregator : option ptr;
  next_port_in_aggregator : option ptr;
  transaction_id : Z;
  sm_churn_actor_timer_counter : Z;
  sm_churn_partner_timer_counter : Z;
  churn_actor_count : Z;
  churn_partner_count : Z;
  sm_churn_actor_state : churn_state_t;
  sm_churn_partner_state : churn_state_t;
  port_lacpdu : lacpdu }.
#[export] Instance eta_port : Eta port := fun r =>
  Port (actor_port_number r) (actor_port_priority r) (actor_system r)
    (actor_system_priority r) (actor_port_aggregator_identifier r) (ntt r)
    (actor_admin_port_key r) (actor_oper_port_key r) (actor_admin_port_state r)
    (actor_oper_port_state r) (partner_admin r) (partner_oper r) (is_enabled r)
    (sm_vars r) (sm_rx_state r) (sm_rx_timer_counter r) (sm_periodic_state r)
    (sm_periodic_timer_counter r) (sm_mux_state r) (sm_mux_timer_counter r)
    (sm_tx_state r) (sm_tx_timer_counter r) (port_slave r) (port_aggregator r)
    (next_port_in_aggregator r) (transaction_id r) (sm_churn_actor_timer_counter r)
    (sm_churn_partner_timer_counter r) (churn_actor_count r) (churn_partner_count r)
    (sm_churn_actor_state r) (sm_churn_partner_state r) (port_lacpdu r).

Record aggregator := Aggregator {
  aggregator_mac_address : mac_addr;
  aggregator_identifier : Z;
  is_individual : bool;
  actor_admin_aggregator_key : Z;
  actor_oper_aggregator_key : Z;
  partner_system : mac_addr;
  partner_system_priority : Z;
  partner_oper_aggregator_key : Z;
  receive_state : Z;
  transmit_state : Z;
  lag_ports : option ptr;
  agg_slave : option ptr;
  is_active : bool;
  num_of_ports : Z }.
#[export] Instance eta_aggregator : Eta aggregator := fun r =>
  Aggregator (aggregator_mac_address r) (aggregator_identifier r) (is_individual r)
    (actor_admin_aggregator_key r) (actor_oper_aggregator_key r) (partner_system r)
    (partner_system_priority r) (partner_oper_aggregator_key r) (receive_state r)
    (transmit_state r) (lag_ports r) (agg_slave r) (is_active r) (num_of_ports r).

(** [struct bond_3ad_stats]: 64-bit atomic counters. *)
Record bond_3ad_stats := Stats {
  lacpdu_rx : Z; lacpdu_tx : Z; lacpdu_unknown_rx : Z; lacpdu_illegal_rx : Z;
  marker_rx : Z; marker_tx : Z; marker_resp_rx : Z; marker_resp_tx : Z;
  marker_unknown_rx : Z }.
#[export] Instance eta_stats : Eta bond_3ad_stats := fun r =>
  Stats (lacpdu_rx r) (lacpdu_tx r) (lacpdu_unknown_rx r) (lacpdu_illegal_rx r)
    (marker_rx r) (marker_tx r) (marker_resp_rx r) (marker_resp_tx r)
    (marker_unknown_rx r).
Definition zero_stats : bond_3ad_stats := Stats 0 0 0 0 0 0 0 0 0.
(** [atomic64_inc] *)
Definition atomic64_inc (v : Z) : Z := u64 (v + 1).

(** The bonding parameters the LACP module reads. *)
Record bond_params := BondParams {
  ad_select : Z;
  min_links : Z;
  lacp_fast : bool;
  lacp_active : bool;
  coupled_control : bool;
  broadcast_neighbor : bool;
  ad_actor_sys_prio : Z;
  ad_actor_system : mac_addr;
  ad_user_port_key : Z }.
#[export] Instance eta_bond_params : Eta bond_params := fun r =>
  BondParams (ad_select r) (min_links r) (lacp_fast r) (lacp_active r)
    (coupled_control r) (broadcast_neighbor r) (ad_actor_sys_prio r)
    (ad_actor_system r) (ad_user_port_key r).

(** ** The kernel interface

    One field per constant, type or function of a header the repository does
    not contain.  [net_device] is what the device layer keeps about a device,
    [slave_flags] the activity bits of a slave that only the inline functions
    of net/bonding.h read and write. *)

Class Kernel := {
  (* net/bond_3ad.h *)
  AD_TIMER_INTERVAL : Z;
  rx_state_0 : rx_states_t;
  periodic_state_0 : periodic_states_t;
  mux_state_0 : mux_states_t;
  churn_state_0 : churn_state_t;
  AD_TYPE_LACPDU : Z;
  AD_TYPE_MARKER : Z;
  AD_MARKER_INFORMATION_SUBTYPE : Z;
  AD_MARKER_RESPONSE_SUBTYPE : Z;
  PKT_TYPE_LACPDU : Z;
  (* the cast of a received PDU to a marker *)
  marker_of_lacpdu : lacpdu -> bond_marker;
  (* linux/if_bonding.h *)
  LACP_STATE_LACP_ACTIVITY : Z;
  LACP_STATE_LACP_TIMEOUT : Z;
  LACP_STATE_AGGREGATION : Z;
  LACP_STATE_SYNCHRONIZATION : Z;
  LACP_STATE_COLLECTING : Z;
  LACP_STATE_DISTRIBUTING : Z;
  LACP_STATE_DEFAULTED : Z;
  LACP_STATE_EXPIRED : Z;
  BOND_LINK_UP : Z;
  BOND_AD_STABLE : Z;
  BOND_AD_BANDWIDTH : Z;
  BOND_AD_COUNT : Z;
  BOND_AD_PRIO : Z;
  (* linux/ethtool.h *)
  SPEED_10 : Z; SPEED_100 : Z; SPEED_1000 : Z; SPEED_2500 : Z; SPEED_5000 : Z;
  SPEED_10000 : Z; SPEED_14000 : Z; SPEED_20000 : Z; SPEED_25000 : Z;
  SPEED_40000 : Z; SPEED_50000 : Z; SPEED_56000 : Z; SPEED_80000 : Z;
  SPEED_100000 : Z; SPEED_200000 : Z; SPEED_400000 : Z; SPEED_800000 : Z;
  SPEED_1600000 : Z;
  DUPLEX_FULL : Z;
  (* byte order and Ethernet addresses *)
  htons : Z -> Z;
  ntohs : Z -> Z;
  ether_addr_equal_64bits : mac_addr -> mac_addr -> bool;
  is_zero_ether_addr : mac_addr -> bool;
  zero_ether_addr : mac_addr;
  (* linux/netdevice.h *)
  net_device : Type;
  netif_running : net_device -> bool;
  netif_carrier_ok : net_device -> bool;
  netif_carrier_on : net_device -> net_device;
  netif_carrier_off : net_device -> net_device;
  (* whether the n-th call of dev_alloc_skb finds memory *)
  dev_alloc_skb_ok : nat -> bool;
  (* net/bonding.h *)
  BOND_SLAVE_NOTIFY_LATER : bool;
  BOND_SLAVE_NOTIFY_NOW : bool;
  slave_flags : Type;
  slave_should_notify : slave_flags -> bool;
  bond_is_active_slave : slave_flags -> bool;
  bond_is_slave_rx_disabled : slave_flags -> bool;
  bond_slave_is_up : net_device -> bool;
  bond_set_slave_active_flags : bool -> slave_flags -> slave_flags;
  bond_set_slave_inactive_flags : bool -> slave_flags -> slave_flags;
  bond_set_slave_tx_disabled_flags : bool -> slave_flags -> slave_flags;
  bond_set_slave_rx_enabled_flags : bool -> slave_flags -> slave_flags
}.

Section kernel_data.
Context `{K : Kernel}.

Definition lacp_state_bits : list Z :=
  [LACP_STATE_LACP_ACTIVITY; LACP_STATE_LACP_TIMEOUT; LACP_STATE_AGGREGATION;
   LACP_STATE_SYNCHRONIZATION; LACP_STATE_COLLECTING; LACP_STATE_DISTRIBUTING;
   LACP_STATE_DEFAULTED; LACP_STATE_EXPIRED].

(** What the code relies on: the eight LACP state flags are different bits,
    the value 0 is none of the named mux states,
    the tick is a fraction of a second that divides into thirds, addresses
    are compared as values, byte swapping is undone by its inverse, and the
    bonding.h setters do to the activity bits what their names say. *)
Class KernelLaws : Prop := {
  mux_state_0_unnamed : mux_state_0 = AD_MUX_OTHER;
  ad_types_distinct : AD_TYPE_LACPDU <> AD_TYPE_MARKER;
  marker_types_distinct : AD_MARKER_INFORMATION_SUBTYPE <> AD_MARKER_RESPONSE_SUBTYPE;
  ad_timer_interval_range : 2 <= AD_TIMER_INTERVAL <= 333;
  lacp_bits_nonzero : forall i b, lacp_state_bits !! i = Some b -> b <> 0;
  lacp_bits_disjoint : forall i j a b,
    lacp_state_bits !! i = Some a -> lacp_state_bits !! j = Some b ->
    i <> j -> Z.land a b = 0;
  ntohs_htons : forall x, 0 <= x < 65536 -> ntohs (htons x) = x;
  ether_addr_equal_spec : forall a b, ether_addr_equal_64bits a b = true <-> a = b;
  is_zero_ether_addr_spec : forall a,
    is_zero_ether_addr a = true <-> a = zero_ether_addr;
  netif_carrier_on_ok : forall d, netif_carrier_ok (netif_carrier_on d) = true;
  netif_carrier_off_ok : forall d, netif_carrier_ok (netif_carrier_off d) = false;
  active_flags_active : forall n f,
    bond_is_active_slave (bond_set_slave_active_flags n f) = true;
  inactive_flags_inactive : forall n f,
    bond_is_active_slave (bond_set_slave_inactive_flags n f) = false;
  tx_disabled_inactive : forall n f,
    bond_is_active_slave (bond_set_slave_tx_disabled_flags n f) = false;
  rx_enabled_rx : forall n f,
    bond_is_slave_rx_disabled (bond_set_slave_rx_enabled_flags n f) = false
}.

(** [ad_ticks_per_sec] *)
Definition ad_ticks_per_sec : Z := u16 (Z.quot 1000 AD_TIMER_INTERVAL).

Definition lacpdu_mcast_addr : mac_addr := [0x01; 0x80; 0xC2; 0x00; 0x00; 0x02].

(** [struct slave] with its [SLAVE_AD_INFO]. *)
Record slave := Slave {
  sl_link : Z;
  sl_speed : Z;
  sl_duplex : Z;
  sl_dev : net_device;
  sl_perm_hwaddr : mac_addr;
  sl_flags : slave_flags;
  ad_id : Z;
  ad_port_priority : Z;
  ad_stats : bond_3ad_stats;
  ad_port : port;
  ad_agg : aggregator }.
#[export] Instance eta_slave : Eta slave := fun r =>
  Slave (sl_link r) (sl_speed r) (sl_duplex r) (sl_dev r) (sl_perm_hwaddr r)
    (sl_flags r) (ad_id r) (ad_port_priority r) (ad_stats r) (ad_port r) (ad_agg r).

(** Frames handed to [dev_queue_xmit], and the deferred work the module asks
    for. *)
Inductive event :=
  | XmitLacpdu (src : ptr) (h_dest h_source : mac_addr) (pdu : lacpdu)
  | XmitMarker (src : ptr) (h_dest h_source : mac_addr) (marker : bond_marker)
  | PeerNotifyRearm
  | SlaveArrRearm
  | SlaveStateNotify
  | UpdateSlaveArr
  | QueueAdWork.

(** [struct bonding]: the slaves in the order [bond_for_each_slave] visits
    them, the objects by pointer, and the trace of outputs, newest first. *)
Record bonding := Bonding {
  params : bond_params;
  bond_dev : net_device;
  bond_dev_addr : mac_addr;
  sys_mac_addr : mac_addr;
  sys_priority : Z;
  agg_select_timer : Z;
  bond_aggregator_identifier : Z;
  bond_stats : bond_3ad_stats;
  slave_list : list ptr;
  slaves : gmap ptr slave;
  alloc_count : nat;
  trace : list event }.
#[export] Instance eta_bonding : Eta bonding := fun r =>
  Bonding (params r) (bond_dev r) (bond_dev_addr r) (sys_mac_addr r)
    (sys_priority r) (agg_select_timer r) (bond_aggregator_identifier r)
    (bond_stats r) (slave_list r) (slaves r) (alloc_count r) (trace r).
End kernel_data.

Arguments KernelLaws : clear implicits.
Arguments KernelLaws K : assert.

(** Side conditions on LACP flags: different positions of [lacp_state_bits]. *)
Ltac lacp_index b :=
  lazymatch b with
  | LACP_STATE_LACP_ACTIVITY => constr:(0%nat)
  | LACP_STATE_LACP_TIMEOUT => constr:(1%nat)
  | LACP_STATE_AGGREGATION => constr:(2%nat)
  | LACP_STATE_SYNCHRONIZATION => constr:(3%nat)
  | LACP_STATE_COLLECTING => constr:(4%nat)
  | LACP_STATE_DISTRIBUTING => constr:(5%nat)
  | LACP_STATE_DEFAULTED => constr:(6%nat)
  | LACP_STATE_EXPIRED => constr:(7%nat)
  end.
Ltac flag_side :=
  lazymatch goal with
  | |- Z.land ?a ?b = 0 =>
      first [ reflexivity
            | let i := lacp_index a in let j := lacp_index b in
              apply (lacp_bits_disjoint i j); [reflexivity|reflexivity|lia] ]
  | |- ?b <> 0 =>
      first [ discriminate
            | let i := lacp_index b in apply (lacp_bits_nonzero i); reflexivity ]
  end.

(** [flags] evaluates tests of flag words after sets and clears. *)
Ltac flags_step :=
  first [ rewrite has_disjoint by flag_side
        | rewrite has_clrf_same
        | rewrite has_setf_same by flag_side
        | rewrite has_clrf_other by flag_side
        | rewrite has_setf_other by flag_side ].
Ltac flags := repeat flags_step.

(** ** A concrete kernel

    The values of the Linux headers, for evaluating the model. *)

Record linux_dev := LinuxDev { ld_running : bool; ld_carrier : bool }.
Record linux_flags := LinuxFlags {
  lf_backup : bool; lf_inactive : bool; lf_should_notify : bool }.

Definition swap16 (x : Z) : Z :=
  Z.lor (Z.shiftl (Z.land x 0xFF) 8) (Z.land (Z.shiftr x 8) 0xFF).

Definition LinuxKernel : Kernel := {|
  AD_TIMER_INTERVAL := 100;
  rx_state_0 := AD_RX_OTHER;
  periodic_state_0 := AD_PERIODIC_OTHER;
  mux_state_0 := AD_MUX_OTHER;
  churn_state_0 := AD_CHURN_MONITOR;
  AD_TYPE_LACPDU := 1;
  AD_TYPE_MARKER := 2;
  AD_MARKER_INFORMATION_SUBTYPE := 1;
  AD_MARKER_RESPONSE_SUBTYPE := 2;
  PKT_TYPE_LACPDU := 0x0988;
  marker_of_lacpdu l := BondMarker (l_subtype l) (l_tlv_type_actor_info l) [];
  LACP_STATE_LACP_ACTIVITY := 0x1;
  LACP_STATE_LACP_TIMEOUT := 0x2;
  LACP_STATE_AGGREGATION := 0x4;
  LACP_STATE_SYNCHRONIZATION := 0x8;
  LACP_STATE_COLLECTING := 0x10;
  LACP_STATE_DISTRIBUTING := 0x20;
  LACP_STATE_DEFAULTED := 0x40;
  LACP_STATE_EXPIRED := 0x80;
  BOND_LINK_UP := 0;
  BOND_AD_STABLE := 0;
  BOND_AD_BANDWIDTH := 1;
  BOND_AD_COUNT := 2;
  BOND_AD_PRIO := 3;
  SPEED_10 := 10; SPEED_100 := 100; SPEED_1000 := 1000; SPEED_2500 := 2500;
  SPEED_5000 := 5000; SPEED_10000 := 10000; SPEED_14000 := 14000;
  SPEED_20000 := 20000; SPEED_25000 := 25000; SPEED_40000 := 40000;
  SPEED_50000 := 50000; SPEED_56000 := 56000; SPEED_80000 := 80000;
  SPEED_100000 := 100000; SPEED_200000 := 200000; SPEED_400000 := 400000;
  SPEED_800000 := 800000; SPEED_1600000 := 1600000;
  DUPLEX_FULL := 1;
  htons := swap16;
  ntohs := swap16;
  ether_addr_equal_64bits a b := bool_decide (a = b);
  is_zero_ether_addr a := bool_decide (a = replicate 6 0);
  zero_ether_addr := replicate 6 0;
  net_device := linux_dev;
  netif_running := ld_running;
  netif_carrier_ok := ld_carrier;
  netif_carrier_on d := LinuxDev (ld_running d) true;
  netif_carrier_off d := LinuxDev (ld_running d) false;
  dev_alloc_skb_ok _ := true;
  BOND_SLAVE_NOTIFY_LATER := false;
  BOND_SLAVE_NOTIFY_NOW := true;
  slave_flags := linux_flags;
  slave_should_notify := lf_should_notify;
  bond_is_active_slave f := negb (lf_backup f);
  bond_is_slave_rx_disabled := lf_inactive;
  bond_slave_is_up d := ld_running d && ld_carrier d;
  bond_set_slave_active_flags n f := LinuxFlags false false (negb n || lf_should_notify f);
  bond_set_slave_inactive_flags n f := LinuxFlags true true (negb n || lf_should_notify f);
  bond_set_slave_tx_disabled_flags n f :=
    LinuxFlags true (lf_inactive f) (negb n || lf_should_notify f);
  bond_set_slave_rx_enabled_flags n f :=
    LinuxFlags (lf_backup f) false (lf_should_notify f)
|}.

Lemma swap16_involutive x : 0 <= x < 65536 -> swap16 (swap16 x) = x.
Proof.
  intros Hx. unfold swap16. apply Z.bits_inj'. intros i Hi.
  change 0xFF with (Z.ones 8).
  assert (forall y j, 0 <= y < 65536 -> 16 <= j -> Z.testbit y j = false) as Hhigh.
  { intros y j Hy Hj. rewrite <-(Z.mod_small y (2 ^ 16)) by lia.
    apply Z.mod_pow2_bits_high. lia. }
  assert (i < 8 \/ 8 <= i < 16 \/ 16 <= i) as [Hc|[Hc|Hc]] by lia.
  all: repeat first
    [ rewrite Z.lor_spec | rewrite Z.land_spec | rewrite Z.shiftr_spec by lia
    | rewrite Z.shiftl_spec by lia | rewrite Z.ones_spec_low by lia
    | rewrite Z.ones_spec_high by lia | rewrite (Z.testbit_neg_r _ (i - 8)) by lia
    | rewrite (Z.testbit_neg_r _ (i - 8 - 8)) by lia
    | rewrite (Z.testbit_neg_r _ (i + 8 - 8 - 8)) by lia ]; simpl.
  - replace (i + 8 - 8) with i by lia.
    by rewrite ?andb_true_r, ?andb_false_r, ?orb_false_r.
  - replace (i - 8 + 8) with i by lia.
    by rewrite ?andb_true_r, ?andb_false_r, ?orb_false_r.
  - rewrite (Hhigh x i) by lia.
    rewrite (Z.ones_spec_high 8 (i - 8)), (Z.ones_spec_high 8 i) by lia.
    by rewrite !andb_false_r.
Qed.

Lemma LinuxKernelLaws : KernelLaws LinuxKernel.
Proof.
  split; try done.
  - intros [|[|[|[|[|[|[|[|]]]]]]]] b; simpl; intros; simplify_eq; done.
  - intros [|[|[|[|[|[|[|[|]]]]]]]] [|[|[|[|[|[|[|[|]]]]]]]] a b;
      simpl; intros; simplify_eq; done.
  - apply swap16_involutive.
  - intros. apply bool_decide_eq_true.
  - intros. apply bool_decide_eq_true.
Qed.
