(* ===== verification/AdPort.v ===== *)
(** * 802.3ad: the machines that work on one port

    The receive, periodic and churn machines of [servers/bond_3ad.c], the
    functions they are built from and the key computation.  They read and write
    the fields of a single port, so they are functions on [port]; a
    dereference of a null LACPDU pointer is the error [NullDeref]. *)

From S2P Require Import Prelude.
From S2P Require Import AdTypes.

Section ad_port.
Context `{K : Kernel}.

(** ** Conversions *)

Definition __ad_timer_to_ticks (timer_type : ad_timers_t) (par : Z) : Z :=
  match timer_type with
  | AD_CURRENT_WHILE_TIMER =>
      if negb (par =? 0) then u16 (AD_SHORT_TIMEOUT_TIME * ad_ticks_per_sec)
      else u16 (AD_LONG_TIMEOUT_TIME * ad_ticks_per_sec)
  | AD_ACTOR_CHURN_TIMER => u16 (AD_CHURN_DETECTION_TIME * ad_ticks_per_sec)
  | AD_PERIODIC_TIMER => u16 (par * ad_ticks_per_sec)
  | AD_PARTNER_CHURN_TIMER => u16 (AD_CHURN_DETECTION_TIME * ad_ticks_per_sec)
  | AD_WAIT_WHILE_TIMER => u16 (AD_AGGREGATE_WAIT_TIME * ad_ticks_per_sec)
  end.

(** The idiom [counter && !(--counter)]: the counter after the test, and
    whether it just expired. *)
Definition tick_down (c : Z) : Z * bool :=
  if c =? 0 then (c, false) else (u16 (c - 1), u16 (c - 1) =? 0).

(** [MAC_ADDRESS_EQUAL] *)
Definition MAC_ADDRESS_EQUAL (a b : mac_addr) : bool := ether_addr_equal_64bits a b.

(** ** Receive machine helpers *)

Definition __choose_matched (l : lacpdu) (p : port) : port :=
  if ((ntohs (l_partner_port l) =? actor_port_number p) &&
      (ntohs (l_partner_port_priority l) =? actor_port_priority p) &&
      MAC_ADDRESS_EQUAL (l_partner_system l) (actor_system p) &&
      (ntohs (l_partner_system_priority l) =? actor_system_priority p) &&
      (ntohs (l_partner_key l) =? actor_oper_port_key p) &&
      (Z.land (l_partner_state l) LACP_STATE_AGGREGATION =?
       Z.land (actor_oper_port_state p) LACP_STATE_AGGREGATION))
     || (Z.land (l_actor_state l) LACP_STATE_AGGREGATION =? 0)
  then p <| sm_vars ::= fun v => setf v AD_PORT_MATCHED |>
  else p <| sm_vars ::= fun v => clrf v AD_PORT_MATCHED |>.

Definition __record_pdu (l : lacpdu) (p : port) : port :=
  let p := __choose_matched l p in
  let p := p <| partner_oper ::= fun pp =>
                  pp <| pp_port_number := ntohs (l_actor_port l) |>
                     <| pp_port_priority := ntohs (l_actor_port_priority l) |>
                     <| pp_system := l_actor_system l |>
                     <| pp_system_priority := ntohs (l_actor_system_priority l) |>
                     <| pp_key := ntohs (l_actor_key l) |>
                     <| pp_port_state := l_actor_state l |> |> in
  let p := p <| actor_oper_port_state ::= fun s => clrf s LACP_STATE_DEFAULTED |> in
  if has (sm_vars p) AD_PORT_MATCHED && has (l_actor_state l) LACP_STATE_SYNCHRONIZATION
  then p <| partner_oper ::= fun pp =>
              pp <| pp_port_state ::= fun s => setf s LACP_STATE_SYNCHRONIZATION |> |>
  else p <| partner_oper ::= fun pp =>
              pp <| pp_port_state ::= fun s => clrf s LACP_STATE_SYNCHRONIZATION |> |>.

Definition __record_default (p : port) : port :=
  p <| partner_oper := partner_admin p |>
    <| actor_oper_port_state ::= fun s => setf s LACP_STATE_DEFAULTED |>.

Definition __update_selected (l : lacpdu) (p : port) : port :=
  let partner := partner_oper p in
  if negb (ntohs (l_actor_port l) =? pp_port_number partner) ||
     negb (ntohs (l_actor_port_priority l) =? pp_port_priority partner) ||
     negb (MAC_ADDRESS_EQUAL (l_actor_system l) (pp_system partner)) ||
     negb (ntohs (l_actor_system_priority l) =? pp_system_priority partner) ||
     negb (ntohs (l_actor_key l) =? pp_key partner) ||
     negb (Z.land (l_actor_state l) LACP_STATE_AGGREGATION =?
           Z.land (pp_port_state partner) LACP_STATE_AGGREGATION)
  then p <| sm_vars ::= fun v => clrf v AD_PORT_SELECTED |>
  else p.

Definition __update_default_selected (p : port) : port :=
  let admin := partner_admin p in
  let oper := partner_oper p in
  if negb (pp_port_number admin =? pp_port_number oper) ||
     negb (pp_port_priority admin =? pp_port_priority oper) ||
     negb (MAC_ADDRESS_EQUAL (pp_system admin) (pp_system oper)) ||
     negb (pp_system_priority admin =? pp_system_priority oper) ||
     negb (pp_key admin =? pp_key oper) ||
     negb (Z.land (pp_port_state admin) LACP_STATE_AGGREGATION =?
           Z.land (pp_port_state oper) LACP_STATE_AGGREGATION)
  then p <| sm_vars ::= fun v => clrf v AD_PORT_SELECTED |>
  else p.

Definition __update_ntt (l : lacpdu) (p : port) : port :=
  let differs b :=
    negb (Z.land (l_partner_state l) b =? Z.land (actor_oper_port_state p) b) in
  if negb (ntohs (l_partner_port l) =? actor_port_number p) ||
     negb (ntohs (l_partner_port_priority l) =? actor_port_priority p) ||
     negb (MAC_ADDRESS_EQUAL (l_partner_system l) (actor_system p)) ||
     negb (ntohs (l_partner_system_priority l) =? actor_system_priority p) ||
     negb (ntohs (l_partner_key l) =? actor_oper_port_key p) ||
     differs LACP_STATE_LACP_ACTIVITY ||
     differs LACP_STATE_LACP_TIMEOUT ||
     differs LACP_STATE_SYNCHRONIZATION ||
     differs LACP_STATE_AGGREGATION
  then p <| ntt := true |>
  else p.

(** ** Receive machine *)

(** The choice of the next state (first half of [ad_rx_machine]). *)
Definition rx_next_state (l : option lacpdu) (p : port) : port :=
  if has (sm_vars p) AD_PORT_BEGIN then
    p <| sm_rx_state := AD_RX_INITIALIZE |>
      <| sm_vars ::= fun v => setf v AD_PORT_CHURNED |>
  else if negb (is_enabled p) then
    p <| sm_rx_state := AD_RX_PORT_DISABLED |>
  else if bool_decide (is_Some l) &&
          (bool_decide (sm_rx_state p = AD_RX_EXPIRED) ||
           bool_decide (sm_rx_state p = AD_RX_DEFAULTED) ||
           bool_decide (sm_rx_state p = AD_RX_CURRENT)) then
    let p := if bool_decide (sm_rx_state p = AD_RX_CURRENT) then p
             else p <| sm_vars ::= fun v => setf v AD_PORT_CHURNED |> in
    p <| sm_rx_timer_counter := 0 |> <| sm_rx_state := AD_RX_CURRENT |>
  else
    let '(c, expired) := tick_down (sm_rx_timer_counter p) in
    let p := p <| sm_rx_timer_counter := c |> in
    if expired then
      match sm_rx_state p with
      | AD_RX_EXPIRED => p <| sm_rx_state := AD_RX_DEFAULTED |>
      | AD_RX_CURRENT => p <| sm_rx_state := AD_RX_EXPIRED |>
      | _ => p
      end
    else
      match sm_rx_state p with
      | AD_RX_PORT_DISABLED =>
          if is_enabled p && has (sm_vars p) AD_PORT_LACP_ENABLED
          then p <| sm_rx_state := AD_RX_EXPIRED |>
          else if is_enabled p && negb (has (sm_vars p) AD_PORT_LACP_ENABLED)
          then p <| sm_rx_state := AD_RX_LACP_DISABLED |>
          else p
      | _ => p
      end.

(** The [AD_RX_PORT_DISABLED] action, also reached by fall through. *)
Definition rx_port_disabled_action (p : port) : port :=
  p <| sm_vars ::= fun v => clrf v AD_PORT_MATCHED |>.

(** The action of the state entered (second half of [ad_rx_machine]). *)
Definition rx_action (l : option lacpdu) (p : port) : res port :=
  match sm_rx_state p with
  | AD_RX_INITIALIZE =>
      let p := if negb (has (actor_oper_port_key p) AD_DUPLEX_KEY_MASKS)
               then p <| sm_vars ::= fun v => clrf v AD_PORT_LACP_ENABLED |>
               else p <| sm_vars ::= fun v => setf v AD_PORT_LACP_ENABLED |> in
      let p := p <| sm_vars ::= fun v => clrf v AD_PORT_SELECTED |> in
      let p := __record_default p in
      let p := p <| actor_oper_port_state ::= fun s => clrf s LACP_STATE_EXPIRED |> in
      let p := p <| sm_rx_state := AD_RX_PORT_DISABLED |> in
      Ok (rx_port_disabled_action p)
  | AD_RX_PORT_DISABLED => Ok (rx_port_disabled_action p)
  | AD_RX_LACP_DISABLED =>
      let p := p <| sm_vars ::= fun v => clrf v AD_PORT_SELECTED |> in
      let p := __record_default p in
      let p := p <| partner_oper ::= fun pp =>
                      pp <| pp_port_state ::= fun s => clrf s LACP_STATE_AGGREGATION |> |> in
      let p := p <| sm_vars ::= fun v => setf v AD_PORT_MATCHED |> in
      Ok (p <| actor_oper_port_state ::= fun s => clrf s LACP_STATE_EXPIRED |>)
  | AD_RX_EXPIRED =>
      let p := p <| sm_vars ::= fun v => clrf v AD_PORT_MATCHED |> in
      let p := p <| partner_oper ::= fun pp =>
                      pp <| pp_port_state ::= fun s => clrf s LACP_STATE_SYNCHRONIZATION |> |> in
      let p := p <| partner_oper ::= fun pp =>
                      pp <| pp_port_state ::= fun s => setf s LACP_STATE_LACP_TIMEOUT |> |> in
      let p := p <| sm_rx_timer_counter :=
                      __ad_timer_to_ticks AD_CURRENT_WHILE_TIMER (u16 AD_SHORT_TIMEOUT) |> in
      let p := p <| actor_oper_port_state ::= fun s => setf s LACP_STATE_EXPIRED |> in
      Ok (p <| sm_vars ::= fun v => setf v AD_PORT_CHURNED |>)
  | AD_RX_DEFAULTED =>
      let p := __update_default_selected p in
      let p := __record_default p in
      let p := p <| sm_vars ::= fun v => setf v AD_PORT_MATCHED |> in
      Ok (p <| actor_oper_port_state ::= fun s => clrf s LACP_STATE_EXPIRED |>)
  | AD_RX_CURRENT =>
      match l with
      | None => Err NullDeref
      | Some l =>
          if MAC_ADDRESS_EQUAL (l_actor_system l) (actor_system p) then Ok p
          else
            let p := __update_selected l p in
            let p := __update_ntt l p in
            let p := __record_pdu l p in
            let p := p <| sm_rx_timer_counter :=
                __ad_timer_to_ticks AD_CURRENT_WHILE_TIMER
                  (u16 (Z.land (actor_oper_port_state p) LACP_STATE_LACP_TIMEOUT)) |> in
            Ok (p <| actor_oper_port_state ::= fun s => clrf s LACP_STATE_EXPIRED |>)
      end
  | AD_RX_OTHER => Ok p
  end.

(** [ad_rx_machine] on the port (the frame counters are in AdMachine). *)
Definition ad_rx_machine_port (l : option lacpdu) (p : port) : res port :=
  let last_state := sm_rx_state p in
  let p := rx_next_state l p in
  if negb (bool_decide (sm_rx_state p = last_state)) || bool_decide (is_Some l)
  then rx_action l p
  else Ok p.

(** ** Churn machine *)

Definition ad_churn_machine (p : port) : port :=
  if has (sm_vars p) AD_PORT_CHURNED then
    p <| sm_vars ::= fun v => clrf v AD_PORT_CHURNED |>
      <| sm_churn_actor_state := AD_CHURN_MONITOR |>
      <| sm_churn_partner_state := AD_CHURN_MONITOR |>
      <| sm_churn_actor_timer_counter := __ad_timer_to_ticks AD_ACTOR_CHURN_TIMER 0 |>
      <| sm_churn_partner_timer_counter := __ad_timer_to_ticks AD_PARTNER_CHURN_TIMER 0 |>
  else
    let '(c, expired) := tick_down (sm_churn_actor_timer_counter p) in
    let p := p <| sm_churn_actor_timer_counter := c |> in
    let p :=
      if expired && bool_decide (sm_churn_actor_state p = AD_CHURN_MONITOR) then
        if has (actor_oper_port_state p) LACP_STATE_SYNCHRONIZATION
        then p <| sm_churn_actor_state := AD_NO_CHURN |>
        else p <| churn_actor_count ::= fun n => u32 (n + 1) |>
               <| sm_churn_actor_state := AD_CHURN |>
      else p in
    let '(c, expired) := tick_down (sm_churn_partner_timer_counter p) in
    let p := p <| sm_churn_partner_timer_counter := c |> in
    if expired && bool_decide (sm_churn_partner_state p = AD_CHURN_MONITOR) then
      if has (pp_port_state (partner_oper p)) LACP_STATE_SYNCHRONIZATION
      then p <| sm_churn_partner_state := AD_NO_CHURN |>
      else p <| churn_partner_count ::= fun n => u32 (n + 1) |>
             <| sm_churn_partner_state := AD_CHURN |>
    else p.

(** ** Periodic machine *)

Definition periodic_next_state (p : port) : port :=
  if (has (sm_vars p) AD_PORT_BEGIN || negb (has (sm_vars p) AD_PORT_LACP_ENABLED)
      || negb (is_enabled p))
     || (negb (has (actor_oper_port_state p) LACP_STATE_LACP_ACTIVITY) &&
         negb (has (pp_port_state (partner_oper p)) LACP_STATE_LACP_ACTIVITY))
  then p <| sm_periodic_state := AD_NO_PERIODIC |>
  else if negb (sm_periodic_timer_counter p =? 0) then
    let p := p <| sm_periodic_timer_counter ::= fun c => u16 (c - 1) |> in
    if sm_periodic_timer_counter p =? 0
    then p <| sm_periodic_state := AD_PERIODIC_TX |>
    else
      match sm_periodic_state p with
      | AD_FAST_PERIODIC =>
          if negb (has (pp_port_state (partner_oper p)) LACP_STATE_LACP_TIMEOUT)
          then p <| sm_periodic_state := AD_SLOW_PERIODIC |> else p
      | AD_SLOW_PERIODIC =>
          if has (pp_port_state (partner_oper p)) LACP_STATE_LACP_TIMEOUT
          then p <| sm_periodic_timer_counter := 0 |>
                 <| sm_periodic_state := AD_PERIODIC_TX |>
          else p
      | _ => p
      end
  else
    match sm_periodic_state p with
    | AD_NO_PERIODIC => p <| sm_periodic_state := AD_FAST_PERIODIC |>
    | AD_PERIODIC_TX =>
        if negb (has (pp_port_state (partner_oper p)) LACP_STATE_LACP_TIMEOUT)
        then p <| sm_periodic_state := AD_SLOW_PERIODIC |>
        else p <| sm_periodic_state := AD_FAST_PERIODIC |>
    | _ => p
    end.

Definition periodic_action (p : port) : port :=
  match sm_periodic_state p with
  | AD_NO_PERIODIC => p <| sm_periodic_timer_counter := 0 |>
  | AD_FAST_PERIODIC =>
      p <| sm_periodic_timer_counter :=
             u16 (__ad_timer_to_ticks AD_PERIODIC_TIMER (u16 AD_FAST_PERIODIC_TIME) - 1) |>
  | AD_SLOW_PERIODIC =>
      p <| sm_periodic_timer_counter :=
             u16 (__ad_timer_to_ticks AD_PERIODIC_TIMER (u16 AD_SLOW_PERIODIC_TIME) - 1) |>
  | AD_PERIODIC_TX => p <| ntt := true |>
  | AD_PERIODIC_OTHER => p
  end.

Definition ad_periodic_machine (p : port) : port :=
  let last_state := sm_periodic_state p in
  let p := periodic_next_state p in
  if negb (bool_decide (sm_periodic_state p = last_state))
  then periodic_action p
  else p.

(** ** Link speed, duplex and the port key *)

(** The [switch (slave->speed)] of [__get_link_speed]. *)
Definition link_speed_cases : list (Z * Z) :=
  [(SPEED_10, AD_LINK_SPEED_10MBPS); (SPEED_100, AD_LINK_SPEED_100MBPS);
   (SPEED_1000, AD_LINK_SPEED_1000MBPS); (SPEED_2500, AD_LINK_SPEED_2500MBPS);
   (SPEED_5000, AD_LINK_SPEED_5000MBPS); (SPEED_10000, AD_LINK_SPEED_10000MBPS);
   (SPEED_14000, AD_LINK_SPEED_14000MBPS); (SPEED_20000, AD_LINK_SPEED_20000MBPS);
   (SPEED_25000, AD_LINK_SPEED_25000MBPS); (SPEED_40000, AD_LINK_SPEED_40000MBPS);
   (SPEED_50000, AD_LINK_SPEED_50000MBPS); (SPEED_56000, AD_LINK_SPEED_56000MBPS);
   (SPEED_80000, AD_LINK_SPEED_80000MBPS); (SPEED_100000, AD_LINK_SPEED_100000MBPS);
   (SPEED_200000, AD_LINK_SPEED_200000MBPS); (SPEED_400000, AD_LINK_SPEED_400000MBPS);
   (SPEED_800000, AD_LINK_SPEED_800000MBPS); (SPEED_1600000, AD_LINK_SPEED_1600000MBPS)].

(** [switch (v)] over constant cases with a default. *)
Definition switch_z (cases : list (Z * Z)) (default v : Z) : Z :=
  match find (fun c => v =? c.1) cases with Some c => c.2 | None => default end.

(** [__get_link_speed], on the slave of the port. *)
Definition link_speed_of (s : slave) : Z :=
  if negb (sl_link s =? BOND_LINK_UP) then 0
  else switch_z link_speed_cases 0 (sl_speed s).

(** [__get_duplex], on the slave of the port. *)
Definition duplex_of (s : slave) : Z :=
  if sl_link s =? BOND_LINK_UP then if sl_duplex s =? DUPLEX_FULL then 0x1 else 0x0
  else 0x0.

(** [ad_update_actor_keys], given the slave of the port: the new keys. *)
Definition set_actor_keys (s : slave) (reset : bool) (p : port) : port :=
  let p := p <| actor_admin_port_key ::= fun k =>
                  clrf k (Z.lor AD_SPEED_KEY_MASKS AD_DUPLEX_KEY_MASKS) |> in
  let p := if reset then p
           else p <| actor_admin_port_key ::= fun k =>
                       u16 (Z.lor k (Z.lor (Z.shiftl (link_speed_of s) 1) (duplex_of s))) |> in
  p <| actor_oper_port_key := actor_admin_port_key p |>.

(** The whole of [ad_update_actor_keys]. *)
Definition update_actor_keys (s : slave) (reset : bool) (p : port) : port :=
  let old_oper_key := actor_oper_port_key p in
  let speed := if reset then 0 else link_speed_of s in
  let ospeed := if reset then 0 else Z.shiftr (Z.land old_oper_key AD_SPEED_KEY_MASKS) 1 in
  let duplex := if reset then 0 else duplex_of s in
  let p := set_actor_keys s reset p in
  if negb (old_oper_key =? actor_oper_port_key p) then
    let p := if negb (duplex =? 0)
             then p <| sm_vars ::= fun v => setf v AD_PORT_LACP_ENABLED |>
             else p <| sm_vars ::= fun v => clrf v AD_PORT_LACP_ENABLED |> in
    if negb reset then
      if speed =? 0 then p
      else if negb (duplex =? 0) && negb (ospeed =? speed)
      then p <| sm_vars ::= fun v => setf v AD_PORT_BEGIN |>
      else p
    else p
  else p.

(** ** PDU contents *)

Definition __update_lacpdu_from_port (p : port) : port :=
  let partner := partner_oper p in
  p <| port_lacpdu ::= fun l =>
    l <| l_actor_system_priority := htons (actor_system_priority p) |>
      <| l_actor_system := actor_system p |>
      <| l_actor_key := htons (actor_oper_port_key p) |>
      <| l_actor_port_priority := htons (actor_port_priority p) |>
      <| l_actor_port := htons (actor_port_number p) |>
      <| l_actor_state := actor_oper_port_state p |>
      <| l_partner_system_priority := htons (pp_system_priority partner) |>
      <| l_partner_system := pp_system partner |>
      <| l_partner_key := htons (pp_key partner) |>
      <| l_partner_port_priority := htons (pp_port_priority partner) |>
      <| l_partner_port := htons (pp_port_number partner) |>
      <| l_partner_state := pp_port_state partner |> |>.

(** ** Initialisation *)

Definition port_params_tmpl : port_params :=
  PortParams zero_ether_addr 0xffff 1 1 0xff 0.

Definition lacpdu_tmpl : lacpdu :=
  Lacpdu 0x01 0x01 0x01 0x14 0 zero_ether_addr 0 0 0 0
         0x02 0x14 0 zero_ether_addr 0 0 0 0
         0x03 0x10 (htons AD_COLLECTOR_MAX_DELAY).

Definition ad_initialize_port (bp : bond_params) (p : port) : port :=
  let p := p <| actor_port_priority := 0xff |>
             <| actor_port_aggregator_identifier := 0 |>
             <| ntt := false |>
             <| actor_admin_port_state := LACP_STATE_AGGREGATION |>
             <| actor_oper_port_state := LACP_STATE_AGGREGATION |> in
  let p := if lacp_active bp
           then p <| actor_admin_port_state ::= fun s => setf s LACP_STATE_LACP_ACTIVITY |>
                  <| actor_oper_port_state ::= fun s => setf s LACP_STATE_LACP_ACTIVITY |>
           else p in
  let p := if lacp_fast bp
           then p <| actor_oper_port_state ::= fun s => setf s LACP_STATE_LACP_TIMEOUT |>
           else p in
  p <| partner_admin := port_params_tmpl |>
    <| partner_oper := port_params_tmpl |>
    <| is_enabled := true |>
    <| sm_vars := Z.lor AD_PORT_BEGIN AD_PORT_LACP_ENABLED |>
    <| sm_rx_state := rx_state_0 |>
    <| sm_rx_timer_counter := 0 |>
    <| sm_periodic_state := periodic_state_0 |>
    <| sm_periodic_timer_counter := 0 |>
    <| sm_mux_state := mux_state_0 |>
    <| sm_mux_timer_counter := 0 |>
    <| sm_tx_state := 0 |>
    <| port_aggregator := None |>
    <| next_port_in_aggregator := None |>
    <| transaction_id := 0 |>
    <| sm_churn_actor_timer_counter := 0 |>
    <| sm_churn_actor_state := churn_state_0 |>
    <| churn_actor_count := 0 |>
    <| sm_churn_partner_timer_counter := 0 |>
    <| sm_churn_partner_state := churn_state_0 |>
    <| churn_partner_count := 0 |>
    <| port_lacpdu := lacpdu_tmpl |>.

Definition ad_clear_agg (a : aggregator) : aggregator :=
  a <| is_individual := false |>
    <| actor_admin_aggregator_key := 0 |>
    <| actor_oper_aggregator_key := 0 |>
    <| partner_system := zero_ether_addr |>
    <| partner_system_priority := 0 |>
    <| partner_oper_aggregator_key := 0 |>
    <| receive_state := 0 |>
    <| transmit_state := 0 |>
    <| lag_ports := None |>
    <| is_active := false |>
    <| num_of_ports := 0 |>.

Definition ad_initialize_agg (a : aggregator) : aggregator :=
  ad_clear_agg a
    <| aggregator_mac_address := zero_ether_addr |>
    <| aggregator_identifier := 0 |>
    <| agg_slave := None |>.

Definition __agg_has_partner (a : aggregator) : bool :=
  negb (is_zero_ether_addr (partner_system a)).
End ad_port.
