(* ===== verification/AdMachine.v ===== *)
(** * 802.3ad: the operations on the bond

    The functions of [servers/bond_3ad.c] that follow pointers between ports,
    aggregators and slaves, in a state monad over [bonding].  Dereferencing a
    null pointer is the fault [NullDeref], a pointer to no object [Dangling].
    A walk along [next_port_in_aggregator] has one unit of fuel per slave plus
    one, and fails with [OutOfFuel] on a cycle. *)

From S2P Require Import Prelude.
From S2P Require Import AdTypes.
From S2P Require Import AdPort.

Section ad_machine.
Context `{K : Kernel}.

Abbreviation MB := (M bonding).

(** ** Memory access *)

Definition get_slave (p : ptr) : MB slave := fun st =>
  match slaves st !! p with Some s => Ok (s, st) | None => Err Dangling end.
Definition upd_slave (p : ptr) (f : slave -> slave) : MB unit := fun st =>
  match slaves st !! p with
  | Some s => Ok (tt, st <| slaves ::= <[p := f s]> |>)
  | None => Err Dangling
  end.
Definition deref {A} (o : option A) : MB A :=
  match o with Some a => ret a | None => fail_with NullDeref end.

Definition get_port (p : ptr) : MB port := let* s := get_slave p in ret (ad_port s).
Definition upd_port (p : ptr) (f : port -> port) : MB unit :=
  upd_slave p (fun s => s <| ad_port ::= f |>).
Definition get_agg (a : ptr) : MB aggregator := let* s := get_slave a in ret (ad_agg s).
Definition upd_agg (a : ptr) (f : aggregator -> aggregator) : MB unit :=
  upd_slave a (fun s => s <| ad_agg ::= f |>).
Definition emit (e : event) : MB unit := modify (fun st => st <| trace ::= cons e |>).

(** [for (port = o; port; port = port->next_port_in_aggregator) body] *)
Fixpoint for_lag {A} (fuel : nat) (o : option ptr) (a : A)
    (body : A -> ptr -> MB (ctl A)) : MB A :=
  match o with
  | None => ret a
  | Some p =>
      match fuel with
      | O => fail_with OutOfFuel
      | S fuel =>
          let* c := body a p in
          match c with
          | Break a' => ret a'
          | Continue a' =>
              let* pt := get_port p in
              for_lag fuel (next_port_in_aggregator pt) a' body
          end
      end
  end.
Definition lag_fuel (st : bonding) : nat := S (size (slaves st)).

(** The ports of aggregator [a], from its [lag_ports]. *)
Definition for_agg_ports {A} (a : ptr) (x : A) (body : A -> ptr -> MB (ctl A)) : MB A :=
  let* fuel := gets lag_fuel in
  let* agg := get_agg a in
  for_lag fuel (lag_ports agg) x body.

(** ** Access to the bond *)

(** [None] is the null bond of a port without slave. *)
Definition __get_bond_by_port (p : ptr) : MB (option unit) :=
  let* pt := get_port p in
  ret (match port_slave pt with None => None | Some _ => Some tt end).

Definition __get_first_agg (p : ptr) : MB (option ptr) :=
  let* bond := __get_bond_by_port p in
  match bond with
  | None => ret None
  | Some _ => gets (fun st => head (slave_list st))
  end.

Definition __get_agg_selection_mode (p : option ptr) : MB Z :=
  let* p := deref p in
  let* bond := __get_bond_by_port p in
  match bond with
  | None => ret BOND_AD_STABLE
  | Some _ => gets (fun st => ad_select (params st))
  end.

Definition __check_agg_selection_timer (p : ptr) : MB bool :=
  let* bond := __get_bond_by_port p in
  match bond with
  | None => ret false
  | Some _ => gets (fun st => negb (agg_select_timer st =? 0))
  end.

Definition __get_link_speed (p : option ptr) : MB Z :=
  let* p := deref p in
  let* pt := get_port p in
  let* s := deref (port_slave pt) in
  let* sl := get_slave s in
  ret (link_speed_of sl).

(** ** Activity bits of the slave *)

Definition upd_flags (f : slave_flags -> slave_flags) (p : ptr) : MB unit :=
  let* pt := get_port p in
  let* s := deref (port_slave pt) in
  upd_slave s (fun sl => sl <| sl_flags ::= f |>).

Definition __disable_distributing_port (p : ptr) : MB unit :=
  upd_flags (bond_set_slave_tx_disabled_flags BOND_SLAVE_NOTIFY_LATER) p.

Definition slave_link_usable (p : ptr) : MB bool :=
  let* pt := get_port p in
  let* s := deref (port_slave pt) in
  let* sl := get_slave s in
  ret ((sl_link sl =? BOND_LINK_UP) && bond_slave_is_up (sl_dev sl)).

Definition __enable_collecting_port (p : ptr) : MB unit :=
  let* ok := slave_link_usable p in
  when_ ok (upd_flags (bond_set_slave_rx_enabled_flags BOND_SLAVE_NOTIFY_LATER) p).

Definition __disable_port (p : ptr) : MB unit :=
  upd_flags (bond_set_slave_inactive_flags BOND_SLAVE_NOTIFY_LATER) p.

Definition __enable_port (p : ptr) : MB unit :=
  let* ok := slave_link_usable p in
  when_ ok (upd_flags (bond_set_slave_active_flags BOND_SLAVE_NOTIFY_LATER) p).

Definition slave_flags_of (p : ptr) : MB slave_flags :=
  let* pt := get_port p in
  let* s := deref (port_slave pt) in
  let* sl := get_slave s in
  ret (sl_flags sl).

Definition __port_is_collecting_distributing (p : ptr) : MB bool :=
  let* f := slave_flags_of p in ret (bond_is_active_slave f).

Definition __ad_actor_update_port (p : ptr) : MB unit :=
  let* pt := get_port p in
  let* s := deref (port_slave pt) in
  let* sl := get_slave s in
  let* mac := gets sys_mac_addr in
  let* prio := gets sys_priority in
  upd_port p (fun pt => pt <| actor_system := mac |>
                           <| actor_system_priority := prio |>
                           <| actor_port_priority := ad_port_priority sl |>).

(** ** Walks over the ports of an aggregator *)

Definition __agg_ports_are_ready (a : option ptr) : MB bool :=
  match a with
  | None => ret true
  | Some a =>
      for_agg_ports a true (fun _ p =>
        let* pt := get_port p in
        if negb (has (sm_vars pt) AD_PORT_READY_N) then ret (Break false)
        else ret (Continue true))
  end.

Definition set_ready (val : bool) (pt : port) : port :=
  if val then pt <| sm_vars ::= fun v => setf v AD_PORT_READY |>
  else pt <| sm_vars ::= fun v => clrf v AD_PORT_READY |>.

Definition __set_agg_ports_ready (a : option ptr) (val : bool) : MB unit :=
  let* a := deref a in
  for_agg_ports a tt (fun _ p => upd_port p (set_ready val) ;;; ret (Continue tt)).

Definition __agg_active_ports (a : ptr) : MB Z :=
  for_agg_ports a 0 (fun n p =>
    let* pt := get_port p in
    ret (Continue (if is_enabled pt then n + 1 else n))).

Definition __agg_ports_priority (a : ptr) : MB Z :=
  for_agg_ports a 0 (fun n p =>
    let* pt := get_port p in
    ret (Continue (if is_enabled pt then u32 (n + actor_port_priority pt) else n))).

(** The [switch] of [__get_agg_bandwidth]: bandwidth per port by speed. *)
Definition bandwidth_cases : list (Z * Z) :=
  [(AD_LINK_SPEED_1MBPS, 1); (AD_LINK_SPEED_10MBPS, 10);
   (AD_LINK_SPEED_100MBPS, 100); (AD_LINK_SPEED_1000MBPS, 1000);
   (AD_LINK_SPEED_2500MBPS, 2500); (AD_LINK_SPEED_5000MBPS, 5000);
   (AD_LINK_SPEED_10000MBPS, 10000); (AD_LINK_SPEED_14000MBPS, 14000);
   (AD_LINK_SPEED_20000MBPS, 20000); (AD_LINK_SPEED_25000MBPS, 25000);
   (AD_LINK_SPEED_40000MBPS, 40000); (AD_LINK_SPEED_50000MBPS, 50000);
   (AD_LINK_SPEED_56000MBPS, 56000); (AD_LINK_SPEED_80000MBPS, 80000);
   (AD_LINK_SPEED_100000MBPS, 100000); (AD_LINK_SPEED_200000MBPS, 200000);
   (AD_LINK_SPEED_400000MBPS, 400000); (AD_LINK_SPEED_800000MBPS, 800000);
   (AD_LINK_SPEED_1600000MBPS, 1600000)].

Definition __get_agg_bandwidth (a : ptr) : MB Z :=
  let* nports := __agg_active_ports a in
  if nports =? 0 then ret 0
  else
    let* agg := get_agg a in
    let* speed := __get_link_speed (lag_ports agg) in
    ret (u32 (nports * switch_z bandwidth_cases 0 speed)).

Definition agg_device_up (a : ptr) : MB bool :=
  for_agg_ports a false (fun _ p =>
    let* pt := get_port p in
    let* s := deref (port_slave pt) in
    let* sl := get_slave s in
    if netif_running (sl_dev sl) && netif_carrier_ok (sl_dev sl)
    then ret (Break true) else ret (Continue false)).

Definition __get_active_agg (a : ptr) : MB (option ptr) :=
  let* agg := get_agg a in
  let* _ := deref (agg_slave agg) in
  let* l := gets slave_list in
  for_each l None (fun _ s =>
    let* ag := get_agg s in
    if is_active ag then ret (Break (Some s)) else ret (Continue None)).

(** ** Transmission *)

Definition inc_stat (s : ptr) (f : bond_3ad_stats -> bond_3ad_stats) : MB unit :=
  upd_slave s (fun sl => sl <| ad_stats ::= f |>) ;;;
  modify (fun st => st <| bond_stats ::= f |>).

Definition dev_alloc_skb : MB bool :=
  let* n := gets alloc_count in
  modify (fun st => st <| alloc_count ::= S |>) ;;;
  ret (dev_alloc_skb_ok n).

Definition ENOMEM : Z := 12.

Definition ad_lacpdu_send (p : ptr) : MB Z :=
  let* pt := get_port p in
  let* skb := dev_alloc_skb in
  if negb skb then ret (- ENOMEM)
  else
    let* s := deref (port_slave pt) in
    inc_stat s (fun t => t <| lacpdu_tx ::= atomic64_inc |>) ;;;
    let* sl := get_slave s in
    emit (XmitLacpdu s lacpdu_mcast_addr (sl_perm_hwaddr sl) (port_lacpdu pt)) ;;;
    ret 0.

Definition ad_marker_send (p : ptr) (m : bond_marker) : MB Z :=
  let* pt := get_port p in
  let* skb := dev_alloc_skb in
  if negb skb then ret (- ENOMEM)
  else
    let* s := deref (port_slave pt) in
    (if mk_tlv_type m =? AD_MARKER_INFORMATION_SUBTYPE
     then inc_stat s (fun t => t <| marker_tx ::= atomic64_inc |>)
     else if mk_tlv_type m =? AD_MARKER_RESPONSE_SUBTYPE
     then inc_stat s (fun t => t <| marker_resp_tx ::= atomic64_inc |>)
     else ret tt) ;;;
    let* sl := get_slave s in
    emit (XmitMarker s lacpdu_mcast_addr (sl_perm_hwaddr sl) m) ;;;
    ret 0.

Definition ad_tx_machine (p : ptr) : MB unit :=
  let* pt := get_port p in
  let c := sm_tx_timer_counter pt in
  (if c =? 0 then ret tt
   else upd_port p (fun pt => pt <| sm_tx_timer_counter ::= fun c => u16 (c - 1) |>)) ;;;
  let* pt := get_port p in
  if sm_tx_timer_counter pt =? 0 then
    if ntt pt && has (sm_vars pt) AD_PORT_LACP_ENABLED then
      upd_port p __update_lacpdu_from_port ;;;
      let* r := ad_lacpdu_send p in
      if 0 <=? r then
        upd_port p (fun pt =>
          pt <| ntt := false |>
             <| sm_tx_timer_counter := u16 (Z.quot ad_ticks_per_sec AD_MAX_TX_IN_SECOND) |>)
      else ret tt
    else ret tt
  else ret tt.

(** ** Receive machine with its frame counters *)

Definition ad_rx_machine (l : option lacpdu) (p : ptr) : MB unit :=
  (match l with
   | None => ret tt
   | Some _ =>
       let* pt := get_port p in
       let* s := deref (port_slave pt) in
       inc_stat s (fun t => t <| lacpdu_rx ::= atomic64_inc |>)
   end) ;;;
  let* pt := get_port p in
  let* pt' := lift (ad_rx_machine_port l pt) in
  upd_port p (fun _ => pt').

(** ** Enabling and disabling *)

Definition ad_cond_set_peer_notif (p : ptr) : MB unit :=
  let* pt := get_port p in
  let* _ := deref (port_slave pt) in
  let* b := gets (fun st => broadcast_neighbor (params st)) in
  when_ b (emit PeerNotifyRearm).

Definition port_agg (p : ptr) : MB (option ptr) :=
  let* pt := get_port p in ret (port_aggregator pt).

Definition ad_enable_collecting (p : ptr) : MB unit :=
  let* a := port_agg p in
  let* a := deref a in
  let* agg := get_agg a in
  when_ (is_active agg) (__enable_collecting_port p).

Definition ad_disable_distributing (p : ptr) (upd : bool) : MB bool :=
  let* a := port_agg p in
  match a with
  | None => ret upd
  | Some a =>
      let* agg := get_agg a in
      if __agg_has_partner agg then __disable_distributing_port p ;;; ret true
      else ret upd
  end.

Definition ad_enable_collecting_distributing (p : ptr) (upd : bool) : MB bool :=
  let* a := port_agg p in
  let* a := deref a in
  let* agg := get_agg a in
  if is_active agg then
    __enable_port p ;;; ad_cond_set_peer_notif p ;;; ret true
  else ret upd.

Definition ad_disable_collecting_distributing (p : ptr) (upd : bool) : MB bool :=
  let* a := port_agg p in
  match a with
  | None => ret upd
  | Some a =>
      let* agg := get_agg a in
      if __agg_has_partner agg then __disable_port p ;;; ret true
      else ret upd
  end.
End ad_machine.
