(* ===== verification/AdControl.v ===== *)
(** * 802.3ad: multiplexing, selection, and the entry points

    The mux machine, the port and aggregator selection logic and the functions
    that the rest of the bonding driver calls, from [servers/bond_3ad.c].  The
    [bool *update_slave_arr] out-parameter is passed in and returned. *)

From S2P Require Import Prelude.
From S2P Require Import AdTypes.
From S2P Require Import AdPort.
From S2P Require Import AdMachine.

Section ad_control.
Context `{K : Kernel}.

Abbreviation MB := (M bonding).

(** ** Carrier of the bond *)

Definition bond_3ad_set_carrier : MB Z :=
  let* l := gets slave_list in
  match l with
  | [] => ret 0
  | first :: _ =>
      let* active := __get_active_agg first in
      let* dev := gets bond_dev in
      match active with
      | Some a =>
          let* n := __agg_active_ports a in
          let* m := gets (fun st => min_links (params st)) in
          (if n <? m then
             when_ (netif_carrier_ok dev)
               (modify (fun st => st <| bond_dev ::= netif_carrier_off |>))
           else
             when_ (negb (netif_carrier_ok dev))
               (modify (fun st => st <| bond_dev ::= netif_carrier_on |>))) ;;;
          ret 1
      | None =>
          when_ (netif_carrier_ok dev)
            (modify (fun st => st <| bond_dev ::= netif_carrier_off |>)) ;;;
          ret 1
      end
  end.

(** ** Aggregator selection *)

Definition ad_agg_selection_test (best : option ptr) (curr : ptr) : MB ptr :=
  match best with
  | None => ret curr
  | Some best =>
      let* bA := get_agg best in
      let* cA := get_agg curr in
      if negb (is_individual cA) && is_individual bA then ret curr
      else if is_individual cA && negb (is_individual bA) then ret best
      else if __agg_has_partner cA && negb (__agg_has_partner bA) then ret curr
      else if negb (__agg_has_partner cA) && __agg_has_partner bA then ret best
      else
        let by_bandwidth : MB ptr :=
          let* bc := __get_agg_bandwidth curr in
          let* bb := __get_agg_bandwidth best in
          if bc >? bb then ret curr else ret best in
        let by_count : MB ptr :=
          let* nc := __agg_active_ports curr in
          let* nb := __agg_active_ports best in
          if nc >? nb then ret curr
          else if nc <? nb then ret best
          else by_bandwidth in
        let by_prio : MB ptr :=
          let* pc := __agg_ports_priority curr in
          let* pb := __agg_ports_priority best in
          if pc >? pb then ret curr
          else if pc <? pb then ret best
          else by_count in
        let* mode := __get_agg_selection_mode (lag_ports cA) in
        if mode =? BOND_AD_PRIO then by_prio
        else if mode =? BOND_AD_COUNT then by_count
        else if (mode =? BOND_AD_STABLE) || (mode =? BOND_AD_BANDWIDTH) then by_bandwidth
        else ret best
  end.

(** The loop of [ad_agg_selection_logic] over all aggregators: deactivate
    each, and keep the best candidate. *)
Definition select_best (best : option ptr) : MB (option ptr) :=
  let* l := gets slave_list in
  for_each l best (fun best a =>
    upd_agg a (fun ag => ag <| is_active := false |>) ;;;
    let* n := __agg_active_ports a in
    if n =? 0 then ret (Continue best)
    else
      let* up := agg_device_up a in
      if up then
        let* b := ad_agg_selection_test best a in
        ret (Continue (Some b))
      else ret (Continue best)).

(** The STABLE policy: whether the old active aggregator is kept. *)
Definition stable_keeps_active (active best : ptr) : MB bool :=
  let* aA := get_agg active in
  let* bA := get_agg best in
  match lag_ports aA with
  | None => ret false
  | Some _ =>
      let* n := __agg_active_ports active in
      ret (negb (n =? 0) &&
           (__agg_has_partner aA ||
            (negb (__agg_has_partner aA) && negb (__agg_has_partner bA))) &&
           negb ((actor_oper_aggregator_key aA =? 0) &&
                 negb (actor_oper_aggregator_key bA =? 0)))
  end.

Definition set_active (a : ptr) : MB unit :=
  upd_agg a (fun ag => ag <| is_active := true |>).

Definition for_agg_ports_ (a : ptr) (f : ptr -> MB unit) : MB unit :=
  for_agg_ports a tt (fun _ p => f p ;;; ret (Continue tt)).

(** Under STABLE, keep the old active aggregator if the policy says so. *)
Definition stable_policy (active best : option ptr) : MB (option ptr) :=
  match best with
  | None => ret None
  | Some b =>
      let* bA := get_agg b in
      let* mode := __get_agg_selection_mode (lag_ports bA) in
      if mode =? BOND_AD_STABLE then
        match active with
        | None => ret best
        | Some a =>
            let* keep := stable_keeps_active a b in
            if keep : bool then set_active a ;;; ret None else ret best
        end
      else ret best
  end.

(** [if (best && (best == active))] *)
Definition keep_unchanged (active best : option ptr) : MB (option ptr) :=
  match best, active with
  | Some b, Some a => if decide (b = a) then set_active a ;;; ret None else ret best
  | _, _ => ret best
  end.

(** Activate a new best aggregator and disable the ports of the former one. *)
Definition activate_best (active best : option ptr) (upd : bool) : MB bool :=
  match best with
  | None => ret upd
  | Some b =>
      set_active b ;;;
      (match active with
       | None => ret tt
       | Some a => for_agg_ports_ a __disable_port
       end) ;;;
      ret true
  end.

(** Enable the ports of an active aggregator without partner. *)
Definition enable_individuals (origin : ptr) (upd : bool) : MB bool :=
  let* active := __get_active_agg origin in
  match active with
  | None => ret upd
  | Some a =>
      let* aA := get_agg a in
      if negb (__agg_has_partner aA)
      then for_agg_ports_ a __enable_port ;;; ret true
      else ret upd
  end.

(** The last part of [ad_agg_selection_logic]: act on the choice. *)
Definition finish_selection (origin : ptr) (active best : option ptr) (upd : bool)
    : MB bool :=
  let* upd := activate_best active best upd in
  let* upd := enable_individuals origin upd in
  let* _ := bond_3ad_set_carrier in
  ret upd.

Definition ad_agg_selection_logic (agg : option ptr) (upd : bool) : MB bool :=
  let* origin := deref agg in
  let* agA := get_agg origin in
  let* _ := deref (agg_slave agA) in
  let* active := __get_active_agg origin in
  let* best :=
    match active with
    | None => ret None
    | Some a => let* up := agg_device_up a in ret (if up : bool then Some a else None)
    end in
  let* best := select_best best in
  let* best := stable_policy active best in
  let* best := keep_unchanged active best in
  finish_selection origin active best upd.

(** ** Port selection *)

(** The body of the unlink loop at port [p], which follows [last] on the list
    of aggregator [a]. *)
Definition unlink_port (a p : ptr) (last : option ptr) : MB unit :=
  upd_agg a (fun ag => ag <| num_of_ports ::= fun n => u16 (n - 1) |>) ;;;
  let* pt := get_port p in
  (match last with
   | None => upd_agg a (fun ag => ag <| lag_ports := next_port_in_aggregator pt |>)
   | Some q => upd_port q (fun qt =>
       qt <| next_port_in_aggregator := next_port_in_aggregator pt |>)
   end) ;;;
  upd_port p (fun pt => pt <| port_aggregator := None |>
                           <| next_port_in_aggregator := None |>
                           <| actor_port_aggregator_identifier := 0 |>) ;;;
  let* ag := get_agg a in
  match lag_ports ag with
  | None => upd_agg a ad_clear_agg
  | Some _ => ret tt
  end.

(** Unlink port [p] from the list of aggregator [a]; false when it is not on
    the list. *)
Definition detach_port (a p : ptr) : MB bool :=
  let* r := for_agg_ports a (None, false) (fun '(last, _) curr =>
    if decide (curr = p) then unlink_port a p last ;;; ret (Break (last, true))
    else ret (Continue (Some curr, false))) in
  ret r.2.

(** Whether an occupied aggregator suits the port. *)
Definition agg_suits (ag : aggregator) (pt : port) : bool :=
  ((actor_oper_aggregator_key ag =? actor_oper_port_key pt) &&
   MAC_ADDRESS_EQUAL (partner_system ag) (pp_system (partner_oper pt)) &&
   (partner_system_priority ag =? pp_system_priority (partner_oper pt)) &&
   (partner_oper_aggregator_key ag =? pp_key (partner_oper pt))) &&
  (__agg_has_partner ag && negb (is_individual ag)).

(** Attach the port at the head of the list of aggregator [a], whose contents
    are [ag]. *)
Definition join_lag (p a : ptr) (ag : aggregator) : MB unit :=
  upd_port p (fun pt =>
    pt <| port_aggregator := Some a |>
       <| actor_port_aggregator_identifier := aggregator_identifier ag |>
       <| next_port_in_aggregator := lag_ports ag |>) ;;;
  upd_agg a (fun ag => ag <| num_of_ports ::= fun n => u16 (n + 1) |>
                          <| lag_ports := Some p |>) ;;;
  upd_port p (fun pt => pt <| sm_vars ::= fun v => setf v AD_PORT_SELECTED |>).

(** The search over all aggregators: the first free one seen, and whether the
    port was attached to an existing LAG. *)
Definition join_existing (p : ptr) : MB (option ptr * bool) :=
  let* l := gets slave_list in
  for_each l (None, false) (fun '(free, _) a =>
    let* ag := get_agg a in
    match lag_ports ag with
    | None => ret (Continue (match free with None => Some a | Some f => Some f end, false))
    | Some _ =>
        let* pt := get_port p in
        if agg_suits ag pt then
          join_lag p a ag ;;; ret (Break (free, true))
        else ret (Continue (free, false))
    end).

(** Attach the port to the free aggregator [f]. *)
Definition join_free (p f : ptr) : MB unit :=
  let* ag := get_agg f in
  upd_port p (fun pt =>
    pt <| actor_port_aggregator_identifier := aggregator_identifier ag |>) ;;;
  let* pt := get_port p in
  upd_agg f (fun ag =>
    ag <| is_individual := negb (has (actor_oper_port_key pt) AD_DUPLEX_KEY_MASKS) |>
       <| actor_admin_aggregator_key := actor_admin_port_key pt |>
       <| actor_oper_aggregator_key := actor_oper_port_key pt |>
       <| partner_system := pp_system (partner_oper pt) |>
       <| partner_system_priority := pp_system_priority (partner_oper pt) |>
       <| partner_oper_aggregator_key := pp_key (partner_oper pt) |>
       <| receive_state := 1 |>
       <| transmit_state := 1 |>
       <| lag_ports := Some p |>
       <| num_of_ports ::= fun n => u16 (n + 1) |>) ;;;
  upd_port p (fun pt => pt <| port_aggregator := Some f |>) ;;;
  upd_port p (fun pt => pt <| sm_vars ::= fun v => setf v AD_PORT_SELECTED |>).

(** The selection proper: detach, search, attach. *)
Definition select_aggregator (p : ptr) : MB bool :=
  let* bond := __get_bond_by_port p in
  let* pt := get_port p in
  (match port_aggregator pt with
   | None => ret tt
   | Some a => let* _ := detach_port a p in ret tt
   end) ;;;
  let* _ := deref bond in
  let* '(free, found) := join_existing p in
  if found : bool then ret true
  else
    match free with
    | Some f => join_free p f ;;; ret true
    | None => ret false
    end.

(** [__set_agg_ports_ready(aggregator, __agg_ports_are_ready(aggregator))] *)
Definition refresh_ready (a : option ptr) : MB unit :=
  let* r := __agg_ports_are_ready a in __set_agg_ports_ready a r.

Definition ad_port_selection_logic (p : ptr) (upd : bool) : MB bool :=
  let* pt := get_port p in
  if has (sm_vars pt) AD_PORT_SELECTED then ret upd
  else
    let* ok := select_aggregator p in
    if negb ok then ret upd
    else
      let* a := port_agg p in
      refresh_ready a ;;;
      let* first := __get_first_agg p in
      let* upd := ad_agg_selection_logic first upd in
      let* a := deref a in
      let* ag := get_agg a in
      (if negb (is_active ag)
       then upd_port p (fun pt =>
              pt <| actor_oper_port_state ::= fun s => clrf s LACP_STATE_SYNCHRONIZATION |>)
       else ret tt) ;;;
      ret upd.

(** ** Mux machine *)

Definition __port_move_to_attached_state (p : ptr) : MB bool :=
  let* pt := get_port p in
  (if negb (has (sm_vars pt) AD_PORT_SELECTED) ||
      has (sm_vars pt) AD_PORT_STANDBY ||
      negb (has (pp_port_state (partner_oper pt)) LACP_STATE_SYNCHRONIZATION) ||
      negb (has (actor_oper_port_state pt) LACP_STATE_SYNCHRONIZATION)
   then upd_port p (fun pt => pt <| sm_mux_state := AD_MUX_ATTACHED |>)
   else ret tt) ;;;
  let* pt := get_port p in
  ret (bool_decide (sm_mux_state pt = AD_MUX_ATTACHED)).

Definition set_mux_state (p : ptr) (s : mux_states_t) : MB unit :=
  upd_port p (fun pt => pt <| sm_mux_state := s |>).

(** Leaving the selection: clear READY_N, refresh READY, go to DETACHED. *)
Definition mux_unselect (p : ptr) (a : option ptr) : MB unit :=
  upd_port p (fun pt => pt <| sm_vars ::= fun v => clrf v AD_PORT_READY_N |>) ;;;
  refresh_ready a ;;;
  set_mux_state p AD_MUX_DETACHED.

(** A collecting and distributing port of the active aggregator is enabled. *)
Definition mux_keep_enabled (p : ptr) (active upd : bool) : MB bool :=
  if active then
    let* cd := __port_is_collecting_distributing p in
    if negb cd then __enable_port p ;;; ret true else ret upd
  else ret upd.

(** The WAITING state of a selected port: run [wait_while], and go to ATTACHED
    when all ports of the aggregator are ready. *)
Definition mux_waiting (p : ptr) (a : option ptr) (counter : Z) (upd : bool) : MB bool :=
  let '(c, expired) := tick_down counter in
  upd_port p (fun pt => pt <| sm_mux_timer_counter := c |>) ;;;
  when_ expired
    (upd_port p (fun pt => pt <| sm_vars ::= fun v => setf v AD_PORT_READY_N |>)) ;;;
  refresh_ready a ;;;
  let* pt := get_port p in
  when_ (has (sm_vars pt) AD_PORT_READY && (sm_mux_timer_counter pt =? 0))
    (set_mux_state p AD_MUX_ATTACHED) ;;;
  ret upd.

(** The states of [ad_mux_machine], given the port [pt] read on entry. *)

Definition mux_attached (p : ptr) (a : option ptr) (pt : port) (upd : bool) : MB bool :=
  let selected := has (sm_vars pt) AD_PORT_SELECTED in
  let insync := has (pp_port_state (partner_oper pt)) LACP_STATE_SYNCHRONIZATION in
  let* timer :=
    if selected && insync then __check_agg_selection_timer p else ret true in
  if selected && insync && negb timer then
    let* a := deref a in
    let* ag := get_agg a in
    (if is_active ag then
       let* bond := __get_bond_by_port p in
       let* _ := deref bond in
       let* cc := gets (fun st => coupled_control (params st)) in
       set_mux_state p (if negb cc then AD_MUX_COLLECTING
                        else AD_MUX_COLLECTING_DISTRIBUTING)
     else ret tt) ;;;
    ret upd
  else if negb selected || has (sm_vars pt) AD_PORT_STANDBY
  then mux_unselect p a ;;; ret upd
  else
    let* a := deref a in
    let* ag := get_agg a in
    when_ (is_active ag)
      (upd_port p (fun pt =>
         pt <| actor_oper_port_state ::= fun s => setf s LACP_STATE_SYNCHRONIZATION |>)) ;;;
    ret upd.

Definition mux_collecting_distributing (p : ptr) (a : option ptr) (upd : bool) : MB bool :=
  let* moved := __port_move_to_attached_state p in
  if moved : bool then ret upd
  else
    let* a := deref a in
    let* ag := get_agg a in
    mux_keep_enabled p (is_active ag) upd.

Definition mux_collecting (p : ptr) (a : option ptr) (pt : port) (upd : bool) : MB bool :=
  let partner := pp_port_state (partner_oper pt) in
  let* moved := __port_move_to_attached_state p in
  if moved : bool then ret upd
  else if has (sm_vars pt) AD_PORT_SELECTED && has partner LACP_STATE_SYNCHRONIZATION
          && has partner LACP_STATE_COLLECTING
  then set_mux_state p AD_MUX_DISTRIBUTING ;;; ret upd
  else
    let* a := deref a in
    let* ag := get_agg a in
    if is_active ag then
      let* f := slave_flags_of p in
      if bond_is_slave_rx_disabled f then ad_enable_collecting p ;;; ret true
      else ret upd
    else ret upd.

Definition mux_distributing (p : ptr) (a : option ptr) (pt : port) (upd : bool) : MB bool :=
  let partner := pp_port_state (partner_oper pt) in
  if negb (has (sm_vars pt) AD_PORT_SELECTED) || has (sm_vars pt) AD_PORT_STANDBY ||
     negb (has partner LACP_STATE_COLLECTING) ||
     negb (has partner LACP_STATE_SYNCHRONIZATION) ||
     negb (has (actor_oper_port_state pt) LACP_STATE_SYNCHRONIZATION)
  then set_mux_state p AD_MUX_COLLECTING ;;; ret upd
  else
    match a with
    | None => ret upd
    | Some a =>
        let* ag := get_agg a in
        mux_keep_enabled p (is_active ag) upd
    end.

(** The choice of the next state (first half of [ad_mux_machine]). *)
Definition mux_next_state (p : ptr) (a : option ptr) (upd : bool) : MB bool :=
  let* pt := get_port p in
  let selected := has (sm_vars pt) AD_PORT_SELECTED in
  if has (sm_vars pt) AD_PORT_BEGIN then set_mux_state p AD_MUX_DETACHED ;;; ret upd
  else
    match sm_mux_state pt with
    | AD_MUX_DETACHED =>
        when_ (selected || has (sm_vars pt) AD_PORT_STANDBY)
          (set_mux_state p AD_MUX_WAITING) ;;;
        ret upd
    | AD_MUX_WAITING =>
        if negb selected then mux_unselect p a ;;; ret upd
        else mux_waiting p a (sm_mux_timer_counter pt) upd
    | AD_MUX_ATTACHED => mux_attached p a pt upd
    | AD_MUX_COLLECTING_DISTRIBUTING => mux_collecting_distributing p a upd
    | AD_MUX_COLLECTING => mux_collecting p a pt upd
    | AD_MUX_DISTRIBUTING => mux_distributing p a pt upd
    | AD_MUX_OTHER => ret upd
    end.

Definition upd_actor_state (p : ptr) (f : Z -> Z) : MB unit :=
  upd_port p (fun pt => pt <| actor_oper_port_state ::= f |>).
Definition set_ntt (p : ptr) : MB unit := upd_port p (fun pt => pt <| ntt := true |>).

(** The action of the state entered (second half of [ad_mux_machine]). *)
Definition mux_action (p : ptr) (a : option ptr) (upd : bool) : MB bool :=
  let* pt := get_port p in
  match sm_mux_state pt with
  | AD_MUX_DETACHED =>
      upd_actor_state p (fun s => clrf s LACP_STATE_SYNCHRONIZATION) ;;;
      let* upd := ad_disable_collecting_distributing p upd in
      upd_actor_state p (fun s => clrf s LACP_STATE_COLLECTING) ;;;
      upd_actor_state p (fun s => clrf s LACP_STATE_DISTRIBUTING) ;;;
      set_ntt p ;;; ret upd
  | AD_MUX_WAITING =>
      upd_port p (fun pt =>
        pt <| sm_mux_timer_counter := __ad_timer_to_ticks AD_WAIT_WHILE_TIMER 0 |>) ;;;
      ret upd
  | AD_MUX_ATTACHED =>
      let* a := deref a in
      let* ag := get_agg a in
      upd_actor_state p (fun s => if is_active ag
                                  then setf s LACP_STATE_SYNCHRONIZATION
                                  else clrf s LACP_STATE_SYNCHRONIZATION) ;;;
      upd_actor_state p (fun s => clrf s LACP_STATE_COLLECTING) ;;;
      upd_actor_state p (fun s => clrf s LACP_STATE_DISTRIBUTING) ;;;
      let* upd := ad_disable_collecting_distributing p upd in
      set_ntt p ;;; ret upd
  | AD_MUX_COLLECTING_DISTRIBUTING =>
      upd_actor_state p (fun s => setf s LACP_STATE_COLLECTING) ;;;
      upd_actor_state p (fun s => setf s LACP_STATE_DISTRIBUTING) ;;;
      upd_actor_state p (fun s => setf s LACP_STATE_SYNCHRONIZATION) ;;;
      let* upd := ad_enable_collecting_distributing p upd in
      set_ntt p ;;; ret upd
  | AD_MUX_COLLECTING =>
      upd_actor_state p (fun s => setf s LACP_STATE_COLLECTING) ;;;
      upd_actor_state p (fun s => clrf s LACP_STATE_DISTRIBUTING) ;;;
      upd_actor_state p (fun s => setf s LACP_STATE_SYNCHRONIZATION) ;;;
      ad_enable_collecting p ;;;
      let* upd := ad_disable_distributing p upd in
      set_ntt p ;;; ret upd
  | AD_MUX_DISTRIBUTING =>
      upd_actor_state p (fun s => setf s LACP_STATE_DISTRIBUTING) ;;;
      upd_actor_state p (fun s => setf s LACP_STATE_SYNCHRONIZATION) ;;;
      ad_enable_collecting_distributing p upd
  | AD_MUX_OTHER => ret upd
  end.

Definition ad_mux_machine (p : ptr) (upd : bool) : MB bool :=
  let* pt := get_port p in
  let last_state := sm_mux_state pt in
  let a := port_aggregator pt in
  let* upd := mux_next_state p a upd in
  let* pt := get_port p in
  if decide (sm_mux_state pt = last_state) then ret upd
  else mux_action p a upd.
End ad_control.
