(* ===== verification/AdEntry.v ===== *)
(** * 802.3ad: the functions called by the rest of the bonding driver

    Binding and unbinding a slave, the periodic work, received frames, link
    and parameter changes, from [servers/bond_3ad.c]. *)

From S2P Require Import Prelude.
From S2P Require Import AdTypes.
From S2P Require Import AdPort.
From S2P Require Import AdMachine.
From S2P Require Import AdControl.

Section ad_entry.
Context `{K : Kernel}.

Abbreviation MB := (M bonding).

Definition bond_3ad_initiate_agg_selection (timeout : Z) : MB unit :=
  modify (fun st => st <| agg_select_timer := timeout |>).

(** The system identity: the configured address, or the one of the bond. *)
Definition update_system : MB unit :=
  modify (fun st =>
    st <| sys_priority := ad_actor_sys_prio (params st) |>
       <| sys_mac_addr := if is_zero_ether_addr (ad_actor_system (params st))
                          then bond_dev_addr st else ad_actor_system (params st) |>).

Definition bond_3ad_initialize : MB unit :=
  modify (fun st => st <| bond_aggregator_identifier := 0 |>) ;;;
  update_system ;;;
  bond_3ad_initiate_agg_selection (AD_AGGREGATOR_SELECTION_TIMER * ad_ticks_per_sec).

Definition ad_update_actor_keys (p : ptr) (reset : bool) : MB unit :=
  let* pt := get_port p in
  if reset then
    let* sl := get_slave p in upd_port p (update_actor_keys sl true)
  else
    let* s := deref (port_slave pt) in
    let* sl := get_slave s in
    upd_port p (update_actor_keys sl false).

Definition bond_3ad_bind_slave (s : ptr) : MB unit :=
  let* pt := get_port s in
  if decide (port_slave pt = Some s) then ret tt
  else
    let* bp := gets params in
    upd_port s (ad_initialize_port bp) ;;;
    let* pt := get_port s in
    upd_slave s (fun sl => sl <| ad_port_priority := actor_port_priority pt |>) ;;;
    let* sl := get_slave s in
    upd_port s (fun pt =>
      pt <| port_slave := Some s |>
         <| actor_port_number := ad_id sl |>
         <| actor_admin_port_key := u16 (Z.shiftl (ad_user_port_key bp) 6) |>) ;;;
    ad_update_actor_keys s false ;;;
    __ad_actor_update_port s ;;;
    upd_port s (fun pt =>
      pt <| sm_tx_timer_counter := u16 (Z.quot ad_ticks_per_sec AD_MAX_TX_IN_SECOND) |>) ;;;
    __disable_port s ;;;
    upd_agg s ad_initialize_agg ;;;
    modify (fun st =>
      st <| bond_aggregator_identifier ::= fun i => u16 (i + 1) |>) ;;;
    let* mac := gets bond_dev_addr in
    let* ident := gets bond_aggregator_identifier in
    upd_agg s (fun ag =>
      ag <| aggregator_mac_address := mac |>
         <| aggregator_identifier := ident |>
         <| agg_slave := Some s |>
         <| is_active := false |>
         <| num_of_ports := 0 |>).

(** ** Unbinding *)

(** An aggregator that is empty or holds only the leaving port. *)
Definition agg_replaceable (ag : aggregator) (p : ptr) : MB bool :=
  match lag_ports ag with
  | None => ret true
  | Some q =>
      if decide (q = p) then
        let* qt := get_port q in
        ret (bool_decide (next_port_in_aggregator qt = None))
      else ret false
  end.

(** The first replaceable aggregator of the bond. *)
Definition find_new_aggregator (p : ptr) : MB (option ptr) :=
  let* l := gets slave_list in
  for_each l None (fun _ a =>
    let* ag := get_agg a in
    let* r := agg_replaceable ag p in
    if r : bool then ret (Break (Some a)) else ret (Continue None)).

(** Move the LAG of aggregator [a] to aggregator [n]. *)
Definition move_lag (a n : ptr) : MB unit :=
  let* ag := get_agg a in
  upd_agg n (fun nag =>
    nag <| is_individual := is_individual ag |>
        <| actor_admin_aggregator_key := actor_admin_aggregator_key ag |>
        <| actor_oper_aggregator_key := actor_oper_aggregator_key ag |>
        <| partner_system := partner_system ag |>
        <| partner_system_priority := partner_system_priority ag |>
        <| partner_oper_aggregator_key := partner_oper_aggregator_key ag |>
        <| receive_state := receive_state ag |>
        <| transmit_state := transmit_state ag |>
        <| lag_ports := lag_ports ag |>
        <| is_active := is_active ag |>
        <| num_of_ports := num_of_ports ag |>) ;;;
  let* nag := get_agg n in
  for_agg_ports_ a (fun q =>
    upd_port q (fun qt =>
      qt <| port_aggregator := Some n |>
         <| actor_port_aggregator_identifier := aggregator_identifier nag |>)) ;;;
  upd_agg a ad_clear_agg.

(** Hand over or clear the aggregator of the leaving slave. *)
Definition unbind_aggregator (p : ptr) : MB unit :=
  let* ag := get_agg p in
  match lag_ports ag with
  | None => ret tt
  | Some q =>
      let* alone := agg_replaceable ag p in
      if negb alone then
        let* n := find_new_aggregator p in
        match n with
        | None => ret tt
        | Some n =>
            let* nag := get_agg n in
            let select_new := bool_decide (lag_ports nag = Some p) && is_active nag in
            move_lag p n ;;;
            when_ select_new
              (let* first := __get_first_agg p in
               let* _ := ad_agg_selection_logic first false in ret tt)
        end
      else
        let select_new := is_active ag in
        upd_agg p ad_clear_agg ;;;
        when_ select_new
          (let* first := __get_first_agg p in
           match first with
           | None => ret tt
           | Some f => let* _ := ad_agg_selection_logic (Some f) false in ret tt
           end)
  end.

(** The body of the loop at the leaving port [p], which follows [prev] on the
    list of aggregator [a]. *)
Definition unbind_at (p a : ptr) (prev : option ptr) : MB unit :=
  let* pt := get_port p in
  (match prev with
   | Some r => upd_port r (fun rt =>
       rt <| next_port_in_aggregator := next_port_in_aggregator pt |>)
   | None => upd_agg a (fun ag => ag <| lag_ports := next_port_in_aggregator pt |>)
   end) ;;;
  upd_agg a (fun ag => ag <| num_of_ports ::= fun n => u16 (n - 1) |>) ;;;
  let* n := __agg_active_ports a in
  if n =? 0 then
    let* ag := get_agg a in
    let select_new := is_active ag in
    when_ (num_of_ports ag =? 0) (upd_agg a ad_clear_agg) ;;;
    when_ select_new
      (let* first := __get_first_agg p in
       let* _ := ad_agg_selection_logic first false in ret tt)
  else ret tt.

(** Take the leaving port off the list of aggregator [a], if it is there. *)
Definition unbind_port_from (p a : ptr) : MB unit :=
  let* _ := for_agg_ports a None (fun prev q =>
    if decide (q = p) then unbind_at p a prev ;;; ret (Break (Some q))
    else ret (Continue (Some q))) in
  ret tt.

(** Go through all aggregators and take the leaving port off their lists. *)
Definition unbind_from_lists (p : ptr) : MB unit :=
  let* l := gets slave_list in
  for_each l tt (fun _ a => unbind_port_from p a ;;; ret (Continue tt)).

Definition bond_3ad_unbind_slave (s : ptr) : MB unit :=
  let* pt := get_port s in
  match port_slave pt with
  | None => ret tt
  | Some _ =>
      upd_actor_state s (fun v => clrf v LACP_STATE_SYNCHRONIZATION) ;;;
      upd_actor_state s (fun v => clrf v LACP_STATE_COLLECTING) ;;;
      upd_actor_state s (fun v => clrf v LACP_STATE_DISTRIBUTING) ;;;
      upd_actor_state s (fun v => clrf v LACP_STATE_AGGREGATION) ;;;
      upd_port s __update_lacpdu_from_port ;;;
      let* _ := ad_lacpdu_send s in
      unbind_aggregator s ;;;
      unbind_from_lists s ;;;
      upd_port s (fun pt => pt <| port_slave := None |>)
  end.

(** The release of a slave: unbind it, take it off the list of slaves and free
    it. *)
Definition bond_release_ad (s : ptr) : MB unit :=
  bond_3ad_unbind_slave s ;;;
  modify (fun st => st <| slave_list ::= filter (fun q => q <> s) |>
                       <| slaves ::= delete s |>).

(** The 802.3ad part of enslaving a new slave [sl] at address [s], which is then
    linked at position [i] of the list of slaves; [prev] is the last slave. *)
Definition bond_enslave_ad (i : nat) (s : ptr) (sl : slave) : MB unit :=
  let* l := gets slave_list in
  modify (fun st => st <| slaves ::= <[s := sl]> |>) ;;;
  upd_slave s (fun sl =>
    sl <| sl_flags ::= bond_set_slave_inactive_flags BOND_SLAVE_NOTIFY_NOW |>) ;;;
  (match last l with
   | None => upd_slave s (fun sl => sl <| ad_id := 1 |>) ;;; bond_3ad_initialize
   | Some prev =>
       let* psl := get_slave prev in
       upd_slave s (fun sl => sl <| ad_id := u16 (ad_id psl + 1) |>)
   end) ;;;
  bond_3ad_bind_slave s ;;;
  modify (fun st => st <| slave_list ::= fun l => take i l ++ s :: drop i l |>).

(** ** Parameter and link changes *)

Definition for_each_port (f : ptr -> MB unit) : MB unit :=
  let* l := gets slave_list in
  for_each l tt (fun _ s => f s ;;; ret (Continue tt)).

Definition bond_3ad_update_ad_actor_settings : MB unit :=
  update_system ;;;
  for_each_port (fun s =>
    __ad_actor_update_port s ;;;
    upd_port s (fun pt => pt <| ntt := true |>)).

Definition bond_3ad_update_lacp_rate : MB unit :=
  let* fast := gets (fun st => lacp_fast (params st)) in
  for_each_port (fun s =>
    upd_actor_state s (fun v => if fast then setf v LACP_STATE_LACP_TIMEOUT
                                else clrf v LACP_STATE_LACP_TIMEOUT)).

Definition bond_3ad_update_lacp_active : MB unit :=
  let* active := gets (fun st => lacp_active (params st)) in
  for_each_port (fun s =>
    upd_actor_state s (fun v => if active then setf v LACP_STATE_LACP_ACTIVITY
                                else clrf v LACP_STATE_LACP_ACTIVITY)).

Definition bond_3ad_adapter_speed_duplex_changed (s : ptr) : MB unit :=
  let* pt := get_port s in
  match port_slave pt with
  | None => ret tt
  | Some _ => ad_update_actor_keys s false
  end.

Definition bond_3ad_handle_link_change (s : ptr) (link : Z) : MB unit :=
  let* pt := get_port s in
  match port_slave pt with
  | None => ret tt
  | Some _ =>
      (if link =? BOND_LINK_UP then
         upd_port s (fun pt => pt <| is_enabled := true |>) ;;;
         ad_update_actor_keys s false
       else
         upd_port s (fun pt => pt <| is_enabled := false |>) ;;;
         ad_update_actor_keys s true) ;;;
      let* agg := __get_first_agg s in
      let* _ := ad_agg_selection_logic agg false in
      emit UpdateSlaveArr
  end.

(** ** Periodic work *)

(** [bond_agg_timer_advance]: [env] lists the values that concurrent calls of
    [bond_3ad_initiate_agg_selection] store between the read and the compare
    and exchange, one per turn of the loop. *)
Fixpoint bond_agg_timer_advance (env : list Z) : MB bool :=
  let* val := gets agg_select_timer in
  if val =? 0 then ret false
  else
    let nval := val - 1 in
    match env with
    | [] =>
        modify (fun st => st <| agg_select_timer := nval |>) ;;;
        ret (nval =? 0)
    | v :: env =>
        bond_3ad_initiate_agg_selection v ;;;
        if v =? val then
          modify (fun st => st <| agg_select_timer := nval |>) ;;;
          ret (nval =? 0)
        else bond_agg_timer_advance env
    end.

(** The machines of one port, in the order of the handler. *)
Definition run_machines (p : ptr) (upd : bool) : MB bool :=
  ad_rx_machine None p ;;;
  upd_port p ad_periodic_machine ;;;
  let* upd := ad_port_selection_logic p upd in
  let* upd := ad_mux_machine p upd in
  ad_tx_machine p ;;;
  upd_port p ad_churn_machine ;;;
  let* pt := get_port p in
  when_ (has (sm_vars pt) AD_PORT_BEGIN)
    (upd_port p (fun pt => pt <| sm_vars ::= fun v => clrf v AD_PORT_BEGIN |>)) ;;;
  ret upd.

(** The agg_select_timer part; [None] is the jump to [re_arm]. *)
Definition handler_select (env : list Z) (upd : bool) : MB (option bool) :=
  let* expired := bond_agg_timer_advance env in
  if expired : bool then
    let* l := gets slave_list in
    match l with
    | [] => let* _ := bond_3ad_set_carrier in ret (Some upd)
    | first :: _ =>
        let* pt := get_port first in
        match port_slave pt with
        | None => ret None
        | Some _ =>
            let* agg := __get_first_agg first in
            let* upd := ad_agg_selection_logic agg upd in
            let* _ := bond_3ad_set_carrier in
            ret (Some upd)
        end
    end
  else ret (Some upd).

Definition handler_ports (upd : bool) : MB bool :=
  let* l := gets slave_list in
  for_each l upd (fun upd p =>
    let* pt := get_port p in
    match port_slave pt with
    | None => ret (Break upd)
    | Some _ => let* upd := run_machines p upd in ret (Continue upd)
    end).

(** [rtnl] tells whether [rtnl_trylock] succeeds. *)
Definition bond_3ad_state_machine_handler (env : list Z) (rtnl : bool) : MB unit :=
  let* l := gets slave_list in
  let* upd :=
    match l with
    | [] => ret false
    | _ =>
        let* r := handler_select env false in
        match r with
        | None => ret false
        | Some upd => handler_ports upd
        end
    end in
  let* should_notify :=
    for_each l BOND_SLAVE_NOTIFY_LATER (fun n s =>
      let* sl := get_slave s in
      if slave_should_notify (sl_flags sl) then ret (Break BOND_SLAVE_NOTIFY_NOW)
      else ret (Continue n)) in
  when_ upd (emit SlaveArrRearm) ;;;
  when_ (should_notify && rtnl) (emit SlaveStateNotify) ;;;
  emit QueueAdWork.

(** ** Received frames *)

Inductive rx_handler_result := RX_HANDLER_CONSUMED | RX_HANDLER_ANOTHER.

Definition ad_marker_info_received (m : bond_marker) (p : ptr) : MB unit :=
  let* pt := get_port p in
  let* s := deref (port_slave pt) in
  inc_stat s (fun t => t <| marker_rx ::= atomic64_inc |>) ;;;
  let* _ := ad_marker_send p (m <| mk_tlv_type := AD_MARKER_RESPONSE_SUBTYPE |>) in
  ret tt.

Definition ad_marker_response_received (m : bond_marker) (p : ptr) : MB unit :=
  let* pt := get_port p in
  let* s := deref (port_slave pt) in
  inc_stat s (fun t => t <| marker_resp_rx ::= atomic64_inc |>).

Definition bond_3ad_rx_indication (l : lacpdu) (s : ptr) : MB rx_handler_result :=
  let* pt := get_port s in
  match port_slave pt with
  | None => ret RX_HANDLER_ANOTHER
  | Some _ =>
      if l_subtype l =? AD_TYPE_LACPDU then
        ad_rx_machine (Some l) s ;;; ret RX_HANDLER_CONSUMED
      else if l_subtype l =? AD_TYPE_MARKER then
        let m := marker_of_lacpdu l in
        (if mk_tlv_type m =? AD_MARKER_INFORMATION_SUBTYPE
         then ad_marker_info_received m s
         else if mk_tlv_type m =? AD_MARKER_RESPONSE_SUBTYPE
         then ad_marker_response_received m s
         else inc_stat s (fun t => t <| marker_unknown_rx ::= atomic64_inc |>)) ;;;
        ret RX_HANDLER_CONSUMED
      else
        inc_stat s (fun t => t <| lacpdu_unknown_rx ::= atomic64_inc |>) ;;;
        ret RX_HANDLER_ANOTHER
  end.

(** A received frame: protocol, destination, and the payload when the frame
    is long enough to hold a LACPDU ([skb_header_pointer]). *)
Record sk_buff := SkBuff {
  skb_protocol : Z;
  skb_h_dest : mac_addr;
  skb_lacpdu : option lacpdu }.

Definition bond_3ad_lacpdu_recv (skb : sk_buff) (s : ptr) : MB rx_handler_result :=
  if negb (skb_protocol skb =? PKT_TYPE_LACPDU) then ret RX_HANDLER_ANOTHER
  else if negb (MAC_ADDRESS_EQUAL (skb_h_dest skb) lacpdu_mcast_addr)
  then ret RX_HANDLER_ANOTHER
  else
    match skb_lacpdu skb with
    | None =>
        inc_stat s (fun t => t <| lacpdu_illegal_rx ::= atomic64_inc |>) ;;;
        ret RX_HANDLER_ANOTHER
    | Some l => bond_3ad_rx_indication l s
    end.

(** ** Reports *)

Record ad_info := AdInfo {
  aggregator_id : Z;
  ports : Z;
  actor_key : Z;
  partner_key : Z;
  info_partner_system : mac_addr }.

(** [None] is the error return -1. *)
Definition __bond_3ad_get_active_agg_info : MB (option ad_info) :=
  let* l := gets slave_list in
  let* a := for_each l None (fun _ s =>
    let* pt := get_port s in
    match port_aggregator pt with
    | None => ret (Continue None)
    | Some a =>
        let* ag := get_agg a in
        if is_active ag then ret (Break (Some a)) else ret (Continue None)
    end) in
  match a with
  | None => ret None
  | Some a =>
      let* ag := get_agg a in
      let* n := __agg_active_ports a in
      ret (Some (AdInfo (aggregator_identifier ag) n (actor_oper_aggregator_key ag)
                   (partner_oper_aggregator_key ag) (partner_system ag)))
  end.

Definition bond_3ad_get_active_agg_info : MB (option ad_info) :=
  __bond_3ad_get_active_agg_info.
End ad_entry.
