(* ===== verification/AdInv.v ===== *)
(** * 802.3ad: the shape of the heap and the rules for walking it

    The port lists of the aggregators as a well-formedness invariant, the rule
    for loops along [next_port_in_aggregator], what each walk computes, and the
    relation [keeps] that frames the operations which leave the lists alone. *)

From S2P Require Import Prelude.
From S2P Require Import AdTypes.
From S2P Require Import AdPort.
From S2P Require Import AdMachine.

Section ad_inv.
Context `{K : Kernel}.

Abbreviation heap := (gmap ptr slave).

(** ** Chains *)

(** [o] points to the first element of the linked list [l]. *)
Fixpoint lag_chain (h : heap) (o : option ptr) (l : list ptr) : Prop :=
  match l with
  | [] => o = None
  | p :: l' =>
      o = Some p /\
      exists sp, h !! p = Some sp /\
                 lag_chain h (next_port_in_aggregator (ad_port sp)) l'
  end.

Lemma lag_chain_head h o l : lag_chain h o l -> o = head l.
Proof. by destruct l as [|p l]; [|intros [? _]]. Qed.

Lemma lag_chain_split h o pre p post :
  lag_chain h o (pre ++ p :: post) ->
  exists sp, h !! p = Some sp /\ next_port_in_aggregator (ad_port sp) = head post.
Proof.
  revert o. induction pre as [|q pre IH]; simpl; intros o.
  - intros [_ (sp & Hp & Hc)]. exists sp. split; [done|]. by eapply lag_chain_head.
  - intros [_ (sq & _ & Hc)]. by eapply IH.
Qed.

Lemma lag_chain_lookup h o l p : lag_chain h o l -> p ∈ l -> is_Some (h !! p).
Proof.
  intros Hc (pre & post & ->)%list_elem_of_split.
  apply lag_chain_split in Hc as (sp & Hp & _). eauto.
Qed.

(** A chain only depends on the next pointers of its members. *)
Lemma lag_chain_ext h h' o l :
  (forall p, p ∈ l -> forall sp, h !! p = Some sp ->
     exists sp', h' !! p = Some sp' /\
       next_port_in_aggregator (ad_port sp') = next_port_in_aggregator (ad_port sp)) ->
  lag_chain h o l -> lag_chain h' o l.
Proof.
  revert o. induction l as [|p l IH]; intros o Hext Hc; simpl in *; [done|].
  destruct Hc as [-> (sp & Hp & Hc)]. split; [done|].
  destruct (Hext p ltac:(set_solver) sp Hp) as (sp' & Hp' & Hn).
  exists sp'. split; [done|]. rewrite Hn. apply IH; [|done].
  intros q Hq. apply Hext. set_solver.
Qed.

(** ** Well-formed port lists

    [L a] is the list of ports of aggregator [a].  [lv] is the port that is
    being unbound, if any: its own [aggregator] pointer may be stale. *)
Record lag_wf (lv : option ptr) (ids : list ptr) (L : ptr -> list ptr) (h : heap)
    : Prop := {
  lw_ids : NoDup ids;
  lw_in : forall p, p ∈ ids -> is_Some (h !! p);
  lw_chain : forall a sa, a ∈ ids -> h !! a = Some sa ->
    lag_chain h (lag_ports (ad_agg sa)) (L a);
  lw_nodup : forall a, a ∈ ids -> NoDup (L a);
  lw_num : forall a sa, a ∈ ids -> h !! a = Some sa ->
    num_of_ports (ad_agg sa) = u16 (Z.of_nat (length (L a)));
  lw_mem : forall a p, a ∈ ids -> p ∈ L a -> p ∈ ids;
  lw_fwd : forall a p sp, a ∈ ids -> p ∈ L a -> h !! p = Some sp ->
    port_aggregator (ad_port sp) = Some a;
  lw_back : forall a p sp, p ∈ ids -> h !! p = Some sp -> lv <> Some p ->
    port_aggregator (ad_port sp) = Some a -> a ∈ ids /\ p ∈ L a;
  lw_next : forall p sp, p ∈ ids -> h !! p = Some sp -> lv <> Some p ->
    port_aggregator (ad_port sp) = None -> next_port_in_aggregator (ad_port sp) = None;
  lw_slave : forall p sp, p ∈ ids -> h !! p = Some sp ->
    port_slave (ad_port sp) = Some p /\ agg_slave (ad_agg sp) = Some p }.

Lemma lag_wf_disjoint lv ids L h a b p :
  lag_wf lv ids L h -> a ∈ ids -> b ∈ ids -> p ∈ L a -> p ∈ L b -> a = b.
Proof.
  intros Hwf Ha Hb Hpa Hpb.
  destruct (lw_in _ _ _ _ Hwf p) as [sp Hp]; [by eapply lw_mem|].
  pose proof (lw_fwd _ _ _ _ Hwf a p sp Ha Hpa Hp).
  pose proof (lw_fwd _ _ _ _ Hwf b p sp Hb Hpb Hp). congruence.
Qed.

Lemma lag_wf_fuel lv ids L h a :
  lag_wf lv ids L h -> a ∈ ids -> (length (L a) <= size h)%nat.
Proof.
  intros Hwf Ha. pose proof (lw_nodup _ _ _ _ Hwf a Ha) as Hnd.
  rewrite <-size_dom.
  transitivity (size (list_to_set (L a) : gset ptr)).
  - rewrite size_list_to_set by done. done.
  - apply subseteq_size. intros p Hp%elem_of_list_to_set. apply elem_of_dom.
    eapply lw_in, lw_mem; eauto.
Qed.

(** ** Rules for memory access *)

Abbreviation MB := (M bonding).

Lemma wp_get_slave p (Q : slave -> bonding -> Prop) st sp :
  slaves st !! p = Some sp -> Q sp st -> wp (get_slave p) Q st.
Proof. intros Hp HQ. unfold wp, get_slave. by rewrite Hp. Qed.

Lemma wp_get_port p (Q : port -> bonding -> Prop) st sp :
  slaves st !! p = Some sp -> Q (ad_port sp) st -> wp (get_port p) Q st.
Proof. intros Hp HQ. apply wp_bind. by eapply wp_get_slave. Qed.

Lemma wp_get_agg p (Q : aggregator -> bonding -> Prop) st sp :
  slaves st !! p = Some sp -> Q (ad_agg sp) st -> wp (get_agg p) Q st.
Proof. intros Hp HQ. apply wp_bind. by eapply wp_get_slave. Qed.

Lemma wp_upd_slave p f (Q : unit -> bonding -> Prop) st sp :
  slaves st !! p = Some sp -> Q tt (st <| slaves ::= <[p := f sp]> |>) ->
  wp (upd_slave p f) Q st.
Proof. intros Hp HQ. unfold wp, upd_slave. by rewrite Hp. Qed.

Lemma wp_deref {A} (o : option A) (a : A) (Q : A -> bonding -> Prop) st :
  o = Some a -> Q a st -> wp (deref o) Q st.
Proof. intros -> HQ. exact HQ. Qed.

Lemma wp_when b (m : MB unit) (Q : unit -> bonding -> Prop) st :
  (b = true -> wp m Q st) -> (b = false -> Q tt st) -> wp (when_ b m) Q st.
Proof. intros. destruct b; [auto|]. apply wp_ret. auto. Qed.

(** ** The loop rule

    While the body goes on, the list must stay linked as it was. *)
Lemma wp_for_lag {A} (I : list ptr -> A -> bonding -> Prop) (Q : A -> bonding -> Prop)
    (body : A -> ptr -> MB (ctl A)) l0 l pre fuel a st :
  l0 = pre ++ l -> (length l <= fuel)%nat -> I pre a st ->
  (forall pre a st, I pre a st -> lag_chain (slaves st) (head l0) l0) ->
  (forall pre p post a st, l0 = pre ++ p :: post -> I pre a st ->
     wp (body a p) (fun c st' =>
       match c with
       | Continue a' => I (pre ++ [p]) a' st'
       | Break a' => Q a' st'
       end) st) ->
  (forall a st, I l0 a st -> Q a st) ->
  wp (for_lag fuel (head l) a body) Q st.
Proof.
  intros Hl0 Hfuel HI Hch Hbody Hend. revert pre l a st Hl0 Hfuel HI.
  induction fuel as [|fuel IH]; intros pre [|p l] a st Hl0 Hfuel HI; simpl in *.
  1, 3: apply wp_ret, Hend; rewrite app_nil_r in Hl0; by subst.
  1: lia.
  apply wp_bind. eapply wp_mono; [by eapply Hbody|].
  intros [a'|a'] st' HI'; [|by apply wp_ret].
  pose proof (Hch _ _ _ HI') as Hc. rewrite Hl0 in Hc.
  apply lag_chain_split in Hc as (sp & Hp & Hn).
  apply wp_bind. eapply wp_get_port; [done|]. rewrite Hn.
  apply (IH (pre ++ [p])); [|lia|done]. by rewrite <-app_assoc.
Qed.

Lemma wp_for_agg_ports {A} lv ids L a sa (I : list ptr -> A -> bonding -> Prop)
    (Q : A -> bonding -> Prop) (body : A -> ptr -> MB (ctl A)) x st :
  lag_wf lv ids L (slaves st) -> a ∈ ids -> slaves st !! a = Some sa ->
  I [] x st ->
  (forall pre x st', I pre x st' -> lag_chain (slaves st') (head (L a)) (L a)) ->
  (forall pre p post x st', L a = pre ++ p :: post -> I pre x st' ->
     wp (body x p) (fun c st'' =>
       match c with
       | Continue x' => I (pre ++ [p]) x' st''
       | Break x' => Q x' st''
       end) st') ->
  (forall x st', I (L a) x st' -> Q x st') ->
  wp (for_agg_ports a x body) Q st.
Proof.
  intros Hwf Ha Hsa HI Hch Hbody Hend.
  apply wp_bind, wp_gets, wp_bind. eapply wp_get_agg; [done|].
  rewrite (lag_chain_head _ _ _ (lw_chain _ _ _ _ Hwf a sa Ha Hsa)).
  apply (wp_for_lag I Q body (L a) (L a) []); try done.
  pose proof (lag_wf_fuel _ _ _ _ a Hwf Ha). unfold lag_fuel. lia.
Qed.

(** ** What the walks compute *)

Definition ports_at (h : heap) (l : list ptr) : list port :=
  omap (fun p => ad_port <$> h !! p) l.
Definition slaves_at (h : heap) (l : list ptr) : list slave :=
  omap (fun p => h !! p) l.

Definition all_ready (h : heap) (l : list ptr) : bool :=
  forallb (fun pt => has (sm_vars pt) AD_PORT_READY_N) (ports_at h l).
Definition active_count (h : heap) (l : list ptr) : Z :=
  Z.of_nat (length (filter (fun pt => is_enabled pt = true) (ports_at h l))).
Definition priority_sum (h : heap) (l : list ptr) : Z :=
  foldl (fun n pt => if is_enabled pt then u32 (n + actor_port_priority pt) else n)
    0 (ports_at h l).
Definition lag_up (h : heap) (l : list ptr) : bool :=
  existsb (fun sl => netif_running (sl_dev sl) && netif_carrier_ok (sl_dev sl))
    (slaves_at h l).
(** The bandwidth is the speed of the first port times the enabled ports. *)
Definition bandwidth (h : heap) (l : list ptr) : Z :=
  match slaves_at h l with
  | [] => 0
  | sl :: _ => u32 (active_count h l * switch_z bandwidth_cases 0 (link_speed_of sl))
  end.

Lemma ports_at_snoc h l p sp :
  h !! p = Some sp -> ports_at h (l ++ [p]) = ports_at h l ++ [ad_port sp].
Proof. intros Hp. unfold ports_at. rewrite omap_app. simpl. by rewrite Hp. Qed.

Lemma slaves_at_snoc h l p sp :
  h !! p = Some sp -> slaves_at h (l ++ [p]) = slaves_at h l ++ [sp].
Proof. intros Hp. unfold slaves_at. rewrite omap_app. simpl. by rewrite Hp. Qed.

Lemma active_count_nonneg h l : 0 <= active_count h l.
Proof. unfold active_count. lia. Qed.

Section walks.
Context (lv : option ptr) (ids : list ptr) (L : ptr -> list ptr) (st : bonding).
Context (Hwf : lag_wf lv ids L (slaves st)).
Context (a : ptr) (Ha : a ∈ ids).

(** Read-only walks: the state is unchanged, the accumulator is described by
    the ports passed so far. *)
Lemma wp_walk {A} (P : list ptr -> A -> Prop) (Q : A -> Prop)
    (body : A -> ptr -> MB (ctl A)) x :
  P [] x ->
  (forall pre p post x sp, L a = pre ++ p :: post -> slaves st !! p = Some sp ->
     p ∈ ids -> P pre x ->
     wp (body x p) (fun c st' => st' = st /\
       match c with Continue x' => P (pre ++ [p]) x' | Break x' => Q x' end) st) ->
  (forall x, P (L a) x -> Q x) ->
  wp (for_agg_ports a x body) (fun x' st' => st' = st /\ Q x') st.
Proof.
  intros HP Hbody Hend.
  destruct (lw_in _ _ _ _ Hwf a Ha) as [sa Hsa].
  eapply (wp_for_agg_ports lv ids L a sa (fun pre x st' => st' = st /\ P pre x));
    [done|done|done|done| | |by intros x' st' [-> ?]; auto].
  - intros pre x' st' [-> _].
    pose proof (lw_chain _ _ _ _ Hwf a sa Ha Hsa) as Hc.
    by rewrite <-(lag_chain_head _ _ _ Hc).
  - intros pre p post x' st' Hl [-> HPx].
    assert (p ∈ ids) as Hp.
    { eapply lw_mem; [done|exact Ha|]. rewrite Hl. set_solver. }
    destruct (lw_in _ _ _ _ Hwf p Hp) as [sp Hsp].
    eapply wp_mono; [by eapply Hbody|].
    intros [x2|x2] st2 [-> ?]; done.
Qed.

Lemma wp_agg_active_ports :
  wp (__agg_active_ports a)
    (fun n st' => st' = st /\ n = active_count (slaves st) (L a)) st.
Proof.
  apply (wp_walk (fun pre n => n = active_count (slaves st) pre)
                 (fun n => n = active_count (slaves st) (L a))); [done| |done].
  intros pre p post n sp Hl Hsp Hp ->.
  apply wp_bind. eapply wp_get_port; [done|]. apply wp_ret. split; [done|].
  unfold active_count. rewrite (ports_at_snoc _ _ _ _ Hsp), filter_app, length_app.
  rewrite filter_cons. case_decide as E.
  - rewrite E. simpl. lia.
  - destruct (is_enabled (ad_port sp)); [done|]. simpl. lia.
Qed.

Lemma wp_agg_ports_priority :
  wp (__agg_ports_priority a)
    (fun n st' => st' = st /\ n = priority_sum (slaves st) (L a)) st.
Proof.
  apply (wp_walk (fun pre n => n = priority_sum (slaves st) pre)
                 (fun n => n = priority_sum (slaves st) (L a))); [done| |done].
  intros pre p post n sp Hl Hsp Hp ->.
  apply wp_bind. eapply wp_get_port; [done|]. apply wp_ret. split; [done|].
  unfold priority_sum. by rewrite (ports_at_snoc _ _ _ _ Hsp), foldl_snoc.
Qed.

Lemma wp_agg_ports_are_ready :
  wp (__agg_ports_are_ready (Some a))
    (fun r st' => st' = st /\ r = all_ready (slaves st) (L a)) st.
Proof.
  apply (wp_walk (fun pre r => r = true /\ all_ready (slaves st) pre = true)
                 (fun r => r = all_ready (slaves st) (L a))); [done| |].
  - intros pre p post n sp Hl Hsp Hp [-> Hr].
    apply wp_bind. eapply wp_get_port; [done|].
    assert (forall q, all_ready (slaves st) (pre ++ p :: q) =
              has (sm_vars (ad_port sp)) AD_PORT_READY_N && all_ready (slaves st) q)
      as Hsplit.
    { intros q. unfold all_ready, ports_at in *. rewrite omap_app, forallb_app, Hr.
      simpl. by rewrite Hsp. }
    destruct (has (sm_vars (ad_port sp)) AD_PORT_READY_N) eqn:E; simpl;
      apply wp_ret; (split; [done|]).
    + split; [done|]. by rewrite Hsplit.
    + by rewrite Hl, Hsplit.
  - by intros x [-> ->].
Qed.

Lemma wp_agg_device_up :
  wp (agg_device_up a)
    (fun r st' => st' = st /\ r = lag_up (slaves st) (L a)) st.
Proof.
  apply (wp_walk (fun pre r => r = false /\ lag_up (slaves st) pre = false)
                 (fun r => r = lag_up (slaves st) (L a))); [done| |].
  - intros pre p post n sp Hl Hsp Hp [-> Hr].
    apply wp_bind. eapply wp_get_port; [done|].
    destruct (lw_slave _ _ _ _ Hwf p sp Hp Hsp) as [Hps _].
    apply wp_bind. eapply wp_deref; [done|].
    apply wp_bind. eapply wp_get_slave; [done|].
    assert (forall q, lag_up (slaves st) (pre ++ p :: q) =
              (netif_running (sl_dev sp) && netif_carrier_ok (sl_dev sp))
              || lag_up (slaves st) q) as Hsplit.
    { intros q. unfold lag_up, slaves_at in *. rewrite omap_app, existsb_app, Hr.
      simpl. by rewrite Hsp. }
    destruct (netif_running (sl_dev sp) && netif_carrier_ok (sl_dev sp)) eqn:E;
      apply wp_ret; (split; [done|]).
    + by rewrite Hl, Hsplit.
    + split; [done|]. by rewrite Hsplit.
  - by intros x [-> ->].
Qed.

Lemma wp_get_agg_bandwidth :
  wp (__get_agg_bandwidth a)
    (fun n st' => st' = st /\ n = bandwidth (slaves st) (L a)) st.
Proof.
  apply wp_bind. eapply wp_mono; [apply wp_agg_active_ports|].
  intros n st' [-> ->].
  destruct (lw_in _ _ _ _ Hwf a Ha) as [sa Hsa].
  pose proof (lw_chain _ _ _ _ Hwf a sa Ha Hsa) as Hc.
  assert (forall p, p ∈ L a -> p ∈ ids) as Hmem by (intros; by eapply lw_mem).
  unfold bandwidth.
  destruct (L a) as [|p l] eqn:EL; simpl in Hc.
  { apply wp_ret. done. }
  destruct Hc as [Hlag (sp & Hp & _)].
  unfold slaves_at. simpl. rewrite Hp.
  destruct (Z.eqb_spec (active_count (slaves st) (p :: l)) 0) as [E|E].
  - apply wp_ret. split; [done|]. by rewrite E.
  - apply wp_bind. eapply wp_get_agg; [done|]. apply wp_bind.
    unfold __get_link_speed. apply wp_bind. eapply wp_deref; [done|].
    apply wp_bind. eapply wp_get_port; [done|].
    destruct (lw_slave _ _ _ _ Hwf p sp (Hmem p ltac:(set_solver)) Hp) as [Hps _].
    apply wp_bind. eapply wp_deref; [done|].
    apply wp_bind. eapply wp_get_slave; [done|]. by repeat apply wp_ret.
Qed.
End walks.

(** ** Frames *)

(** Slave by slave, heap [h'] is related to [h]. *)
Definition heap_rel (R : ptr -> slave -> slave -> Prop) (h h' : heap) : Prop :=
  (forall q, h !! q = None -> h' !! q = None) /\
  (forall q s, h !! q = Some s -> exists s', h' !! q = Some s' /\ R q s s').

Lemma heap_rel_inv R h h' q s' :
  heap_rel R h h' -> h' !! q = Some s' -> exists s, h !! q = Some s /\ R q s s'.
Proof.
  intros [Hn Hs] Hq. destruct (h !! q) as [s|] eqn:E.
  - destruct (Hs q s E) as (s2 & ? & ?). simplify_eq. eauto.
  - rewrite (Hn q E) in Hq. done.
Qed.

Lemma heap_rel_mono (R R' : ptr -> slave -> slave -> Prop) h h' :
  (forall q s s', R q s s' -> R' q s s') -> heap_rel R h h' -> heap_rel R' h h'.
Proof. intros HR [Hn Hs]. split; [done|]. naive_solver. Qed.

(** The part of a slave that the port lists depend on. *)
Record links_eq (s s' : slave) : Prop := {
  se_next : next_port_in_aggregator (ad_port s') = next_port_in_aggregator (ad_port s);
  se_agg : port_aggregator (ad_port s') = port_aggregator (ad_port s);
  se_pslave : port_slave (ad_port s') = port_slave (ad_port s);
  se_aslave : agg_slave (ad_agg s') = agg_slave (ad_agg s);
  se_lag : lag_ports (ad_agg s') = lag_ports (ad_agg s);
  se_num : num_of_ports (ad_agg s') = num_of_ports (ad_agg s) }.

Record shape_eq (s s' : slave) : Prop := {
  se_links :> links_eq s s';
  se_sel : has (sm_vars (ad_port s')) AD_PORT_SELECTED =
           has (sm_vars (ad_port s)) AD_PORT_SELECTED }.

(** The mux state and the two flags advertised because of it. *)
Record mux_eq (s s' : slave) : Prop := {
  me_state : sm_mux_state (ad_port s') = sm_mux_state (ad_port s);
  me_coll : has (actor_oper_port_state (ad_port s')) LACP_STATE_COLLECTING =
            has (actor_oper_port_state (ad_port s)) LACP_STATE_COLLECTING;
  me_dist : has (actor_oper_port_state (ad_port s')) LACP_STATE_DISTRIBUTING =
            has (actor_oper_port_state (ad_port s)) LACP_STATE_DISTRIBUTING }.

(** [keeps act exc st st']: the bond has the same slaves with the same shape;
    with [act], the same aggregators are active; the mux state and its
    flags of every port but [exc] are as before. *)
Record keeps (act : bool) (exc : option ptr) (st st' : bonding) : Prop := {
  kp_params : params st' = params st;
  kp_list : slave_list st' = slave_list st;
  kp_dom : forall q, slaves st !! q = None -> slaves st' !! q = None;
  kp_slave : forall q s, slaves st !! q = Some s ->
    exists s', slaves st' !! q = Some s' /\ shape_eq s s' /\
      (act = true -> is_active (ad_agg s') = is_active (ad_agg s)) /\
      (exc <> Some q -> mux_eq s s') }.

Lemma shape_eq_refl s : shape_eq s s.
Proof. by repeat split. Qed.
Lemma shape_eq_trans s1 s2 s3 : shape_eq s1 s2 -> shape_eq s2 s3 -> shape_eq s1 s3.
Proof. intros [[] ?] [[] ?]. split; [split|]; congruence. Qed.

Lemma keeps_refl act exc st : keeps act exc st st.
Proof.
  split; [done|done|done|]. intros q s Hq. exists s.
  split; [done|]. split; [apply shape_eq_refl|]. split; [done|]. by intros _.
Qed.

Lemma keeps_trans act exc st1 st2 st3 :
  keeps act exc st1 st2 -> keeps act exc st2 st3 -> keeps act exc st1 st3.
Proof.
  intros [P1 L1 D1 S1] [P2 L2 D2 S2]. split; [congruence|congruence|auto|].
  intros q s Hq. destruct (S1 q s Hq) as (s2 & Hq2 & Hs2 & Ha2 & Hm2).
  destruct (S2 q s2 Hq2) as (s3 & Hq3 & Hs3 & Ha3 & Hm3).
  exists s3. split; [done|]. split; [by eapply shape_eq_trans|].
  split; [intros; rewrite Ha3, Ha2; done|].
  intros He. destruct (Hm2 He), (Hm3 He). split; congruence.
Qed.

Lemma keeps_weaken act act' exc exc' st st' :
  keeps act exc st st' -> (act' = true -> act = true) ->
  (forall q, exc' <> Some q -> exc <> Some q) -> keeps act' exc' st st'.
Proof.
  intros [P1 L1 D1 S1] Hact Hexc. split; [done|done|done|].
  intros q s Hq. destruct (S1 q s Hq) as (s2 & Hq2 & Hs2 & Ha2 & Hm2).
  exists s2. naive_solver.
Qed.

(** A state whose heap agrees outside the slaves is kept. *)
Lemma keeps_same_slaves act exc st st' :
  params st' = params st -> slave_list st' = slave_list st ->
  slaves st' = slaves st -> keeps act exc st st'.
Proof.
  intros HP HL HS. split; [done|done|by rewrite HS|]. rewrite HS.
  intros q s Hq. exists s. split; [done|]. split; [apply shape_eq_refl|].
  split; [done|]. by intros _.
Qed.

Lemma keeps_insert act exc st p s s' :
  slaves st !! p = Some s -> shape_eq s s' ->
  (act = true -> is_active (ad_agg s') = is_active (ad_agg s)) ->
  (exc <> Some p -> mux_eq s s') ->
  keeps act exc st (st <| slaves ::= <[p := s']> |>).
Proof.
  intros Hp Hs Ha Hm. split; [done|done| |]; rec_simpl.
  - intros q Hq. rewrite lookup_insert_ne by congruence. done.
  - intros q sq Hq. destruct (decide (p = q)) as [->|Hne].
    + rewrite lookup_insert_eq. simplify_eq. eauto.
    + rewrite lookup_insert_ne by done. exists sq. split; [done|].
      split; [apply shape_eq_refl|]. split; [done|]. by intros _.
Qed.

Lemma lag_wf_links lv ids L h h' :
  heap_rel (fun _ => links_eq) h h' -> lag_wf lv ids L h -> lag_wf lv ids L h'.
Proof.
  intros Hr Hwf.
  assert (forall q s', h' !! q = Some s' -> exists s, h !! q = Some s /\ links_eq s s')
    as Hinv by (intros; by eapply heap_rel_inv in Hr).
  destruct Hr as [HD HS]. split.
  - apply Hwf.
  - intros p [s Hp]%(lw_in _ _ _ _ Hwf). destruct (HS p s Hp) as (s' & ? & _). eauto.
  - intros a sa' Ha Hsa'. destruct (Hinv a sa' Hsa') as (sa & Hsa & Hsh).
    rewrite (se_lag _ _ Hsh). eapply lag_chain_ext; [|by eapply lw_chain].
    intros p Hp sp Hsp. destruct (HS p sp Hsp) as (sp' & ? & Hsh').
    exists sp'. split; [done|]. apply (se_next _ _ Hsh').
  - apply Hwf.
  - intros a sa' Ha Hsa'. destruct (Hinv a sa' Hsa') as (sa & Hsa & Hsh).
    rewrite (se_num _ _ Hsh). by eapply lw_num.
  - apply Hwf.
  - intros a p sp' Ha Hp Hsp'. destruct (Hinv p sp' Hsp') as (sp & Hsp & Hsh).
    rewrite (se_agg _ _ Hsh). by eapply lw_fwd.
  - intros a p sp' Hp Hsp' Hlv. destruct (Hinv p sp' Hsp') as (sp & Hsp & Hsh).
    rewrite (se_agg _ _ Hsh). by eapply lw_back.
  - intros p sp' Hp Hsp' Hlv. destruct (Hinv p sp' Hsp') as (sp & Hsp & Hsh).
    rewrite (se_agg _ _ Hsh), (se_next _ _ Hsh). by eapply lw_next.
  - intros p sp' Hp Hsp'. destruct (Hinv p sp' Hsp') as (sp & Hsp & Hsh).
    rewrite (se_pslave _ _ Hsh), (se_aslave _ _ Hsh). by eapply lw_slave.
Qed.

Lemma keeps_links act exc st st' :
  keeps act exc st st' -> heap_rel (fun _ => links_eq) (slaves st) (slaves st').
Proof.
  intros [_ _ HD HS]. split; [done|]. intros q s Hq.
  destruct (HS q s Hq) as (s' & ? & Hsh & _). exists s'. split; [done|]. apply Hsh.
Qed.

Lemma lag_wf_keeps act exc lv ids L st st' :
  keeps act exc st st' -> lag_wf lv ids L (slaves st) -> lag_wf lv ids L (slaves st').
Proof. intros Hk. by eapply lag_wf_links, keeps_links. Qed.

(** *** Updates that keep the frame *)

(** An update of fields outside the frame. *)
Ltac keeps_insert_tac :=
  eapply keeps_insert;
  [ eassumption
  | split; [split|]; (reflexivity || (rec_simpl; by flags))
  | intros _; reflexivity
  | intros _; split; reflexivity ].

Section kept.
Context (lv : option ptr) (ids : list ptr) (L : ptr -> list ptr).

Lemma wp_upd_flags f p st :
  lag_wf lv ids L (slaves st) -> p ∈ ids ->
  wp (upd_flags f p) (fun _ st' => keeps true None st st') st.
Proof.
  intros Hwf Hp. destruct (lw_in _ _ _ _ Hwf p Hp) as [sp Hsp].
  apply wp_bind. eapply wp_get_port; [done|].
  destruct (lw_slave _ _ _ _ Hwf p sp Hp Hsp) as [Hps _].
  apply wp_bind. eapply wp_deref; [done|].
  eapply wp_upd_slave; [done|]. keeps_insert_tac.
Qed.

Lemma wp_slave_link_usable p st :
  lag_wf lv ids L (slaves st) -> p ∈ ids ->
  wp (slave_link_usable p) (fun _ st' => st' = st) st.
Proof.
  intros Hwf Hp. destruct (lw_in _ _ _ _ Hwf p Hp) as [sp Hsp].
  apply wp_bind. eapply wp_get_port; [done|].
  destruct (lw_slave _ _ _ _ Hwf p sp Hp Hsp) as [Hps _].
  apply wp_bind. eapply wp_deref; [done|].
  apply wp_bind. eapply wp_get_slave; [done|]. by apply wp_ret.
Qed.

Lemma wp_enable_port p st :
  lag_wf lv ids L (slaves st) -> p ∈ ids ->
  wp (__enable_port p) (fun _ st' => keeps true None st st') st.
Proof.
  intros Hwf Hp. apply wp_bind. eapply wp_mono; [by apply wp_slave_link_usable|].
  intros b st' ->. apply wp_when; intros _; [by apply wp_upd_flags|apply keeps_refl].
Qed.

Lemma wp_enable_collecting_port p st :
  lag_wf lv ids L (slaves st) -> p ∈ ids ->
  wp (__enable_collecting_port p) (fun _ st' => keeps true None st st') st.
Proof.
  intros Hwf Hp. apply wp_bind. eapply wp_mono; [by apply wp_slave_link_usable|].
  intros b st' ->. apply wp_when; intros _; [by apply wp_upd_flags|apply keeps_refl].
Qed.

(** A loop over the ports of an aggregator keeps what its body keeps. *)
Lemma wp_for_agg_ports_keeps act exc (f : ptr -> MB unit) a st :
  lag_wf lv ids L (slaves st) -> a ∈ ids ->
  (forall p st', p ∈ L a -> p ∈ ids -> lag_wf lv ids L (slaves st') ->
     wp (f p) (fun _ st'' => keeps act exc st' st'') st') ->
  wp (for_agg_ports a tt (fun _ p => f p ;;; ret (Continue tt)))
    (fun _ st' => keeps act exc st st') st.
Proof.
  intros Hwf Ha Hf. destruct (lw_in _ _ _ _ Hwf a Ha) as [sa Hsa].
  eapply (wp_for_agg_ports lv ids L a sa (fun _ _ st' => keeps act exc st st'));
    [done|done|done|apply keeps_refl| | |done].
  - intros _ _ st' Hk. pose proof (lag_wf_keeps _ _ _ _ _ _ _ Hk Hwf) as Hwf'.
    destruct (lw_in _ _ _ _ Hwf' a Ha) as [sa' Hsa'].
    pose proof (lw_chain _ _ _ _ Hwf' a sa' Ha Hsa') as Hc.
    by rewrite <-(lag_chain_head _ _ _ Hc).
  - intros pre p post _ st' Hl Hk.
    assert (p ∈ L a) as HpL by (rewrite Hl; set_solver).
    apply wp_bind. eapply wp_mono.
    + apply Hf; [done|by eapply lw_mem|by eapply lag_wf_keeps].
    + intros ? st'' Hk'. apply wp_ret. by eapply keeps_trans.
Qed.

Lemma wp_set_agg_ports_ready a val st :
  lag_wf lv ids L (slaves st) -> a ∈ ids ->
  wp (__set_agg_ports_ready (Some a) val) (fun _ st' => keeps true None st st') st.
Proof.
  intros Hwf Ha. apply wp_bind. eapply wp_deref; [done|].
  apply wp_for_agg_ports_keeps; [done|done|].
  intros p st' _ Hp Hwf'. destruct (lw_in _ _ _ _ Hwf' p Hp) as [sp Hsp].
  eapply wp_upd_slave; [done|]. unfold set_ready. destruct val; keeps_insert_tac.
Qed.

Lemma wp_inc_stat f s st :
  lag_wf lv ids L (slaves st) -> s ∈ ids ->
  wp (inc_stat s f) (fun _ st' => keeps true None st st') st.
Proof.
  intros Hwf Hs. destruct (lw_in _ _ _ _ Hwf s Hs) as [sl Hsl].
  apply wp_bind. eapply wp_upd_slave; [done|]. apply wp_mod.
  apply (keeps_trans _ _ _ (st <| slaves ::= <[s := sl <| ad_stats ::= f |>]> |>));
    [keeps_insert_tac|by apply keeps_same_slaves].
Qed.

Lemma wp_ad_lacpdu_send p st :
  lag_wf lv ids L (slaves st) -> p ∈ ids ->
  wp (ad_lacpdu_send p) (fun _ st' => keeps true None st st') st.
Proof.
  intros Hwf Hp. destruct (lw_in _ _ _ _ Hwf p Hp) as [sp Hsp].
  destruct (lw_slave _ _ _ _ Hwf p sp Hp Hsp) as [Hps _].
  apply wp_bind. eapply wp_get_port; [done|].
  apply wp_bind, wp_bind, wp_gets, wp_bind, wp_mod, wp_ret.
  set (st1 := st <| alloc_count ::= S |>).
  assert (keeps true None st st1) as Hk1 by by apply keeps_same_slaves.
  destruct (dev_alloc_skb_ok _); [|by apply wp_ret].
  apply wp_bind. eapply wp_deref; [done|].
  apply wp_bind. eapply wp_mono; [by apply wp_inc_stat|].
  intros ? st2 Hk2. pose proof (lag_wf_keeps _ _ _ _ _ _ _ Hk2 Hwf) as Hwf2.
  destruct (lw_in _ _ _ _ Hwf2 p Hp) as [sp2 Hsp2].
  apply wp_bind. eapply wp_get_slave; [done|].
  apply wp_bind, wp_mod, wp_ret.
  eapply keeps_trans; [exact Hk1|]. eapply keeps_trans; [exact Hk2|].
  by apply keeps_same_slaves.
Qed.
End kept.
End ad_inv.
