(* ===== verification/AdSelect.v ===== *)
(** * 802.3ad: what the aggregator selection computes

    A specification of [ad_agg_selection_logic] as a function of the heap: the
    candidates are ranked lexicographically by the policy, and the code makes
    exactly the chosen aggregator active. *)

From S2P Require Import Prelude.
From S2P Require Import AdTypes.
From S2P Require Import AdPort.
From S2P Require Import AdMachine.
From S2P Require Import AdControl.
From S2P Require Import AdInv.

(** ** Lexicographic order on keys *)

Fixpoint lex_ltb (x y : list Z) : bool :=
  match x, y with
  | a :: x, b :: y => (a <? b) || ((a =? b) && lex_ltb x y)
  | _, _ => false
  end.

Lemma lex_ltb_irrefl x : lex_ltb x x = false.
Proof. induction x as [|a x IH]; simpl; [done|]. rewrite IH. lia. Qed.

Lemma lex_ltb_neg_trans x y z :
  length x = length y -> length y = length z ->
  lex_ltb x y = false -> lex_ltb y z = false -> lex_ltb x z = false.
Proof.
  revert y z. induction x as [|a x IH]; intros [|b y] [|c z]; simpl; try done.
  intros Hl1 Hl2 H1 H2.
  apply orb_false_iff in H1 as [H1 H1'], H2 as [H2 H2'].
  apply orb_false_iff. split; [lia|].
  destruct (Z.eqb_spec a c) as [->|]; simpl; [|done].
  assert (b = c) as -> by lia. rewrite Z.eqb_refl in H1', H2'. simpl in *.
  apply (IH y z); [lia|lia|done|done].
Qed.

Lemma lex_ltb_lt_false x y :
  length x = length y -> lex_ltb x y = true -> lex_ltb y x = false.
Proof.
  revert y. induction x as [|a x IH]; intros [|b y]; simpl; try done.
  intros Hl [H|[H1 H2]%andb_true_iff]%orb_true_iff.
  - apply orb_false_iff. split; [lia|]. rewrite (proj2 (Z.eqb_neq b a)) by lia. done.
  - apply orb_false_iff. split; [lia|]. rewrite (IH y) by (lia || done). apply andb_false_r.
Qed.

Section ad_select.
Context `{K : Kernel}.

Abbreviation heap := (gmap ptr slave).
Abbreviation MB := (M bonding).

(** ** The specification *)

Definition policy_key (mode : Z) (h : heap) (l : list ptr) : list Z :=
  if mode =? BOND_AD_PRIO then [priority_sum h l; active_count h l; bandwidth h l]
  else if mode =? BOND_AD_COUNT then [active_count h l; bandwidth h l]
  else if (mode =? BOND_AD_STABLE) || (mode =? BOND_AD_BANDWIDTH) then [bandwidth h l]
  else [].

(** Not individual first, then with a partner, then by the policy. *)
Definition agg_key (mode : Z) (h : heap) (L : ptr -> list ptr) (a : ptr) : list Z :=
  match h !! a with
  | None => [0; 0] ++ policy_key mode h (L a)
  | Some s =>
      [Z.b2z (negb (is_individual (ad_agg s))); Z.b2z (__agg_has_partner (ad_agg s))]
      ++ policy_key mode h (L a)
  end.

Definition candidate (h : heap) (L : ptr -> list ptr) (a : ptr) : bool :=
  negb (active_count h (L a) =? 0) && lag_up h (L a).

Definition pick (mode : Z) (h : heap) (L : ptr -> list ptr)
    (best : option ptr) (a : ptr) : option ptr :=
  match best with
  | None => Some a
  | Some b => if lex_ltb (agg_key mode h L b) (agg_key mode h L a) then Some a else Some b
  end.

Definition best_of (mode : Z) (h : heap) (L : ptr -> list ptr)
    (init : option ptr) (ids : list ptr) : option ptr :=
  foldl (fun b a => if candidate h L a then pick mode h L b a else b) init ids.

Definition is_active_at (h : heap) (a : ptr) : bool :=
  match h !! a with Some s => is_active (ad_agg s) | None => false end.

Definition active_of (h : heap) (ids : list ptr) : option ptr :=
  head (filter (fun a => is_active_at h a = true) ids).

Definition stable_keeps (h : heap) (L : ptr -> list ptr) (a b : ptr) : bool :=
  match h !! a, h !! b with
  | Some sa, Some sb =>
      negb (active_count h (L a) =? 0) &&
      (__agg_has_partner (ad_agg sa) || negb (__agg_has_partner (ad_agg sb))) &&
      negb ((actor_oper_aggregator_key (ad_agg sa) =? 0) &&
            negb (actor_oper_aggregator_key (ad_agg sb) =? 0))
  | _, _ => false
  end.

(** The best candidate, the former active aggregator included if it is up. *)
Definition best_agg (mode : Z) (h : heap) (L : ptr -> list ptr) (ids : list ptr)
    : option ptr :=
  let init := match active_of h ids with
              | Some a => if lag_up h (L a) then Some a else None
              | None => None
              end in
  best_of mode h L init ids.

(** The aggregator that the selection logic makes active. *)
Definition select_result (mode : Z) (h : heap) (L : ptr -> list ptr) (ids : list ptr)
    : option ptr :=
  match best_agg mode h L ids with
  | None => None
  | Some b =>
      if mode =? BOND_AD_STABLE then
        match active_of h ids with
        | Some a => if stable_keeps h L a b then Some a else Some b
        | None => Some b
        end
      else Some b
  end.

(** ** Independence from the activity flag *)

Definition deact (s : slave) : slave :=
  s <| ad_agg ::= fun ag => ag <| is_active := false |> |>.

(** Two heaps that differ only in [is_active]. *)
Definition same_but_active (h h' : heap) : Prop := deact <$> h = deact <$> h'.

Lemma ports_at_deact h l : ports_at (deact <$> h) l = ports_at h l.
Proof.
  apply list_omap_ext, Forall_Forall2_diag, Forall_true. intros p.
  rewrite lookup_fmap. by destruct (h !! p).
Qed.

Lemma slaves_at_deact h l : slaves_at (deact <$> h) l = deact <$> slaves_at h l.
Proof.
  unfold slaves_at. rewrite list_fmap_omap.
  apply list_omap_ext, Forall_Forall2_diag, Forall_true. intros p.
  by rewrite lookup_fmap.
Qed.

Lemma active_count_deact h l : active_count (deact <$> h) l = active_count h l.
Proof. unfold active_count. by rewrite ports_at_deact. Qed.

Lemma lag_up_deact h l : lag_up (deact <$> h) l = lag_up h l.
Proof.
  unfold lag_up. rewrite slaves_at_deact.
  induction (slaves_at h l) as [|s ss IH]; [done|].
  rewrite fmap_cons. cbn [existsb]. by rewrite IH.
Qed.

Lemma policy_key_deact mode h l : policy_key mode (deact <$> h) l = policy_key mode h l.
Proof.
  assert (bandwidth (deact <$> h) l = bandwidth h l) as Hb.
  { unfold bandwidth. rewrite slaves_at_deact, active_count_deact.
    by destruct (slaves_at h l). }
  unfold policy_key, priority_sum. by rewrite ports_at_deact, active_count_deact, Hb.
Qed.

Lemma agg_key_deact mode h L a : agg_key mode (deact <$> h) L a = agg_key mode h L a.
Proof.
  unfold agg_key. rewrite lookup_fmap, policy_key_deact. by destruct (h !! a).
Qed.

Lemma candidate_deact h L a : candidate (deact <$> h) L a = candidate h L a.
Proof. unfold candidate. by rewrite active_count_deact, lag_up_deact. Qed.

Lemma stable_keeps_deact h L a b : stable_keeps (deact <$> h) L a b = stable_keeps h L a b.
Proof.
  unfold stable_keeps. rewrite !lookup_fmap, active_count_deact.
  by destruct (h !! a), (h !! b).
Qed.

Lemma same_but_active_via {A} (f : heap -> A) h h' :
  (forall h, f (deact <$> h) = f h) -> same_but_active h h' -> f h = f h'.
Proof. intros Hf Hs. rewrite <-(Hf h), <-(Hf h'). by rewrite Hs. Qed.

(** ** Ranking *)

Lemma agg_key_length mode h L a b :
  length (agg_key mode h L a) = length (agg_key mode h L b).
Proof.
  unfold agg_key, policy_key.
  destruct (h !! a), (h !! b), (mode =? BOND_AD_PRIO), (mode =? BOND_AD_COUNT),
    ((mode =? BOND_AD_STABLE) || (mode =? BOND_AD_BANDWIDTH)); done.
Qed.

(** The result of the scan is ranked at least as high as every candidate seen
    and as the initial aggregator, and is one of them. *)
Lemma best_of_spec mode h L init ids b :
  best_of mode h L init ids = Some b ->
  (forall c, c ∈ ids -> candidate h L c = true \/ init = Some c ->
     lex_ltb (agg_key mode h L b) (agg_key mode h L c) = false) /\
  (forall c, init = Some c -> lex_ltb (agg_key mode h L b) (agg_key mode h L c) = false) /\
  (init = Some b \/ (b ∈ ids /\ candidate h L b = true)).
Proof.
  revert init. induction ids as [|a ids IH]; intros init; simpl.
  - intros ->. split; [set_solver|]. split; [|by left].
    intros c [= ->]. apply lex_ltb_irrefl.
  - intros Hb. apply IH in Hb as (Hall & Hinit & Hin). clear IH.
    assert (forall c, init = Some c ->
              lex_ltb (agg_key mode h L b) (agg_key mode h L c) = false) as Hi.
    { intros c ->. destruct (candidate h L a) eqn:Ea; [|by apply Hinit].
      unfold pick in Hinit. destruct (lex_ltb (agg_key mode h L c) _) eqn:El.
      - eapply lex_ltb_neg_trans; [apply agg_key_length|apply agg_key_length| |].
        + by apply (Hinit a).
        + apply lex_ltb_lt_false; [apply agg_key_length|done].
      - by apply Hinit. }
    split; [|split; [done|]].
    + intros c [->|Hc]%elem_of_cons Hcand.
      * destruct Hcand as [Hcand|Hcand]; [|by apply Hi].
        rewrite Hcand in Hinit. unfold pick in Hinit. destruct init as [d|].
        -- destruct (lex_ltb (agg_key mode h L d) (agg_key mode h L a)) eqn:El.
           ++ by apply Hinit.
           ++ eapply lex_ltb_neg_trans; [apply agg_key_length|apply agg_key_length| |done].
              by apply Hinit.
        -- by apply Hinit.
      * destruct Hcand as [Hcand|Hcand]; [|by apply Hi]. apply Hall; auto.
    + destruct Hin as [Hin|[Hin Hcand]]; [|set_solver].
      destruct (candidate h L a) eqn:Ea; [|by left].
      unfold pick in Hin. destruct init as [d|]; [|set_solver].
      destruct (lex_ltb _ _); simplify_eq; set_solver.
Qed.

Lemma best_of_some mode h L b ids : best_of mode h L (Some b) ids <> None.
Proof.
  unfold best_of. revert b. induction ids as [|a ids IH]; intros b; simpl; [done|].
  destruct (candidate h L a); [|done]. unfold pick. by destruct (lex_ltb _ _).
Qed.

Lemma best_of_none mode h L init ids c :
  c ∈ ids -> candidate h L c = true -> best_of mode h L init ids <> None.
Proof.
  intros Hc Hcand. revert init. induction Hc as [c ids|c a ids Hc IH]; intros init;
    [|by apply IH]. simpl. rewrite Hcand. destruct init as [b|]; [|apply best_of_some].
  unfold pick. destruct (lex_ltb _ _); apply best_of_some.
Qed.

(** ** The code computes the specification *)

Section run.
Context (lv : option ptr) (ids : list ptr) (L : ptr -> list ptr).

Lemma wp_selection_mode p st sp :
  slaves st !! p = Some sp -> port_slave (ad_port sp) <> None ->
  wp (__get_agg_selection_mode (Some p))
    (fun m st' => st' = st /\ m = ad_select (params st)) st.
Proof.
  intros Hp Hs. apply wp_bind. eapply wp_deref; [done|].
  apply wp_bind, wp_bind. eapply wp_get_port; [done|]. apply wp_ret.
  destruct (port_slave (ad_port sp)); [|done]. by apply wp_gets.
Qed.

(** The first port of a non-empty aggregator. *)
Lemma lag_first h a sa p l :
  lag_wf lv ids L h -> a ∈ ids -> h !! a = Some sa -> L a = p :: l ->
  lag_ports (ad_agg sa) = Some p /\
  exists sp, h !! p = Some sp /\ port_slave (ad_port sp) = Some p /\ p ∈ ids.
Proof.
  intros Hwf Ha Hsa HL. pose proof (lw_chain _ _ _ _ Hwf a sa Ha Hsa) as Hc.
  assert (p ∈ ids) as Hp by (eapply lw_mem; [done|exact Ha|rewrite HL; set_solver]).
  rewrite HL in Hc. destruct Hc as [Hlag (sp & Hsp & _)].
  split; [done|]. exists sp. split; [done|]. split; [|done].
  by eapply lw_slave.
Qed.

Lemma wp_by_bandwidth b c st :
  lag_wf lv ids L (slaves st) -> b ∈ ids -> c ∈ ids ->
  wp (let* bc := __get_agg_bandwidth c in
      let* bb := __get_agg_bandwidth b in
      if bc >? bb then ret c else ret b)
    (fun r st' => st' = st /\
       r = if lex_ltb [bandwidth (slaves st) (L b)] [bandwidth (slaves st) (L c)]
           then c else b) st.
Proof.
  intros Hwf Hb Hc.
  apply wp_bind. eapply wp_mono; [by eapply wp_get_agg_bandwidth|]. intros ? ? [-> ->].
  apply wp_bind. eapply wp_mono; [by eapply wp_get_agg_bandwidth|]. intros ? ? [-> ->].
  simpl. rewrite andb_false_r, orb_false_r, Z.gtb_ltb.
  destruct (_ <? _); by apply wp_ret.
Qed.

Lemma wp_by_count b c st :
  lag_wf lv ids L (slaves st) -> b ∈ ids -> c ∈ ids ->
  wp (let* nc := __agg_active_ports c in
      let* nb := __agg_active_ports b in
      if nc >? nb then ret c else if nc <? nb then ret b
      else let* bc := __get_agg_bandwidth c in
           let* bb := __get_agg_bandwidth b in
           if bc >? bb then ret c else ret b)
    (fun r st' => st' = st /\
       r = if lex_ltb [active_count (slaves st) (L b); bandwidth (slaves st) (L b)]
                      [active_count (slaves st) (L c); bandwidth (slaves st) (L c)]
           then c else b) st.
Proof.
  intros Hwf Hb Hc.
  apply wp_bind. eapply wp_mono; [by eapply wp_agg_active_ports|]. intros ? ? [-> ->].
  apply wp_bind. eapply wp_mono; [by eapply wp_agg_active_ports|]. intros ? ? [-> ->].
  rewrite Z.gtb_ltb. cbn [lex_ltb].
  destruct (Z.ltb_spec (active_count (slaves st) (L b)) (active_count (slaves st) (L c)));
    [by apply wp_ret|].
  destruct (Z.ltb_spec (active_count (slaves st) (L c)) (active_count (slaves st) (L b))).
  - apply wp_ret. rewrite (proj2 (Z.eqb_neq _ _)) by lia. done.
  - rewrite (proj2 (Z.eqb_eq _ _)) by lia. by apply wp_by_bandwidth.
Qed.

Lemma wp_by_prio b c st :
  lag_wf lv ids L (slaves st) -> b ∈ ids -> c ∈ ids ->
  wp (let* pc := __agg_ports_priority c in
      let* pb := __agg_ports_priority b in
      if pc >? pb then ret c else if pc <? pb then ret b
      else let* nc := __agg_active_ports c in
           let* nb := __agg_active_ports b in
           if nc >? nb then ret c else if nc <? nb then ret b
           else let* bc := __get_agg_bandwidth c in
                let* bb := __get_agg_bandwidth b in
                if bc >? bb then ret c else ret b)
    (fun r st' => st' = st /\
       r = if lex_ltb [priority_sum (slaves st) (L b); active_count (slaves st) (L b);
                       bandwidth (slaves st) (L b)]
                      [priority_sum (slaves st) (L c); active_count (slaves st) (L c);
                       bandwidth (slaves st) (L c)]
           then c else b) st.
Proof.
  intros Hwf Hb Hc.
  apply wp_bind. eapply wp_mono; [by eapply wp_agg_ports_priority|]. intros ? ? [-> ->].
  apply wp_bind. eapply wp_mono; [by eapply wp_agg_ports_priority|]. intros ? ? [-> ->].
  rewrite Z.gtb_ltb. cbn [lex_ltb].
  destruct (Z.ltb_spec (priority_sum (slaves st) (L b)) (priority_sum (slaves st) (L c)));
    [by apply wp_ret|].
  destruct (Z.ltb_spec (priority_sum (slaves st) (L c)) (priority_sum (slaves st) (L b))).
  - apply wp_ret. rewrite (proj2 (Z.eqb_neq _ _)) by lia. done.
  - rewrite (proj2 (Z.eqb_eq _ _)) by lia. by apply wp_by_count.
Qed.

Lemma wp_agg_selection_test best c st :
  lag_wf lv ids L (slaves st) -> (forall b, best = Some b -> b ∈ ids) ->
  c ∈ ids -> L c <> [] ->
  wp (ad_agg_selection_test best c)
    (fun r st' => st' = st /\
       Some r = pick (ad_select (params st)) (slaves st) L best c) st.
Proof.
  intros Hwf Hb Hc HLc. destruct best as [b|]; [|by apply wp_ret].
  specialize (Hb b eq_refl).
  destruct (lw_in _ _ _ _ Hwf b Hb) as [sb Hsb], (lw_in _ _ _ _ Hwf c Hc) as [sc Hsc].
  apply wp_bind. eapply wp_get_agg; [done|]. apply wp_bind. eapply wp_get_agg; [done|].
  unfold pick, agg_key. rewrite Hsb, Hsc. cbn [lex_ltb app].
  destruct (is_individual (ad_agg sc)), (is_individual (ad_agg sb)); simpl;
    try (by apply wp_ret);
    (destruct (__agg_has_partner (ad_agg sc)), (__agg_has_partner (ad_agg sb)); simpl;
     try (by apply wp_ret)).
  all: destruct (L c) as [|p l] eqn:EL; [done|].
  all: destruct (lag_first _ _ _ _ _ Hwf Hc Hsc EL) as (-> & sp & Hsp & Hps & Hp).
  all: apply wp_bind; eapply wp_mono;
    [eapply wp_selection_mode; [done|by rewrite Hps]|]; intros mode ? [-> ->].
  all: unfold policy_key; rewrite <-EL.
  all: destruct (ad_select (params st) =? BOND_AD_PRIO);
    [eapply wp_mono; [by apply wp_by_prio|by intros ? ? [-> ->]; destruct (lex_ltb _ _)]|].
  all: destruct (ad_select (params st) =? BOND_AD_COUNT);
    [eapply wp_mono; [by apply wp_by_count|by intros ? ? [-> ->]; destruct (lex_ltb _ _)]|].
  all: destruct ((ad_select (params st) =? BOND_AD_STABLE) || _);
    [eapply wp_mono; [by apply wp_by_bandwidth|by intros ? ? [-> ->]; destruct (lex_ltb _ _)]|].
  all: by apply wp_ret.
Qed.
End run.

(** ** The scan *)

Lemma deact_eq_fields s1 s2 :
  deact s1 = deact s2 ->
  ad_port s1 = ad_port s2 /\ agg_slave (ad_agg s1) = agg_slave (ad_agg s2) /\
  lag_ports (ad_agg s1) = lag_ports (ad_agg s2) /\
  num_of_ports (ad_agg s1) = num_of_ports (ad_agg s2).
Proof.
  intros H. split; [exact (f_equal ad_port H)|].
  split; [exact (f_equal (fun s => agg_slave (ad_agg s)) H)|].
  split; [exact (f_equal (fun s => lag_ports (ad_agg s)) H)|].
  exact (f_equal (fun s => num_of_ports (ad_agg s)) H).
Qed.

Lemma keeps_same_but_active st h :
  same_but_active (slaves st) h -> keeps false None st (st <| slaves := h |>).
Proof.
  intros Hs. split; [done|done| |]; rec_simpl.
  - intros q Hq. apply (f_equal (fun m : heap => m !! q)) in Hs.
    rewrite !lookup_fmap, Hq in Hs. by destruct (h !! q).
  - intros q s Hq. apply (f_equal (fun m : heap => m !! q)) in Hs.
    rewrite !lookup_fmap, Hq in Hs. destruct (h !! q) as [s'|]; [|done].
    apply (inj Some) in Hs.
    apply deact_eq_fields in Hs as (Hp & Hsl & Hlag & Hnum).
    exists s'. split; [done|]. split; [by split; [split|]; rewrite <-?Hp|].
    split; [done|]. intros _. by split; rewrite Hp.
Qed.

Lemma same_but_active_insert (h h' : heap) a s v :
  same_but_active h h' -> h' !! a = Some s ->
  same_but_active h
    (<[a := s <| ad_agg ::= fun ag => ag <| is_active := v |> |>]> h').
Proof.
  unfold same_but_active. intros Hs Ha. rewrite Hs, fmap_insert.
  symmetry. apply insert_id. rewrite lookup_fmap, Ha. done.
Qed.

Lemma is_active_at_insert (h : heap) a s v b :
  h !! a = Some s ->
  is_active_at (<[a := s <| ad_agg ::= fun ag => ag <| is_active := v |> |>]> h) b =
  if decide (a = b) then v else is_active_at h b.
Proof.
  intros Ha. unfold is_active_at. case_decide as E.
  - subst. by rewrite lookup_insert_eq.
  - by rewrite lookup_insert_ne.
Qed.

(** Exactly the aggregator [o] is active. *)
Definition only_active (h : heap) (ids : list ptr) (o : option ptr) : Prop :=
  forall a, a ∈ ids -> is_active_at h a = bool_decide (o = Some a).

Lemma only_active_of (h : heap) ids o :
  NoDup ids -> only_active h ids o -> (forall a, o = Some a -> a ∈ ids) ->
  active_of h ids = o.
Proof.
  intros Hnd Hact Hin. unfold active_of. destruct o as [a|].
  - specialize (Hin a eq_refl). clear Hnd.
    induction ids as [|b ids IH]; [set_solver|]. rewrite filter_cons.
    case_decide as E.
    + rewrite (Hact b) in E by set_solver. apply bool_decide_eq_true in E. done.
    + apply IH; [intros c Hc; apply Hact; set_solver|].
      apply elem_of_cons in Hin as [->|]; [|done].
      rewrite (Hact b) in E by set_solver. by rewrite bool_decide_eq_true_2 in E.
  - clear Hnd Hin. induction ids as [|b ids IH]; [done|]. rewrite filter_cons.
    rewrite decide_False.
    + apply IH. intros c Hc. apply Hact. set_solver.
    + rewrite (Hact b) by set_solver. done.
Qed.

Section scan.
Context (lv : option ptr) (L : ptr -> list ptr).

Lemma wp_get_active_agg f st :
  lag_wf lv (slave_list st) L (slaves st) -> f ∈ slave_list st ->
  wp (__get_active_agg f)
    (fun r st' => st' = st /\ r = active_of (slaves st) (slave_list st)) st.
Proof.
  intros Hwf Hf. destruct (lw_in _ _ _ _ Hwf f Hf) as [sf Hsf].
  destruct (lw_slave _ _ _ _ Hwf f sf Hf Hsf) as [_ Hfs].
  apply wp_bind. eapply wp_get_agg; [done|].
  apply wp_bind. eapply wp_deref; [done|]. apply wp_bind, wp_gets.
  apply (wp_for_each (fun pre r st' => st' = st /\ r = None /\
    filter (fun a => is_active_at (slaves st) a = true) pre = [])); [done| |].
  - intros pre a post r st' Hl (-> & -> & Hpre).
    destruct (lw_in _ _ _ _ Hwf a) as [sa Hsa]; [rewrite Hl; set_solver|].
    apply wp_bind. eapply wp_get_agg; [done|].
    assert (is_active_at (slaves st) a = is_active (ad_agg sa)) as Hat
      by (unfold is_active_at; by rewrite Hsa).
    destruct (is_active (ad_agg sa)); apply wp_ret.
    + split; [done|]. unfold active_of. rewrite Hl, filter_app, Hpre, filter_cons.
      by rewrite decide_True.
    + split; [done|]. split; [done|]. rewrite filter_app, Hpre, filter_cons.
      rewrite decide_False by congruence. done.
  - intros r st' (-> & -> & Hnil). split; [done|]. unfold active_of. by rewrite Hnil.
Qed.

(** The state of the scan after the aggregators [pre]. *)
Record scan_inv (init : option ptr) (st : bonding) (pre : list ptr)
    (r : option ptr) (st' : bonding) : Prop := {
  sc_st : st' = st <| slaves := slaves st' |>;
  sc_same : same_but_active (slaves st) (slaves st');
  sc_off : forall a, a ∈ pre -> is_active_at (slaves st') a = false;
  sc_in : forall b, r = Some b -> b ∈ slave_list st;
  sc_best : r = best_of (ad_select (params st)) (slaves st) L init pre }.

Lemma scan_inv_wf init st pre r st' :
  lag_wf lv (slave_list st) L (slaves st) -> scan_inv init st pre r st' ->
  lag_wf lv (slave_list st) L (slaves st').
Proof.
  intros Hwf [Hst Hs _ _ _]. eapply lag_wf_keeps; [|done].
  rewrite Hst. by apply keeps_same_but_active.
Qed.

(** Deactivating the next aggregator, before it is compared. *)
Lemma scan_inv_off init st pre r st' a sa :
  scan_inv init st pre r st' -> a ∈ slave_list st -> slaves st' !! a = Some sa ->
  candidate (slaves st) L a = false ->
  scan_inv init st (pre ++ [a]) r (st' <| slaves ::= <[a := deact sa]> |>).
Proof.
  intros [Hst Hs Hoff Hin Hb] Ha Hsa Hcand. split; rec_simpl.
  - by rewrite Hst.
  - by apply same_but_active_insert.
  - intros b Hb'. unfold deact. rewrite is_active_at_insert by done.
    case_decide; [done|]. apply Hoff. set_solver.
  - done.
  - unfold best_of in *. by rewrite foldl_snoc, <-Hb, Hcand.
Qed.

Lemma scan_inv_pick init st pre r st' a sa b :
  scan_inv init st pre r st' -> a ∈ slave_list st -> slaves st' !! a = Some sa ->
  candidate (slaves st) L a = true ->
  Some b = pick (ad_select (params st)) (slaves st) L r a ->
  scan_inv init st (pre ++ [a]) (Some b) (st' <| slaves ::= <[a := deact sa]> |>).
Proof.
  intros [Hst Hs Hoff Hin Hb] Ha Hsa Hcand Hpick. split; rec_simpl.
  - by rewrite Hst.
  - by apply same_but_active_insert.
  - intros c Hc. unfold deact. rewrite is_active_at_insert by done.
    case_decide; [done|]. apply Hoff. set_solver.
  - intros c [= <-]. unfold pick in Hpick. destruct r as [d|]; [|naive_solver].
    destruct (lex_ltb _ _); naive_solver.
  - unfold best_of in *. by rewrite foldl_snoc, <-Hb, Hcand, Hpick.
Qed.

Lemma pick_same_but_active mode h h' r a :
  same_but_active h h' -> pick mode h L r a = pick mode h' L r a.
Proof.
  apply (same_but_active_via (fun h => pick mode h L r a)). intros h0. unfold pick.
  destruct r; [|done]. by rewrite !agg_key_deact.
Qed.

(** The scan visits every aggregator, clears its activity and keeps the
    best candidate. *)
Lemma wp_select_best init st :
  lag_wf lv (slave_list st) L (slaves st) ->
  (forall b, init = Some b -> b ∈ slave_list st) ->
  wp (select_best init) (scan_inv init st (slave_list st)) st.
Proof.
  intros Hwf Hinit. apply wp_bind, wp_gets.
  apply (wp_for_each (scan_inv init st));
    [split; [by destruct st|done|set_solver|done|done]| |done].
  intros pre a post r st' Hl Hinv.
  assert (a ∈ slave_list st) as Ha by (rewrite Hl; set_solver).
  pose proof (scan_inv_wf _ _ _ _ _ Hwf Hinv) as Hwf'.
  destruct (lw_in _ _ _ _ Hwf' a Ha) as [sa Hsa].
  apply wp_bind. eapply wp_upd_slave; [done|].
  pose proof (same_but_active_insert _ _ _ _ false (sc_same _ _ _ _ _ Hinv) Hsa) as Hs2.
  assert (params st' = params st) as Hpar by by rewrite (sc_st _ _ _ _ _ Hinv).
  set (st2 := st' <| slaves ::= _ |>).
  assert (lag_wf lv (slave_list st) L (slaves st2)) as Hwf2
    by exact (lag_wf_keeps _ _ _ _ _ _ _ (keeps_same_but_active st _ Hs2) Hwf).
  apply wp_bind. eapply wp_mono; [by eapply wp_agg_active_ports|]. intros n ? [-> ->].
  assert (active_count (slaves st2) (L a) = active_count (slaves st) (L a)) as ->
    by (symmetry; exact (same_but_active_via (fun h => active_count h (L a)) _ _
                           (fun h => active_count_deact h (L a)) Hs2)).
  destruct (active_count _ _ =? 0) eqn:En.
  { apply wp_ret. apply scan_inv_off; try done. unfold candidate. by rewrite En. }
  apply wp_bind. eapply wp_mono; [by eapply wp_agg_device_up|]. intros up ? [-> ->].
  assert (lag_up (slaves st2) (L a) = lag_up (slaves st) (L a)) as ->
    by (symmetry; exact (same_but_active_via (fun h => lag_up h (L a)) _ _
                           (fun h => lag_up_deact h (L a)) Hs2)).
  destruct (lag_up _ _) eqn:Eup.
  2: { apply wp_ret. apply scan_inv_off; try done. unfold candidate. by rewrite En, Eup. }
  apply wp_bind. eapply wp_mono.
  { eapply wp_agg_selection_test; [done|apply Hinv|done|].
    intros HL. by rewrite HL in Eup. }
  intros b ? [-> Hb]. apply wp_ret. change (params st2) with (params st') in Hb.
  rewrite Hpar in Hb.
  rewrite <-(pick_same_but_active _ (slaves st) (slaves st2) _ _ Hs2) in Hb.
  apply scan_inv_pick with r; try done. unfold candidate. by rewrite En, Eup.
Qed.
End scan.

(** ** The whole selection *)

(** The carrier the bond should have. *)
Definition carrier_wanted (L : ptr -> list ptr) (st : bonding) : bool :=
  match active_of (slaves st) (slave_list st) with
  | None => false
  | Some a => min_links (params st) <=? active_count (slaves st) (L a)
  end.

Definition carrier_update (want : bool) (dev : net_device) : net_device :=
  if want then if netif_carrier_ok dev then dev else netif_carrier_on dev
  else if netif_carrier_ok dev then netif_carrier_off dev else dev.

Lemma active_of_in h ids a : active_of h ids = Some a -> a ∈ ids.
Proof.
  unfold active_of. intros Ha.
  assert (a ∈ filter (fun a => is_active_at h a = true) ids) as H.
  { destruct (filter _ ids); simplify_eq/=. set_solver. }
  by apply list_elem_of_filter in H as [_ H].
Qed.

Section logic.
Context (lv : option ptr) (L : ptr -> list ptr).

Lemma wp_set_carrier st :
  lag_wf lv (slave_list st) L (slaves st) ->
  wp bond_3ad_set_carrier (fun r st' =>
    r = (if decide (slave_list st = []) then 0 else 1) /\
    st' = st <| bond_dev := if decide (slave_list st = []) then bond_dev st
                            else carrier_update (carrier_wanted L st) (bond_dev st) |>) st.
Proof.
  intros Hwf. apply wp_bind, wp_gets.
  destruct (slave_list st) as [|f l] eqn:El.
  { apply wp_ret. split; [done|]. by destruct st. }
  rewrite decide_False by done.
  assert (f ∈ slave_list st) as Hf by (rewrite El; set_solver).
  apply wp_bind. eapply wp_mono.
  { eapply wp_get_active_agg; [by rewrite El|exact Hf]. }
  intros r ? [-> ->]. apply wp_bind, wp_gets. unfold carrier_wanted, carrier_update.
  destruct (active_of (slaves st) (slave_list st)) as [a|] eqn:Ea.
  - apply wp_bind. eapply wp_mono.
    { eapply wp_agg_active_ports; [done|]. rewrite <-El. by eapply active_of_in. }
    intros n ? [-> ->]. apply wp_bind, wp_gets, wp_bind.
    destruct (Z.ltb_spec (active_count (slaves st) (L a)) (min_links (params st))).
    + rewrite (proj2 (Z.leb_gt _ _)) by lia.
      destruct (netif_carrier_ok (bond_dev st)); simpl; [apply wp_mod|apply wp_ret];
        apply wp_ret; (split; [done|by destruct st]).
    + rewrite (proj2 (Z.leb_le _ _)) by lia.
      destruct (netif_carrier_ok (bond_dev st)); simpl; [apply wp_ret|apply wp_mod];
        apply wp_ret; (split; [done|by destruct st]).
  - apply wp_bind.
    destruct (netif_carrier_ok (bond_dev st)); simpl; [apply wp_mod|apply wp_ret];
      apply wp_ret; (split; [done|by destruct st]).
Qed.

(** States of the selection before any port flag is touched. *)
Record act_only (st st' : bonding) : Prop := {
  ao_st : st' = st <| slaves := slaves st' |>;
  ao_same : same_but_active (slaves st) (slaves st') }.

Lemma act_only_keeps st st' : act_only st st' -> keeps false None st st'.
Proof. intros [Hst Hs]. rewrite Hst. by apply keeps_same_but_active. Qed.

Lemma act_only_params st st' : act_only st st' -> params st' = params st.
Proof. intros [Hst _]. by rewrite Hst. Qed.

Lemma wp_set_active st st' a :
  lag_wf lv (slave_list st) L (slaves st) -> act_only st st' ->
  only_active (slaves st') (slave_list st) None -> a ∈ slave_list st ->
  wp (set_active a) (fun _ st'' =>
    act_only st st'' /\ only_active (slaves st'') (slave_list st) (Some a)) st'.
Proof.
  intros Hwf Hao Hoff Ha.
  pose proof (lag_wf_keeps _ _ _ _ _ _ _ (act_only_keeps _ _ Hao) Hwf) as Hwf'.
  destruct (lw_in _ _ _ _ Hwf' a Ha) as [sa Hsa], Hao as [Hst Hs].
  eapply wp_upd_slave; [done|]. split; [split|].
  - by rewrite Hst.
  - by apply same_but_active_insert.
  - intros b Hb. rec_simpl. rewrite is_active_at_insert by done. case_decide as E.
    + subst. by rewrite bool_decide_eq_true_2.
    + rewrite Hoff by done. rewrite !bool_decide_eq_false_2; congruence.
Qed.

Lemma wp_stable_keeps_active st st' a b :
  lag_wf lv (slave_list st) L (slaves st) -> act_only st st' ->
  a ∈ slave_list st -> b ∈ slave_list st ->
  wp (stable_keeps_active a b)
    (fun r st'' => st'' = st' /\ r = stable_keeps (slaves st) L a b) st'.
Proof.
  intros Hwf Hao Ha Hb.
  pose proof (lag_wf_keeps _ _ _ _ _ _ _ (act_only_keeps _ _ Hao) Hwf) as Hwf'.
  destruct (lw_in _ _ _ _ Hwf' a Ha) as [sa Hsa], (lw_in _ _ _ _ Hwf' b Hb) as [sb Hsb].
  rewrite (same_but_active_via (fun h => stable_keeps h L a b) _ (slaves st')
             (fun h => stable_keeps_deact h L a b) (ao_same _ _ Hao)).
  unfold stable_keeps. rewrite Hsa, Hsb.
  apply wp_bind. eapply wp_get_agg; [done|]. apply wp_bind. eapply wp_get_agg; [done|].
  pose proof (lw_chain _ _ _ _ Hwf' a sa Ha Hsa) as Hc.
  destruct (L a) as [|p l] eqn:EL.
  - simpl in Hc. rewrite Hc. by apply wp_ret.
  - destruct Hc as [-> _]. rewrite <-EL. apply wp_bind. eapply wp_mono; [by eapply wp_agg_active_ports|].
    intros n ? [-> ->]. apply wp_ret. split; [done|].
    by destruct (__agg_has_partner (ad_agg sa)), (__agg_has_partner (ad_agg sb)).
Qed.

(** What the STABLE rule and the comparison with the old active aggregator
    leave: either the result is already active, or it is still to be. *)
Definition decided (st : bonding) (sel active r : option ptr) (st' : bonding) : Prop :=
  act_only st st' /\
  ((r = None /\ (sel = None \/ sel = active) /\
    only_active (slaves st') (slave_list st) sel) \/
   (exists b, r = Some b /\ sel = Some b /\ active <> Some b /\
              only_active (slaves st') (slave_list st) None)).

Definition stable_choice (st : bonding) (active best : option ptr) : option ptr :=
  match best with
  | None => None
  | Some b =>
      if ad_select (params st) =? BOND_AD_STABLE then
        match active with
        | Some a => if stable_keeps (slaves st) L a b then Some a else Some b
        | None => Some b
        end
      else Some b
  end.

Lemma wp_stable_policy st st' active best :
  lag_wf lv (slave_list st) L (slaves st) -> act_only st st' ->
  only_active (slaves st') (slave_list st) None ->
  (forall a, active = Some a -> a ∈ slave_list st) ->
  (forall b, best = Some b -> b ∈ slave_list st /\ L b <> []) ->
  wp (stable_policy active best) (fun r st'' => act_only st st'' /\
    ((r = None /\ (stable_choice st active best = None \/
                   stable_choice st active best = active) /\
      only_active (slaves st'') (slave_list st) (stable_choice st active best)) \/
     (r = stable_choice st active best /\
      only_active (slaves st'') (slave_list st) None))) st'.
Proof.
  intros Hwf Hao Hoff Hact Hbest. destruct best as [b|]; simpl; [|by apply wp_ret; auto].
  destruct (Hbest b eq_refl) as [Hb HLb].
  pose proof (lag_wf_keeps _ _ _ _ _ _ _ (act_only_keeps _ _ Hao) Hwf) as Hwf'.
  destruct (lw_in _ _ _ _ Hwf' b Hb) as [sb Hsb].
  apply wp_bind. eapply wp_get_agg; [done|].
  destruct (L b) as [|p l] eqn:EL; [done|].
  destruct (lag_first _ _ _ _ _ _ _ _ Hwf' Hb Hsb EL) as (-> & sp & Hsp & Hps & _).
  apply wp_bind. eapply wp_mono; [eapply wp_selection_mode; [done|by rewrite Hps]|].
  intros mode ? [-> ->]. rewrite (act_only_params _ _ Hao).
  destruct (_ =? BOND_AD_STABLE); [|apply wp_ret; auto].
  destruct active as [a|]; [|apply wp_ret; auto].
  apply wp_bind. eapply wp_mono; [apply wp_stable_keeps_active; eauto|].
  intros r ? [-> ->]. destruct (stable_keeps _ _ _ _); [|apply wp_ret; auto].
  apply wp_bind. eapply wp_mono; [apply wp_set_active; eauto|].
  intros ? st2 [Hao2 Hon]. apply wp_ret. split; [done|]. left. auto.
Qed.

Lemma wp_keep_unchanged st st' active sel best :
  lag_wf lv (slave_list st) L (slaves st) -> act_only st st' ->
  (forall a, active = Some a -> a ∈ slave_list st) ->
  ((best = None /\ (sel = None \/ sel = active) /\
    only_active (slaves st') (slave_list st) sel) \/
   (best = sel /\ only_active (slaves st') (slave_list st) None)) ->
  wp (keep_unchanged active best) (decided st sel active) st'.
Proof.
  intros Hwf Hao Hact [(-> & Hsel & Hon)|[-> Hoff]]; simpl.
  { apply wp_ret. split; auto. }
  destruct sel as [b|]; simpl; [|apply wp_ret; split; auto].
  destruct active as [a|]; [|apply wp_ret; split; [done|right; eauto]].
  case_decide as E.
  - subst b. apply wp_bind. eapply wp_mono; [apply wp_set_active; eauto|].
    intros ? st2 [Hao2 Hon]. apply wp_ret. split; auto.
  - apply wp_ret. split; [done|]. right. exists b. naive_solver.
Qed.

Lemma only_active_keeps exc st st' ids o :
  keeps true exc st st' -> only_active (slaves st) ids o -> only_active (slaves st') ids o.
Proof.
  intros Hk Hon a Ha. rewrite <-(Hon a Ha). unfold is_active_at.
  destruct (slaves st !! a) as [s|] eqn:E.
  - destruct (kp_slave _ _ _ _ Hk a s E) as (s' & -> & _ & Hact & _). auto.
  - by rewrite (kp_dom _ _ _ _ Hk a E).
Qed.

Lemma keeps_weak_act exc st st' : keeps true exc st st' -> keeps false exc st st'.
Proof. intros Hk. by eapply keeps_weaken. Qed.

Lemma wp_activate_best st st' sel active best upd :
  lag_wf lv (slave_list st) L (slaves st) ->
  (forall a, active = Some a -> a ∈ slave_list st) ->
  (forall a, sel = Some a -> a ∈ slave_list st) ->
  decided st sel active best st' ->
  wp (activate_best active best upd) (fun u st'' =>
    keeps false None st st'' /\ only_active (slaves st'') (slave_list st) sel /\
    (forall b, sel = Some b -> active <> Some b -> u = true) /\
    (upd = true -> u = true)) st'.
Proof.
  intros Hwf Hact Hsel [Hao [(-> & Hs & Hon)|(b & -> & -> & Hne & Hoff)]].
  { apply wp_ret. split; [by apply act_only_keeps|]. split; [done|].
    split; [|done]. intros b -> ?. destruct Hs; congruence. }
  apply wp_bind. eapply wp_mono; [apply wp_set_active; eauto|].
  intros [] st2 [Hao2 Hon]. pose proof (act_only_keeps _ _ Hao2) as Hk2.
  apply wp_bind. destruct active as [a|]; [|by apply wp_ret, wp_ret].
  eapply wp_mono.
  { eapply (wp_for_agg_ports_keeps lv (slave_list st) L true None);
      [by eapply lag_wf_keeps|auto|].
    intros p st3 _ Hp Hwf3. by eapply wp_upd_flags. }
  intros ? st3 Hk3. cbv beta in Hk3. apply wp_ret. split; [|split; [|done]].
  - eapply keeps_trans; [done|by apply keeps_weak_act].
  - (eapply only_active_keeps; eassumption).
Qed.

Lemma wp_enable_individuals f upd st :
  lag_wf lv (slave_list st) L (slaves st) -> f ∈ slave_list st ->
  wp (enable_individuals f upd) (fun u st' =>
    keeps true None st st' /\ (upd = true -> u = true)) st.
Proof.
  intros Hwf Hf. apply wp_bind. eapply wp_mono; [by eapply wp_get_active_agg|].
  intros r st0 [-> ->]. destruct (active_of _ _) as [a|] eqn:Ea.
  2: { apply wp_ret. split; [apply keeps_refl|done]. }
  apply active_of_in in Ea. destruct (lw_in _ _ _ _ Hwf a Ea) as [sa Hsa].
  apply wp_bind. eapply wp_get_agg; [done|].
  destruct (__agg_has_partner (ad_agg sa)); simpl.
  { apply wp_ret. split; [apply keeps_refl|done]. }
  apply wp_bind. eapply wp_mono.
  { eapply (wp_for_agg_ports_keeps lv (slave_list st) L true None); [done|done|].
    intros p st3 _ Hp Hwf3. by eapply wp_enable_port. }
  intros ? st3 Hk3. cbv beta in Hk3. apply wp_ret. auto.
Qed.

Lemma lag_up_nonempty h a : lag_up h (L a) = true -> L a <> [].
Proof. intros H E. by rewrite E in H. Qed.

Lemma active_count_nonempty h a : (active_count h (L a) =? 0) = false -> L a <> [].
Proof. intros H E. by rewrite E in H. Qed.

Lemma best_agg_in mode h ids b :
  best_agg mode h L ids = Some b -> b ∈ ids /\ L b <> [].
Proof.
  intros Hb. apply best_of_spec in Hb as (_ & _ & [Hi|[Hin Hc]]).
  - destruct (active_of h ids) as [a|] eqn:Ea; [|done].
    destruct (lag_up h (L a)) eqn:Eu; simplify_eq.
    split; [by eapply active_of_in|by eapply lag_up_nonempty].
  - apply andb_true_iff in Hc as [_ Hc]. split; [done|by eapply lag_up_nonempty].
Qed.

Lemma select_result_in mode h ids b :
  select_result mode h L ids = Some b -> b ∈ ids /\ L b <> [].
Proof.
  unfold select_result. destruct (best_agg mode h L ids) as [c|] eqn:Ec; [|done].
  apply best_agg_in in Ec. destruct (_ =? BOND_AD_STABLE); [|naive_solver].
  destruct (active_of h ids) as [a|] eqn:Ea; [|naive_solver].
  destruct (stable_keeps h L a c) eqn:Es; [|naive_solver].
  intros [= <-]. split; [by eapply active_of_in|].
  unfold stable_keeps in Es. destruct (h !! a), (h !! c); try done.
  apply (active_count_nonempty h). destruct (_ =? 0); done.
Qed.

(** What the selection logic establishes when it selects [sel]. *)
Definition selected (st : bonding) (sel : option ptr) (upd u : bool) (st' : bonding)
    : Prop :=
  keeps false None st st' /\
  only_active (slaves st') (slave_list st) sel /\
  (forall b, sel = Some b -> active_of (slaves st) (slave_list st) <> Some b ->
     u = true) /\
  (upd = true -> u = true) /\
  exists dev, bond_dev st' = carrier_update (carrier_wanted L st') dev.

Lemma wp_finish_selection f st st' sel best upd :
  lag_wf lv (slave_list st) L (slaves st) -> f ∈ slave_list st ->
  (forall a, sel = Some a -> a ∈ slave_list st) ->
  decided st sel (active_of (slaves st) (slave_list st)) best st' ->
  wp (finish_selection f (active_of (slaves st) (slave_list st)) best upd)
    (selected st sel upd) st'.
Proof.
  intros Hwf Hf Hsel Hdec. apply wp_bind. eapply wp_mono.
  { eapply wp_activate_best; [done| |done|done]. intros; by eapply active_of_in. }
  intros u st4 (Hk4 & Hon4 & Hu & Hu').
  assert (slave_list st4 = slave_list st) as Hl4 by apply Hk4.
  apply wp_bind. eapply wp_mono.
  { eapply wp_enable_individuals; rewrite Hl4; [by eapply lag_wf_keeps|done]. }
  intros u5 st5 [Hk5 Hu5].
  assert (keeps false None st st5) as Hk05
    by (eapply keeps_trans; [done|by apply keeps_weak_act]).
  assert (slave_list st5 = slave_list st) as Hl5 by apply Hk05.
  apply wp_bind. eapply wp_mono.
  { eapply wp_set_carrier. rewrite Hl5. by eapply lag_wf_keeps. }
  intros ? st6 [_ Hst6]. apply wp_ret.
  rewrite decide_False in Hst6
    by (rewrite Hl5; intros E; rewrite E in Hf; by apply not_elem_of_nil in Hf).
  split; [|split; [|split; [|split]]].
  - eapply keeps_trans; [exact Hk05|]. rewrite Hst6. by apply keeps_same_slaves.
  - rewrite Hst6. rec_simpl. eapply only_active_keeps; eassumption.
  - eauto.
  - eauto.
  - exists (bond_dev st5). rewrite Hst6. done.
Qed.

(** [ad_agg_selection_logic] runs, keeps the port lists, and leaves exactly
    the selected aggregator active and the carrier set to match. *)
Lemma wp_agg_selection_logic f upd st :
  lag_wf lv (slave_list st) L (slaves st) -> f ∈ slave_list st ->
  wp (ad_agg_selection_logic (Some f) upd)
    (selected st (select_result (ad_select (params st)) (slaves st) L (slave_list st)) upd)
    st.
Proof.
  intros Hwf Hf. destruct (lw_in _ _ _ _ Hwf f Hf) as [sf Hsf].
  destruct (lw_slave _ _ _ _ Hwf f sf Hf Hsf) as [_ Hfs].
  apply wp_bind. eapply wp_deref; [done|].
  apply wp_bind. eapply wp_get_agg; [done|]. apply wp_bind. eapply wp_deref; [done|].
  apply wp_bind. eapply wp_mono; [by eapply wp_get_active_agg|]. intros active ? [-> ->].
  set (active := active_of (slaves st) (slave_list st)).
  assert (forall a, active = Some a -> a ∈ slave_list st) as Hact
    by (intros; by eapply active_of_in).
  apply wp_bind. eapply (wp_mono _ (fun init st' => st' = st /\
    init = match active with
           | Some a => if lag_up (slaves st) (L a) then Some a else None
           | None => None end)).
  { destruct active as [a|]; [|by apply wp_ret]. apply wp_bind.
    eapply wp_mono; [by eapply wp_agg_device_up; [|apply Hact]|].
    intros ? ? [-> ->]. by apply wp_ret. }
  intros init ? [-> ->]. apply wp_bind. eapply wp_mono.
  { eapply wp_select_best; [done|]. destruct active as [a|]; [|done].
    destruct (lag_up _ _); [|done]. intros b [= <-]. auto. }
  intros best st1 [Hst1 Hs1 Hoff1 _ Hb1].
  assert (best = best_agg (ad_select (params st)) (slaves st) L (slave_list st)) as Hbest
    by exact Hb1.
  assert (act_only st st1) as Hao1 by by split.
  apply wp_bind. eapply wp_mono.
  { apply (wp_stable_policy st); [done|done| |done|].
    - intros a Ha. by rewrite Hoff1.
    - intros b ->. by eapply best_agg_in. }
  intros best2 st2 [Hao2 H2]. apply wp_bind. eapply wp_mono.
  { by apply (wp_keep_unchanged st st2 active (stable_choice st active best)). }
  assert (stable_choice st active best =
    select_result (ad_select (params st)) (slaves st) L (slave_list st)) as ->
    by (unfold select_result; rewrite <-Hbest; done).
  intros best3 st3 H3. apply wp_finish_selection; [done|done| |exact H3].
  intros a Ha. by eapply select_result_in.
Qed.
End logic.
End ad_select.
