(* ===== verification/AdAttach.v ===== *)
(** * 802.3ad: attaching and detaching ports

    The port lists under insertion and removal, the counting argument that a
    free aggregator exists for every detached port, and the proof that
    [ad_port_selection_logic] always finds an aggregator. *)

From stdpp Require Import functions.
From S2P Require Import Prelude.
From S2P Require Import AdTypes.
From S2P Require Import AdPort.
From S2P Require Import AdMachine.
From S2P Require Import AdControl.
From S2P Require Import AdInv.
From S2P Require Import AdSelect.

Section ad_attach.
Context `{K : Kernel}.

Abbreviation heap := (gmap ptr slave).
Abbreviation MB := (M bonding).

Lemma u16_succ n : u16 (u16 n + 1) = u16 (n + 1).
Proof. unfold u16. by rewrite Zplus_mod_idemp_l. Qed.
Lemma u16_pred n : u16 (u16 n - 1) = u16 (n - 1).
Proof. unfold u16. by rewrite Zminus_mod_idemp_l. Qed.

(** ** Counting *)

(** Every port of the lists is on one list only. *)
Lemma lag_wf_concat_nodup lv ids L h :
  lag_wf lv ids L h -> NoDup (ids ≫= L).
Proof.
  intros Hwf. apply NoDup_bind; [| |apply Hwf].
  - intros a b p Ha Hb Hpa Hpb. by eapply lag_wf_disjoint.
  - intros a Ha. by eapply lw_nodup.
Qed.

Lemma bind_length_ge {A B} (f : A -> list B) (l : list A) :
  (forall x, x ∈ l -> f x <> []) -> (length l <= length (l ≫= f))%nat.
Proof.
  induction l as [|x l IH]; intros Hf; [simpl; lia|].
  rewrite bind_cons, length_app. cbn [length].
  assert (f x <> []) by (apply Hf; set_solver).
  assert (length l <= length (l ≫= f))%nat by (apply IH; intros; apply Hf; set_solver).
  destruct (f x); [done|]. simpl. lia.
Qed.

(** If some port is on no list, some aggregator is free. *)
Lemma free_aggregator lv ids L h p :
  lag_wf lv ids L h -> p ∈ ids -> (forall a, a ∈ ids -> p ∉ L a) ->
  exists f, f ∈ ids /\ L f = [].
Proof.
  intros Hwf Hp Hno.
  destruct (decide (Exists (fun a => L a = []) ids)) as [He|He].
  { apply Exists_exists in He as (f & Hf & HL). eauto. }
  exfalso. apply not_Exists_Forall in He; [|apply _]. rewrite Forall_forall in He.
  assert (length ids <= length (ids ≫= L))%nat as Hge.
  { apply bind_length_ge. intros x Hx. by apply He. }
  assert (length (p :: (ids ≫= L)) <= length ids)%nat as Hle.
  { apply NoDup_incl_length.
    - apply NoDup_ListNoDup, NoDup_cons. split; [|by eapply lag_wf_concat_nodup].
      rewrite list_elem_of_bind. intros (a & Ha & Hin). by eapply Hno.
    - intros q Hq. apply list_elem_of_In. apply list_elem_of_In in Hq.
      apply elem_of_cons in Hq as [->|Hq]; [done|].
      apply list_elem_of_bind in Hq as (a & Ha & Hin). by eapply lw_mem. }
  simpl in Hle. lia.
Qed.

(** ** Chains under removal and insertion *)

Lemma lag_chain_remove (h h' : heap) o pre p post :
  NoDup (pre ++ p :: post) -> lag_chain h o (pre ++ p :: post) ->
  (forall q sq, q ∈ pre ++ post -> last pre <> Some q -> h !! q = Some sq ->
     exists sq', h' !! q = Some sq' /\
       next_port_in_aggregator (ad_port sq') = next_port_in_aggregator (ad_port sq)) ->
  (forall q sq, last pre = Some q -> h !! q = Some sq ->
     exists sq', h' !! q = Some sq' /\
       next_port_in_aggregator (ad_port sq') = head post) ->
  lag_chain h' (head (pre ++ post)) (pre ++ post).
Proof.
  revert o. induction pre as [|q pre IH]; intros o Hnd Hc Hkeep Hlast; simpl in *.
  - destruct Hc as [_ (sp & Hp & Hc)]. rewrite <-(lag_chain_head _ _ _ Hc).
    eapply lag_chain_ext; [|done]. intros r Hr sr Hsr. by apply Hkeep.
  - destruct Hc as [_ (sq & Hq & Hc)]. split; [done|].
    apply NoDup_cons in Hnd as [Hnq Hnd]. destruct pre as [|r pre].
    + destruct (Hlast q sq eq_refl Hq) as (sq' & Hq' & Hn). exists sq'. split; [done|].
      rewrite Hn. simpl in *. destruct Hc as [_ (sp & Hp & Hc)].
      rewrite <-(lag_chain_head _ _ _ Hc).
      eapply lag_chain_ext; [|done]. intros x Hx sx Hsx.
      apply Hkeep; [set_solver| |done]. intros [= ->]. set_solver.
    + rewrite last_cons_cons in Hkeep, Hlast.
      assert (last (r :: pre) <> Some q) as Hlq.
      { intros E. apply last_Some_elem_of in E. set_solver. }
      destruct (Hkeep q sq) as (sq' & Hq' & Hn); [set_solver|done|done|].
      exists sq'. split; [done|]. rewrite Hn.
      pose proof (lag_chain_head _ _ _ Hc) as Ho. rewrite Ho.
      apply (IH (next_port_in_aggregator (ad_port sq))); [done|done| |done].
      intros x sx Hx. apply Hkeep. set_solver.
Qed.

(** ** Taking a port off its list *)

(** The slave at [q] after port [p] left the list [pre ++ p :: post] of
    aggregator [a]; a leaving port [lv] keeps its own pointers. *)
Record unlinked (lv : option ptr) (a p : ptr) (pre post : list ptr) (q : ptr)
    (s s' : slave) : Prop := {
  ul_pslave : port_slave (ad_port s') = port_slave (ad_port s);
  ul_aslave : agg_slave (ad_agg s') = agg_slave (ad_agg s);
  ul_agg : q <> p -> port_aggregator (ad_port s') = port_aggregator (ad_port s);
  ul_none : q = p -> lv <> Some p ->
    port_aggregator (ad_port s') = None /\ next_port_in_aggregator (ad_port s') = None;
  ul_next : q <> p -> last pre <> Some q ->
    next_port_in_aggregator (ad_port s') = next_port_in_aggregator (ad_port s);
  ul_last : last pre = Some q -> next_port_in_aggregator (ad_port s') = head post;
  ul_other : q <> a -> lag_ports (ad_agg s') = lag_ports (ad_agg s) /\
                       num_of_ports (ad_agg s') = num_of_ports (ad_agg s);
  ul_self : q = a -> lag_ports (ad_agg s') = head (pre ++ post) /\
                     num_of_ports (ad_agg s') = u16 (num_of_ports (ad_agg s) - 1) }.

Section unlink.
Context (lv : option ptr) (ids : list ptr) (L : ptr -> list ptr) (h : heap).
Context (a p : ptr) (pre post : list ptr).
Context (Hwf : lag_wf lv ids L h) (Ha : a ∈ ids) (HL : L a = pre ++ p :: post).

Lemma unlink_nodup : NoDup (pre ++ p :: post).
Proof. rewrite <-HL. by eapply lw_nodup. Qed.

Lemma unlink_rest q : q ∈ pre ++ post -> q <> p /\ q ∈ L a.
Proof.
  intros Hq. rewrite HL. split; [|set_solver]. intros ->.
  pose proof unlink_nodup as Hnd. apply NoDup_app in Hnd as (_ & Hx & Hy).
  apply NoDup_cons in Hy as [Hy _]. specialize (Hx p). set_solver.
Qed.

Lemma unlink_others b q :
  b ∈ ids -> b <> a -> q ∈ L b -> q <> p /\ last pre <> Some q.
Proof.
  intros Hb Hne Hq. assert (q ∉ L a) as Hn.
  { intros Hq'. apply Hne. by eapply lag_wf_disjoint. }
  rewrite HL in Hn. split; [set_solver|].
  intros E%last_Some_elem_of. set_solver.
Qed.

Context (h' : heap) (Hul : heap_rel (unlinked lv a p pre post) h h').

Lemma unlink_chain b sb' :
  b ∈ ids -> h' !! b = Some sb' ->
  lag_chain h' (lag_ports (ad_agg sb')) ((<[a := pre ++ post]> L) b) /\
  num_of_ports (ad_agg sb') = u16 (Z.of_nat (length ((<[a := pre ++ post]> L) b))).
Proof.
  intros Hb Hsb'. destruct (heap_rel_inv _ _ _ _ _ Hul Hsb') as (sb & Hsb & Hr).
  pose proof (lw_chain _ _ _ _ Hwf b sb Hb Hsb) as Hc.
  pose proof (lw_num _ _ _ _ Hwf b sb Hb Hsb) as Hn.
  destruct (decide (b = a)) as [->|Hne].
  - rewrite fn_lookup_insert. destruct (ul_self _ _ _ _ _ _ _ _ Hr eq_refl) as [-> ->].
    rewrite HL in Hc, Hn. split.
    + eapply lag_chain_remove; [apply unlink_nodup|done| |].
      * intros q sq Hq Hlast (sq' & ? & Hr')%(proj2 Hul).
        exists sq'. split; [done|]. eapply ul_next; [done| |done].
        by apply unlink_rest.
      * intros q sq Hlast (sq' & ? & Hr')%(proj2 Hul). exists sq'.
        split; [done|]. by eapply ul_last.
    + rewrite Hn, u16_pred, !length_app. cbn [length]. f_equal. lia.
  - rewrite fn_lookup_insert_ne by done.
    destruct (ul_other _ _ _ _ _ _ _ _ Hr Hne) as [-> ->]. split; [|done].
    eapply lag_chain_ext; [|done]. intros q Hq sq (sq' & ? & Hr')%(proj2 Hul).
    destruct (unlink_others b q Hb Hne Hq). exists sq'. split; [done|].
    by eapply ul_next.
Qed.

Lemma unlink_mem b q : b ∈ ids -> q ∈ (<[a := pre ++ post]> L) b -> q ∈ L b /\ q <> p.
Proof.
  intros Hb Hq. destruct (decide (b = a)) as [->|Hne].
  - rewrite fn_lookup_insert in Hq. by apply unlink_rest in Hq as [??].
  - rewrite fn_lookup_insert_ne in Hq by done. by destruct (unlink_others b q Hb Hne Hq).
Qed.

Lemma unlink_in b q : q ∈ L b -> q <> p -> q ∈ (<[a := pre ++ post]> L) b.
Proof.
  intros Hq Hne. destruct (decide (b = a)) as [->|].
  - rewrite fn_lookup_insert. rewrite HL in Hq. set_solver.
  - by rewrite fn_lookup_insert_ne.
Qed.

Lemma lag_wf_unlink : lag_wf lv ids (<[a := pre ++ post]> L) h'.
Proof.
  split.
  - apply Hwf.
  - intros q [s (s' & ? & _)%(proj2 Hul)]%(lw_in _ _ _ _ Hwf). eauto.
  - intros b sb' Hb Hsb'. by apply unlink_chain.
  - intros b Hb. destruct (decide (b = a)) as [->|Hne].
    + rewrite fn_lookup_insert. pose proof unlink_nodup as (Hx & Hy & Hz)%NoDup_app.
      apply NoDup_cons in Hz as [_ Hz]. apply NoDup_app. set_solver.
    + rewrite fn_lookup_insert_ne by done. by eapply lw_nodup.
  - intros b sb' Hb Hsb'. by apply unlink_chain.
  - intros b q Hb [Hq _]%unlink_mem; [|done]. by eapply lw_mem.
  - intros b q sq' Hb [Hq Hne]%unlink_mem Hsq'; [|done].
    destruct (heap_rel_inv _ _ _ _ _ Hul Hsq') as (sq & Hsq & Hr).
    rewrite (ul_agg _ _ _ _ _ _ _ _ Hr Hne). by eapply lw_fwd.
  - intros b q sq' Hq Hsq' Hlv Hagg.
    destruct (heap_rel_inv _ _ _ _ _ Hul Hsq') as (sq & Hsq & Hr).
    destruct (decide (q = p)) as [->|Hqp].
    { destruct (ul_none _ _ _ _ _ _ _ _ Hr eq_refl Hlv). congruence. }
    rewrite (ul_agg _ _ _ _ _ _ _ _ Hr Hqp) in Hagg.
    destruct (lw_back _ _ _ _ Hwf b q sq Hq Hsq Hlv Hagg).
    split; [done|by apply unlink_in].
  - intros q sq' Hq Hsq' Hlv Hagg.
    destruct (heap_rel_inv _ _ _ _ _ Hul Hsq') as (sq & Hsq & Hr).
    destruct (decide (q = p)) as [->|Hqp]; [by apply (ul_none _ _ _ _ _ _ _ _ Hr)|].
    rewrite (ul_agg _ _ _ _ _ _ _ _ Hr Hqp) in Hagg.
    rewrite (ul_next _ _ _ _ _ _ _ _ Hr Hqp); [by eapply lw_next|].
    intros E%last_Some_elem_of. rewrite (lw_fwd _ _ _ _ Hwf a q sq) in Hagg;
      [done|done|rewrite HL; set_solver|done].
  - intros q sq' Hq Hsq'. destruct (heap_rel_inv _ _ _ _ _ Hul Hsq') as (sq & Hsq & Hr).
    rewrite (ul_pslave _ _ _ _ _ _ _ _ Hr), (ul_aslave _ _ _ _ _ _ _ _ Hr).
    by eapply lw_slave.
Qed.
End unlink.

(** ** Putting a port at the head of a list *)

Record linked (b p : ptr) (lag : option ptr) (q : ptr) (s s' : slave) : Prop := {
  lk_pslave : port_slave (ad_port s') = port_slave (ad_port s);
  lk_aslave : agg_slave (ad_agg s') = agg_slave (ad_agg s);
  lk_same : q <> p ->
    port_aggregator (ad_port s') = port_aggregator (ad_port s) /\
    next_port_in_aggregator (ad_port s') = next_port_in_aggregator (ad_port s);
  lk_port : q = p -> port_aggregator (ad_port s') = Some b /\
                     next_port_in_aggregator (ad_port s') = lag;
  lk_other : q <> b -> lag_ports (ad_agg s') = lag_ports (ad_agg s) /\
                       num_of_ports (ad_agg s') = num_of_ports (ad_agg s);
  lk_self : q = b -> lag_ports (ad_agg s') = Some p /\
                     num_of_ports (ad_agg s') = u16 (num_of_ports (ad_agg s) + 1) }.

Section link.
Context (ids : list ptr) (L : ptr -> list ptr) (h h' : heap) (b p : ptr) (sb : slave).
Context (Hwf : lag_wf None ids L h) (Hb : b ∈ ids) (Hp : p ∈ ids).
Context (Hsb : h !! b = Some sb) (Hfree : forall a, a ∈ ids -> p ∉ L a).
Context (Hlk : heap_rel (linked b p (lag_ports (ad_agg sb))) h h').

Lemma link_chain a sa' :
  a ∈ ids -> h' !! a = Some sa' ->
  lag_chain h' (lag_ports (ad_agg sa')) ((<[b := p :: L b]> L) a) /\
  num_of_ports (ad_agg sa') = u16 (Z.of_nat (length ((<[b := p :: L b]> L) a))).
Proof.
  intros Ha Hsa'. destruct (heap_rel_inv _ _ _ _ _ Hlk Hsa') as (sa & Hsa & Hr).
  pose proof (lw_chain _ _ _ _ Hwf a sa Ha Hsa) as Hc.
  pose proof (lw_num _ _ _ _ Hwf a sa Ha Hsa) as Hn.
  assert (forall o, lag_chain h o (L a) -> lag_chain h' o (L a)) as Hext.
  { intros o. apply lag_chain_ext. intros q Hq sq (sq' & ? & Hr')%(proj2 Hlk).
    exists sq'. split; [done|]. eapply lk_same; [done|]. intros ->. by eapply Hfree. }
  destruct (decide (a = b)) as [->|Hne].
  - rewrite fn_lookup_insert. destruct (lk_self _ _ _ _ _ _ Hr eq_refl) as [-> ->].
    simplify_eq. split.
    + split; [done|]. destruct (lw_in _ _ _ _ Hwf p Hp) as [sp Hsp].
      destruct (proj2 Hlk p sp Hsp) as (sp' & Hsp' & Hr'). exists sp'. split; [done|].
      destruct (lk_port _ _ _ _ _ _ Hr' eq_refl) as [_ ->]. auto.
    + rewrite Hn, u16_succ. cbn [length]. f_equal. lia.
  - rewrite fn_lookup_insert_ne by done.
    destruct (lk_other _ _ _ _ _ _ Hr Hne) as [-> ->]. auto.
Qed.

Lemma link_mem a q :
  q ∈ (<[b := p :: L b]> L) a <-> (q ∈ L a \/ (q = p /\ a = b)).
Proof.
  destruct (decide (a = b)) as [->|Hne].
  - rewrite fn_lookup_insert. set_solver.
  - rewrite fn_lookup_insert_ne by done. set_solver.
Qed.

Lemma lag_wf_link : lag_wf None ids (<[b := p :: L b]> L) h'.
Proof.
  split.
  - apply Hwf.
  - intros q [s (s' & ? & _)%(proj2 Hlk)]%(lw_in _ _ _ _ Hwf). eauto.
  - intros a sa' Ha Hsa'. by apply link_chain.
  - intros a Ha. pose proof (lw_nodup _ _ _ _ Hwf a Ha) as Hnd.
    destruct (decide (a = b)) as [->|Hne].
    + rewrite fn_lookup_insert. apply NoDup_cons. auto.
    + by rewrite fn_lookup_insert_ne.
  - intros a sa' Ha Hsa'. by apply link_chain.
  - intros a q Ha [Hq|[-> _]]%link_mem; [|done]. by eapply lw_mem.
  - intros a q sq' Ha Hq%link_mem Hsq'.
    destruct (heap_rel_inv _ _ _ _ _ Hlk Hsq') as (sq & Hsq & Hr).
    destruct (decide (q = p)) as [->|Hne].
    + destruct Hq as [Hq|[_ ->]]; [by apply Hfree in Hq|].
      by apply (lk_port _ _ _ _ _ _ Hr).
    + destruct Hq as [Hq|[? _]]; [|done].
      rewrite (proj1 (lk_same _ _ _ _ _ _ Hr Hne)). by eapply lw_fwd.
  - intros a q sq' Hq Hsq' Hlv Hagg.
    destruct (heap_rel_inv _ _ _ _ _ Hlk Hsq') as (sq & Hsq & Hr).
    rewrite link_mem. destruct (decide (q = p)) as [->|Hne].
    + destruct (lk_port _ _ _ _ _ _ Hr eq_refl) as [E _]. naive_solver.
    + rewrite (proj1 (lk_same _ _ _ _ _ _ Hr Hne)) in Hagg.
      destruct (lw_back _ _ _ _ Hwf a q sq Hq Hsq Hlv Hagg). auto.
  - intros q sq' Hq Hsq' Hlv Hagg.
    destruct (heap_rel_inv _ _ _ _ _ Hlk Hsq') as (sq & Hsq & Hr).
    destruct (decide (q = p)) as [->|Hne].
    + destruct (lk_port _ _ _ _ _ _ Hr eq_refl). congruence.
    + destruct (lk_same _ _ _ _ _ _ Hr Hne) as [E ->]. rewrite E in Hagg.
      by eapply lw_next.
  - intros q sq' Hq Hsq'. destruct (heap_rel_inv _ _ _ _ _ Hlk Hsq') as (sq & Hsq & Hr).
    rewrite (lk_pslave _ _ _ _ _ _ Hr), (lk_aslave _ _ _ _ _ _ Hr).
    by eapply lw_slave.
Qed.
End link.

(** ** Running the updates *)

Lemma wp_upd_slave_alter p f (Q : unit -> bonding -> Prop) st :
  is_Some (slaves st !! p) -> Q tt (st <| slaves ::= alter f p |>) ->
  wp (upd_slave p f) Q st.
Proof.
  intros [s Hs] HQ. eapply wp_upd_slave; [done|].
  replace (st <| slaves ::= <[p := f s]> |>) with (st <| slaves ::= alter f p |>); [done|].
  unfold upd_field. simpl. by rewrite (alter_alt_Some _ _ _ _ Hs).
Qed.

Lemma wp_get_agg_some a (Q : aggregator -> bonding -> Prop) st :
  is_Some (slaves st !! a) ->
  (forall sa, slaves st !! a = Some sa -> Q (ad_agg sa) st) -> wp (get_agg a) Q st.
Proof. intros [sa Hsa] HQ. eapply wp_get_agg; eauto. Qed.

Lemma wp_get_port_some p (Q : port -> bonding -> Prop) st :
  is_Some (slaves st !! p) ->
  (forall sp, slaves st !! p = Some sp -> Q (ad_port sp) st) -> wp (get_port p) Q st.
Proof. intros [sp Hsp] HQ. eapply wp_get_port; eauto. Qed.

(** What moving port [p] between aggregators leaves alone. *)
Record move_frame (p : ptr) (q : ptr) (s s' : slave) : Prop := {
  mf_mux : mux_eq s s';
  mf_sel : q <> p -> has (sm_vars (ad_port s')) AD_PORT_SELECTED =
                     has (sm_vars (ad_port s)) AD_PORT_SELECTED;
  mf_agg : q <> p -> port_aggregator (ad_port s') = port_aggregator (ad_port s);
  mf_act : is_active (ad_agg s') = true -> is_active (ad_agg s) = true }.

Definition moved (p : ptr) (st st' : bonding) : Prop :=
  params st' = params st /\ slave_list st' = slave_list st /\
  heap_rel (move_frame p) (slaves st) (slaves st').

Lemma mux_eq_trans s1 s2 s3 : mux_eq s1 s2 -> mux_eq s2 s3 -> mux_eq s1 s3.
Proof. intros [] []. split; congruence. Qed.

Lemma moved_trans p st1 st2 st3 : moved p st1 st2 -> moved p st2 st3 -> moved p st1 st3.
Proof.
  intros (P1 & L1 & N1 & S1) (P2 & L2 & N2 & S2).
  split; [congruence|]. split; [congruence|]. split; [auto|].
  intros q s Hq. destruct (S1 q s Hq) as (s2 & Hq2 & [M2 E2 G2 A2]).
  destruct (S2 q s2 Hq2) as (s3 & Hq3 & [M3 E3 G3 A3]).
  exists s3. split; [done|]. split; [by eapply mux_eq_trans| | |auto].
  - intros Hne. rewrite E3, E2; done.
  - intros Hne. rewrite G3, G2; done.
Qed.

Lemma moved_refl p st : moved p st st.
Proof.
  split; [done|]. split; [done|]. split; [done|].
  intros q s Hq. exists s. split; [done|]. by repeat split.
Qed.

(** Pointwise description of a heap written by [alter]s. *)
Ltac heap_cases :=
  split;
  [ intros ? ?; rewrite ?lookup_alter_None; done
  | let Hq := fresh "Hq" in
    intros q s Hq; rewrite !lookup_alter; repeat case_decide; subst;
    rewrite ?Hq; simpl; simplify_eq; eexists; (split; [reflexivity|]) ].

Lemma unlinked_moved ids L a p pre post st st' :
  lag_wf None ids L (slaves st) -> a ∈ ids -> L a = pre ++ p :: post ->
  params st' = params st -> slave_list st' = slave_list st ->
  heap_rel (fun q s s' => unlinked None a p pre post q s s' /\ move_frame p q s s')
    (slaves st) (slaves st') ->
  lag_wf None ids (<[a := pre ++ post]> L) (slaves st') /\ moved p st st'.
Proof.
  intros Hwf Ha HL HP HS Hr. split.
  - eapply lag_wf_unlink; [done|done|done|]. eapply heap_rel_mono; [|done]. naive_solver.
  - split; [done|]. split; [done|]. eapply heap_rel_mono; [|done]. naive_solver.
Qed.

Lemma wp_unlink_port ids L a p pre post st :
  lag_wf None ids L (slaves st) -> a ∈ ids -> L a = pre ++ p :: post ->
  wp (unlink_port a p (last pre)) (fun _ st' =>
    lag_wf None ids (<[a := pre ++ post]> L) (slaves st') /\ moved p st st') st.
Proof.
  intros Hwf Ha HL.
  assert (p ∈ ids) as Hp by (eapply lw_mem; [done|exact Ha|rewrite HL; set_solver]).
  destruct (lw_in _ _ _ _ Hwf a Ha) as [sa Hsa].
  pose proof (lw_chain _ _ _ _ Hwf a sa Ha Hsa) as Hc. rewrite HL in Hc.
  pose proof (lag_chain_head _ _ _ Hc) as Hhead.
  pose proof (lw_num _ _ _ _ Hwf a sa Ha Hsa) as Hnum. rewrite HL in Hnum.
  destruct (lag_chain_split _ _ _ _ _ Hc) as (sp & Hsp & Hnext).
  apply wp_bind, wp_upd_slave_alter; [eauto|].
  apply wp_bind, wp_get_port_some; [by apply lookup_alter_is_Some|].
  rec_simpl. intros sp1 Hsp1.
  assert (next_port_in_aggregator (ad_port sp1) = head post) as ->.
  { rewrite lookup_alter in Hsp1. case_decide; subst; simplify_eq; [|done].
    rewrite Hsa in Hsp1. simpl in Hsp1. by simplify_eq. }
  clear sp1 Hsp1. apply wp_bind. destruct (last pre) as [r|] eqn:El.
  - assert (r ∈ ids /\ r <> p) as [Hr Hrp].
    { apply last_Some_elem_of in El. split.
      - eapply lw_mem; [done|exact Ha|rewrite HL; set_solver].
      - eapply (unlink_rest None ids L _ a p pre post Hwf Ha HL). set_solver. }
    pose proof (lw_in _ _ _ _ Hwf r Hr) as Hir.
    apply wp_upd_slave_alter; rec_simpl; [by apply lookup_alter_is_Some|].
    apply wp_bind, wp_upd_slave_alter; rec_simpl; [rewrite !lookup_alter_is_Some; eauto|].
    apply wp_bind, wp_get_agg_some; rec_simpl; [rewrite !lookup_alter_is_Some; eauto|].
    intros sa3 Hsa3. destruct pre as [|x pre]; [done|].
    assert (lag_ports (ad_agg sa3) = Some x) as ->.
    { rewrite !lookup_alter in Hsa3. repeat case_decide; subst; simplify_eq;
        rewrite ?Hsa in Hsa3; simpl in Hsa3; by simplify_eq. }
    apply wp_ret. eapply unlinked_moved; [done|done|done|done|done|]. rec_simpl.
    heap_cases; split; split; rec_simpl; try done; try naive_solver.
  - apply last_None in El as ->. simpl in *.
    apply wp_upd_slave_alter; rec_simpl; [by apply lookup_alter_is_Some|].
    apply wp_bind, wp_upd_slave_alter; rec_simpl; [rewrite !lookup_alter_is_Some; eauto|].
    apply wp_bind, wp_get_agg_some; rec_simpl; [rewrite !lookup_alter_is_Some; eauto|].
    intros sa3 Hsa3.
    assert (lag_ports (ad_agg sa3) = head post) as ->.
    { rewrite !lookup_alter in Hsa3. repeat case_decide; subst; simplify_eq;
        rewrite ?Hsa in Hsa3; simpl in Hsa3; by simplify_eq. }
    destruct post as [|x post]; simpl.
    + apply wp_upd_slave_alter; [rec_simpl; rewrite !lookup_alter_is_Some; eauto|].
      apply (unlinked_moved _ _ _ _ [] []); [done|done|done|done|done|]. rec_simpl.
      heap_cases; split; split; rec_simpl; try done; try naive_solver.
      all: intros; simplify_eq; by rewrite Hnum.
    + apply wp_ret. apply (unlinked_moved _ _ _ _ [] (x :: post)); [done|done|done|done|done|]. rec_simpl.
      heap_cases; split; split; rec_simpl; try done; try naive_solver.
Qed.

Lemma wp_detach_port ids L a p st :
  lag_wf None ids L (slaves st) -> a ∈ ids -> p ∈ L a ->
  wp (detach_port a p) (fun r st' => r = true /\ moved p st st' /\
    exists pre post, L a = pre ++ p :: post /\
      lag_wf None ids (<[a := pre ++ post]> L) (slaves st')) st.
Proof.
  intros Hwf Ha HpL. destruct (lw_in _ _ _ _ Hwf a Ha) as [sa Hsa].
  apply wp_bind.
  eapply (wp_for_agg_ports None ids L a sa (fun pre (x : option ptr * bool) st' =>
    st' = st /\ x.1 = last pre /\ p ∉ pre)); [done|done|done|set_solver| | |].
  - intros pre x st' (-> & _). pose proof (lw_chain _ _ _ _ Hwf a sa Ha Hsa) as Hc.
    by rewrite <-(lag_chain_head _ _ _ Hc).
  - intros pre q post [lst b] st' HL (-> & Hlast & Hnp). simpl in Hlast. subst lst.
    case_decide as E.
    + subst q. apply wp_bind. eapply wp_mono; [by eapply wp_unlink_port|].
      intros [] st' [Hwf' Hm]. apply wp_ret, wp_ret. naive_solver.
    + apply wp_ret. split; [done|]. rewrite last_snoc. set_solver.
  - intros x st' (-> & _ & Hn). done.
Qed.

(** ** Joining an aggregator *)

Ltac heap_field :=
  intros; simplify_eq; repeat match goal with |- _ /\ _ => split end;
  first [ reflexivity | congruence | by flags | idtac ].

(** The port has joined [b], which holds [SELECTED] and the pointers. *)
Definition joined (ids : list ptr) (L : ptr -> list ptr) (p b : ptr) (st st' : bonding)
    : Prop :=
  b ∈ ids /\ lag_wf None ids (<[b := p :: L b]> L) (slaves st') /\ moved p st st' /\
  exists sp, slaves st' !! p = Some sp /\
    has (sm_vars (ad_port sp)) AD_PORT_SELECTED = true /\
    port_aggregator (ad_port sp) = Some b.

Lemma linked_joined ids L p b sb st st' :
  lag_wf None ids L (slaves st) -> b ∈ ids -> p ∈ ids ->
  (forall a, a ∈ ids -> p ∉ L a) -> slaves st !! b = Some sb ->
  params st' = params st -> slave_list st' = slave_list st ->
  heap_rel (fun q s s' => linked b p (lag_ports (ad_agg sb)) q s s' /\ move_frame p q s s' /\
      (q = p -> has (sm_vars (ad_port s')) AD_PORT_SELECTED = true))
    (slaves st) (slaves st') ->
  joined ids L p b st st'.
Proof.
  intros Hwf Hb Hp Hfree Hsb HP HS Hr. split; [done|]. split; [|split].
  - eapply lag_wf_link; [done|done|done|done|done|]. eapply heap_rel_mono; [|done].
    naive_solver.
  - split; [done|]. split; [done|]. eapply heap_rel_mono; [|done]. naive_solver.
  - destruct (lw_in _ _ _ _ Hwf p Hp) as [sp Hsp].
    destruct (proj2 Hr p sp Hsp) as (sp' & Hsp' & Hl & _ & Hsel).
    exists sp'. split; [done|]. split; [auto|]. by apply (lk_port _ _ _ _ _ _ Hl).
Qed.

Lemma wp_join_free ids L p f st :
  lag_wf None ids L (slaves st) -> f ∈ ids -> p ∈ ids ->
  (forall a, a ∈ ids -> p ∉ L a) -> L f = [] ->
  wp (join_free p f) (fun _ st' => joined ids L p f st st') st.
Proof.
  intros Hwf Hf Hp Hfree HL. destruct (lw_in _ _ _ _ Hwf f Hf) as [sf Hsf].
  destruct (lw_in _ _ _ _ Hwf p Hp) as [sp Hsp].
  pose proof (lw_chain _ _ _ _ Hwf f sf Hf Hsf) as Hlag. rewrite HL in Hlag. simpl in Hlag.
  assert (next_port_in_aggregator (ad_port sp) = None) as Hnext.
  { destruct (port_aggregator (ad_port sp)) as [a|] eqn:E; [|by eapply lw_next].
    destruct (lw_back _ _ _ _ Hwf a p sp Hp Hsp ltac:(done) E) as [Ha Hpa].
    by apply Hfree in Hpa. }
  apply wp_bind. eapply wp_get_agg; [done|].
  apply wp_bind, wp_upd_slave_alter; [eauto|].
  apply wp_bind, wp_get_port_some; [rec_simpl; rewrite !lookup_alter_is_Some; eauto|].
  intros sp1 _. apply wp_bind, wp_upd_slave_alter;
    [rec_simpl; rewrite !lookup_alter_is_Some; eauto|].
  apply wp_bind, wp_upd_slave_alter; [rec_simpl; rewrite !lookup_alter_is_Some; eauto|].
  apply wp_upd_slave_alter; [rec_simpl; rewrite !lookup_alter_is_Some; eauto|].
  eapply linked_joined; [done|done|done|done|done|done|done|]. rec_simpl.
  heap_cases; (split; [split|split; [split|]]); rec_simpl; heap_field.
Qed.

(** The aggregators port [p] may join, in the order of the search. *)
Definition suits_at (h : heap) (p a : ptr) : bool :=
  match h !! a, h !! p with
  | Some sa, Some sp => bool_decide (is_Some (lag_ports (ad_agg sa))) &&
                        agg_suits (ad_agg sa) (ad_port sp)
  | _, _ => false
  end.
Definition free_at (h : heap) (a : ptr) : bool :=
  match h !! a with
  | Some sa => bool_decide (lag_ports (ad_agg sa) = None)
  | None => false
  end.
(** The first LAG that suits, else the first free aggregator. *)
Definition join_target (h : heap) (ids : list ptr) (p : ptr) : option ptr :=
  match filter (fun a => suits_at h p a = true) ids with
  | b :: _ => Some b
  | [] => head (filter (fun a => free_at h a = true) ids)
  end.

Lemma lag_ports_None_empty lv ids L h a sa :
  lag_wf lv ids L h -> a ∈ ids -> h !! a = Some sa ->
  lag_ports (ad_agg sa) = None <-> L a = [].
Proof.
  intros Hwf Ha Hsa. pose proof (lw_chain _ _ _ _ Hwf a sa Ha Hsa) as Hc.
  destruct (L a) as [|x l]; [done|]. destruct Hc as [-> _]. done.
Qed.

Lemma wp_join_to ids L p a sa st :
  lag_wf None ids L (slaves st) -> a ∈ ids -> p ∈ ids ->
  (forall b, b ∈ ids -> p ∉ L b) -> slaves st !! a = Some sa ->
  wp (join_lag p a (ad_agg sa))
    (fun _ st' => joined ids L p a st st') st.
Proof.
  intros Hwf Ha Hp Hfree Hsa. pose proof (lw_in _ _ _ _ Hwf p Hp).
  apply wp_bind, wp_upd_slave_alter; [done|].
  apply wp_bind, wp_upd_slave_alter; [rec_simpl; rewrite !lookup_alter_is_Some; eauto|].
  apply wp_upd_slave_alter; [rec_simpl; rewrite !lookup_alter_is_Some; eauto|].
  eapply linked_joined; [done|done|done|done|done|done|done|]. rec_simpl.
  heap_cases; (split; [split|split; [split|]]); rec_simpl; heap_field.
Qed.

(** One turn of the search. *)
Lemma search_step p a sa sp st pre :
  slaves st !! a = Some sa -> slaves st !! p = Some sp ->
  filter (fun a => suits_at (slaves st) p a = true) pre = [] ->
  (forall l, filter (fun a => suits_at (slaves st) p a = true) (pre ++ a :: l) =
    if bool_decide (is_Some (lag_ports (ad_agg sa))) && agg_suits (ad_agg sa) (ad_port sp)
    then a :: filter (fun a => suits_at (slaves st) p a = true) l
    else filter (fun a => suits_at (slaves st) p a = true) l) /\
  filter (fun a => free_at (slaves st) a = true) (pre ++ [a]) =
    filter (fun a => free_at (slaves st) a = true) pre ++
    if bool_decide (lag_ports (ad_agg sa) = None) then [a] else [].
Proof.
  intros Hsa Hsp Hsuit. split.
  - intros l. rewrite filter_app, Hsuit, app_nil_l, filter_bool_cons.
    unfold suits_at at 1. by rewrite Hsa, Hsp.
  - rewrite filter_app, filter_bool_cons.
    assert (free_at (slaves st) a = bool_decide (lag_ports (ad_agg sa) = None)) as ->
      by (unfold free_at; by rewrite Hsa). done.
Qed.

Lemma wp_join_existing L p st :
  lag_wf None (slave_list st) L (slaves st) -> p ∈ slave_list st ->
  (forall a, a ∈ slave_list st -> p ∉ L a) ->
  wp (join_existing p) (fun r st' =>
    match filter (fun a => suits_at (slaves st) p a = true) (slave_list st) with
    | b :: _ => r.2 = true /\ joined (slave_list st) L p b st st'
    | [] => r = (head (filter (fun a => free_at (slaves st) a = true) (slave_list st)),
                 false) /\ st' = st
    end) st.
Proof.
  intros Hwf Hp Hfree. destruct (lw_in _ _ _ _ Hwf p Hp) as [sp Hsp].
  apply wp_bind, wp_gets.
  apply (wp_for_each (fun pre r st' => st' = st /\
    filter (fun a => suits_at (slaves st) p a = true) pre = [] /\
    r = (head (filter (fun a => free_at (slaves st) a = true) pre), false)));
    [done| |by intros r st' (-> & -> & ->)].
  intros pre a post r st' Hl (-> & Hsuit & ->).
  assert (a ∈ slave_list st) as Ha by (rewrite Hl; set_solver).
  destruct (lw_in _ _ _ _ Hwf a Ha) as [sa Hsa].
  apply wp_bind. eapply wp_get_agg; [done|].
  destruct (search_step p a sa sp st pre Hsa Hsp Hsuit) as [Hs Hf].
  destruct (lag_ports (ad_agg sa)) as [x|] eqn:Elag.
  - apply wp_bind. eapply wp_get_port; [done|]. simpl in Hs.
    destruct (agg_suits (ad_agg sa) (ad_port sp)).
    + apply wp_bind. eapply wp_mono; [by eapply wp_join_to|].
      intros [] st' Hj. apply wp_ret. specialize (Hs post). rewrite <-Hl in Hs.
      by rewrite Hs.
    + apply wp_ret. split; [done|]. by rewrite Hs, Hf, app_nil_r.
  - apply wp_ret. simpl in *. split; [done|]. rewrite Hs, Hf. split; [done|].
    by destruct (filter (fun a => free_at (slaves st) a = true) pre).
Qed.

(** ** The whole selection *)

(** The lists and the heap once port [p] is off its list. *)
Definition detached (p : ptr) (L L' : ptr -> list ptr) (st st' : bonding) : Prop :=
  lag_wf None (slave_list st) L' (slaves st') /\ moved p st st' /\
  (forall a, a ∈ slave_list st -> p ∉ L' a) /\
  (forall a q, q ∈ L' a -> q ∈ L a).

Lemma wp_detach L p sp st :
  lag_wf None (slave_list st) L (slaves st) -> p ∈ slave_list st ->
  slaves st !! p = Some sp ->
  wp (match port_aggregator (ad_port sp) with
      | None => ret tt
      | Some a => let* _ := detach_port a p in ret tt
      end) (fun _ st' => exists L', detached p L L' st st') st.
Proof.
  intros Hwf Hp Hsp. destruct (port_aggregator (ad_port sp)) as [a|] eqn:Ea.
  - destruct (lw_back _ _ _ _ Hwf a p sp Hp Hsp ltac:(done) Ea) as [Ha HpL].
    apply wp_bind. eapply wp_mono; [by eapply wp_detach_port|].
    intros r st' (_ & Hm & pre & post & HL & Hwf'). apply wp_ret.
    exists (<[a := pre ++ post]> L). split; [done|]. split; [done|]. split.
    + intros b Hb HpL'. by destruct (unlink_mem None (slave_list st) L (slaves st) a p pre post
        Hwf Ha HL b p Hb HpL').
    + intros b q Hq. destruct (decide (b = a)) as [->|Hne].
      * rewrite fn_lookup_insert in Hq. rewrite HL. set_solver.
      * by rewrite fn_lookup_insert_ne in Hq.
  - apply wp_ret. exists L. split; [done|]. split; [apply moved_refl|]. split; [|done].
    intros a Ha HpL. by rewrite (lw_fwd _ _ _ _ Hwf a p sp Ha HpL Hsp) in Ea.
Qed.

Lemma join_target_some L h ids p :
  lag_wf None ids L h -> p ∈ ids -> (forall a, a ∈ ids -> p ∉ L a) ->
  filter (fun a => suits_at h p a = true) ids = [] ->
  exists f, head (filter (fun a => free_at h a = true) ids) = Some f /\ f ∈ ids /\ L f = [].
Proof.
  intros Hwf Hp Hfree _. destruct (free_aggregator _ _ _ _ p Hwf Hp Hfree) as (f & Hf & HL).
  assert (f ∈ filter (fun a => free_at h a = true) ids) as Hin.
  { apply list_elem_of_filter. split; [|done]. unfold free_at.
    destruct (lw_in _ _ _ _ Hwf f Hf) as [sf Hsf]. rewrite Hsf.
    apply bool_decide_eq_true. by eapply lag_ports_None_empty. }
  destruct (filter (fun a => free_at h a = true) ids) as [|g l] eqn:E; [set_solver|].
  exists g. split; [done|]. assert (g ∈ g :: l) as Hg by set_solver.
  rewrite <-E in Hg. apply list_elem_of_filter in Hg as [Hg Hin']. split; [done|].
  unfold free_at in Hg. destruct (h !! g) as [sg|] eqn:Eg; [|done].
  apply bool_decide_eq_true in Hg. by eapply lag_ports_None_empty.
Qed.

(** Selecting always succeeds: once off its list, the port joins the first LAG
    that suits, or else the first free aggregator, which exists. *)
Definition reattached (L : ptr -> list ptr) (p : ptr) (st st' : bonding) : Prop :=
  exists L1 st1 b, detached p L L1 st st1 /\
    join_target (slaves st1) (slave_list st) p = Some b /\
    joined (slave_list st) L1 p b st1 st'.

Lemma wp_select_aggregator L p st :
  lag_wf None (slave_list st) L (slaves st) -> p ∈ slave_list st ->
  wp (select_aggregator p) (fun r st' => r = true /\ reattached L p st st') st.
Proof.
  intros Hwf Hp. destruct (lw_in _ _ _ _ Hwf p Hp) as [sp Hsp].
  destruct (lw_slave _ _ _ _ Hwf p sp Hp Hsp) as [Hps _].
  apply wp_bind, wp_bind. eapply wp_get_port; [done|]. apply wp_ret. rewrite Hps.
  apply wp_bind. eapply wp_get_port; [done|].
  apply wp_bind. eapply wp_mono; [by eapply wp_detach|].
  intros _ st1 (L1 & Hd). pose proof Hd as (Hwf1 & (HP1 & HS1 & _) & Hfree1 & _).
  apply wp_bind, wp_ret, wp_bind. rewrite <-HS1 in Hwf1, Hfree1, Hp.
  eapply wp_mono; [by eapply wp_join_existing|].
  assert (forall b st', join_target (slaves st1) (slave_list st) p = Some b ->
    joined (slave_list st1) L1 p b st1 st' -> reattached L p st st') as Hre.
  { intros b st' Hb Hj. exists L1, st1, b. by rewrite <-HS1 at 2. }
  unfold join_target in Hre. rewrite <-HS1 in Hre.
  intros [free found] st2 Hr. destruct (filter _ _) as [|b l] eqn:Es.
  - destruct Hr as [[= -> ->] ->].
    destruct (join_target_some _ _ _ _ Hwf1 Hp Hfree1 Es) as (f & Ef & Hf & HLf).
    rewrite Ef. apply wp_bind. eapply wp_mono; [by eapply wp_join_free|].
    intros [] st' Hj. apply wp_ret. eauto.
  - destruct Hr as [E Hj]. simpl in E. rewrite E. apply wp_ret. eauto.
Qed.
End ad_attach.
