(* ===== verification/AdSafe.v ===== *)
(** * 802.3ad: the invariant of the bond

    The invariant that every function of [servers/bond_3ad.c] keeps, and the
    proof for the machines that run on a port: no null or dangling pointer is
    followed and every walk ends. *)

From stdpp Require Import functions.
From S2P Require Import Prelude.
From S2P Require Import AdTypes.
From S2P Require Import AdPort.
From S2P Require Import AdMachine.
From S2P Require Import AdControl.
From S2P Require Import AdEntry.
From S2P Require Import AdInv.
From S2P Require Import AdSelect.
From S2P Require Import AdAttach.

Section ad_safe.
Context `{K : Kernel} (KL : KernelLaws K).

Abbreviation heap := (gmap ptr slave).
Abbreviation MB := (M bonding).

(** ** The invariant *)

Definition collecting_state (s : mux_states_t) : bool :=
  match s with
  | AD_MUX_COLLECTING_DISTRIBUTING | AD_MUX_COLLECTING | AD_MUX_DISTRIBUTING => true
  | _ => false
  end.
Definition distributing_state (s : mux_states_t) : bool :=
  match s with
  | AD_MUX_COLLECTING_DISTRIBUTING | AD_MUX_DISTRIBUTING => true
  | _ => false
  end.

(** The port advertises COLLECTING and DISTRIBUTING as its mux state says. *)
Definition mux_flags (pt : port) : Prop :=
  has (actor_oper_port_state pt) LACP_STATE_COLLECTING =
    collecting_state (sm_mux_state pt) /\
  has (actor_oper_port_state pt) LACP_STATE_DISTRIBUTING =
    distributing_state (sm_mux_state pt).

(** What holds of each port: a selected port has an aggregator. *)
Definition port_wf (pt : port) : Prop :=
  (has (sm_vars pt) AD_PORT_SELECTED = true -> port_aggregator pt <> None) /\
  mux_flags pt.

(** The invariant without the activity of the aggregators. *)
Record ports_wf (lv : option ptr) (L : ptr -> list ptr) (st : bonding) : Prop := {
  pw_lag : lag_wf lv (slave_list st) L (slaves st);
  pw_port : forall p sp, p ∈ slave_list st -> slaves st !! p = Some sp ->
    lv <> Some p -> port_wf (ad_port sp) }.

(** At most one aggregator is active, and it holds a port. *)
Definition one_active (L : ptr -> list ptr) (st : bonding) : Prop :=
  exists o, only_active (slaves st) (slave_list st) o /\
    forall a, o = Some a -> a ∈ slave_list st /\ L a <> [].

Record ad_wf (lv : option ptr) (L : ptr -> list ptr) (st : bonding) : Prop := {
  aw_ports : ports_wf lv L st;
  aw_active : one_active L st }.

(** ** The frame keeps the invariant *)

Lemma port_wf_frame pt pt' :
  port_aggregator pt' = port_aggregator pt ->
  (has (sm_vars pt') AD_PORT_SELECTED = true -> has (sm_vars pt) AD_PORT_SELECTED = true) ->
  sm_mux_state pt' = sm_mux_state pt ->
  has (actor_oper_port_state pt') LACP_STATE_COLLECTING =
    has (actor_oper_port_state pt) LACP_STATE_COLLECTING ->
  has (actor_oper_port_state pt') LACP_STATE_DISTRIBUTING =
    has (actor_oper_port_state pt) LACP_STATE_DISTRIBUTING ->
  port_wf pt -> port_wf pt'.
Proof.
  intros Ha Hs Hm Hc Hd [H1 [H2 H3]]. split; [rewrite Ha; auto|].
  split; congruence.
Qed.

Lemma ports_wf_keeps_exc act p lv L st st' :
  keeps act (Some p) st st' -> ports_wf lv L st ->
  (forall sp', slaves st' !! p = Some sp' -> mux_flags (ad_port sp')) ->
  ports_wf lv L st'.
Proof.
  intros Hk [Hl Hp] Hexc. pose proof Hk as [_ HS HD HK]. split; rewrite HS.
  - by eapply lag_wf_keeps.
  - intros q sq' Hq Hsq' Hlv. destruct (lw_in _ _ _ _ Hl q Hq) as [sq Hsq].
    destruct (HK q sq Hsq) as (s' & Hs' & Hsh & _ & Hm). simplify_eq.
    destruct (Hp q sq Hq Hsq Hlv) as [Hp1 Hp2].
    split; [rewrite (se_sel _ _ Hsh), (se_agg _ _ Hsh); done|].
    destruct (decide (q = p)) as [->|Hne]; [auto|].
    destruct (Hm ltac:(congruence)) as [E1 E2 E3]. destruct Hp2. split; congruence.
Qed.

Lemma ports_wf_keeps act lv L st st' :
  keeps act None st st' -> ports_wf lv L st -> ports_wf lv L st'.
Proof.
  intros Hk [Hl Hp]. pose proof Hk as [_ HS HD HK]. split; rewrite HS.
  - by eapply lag_wf_keeps.
  - intros q sq' Hq Hsq' Hlv. destruct (lw_in _ _ _ _ Hl q Hq) as [sq Hsq].
    destruct (HK q sq Hsq) as (s' & Hs' & Hsh & _ & Hm). simplify_eq.
    destruct (Hm ltac:(done)) as [E1 E2 E3].
    eapply port_wf_frame; [apply Hsh|by rewrite (se_sel _ _ Hsh)|done|done|done|].
    by eapply Hp.
Qed.

Lemma one_active_keeps exc L st st' :
  keeps true exc st st' -> one_active L st -> one_active L st'.
Proof.
  intros Hk (o & Ho & Hin). exists o. rewrite (kp_list _ _ _ _ Hk).
  split; [by eapply only_active_keeps|done].
Qed.

Lemma ad_wf_keeps lv L st st' :
  keeps true None st st' -> ad_wf lv L st -> ad_wf lv L st'.
Proof.
  intros Hk [Hp Ha]. split; [by eapply ports_wf_keeps|by eapply one_active_keeps].
Qed.

(** A write to a port that keeps its links and its mux state. *)
Record port_frame (pt pt' : port) : Prop := {
  pf_next : next_port_in_aggregator pt' = next_port_in_aggregator pt;
  pf_agg : port_aggregator pt' = port_aggregator pt;
  pf_slave : port_slave pt' = port_slave pt;
  pf_sel : has (sm_vars pt') AD_PORT_SELECTED = true ->
           has (sm_vars pt) AD_PORT_SELECTED = true;
  pf_mux : sm_mux_state pt' = sm_mux_state pt;
  pf_coll : has (actor_oper_port_state pt') LACP_STATE_COLLECTING =
            has (actor_oper_port_state pt) LACP_STATE_COLLECTING;
  pf_dist : has (actor_oper_port_state pt') LACP_STATE_DISTRIBUTING =
            has (actor_oper_port_state pt) LACP_STATE_DISTRIBUTING }.

Lemma port_frame_refl pt : port_frame pt pt.
Proof. by split. Qed.
Lemma port_frame_trans p1 p2 p3 : port_frame p1 p2 -> port_frame p2 p3 -> port_frame p1 p3.
Proof. intros [] []. split; try congruence. auto. Qed.

Lemma ports_wf_upd_port lv L st p sp pt' :
  ports_wf lv L st -> slaves st !! p = Some sp -> port_frame (ad_port sp) pt' ->
  ports_wf lv L (st <| slaves ::= <[p := sp <| ad_port := pt' |>]> |>).
Proof.
  intros [Hl Hp] Hsp Hf. split; rec_simpl.
  - eapply lag_wf_links; [|done]. split.
    + intros q Hq. rewrite lookup_insert_ne by congruence. done.
    + intros q s Hq. rewrite lookup_insert. case_decide; simplify_eq; eexists;
        (split; [done|]); split; rec_simpl; (apply Hf || done).
  - intros q sq Hq. rewrite lookup_insert. case_decide; simplify_eq; [|by apply Hp].
    intros [= <-] Hlv. rec_simpl. destruct Hf.
    eapply port_wf_frame; [done|done|done|done|done|]. by eapply Hp.
Qed.

Lemma one_active_upd_port L st p sp pt' :
  slaves st !! p = Some sp -> one_active L st ->
  one_active L (st <| slaves ::= <[p := sp <| ad_port := pt' |>]> |>).
Proof.
  intros Hsp (o & Ho & Hin). exists o. rec_simpl. split; [|done].
  intros a Ha. rewrite <-(Ho a Ha). unfold is_active_at. rewrite lookup_insert.
  case_decide; [|done]. subst. by rewrite Hsp.
Qed.

Lemma wp_upd_port_frame lv L p (f : port -> port) st :
  ad_wf lv L st -> p ∈ slave_list st -> (forall pt, port_frame pt (f pt)) ->
  wp (upd_port p f) (fun _ st' => ad_wf lv L st' /\ slave_list st' = slave_list st) st.
Proof.
  intros [Hp Ha] Hin Hf. destruct (lw_in _ _ _ _ (pw_lag _ _ _ Hp) p Hin) as [sp Hsp].
  eapply wp_upd_slave; [done|]. split; [|done]. split.
  - by apply (ports_wf_upd_port lv L st p sp (f (ad_port sp))).
  - by apply (one_active_upd_port L st p sp (f (ad_port sp))).
Qed.

Lemma wp_upd_port_keeps lv L p (f : port -> port) st :
  ad_wf lv L st -> p ∈ slave_list st ->
  (forall pt, port_frame pt (f pt) /\ has (sm_vars (f pt)) AD_PORT_SELECTED =
                                     has (sm_vars pt) AD_PORT_SELECTED) ->
  wp (upd_port p f) (fun _ st' => keeps true None st st') st.
Proof.
  intros Hwf Hp Hf. destruct (lw_in _ _ _ _ (pw_lag _ _ _ (aw_ports _ _ _ Hwf)) p Hp) as [sp Hsp].
  eapply wp_upd_slave; [done|]. destruct (Hf (ad_port sp)) as [[] Hsel].
  eapply keeps_insert; [done| |done|]; [split; [split|]; rec_simpl; done|].
  intros _. split; rec_simpl; done.
Qed.

(** ** The machines on one port keep the frame *)

Ltac frame_tac :=
  repeat case_match;
  split; first [ reflexivity | rec_simpl; by flags | rec_simpl; flags; auto ].

Lemma frame_choose_matched l pt : port_frame pt (__choose_matched l pt).
Proof. unfold __choose_matched. frame_tac. Qed.
Lemma frame_record_pdu l pt : port_frame pt (__record_pdu l pt).
Proof.
  eapply port_frame_trans; [apply (frame_choose_matched l)|]. unfold __record_pdu. frame_tac.
Qed.
Lemma frame_record_default pt : port_frame pt (__record_default pt).
Proof. unfold __record_default. frame_tac. Qed.
Lemma frame_update_selected l pt : port_frame pt (__update_selected l pt).
Proof. unfold __update_selected. frame_tac. Qed.
Lemma frame_update_default_selected pt : port_frame pt (__update_default_selected pt).
Proof. unfold __update_default_selected. frame_tac. Qed.
Lemma frame_update_ntt l pt : port_frame pt (__update_ntt l pt).
Proof. unfold __update_ntt. frame_tac. Qed.
Lemma frame_rx_next_state l pt : port_frame pt (rx_next_state l pt).
Proof. unfold rx_next_state. frame_tac. Qed.
Lemma frame_periodic pt : port_frame pt (ad_periodic_machine pt).
Proof. unfold ad_periodic_machine, periodic_next_state, periodic_action. frame_tac. Qed.
Lemma frame_churn pt : port_frame pt (ad_churn_machine pt).
Proof. unfold ad_churn_machine. frame_tac. Qed.
Lemma frame_update_actor_keys sl r pt : port_frame pt (update_actor_keys sl r pt).
Proof. unfold update_actor_keys, set_actor_keys. frame_tac. Qed.
Lemma frame_update_lacpdu pt : port_frame pt (__update_lacpdu_from_port pt).
Proof. unfold __update_lacpdu_from_port. frame_tac. Qed.

Lemma rx_next_state_current pt :
  sm_rx_state (rx_next_state None pt) = AD_RX_CURRENT -> sm_rx_state pt = AD_RX_CURRENT.
Proof.
  unfold rx_next_state. rewrite (bool_decide_eq_false_2 (is_Some None)) by (by intros []).
  destruct (tick_down _) as [c e]. simpl.
  destruct (has _ AD_PORT_BEGIN); [done|]. destruct (negb (is_enabled pt)); [done|].
  destruct e; repeat case_match; try done; rec_simpl; congruence.
Qed.

Lemma rx_action_ok l pt :
  (sm_rx_state pt = AD_RX_CURRENT -> l <> None) ->
  exists pt', rx_action l pt = Ok pt' /\ port_frame pt pt'.
Proof.
  intros Hl. unfold rx_action. destruct (sm_rx_state pt) eqn:E.
  - eexists. split; [done|]. apply port_frame_refl.
  - eexists. split; [done|]. unfold rx_port_disabled_action, __record_default. frame_tac.
  - eexists. split; [done|]. unfold rx_port_disabled_action. frame_tac.
  - eexists. split; [done|]. unfold __record_default. frame_tac.
  - eexists. split; [done|]. frame_tac.
  - eexists. split; [done|].
    eapply port_frame_trans; [apply frame_update_default_selected|].
    eapply port_frame_trans; [apply frame_record_default|]. frame_tac.
  - destruct l as [l|]; [|by destruct (Hl eq_refl)].
    destruct (MAC_ADDRESS_EQUAL _ _); [eexists; split; [done|apply port_frame_refl]|].
    eexists. split; [done|].
    eapply port_frame_trans; [apply (frame_update_selected l)|].
    eapply port_frame_trans; [apply (frame_update_ntt l)|].
    eapply port_frame_trans; [apply (frame_record_pdu l)|]. frame_tac.
Qed.

(** The receive machine follows no null LACPDU pointer. *)
Lemma rx_machine_ok l pt :
  exists pt', ad_rx_machine_port l pt = Ok pt' /\ port_frame pt pt'.
Proof.
  unfold ad_rx_machine_port. destruct (_ || _) eqn:E.
  - destruct (rx_action_ok l (rx_next_state l pt)) as (pt' & -> & Hf).
    + intros Hc ->. apply rx_next_state_current in Hc as Hc'. rewrite Hc, Hc' in E.
      rewrite (bool_decide_eq_false_2 (is_Some None)) in E by (by intros []).
      by rewrite bool_decide_eq_true_2 in E.
    + exists pt'. split; [done|]. eapply port_frame_trans; [apply (frame_rx_next_state l)|done].
  - eexists. split; [done|]. apply frame_rx_next_state.
Qed.

(** ** The functions that do not move ports *)

Lemma ad_wf_in lv L st p : ad_wf lv L st -> p ∈ slave_list st -> is_Some (slaves st !! p).
Proof. intros Hwf. apply Hwf. Qed.

Lemma ad_wf_slave lv L st p sp :
  ad_wf lv L st -> p ∈ slave_list st -> slaves st !! p = Some sp ->
  port_slave (ad_port sp) = Some p.
Proof. intros Hwf Hp Hsp. by eapply (lw_slave _ _ _ _ (pw_lag _ _ _ (aw_ports _ _ _ Hwf))). Qed.

Lemma wp_keeps_ad_wf {A} (m : MB A) lv L st :
  ad_wf lv L st -> wp m (fun _ st' => keeps true None st st') st ->
  wp m (fun _ st' => ad_wf lv L st' /\ slave_list st' = slave_list st) st.
Proof.
  intros Hwf Hm. eapply wp_mono; [done|]. intros a st' Hk. cbv beta in Hk.
  split; [by eapply ad_wf_keeps|apply Hk].
Qed.

Lemma wp_ad_rx_machine lv L l p st :
  ad_wf lv L st -> p ∈ slave_list st ->
  wp (ad_rx_machine l p) (fun _ st' => ad_wf lv L st' /\ slave_list st' = slave_list st) st.
Proof.
  intros Hwf Hp. apply wp_bind.
  eapply (wp_mono _ (fun _ st' => ad_wf lv L st' /\ slave_list st' = slave_list st)).
  { destruct l as [l|]; [|by apply wp_ret]. destruct (ad_wf_in _ _ _ _ Hwf Hp) as [sp Hsp].
    apply wp_bind. eapply wp_get_port; [done|]. apply wp_bind.
    eapply wp_deref; [by eapply ad_wf_slave|].
    apply wp_keeps_ad_wf; [done|]. eapply wp_inc_stat; [apply Hwf|done]. }
  intros [] st1 [Hwf1 HS1]. rewrite <-HS1 in Hp.
  destruct (ad_wf_in _ _ _ _ Hwf1 Hp) as [sp Hsp].
  apply wp_bind. eapply wp_get_port; [done|]. apply wp_bind.
  destruct (rx_machine_ok l (ad_port sp)) as (pt' & Hok & Hf).
  unfold wp, lift at 1. rewrite Hok. eapply wp_upd_slave; [done|].
  split; [|done]. split.
  - apply (ports_wf_upd_port lv L st1 p sp pt'); [apply Hwf1|done|done].
  - apply (one_active_upd_port L st1 p sp pt'); [done|apply Hwf1].
Qed.

Lemma wp_ad_tx_machine lv L p st :
  ad_wf lv L st -> p ∈ slave_list st ->
  wp (ad_tx_machine p) (fun _ st' => ad_wf lv L st' /\ slave_list st' = slave_list st) st.
Proof.
  intros Hwf Hp. destruct (ad_wf_in _ _ _ _ Hwf Hp) as [sp Hsp].
  apply wp_bind. eapply wp_get_port; [done|]. apply wp_bind.
  eapply (wp_mono _ (fun _ st' => ad_wf lv L st' /\ slave_list st' = slave_list st)).
  { destruct (_ =? 0); [by apply wp_ret|].
    apply wp_upd_port_frame; [done|done|]. intros pt. frame_tac. }
  intros [] st1 [Hwf1 HS1]. rewrite <-HS1 in *. clear Hsp.
  destruct (ad_wf_in _ _ _ _ Hwf1 Hp) as [sp1 Hsp].
  apply wp_bind. eapply wp_get_port; [done|].
  destruct (_ =? 0); [|by apply wp_ret]. destruct (_ && _); [|by apply wp_ret].
  apply wp_bind. eapply wp_mono.
  { apply wp_upd_port_frame; [done|done|apply frame_update_lacpdu]. }
  intros [] st2 [Hwf2 HS2]. rewrite <-HS2 in *. apply wp_bind. eapply wp_mono.
  { apply wp_keeps_ad_wf; [done|]. eapply wp_ad_lacpdu_send; [apply Hwf2|done]. }
  intros r st3 [Hwf3 HS3]. rewrite <-HS3 in *.
  destruct (0 <=? r); [|by apply wp_ret].
  apply wp_upd_port_frame; [done|done|]. intros pt. frame_tac.
Qed.

(** ** Selection *)

Lemma wp_selection_wf lv L f upd st :
  ports_wf lv L st -> f ∈ slave_list st ->
  wp (ad_agg_selection_logic (Some f) upd)
    (fun _ st' => ad_wf lv L st' /\ keeps false None st st') st.
Proof.
  intros Hwf Hf. eapply wp_mono; [eapply wp_agg_selection_logic; [apply Hwf|done]|].
  intros u st' (Hk & Hon & _). split; [|done]. split; [by eapply ports_wf_keeps|].
  eexists. rewrite (kp_list _ _ _ _ Hk). split; [exact Hon|].
  intros a Ha. by eapply select_result_in.
Qed.

Lemma reattached_wf L p st st' :
  ports_wf None L st -> p ∈ slave_list st -> reattached L p st st' ->
  slave_list st' = slave_list st /\
  exists L' sp b, ports_wf None L' st' /\ slaves st' !! p = Some sp /\
    has (sm_vars (ad_port sp)) AD_PORT_SELECTED = true /\
    port_aggregator (ad_port sp) = Some b /\ b ∈ slave_list st.
Proof.
  intros [Hl Hport] Hp (L1 & st1 & b & (_ & Hm1 & _) & _ & Hb & Hwf & Hm2 & sp & Hsp & Hsel & Hagg).
  pose proof (moved_trans _ _ _ _ Hm1 Hm2) as (_ & HS & Hr). split; [done|].
  exists (<[b := p :: L1 b]> L1), sp, b. split; [|done]. split; rewrite HS; [done|].
  intros q sq' Hq Hsq' _. destruct (heap_rel_inv _ _ _ _ _ Hr Hsq') as (sq & Hsq & [Hmux Hse Hag _]).
  destruct (Hport q sq Hq Hsq ltac:(done)) as [Hw1 [Hw2 Hw3]]. destruct Hmux as [E1 E2 E3].
  split; [|split; congruence]. destruct (decide (q = p)) as [->|Hne].
  - simplify_eq. intros _. by rewrite Hagg.
  - rewrite Hse, Hag; done.
Qed.

Lemma wp_refresh_ready lv L a st :
  lag_wf lv (slave_list st) L (slaves st) -> a ∈ slave_list st ->
  wp (refresh_ready (Some a)) (fun _ st' => keeps true None st st') st.
Proof.
  intros Hwf Ha. apply wp_bind. eapply wp_mono; [by eapply wp_agg_ports_are_ready|].
  intros r st' [-> _]. by eapply wp_set_agg_ports_ready.
Qed.

Lemma wp_get_first_agg lv L p st :
  lag_wf lv (slave_list st) L (slaves st) -> p ∈ slave_list st ->
  wp (__get_first_agg p) (fun o st' => st' = st /\
    exists f, o = Some f /\ f ∈ slave_list st) st.
Proof.
  intros Hwf Hp. destruct (lw_in _ _ _ _ Hwf p Hp) as [sp Hsp].
  apply wp_bind, wp_bind. eapply wp_get_port; [done|]. apply wp_ret.
  destruct (lw_slave _ _ _ _ Hwf p sp Hp Hsp) as [-> _]. apply wp_gets. split; [done|].
  destruct (slave_list st) as [|f l]; [by apply not_elem_of_nil in Hp|].
  exists f. split; [done|]. apply elem_of_cons. by left.
Qed.

(** The port holds SELECTED and an aggregator of the bond. *)
Definition attached (p : ptr) (st : bonding) : Prop :=
  exists sp b, slaves st !! p = Some sp /\
    has (sm_vars (ad_port sp)) AD_PORT_SELECTED = true /\
    port_aggregator (ad_port sp) = Some b /\ b ∈ slave_list st.

Lemma attached_keeps act exc p st st' :
  keeps act exc st st' -> attached p st -> attached p st'.
Proof.
  intros Hk (sp & b & Hsp & Hsel & Hagg & Hb).
  destruct (kp_slave _ _ _ _ Hk p sp Hsp) as (sp' & Hsp' & Hsh & _).
  exists sp', b. rewrite (se_sel _ _ Hsh), (se_agg _ _ Hsh), (kp_list _ _ _ _ Hk). done.
Qed.

Lemma wp_ad_port_selection_logic L p upd st :
  ad_wf None L st -> p ∈ slave_list st ->
  wp (ad_port_selection_logic p upd) (fun _ st' =>
    slave_list st' = slave_list st /\ attached p st' /\ exists L', ad_wf None L' st') st.
Proof.
  intros Hwf Hp. destruct (ad_wf_in _ _ _ _ Hwf Hp) as [sp Hsp].
  apply wp_bind. eapply wp_get_port; [done|]. destruct (has _ _) eqn:Esel.
  { apply wp_ret. split; [done|]. split; [|by exists L].
    destruct (port_aggregator (ad_port sp)) as [b|] eqn:Eb.
    - exists sp, b. repeat split; [done..|].
      by eapply (lw_back _ _ _ _ (pw_lag _ _ _ (aw_ports _ _ _ Hwf))).
    - by destruct (pw_port _ _ _ (aw_ports _ _ _ Hwf) p sp Hp Hsp ltac:(done)) as [[] _]. }
  apply wp_bind. eapply wp_mono; [by eapply wp_select_aggregator; [apply Hwf|]|].
  intros r st1 [-> Hre]. simpl.
  destruct (reattached_wf L p st st1 (aw_ports _ _ _ Hwf) Hp Hre)
    as (HS1 & L1 & sp1 & b & Hwf1 & Hsp1 & Hsel1 & Hagg1 & Hb).
  rewrite <-HS1 in *. clear Hsp Esel Hre.
  apply wp_bind, wp_bind. eapply wp_get_port; [done|]. apply wp_ret. rewrite Hagg1.
  assert (attached p st1) as Hat by by exists sp1, b.
  clear sp1 Hsp1 Hsel1 Hagg1. apply wp_bind.
  eapply wp_mono; [eapply wp_refresh_ready; [apply Hwf1|done]|].
  intros [] st2 Hk2. cbv beta in Hk2. pose proof (kp_list _ _ _ _ Hk2) as HS2.
  pose proof (ports_wf_keeps _ _ _ _ _ Hk2 Hwf1) as Hwf2.
  rewrite <-HS2 in *. apply wp_bind.
  eapply wp_mono; [eapply wp_get_first_agg; [apply Hwf2|done]|].
  intros o ? (-> & f & -> & Hf). apply wp_bind.
  eapply wp_mono; [by eapply wp_selection_wf|].
  intros u st3 [Hwf3 Hk3]. pose proof (kp_list _ _ _ _ Hk3) as HS3. rewrite <-HS3 in *.
  assert (attached p st3) as Hat3 by (eapply attached_keeps; [done|by eapply attached_keeps]).
  apply wp_bind, wp_ret, wp_bind. destruct (ad_wf_in _ _ _ _ Hwf3 Hb) as [sb Hsb].
  eapply wp_get_agg; [done|]. apply wp_bind.
  destruct (negb _); [|apply wp_ret, wp_ret; by eauto].
  eapply wp_mono; [eapply wp_upd_port_keeps; [done|done|]|].
  - intros pt. split; [frame_tac|]. done.
  - intros [] st4 Hk4. cbv beta in Hk4. apply wp_ret.
    split; [apply Hk4|]. split; [by eapply attached_keeps|].
    exists L1. by eapply ad_wf_keeps.
Qed.
End ad_safe.
