(* ===== verification/AdMux.v ===== *)
(** * 802.3ad: the mux machine

    The mux machine follows the edges of the coupled and independent control
    diagrams, keeps the port lists and leaves the COLLECTING and DISTRIBUTING
    flags of the port in agreement with the state it enters. *)

From S2P Require Import Prelude.
From S2P Require Import AdTypes.
From S2P Require Import AdPort.
From S2P Require Import AdMachine.
From S2P Require Import AdControl.
From S2P Require Import AdEntry.
From S2P Require Import AdInv.
From S2P Require Import AdSelect.
From S2P Require Import AdAttach.
From S2P Require Import AdSafe.

(** The edges of the mux machine. *)
Definition mux_edge (old new : mux_states_t) : bool :=
  match old, new with
  | _, AD_MUX_DETACHED => true
  | AD_MUX_DETACHED, AD_MUX_WAITING => true
  | (AD_MUX_WAITING | AD_MUX_COLLECTING_DISTRIBUTING | AD_MUX_COLLECTING), AD_MUX_ATTACHED =>
      true
  | AD_MUX_ATTACHED, (AD_MUX_COLLECTING_DISTRIBUTING | AD_MUX_COLLECTING) => true
  | AD_MUX_COLLECTING, AD_MUX_DISTRIBUTING => true
  | AD_MUX_DISTRIBUTING, AD_MUX_COLLECTING => true
  | _, _ => false
  end.

Section ad_mux.
Context `{K : Kernel} (KL : KernelLaws K).

(** What has to hold of port [pt] with aggregator [ag] to enter a state: frames
    are collected only when the port is selected, the partner is in sync, the
    selection timer is stopped and the aggregator is active, and they are
    distributed alone only when the partner collects. *)
Definition mux_guard (st : bonding) (pt : port) (ag : aggregator)
    (old new : mux_states_t) : bool :=
  let partner := pp_port_state (partner_oper pt) in
  match old, new with
  | AD_MUX_ATTACHED, (AD_MUX_COLLECTING_DISTRIBUTING | AD_MUX_COLLECTING) =>
      has (sm_vars pt) AD_PORT_SELECTED && has partner LACP_STATE_SYNCHRONIZATION &&
      (agg_select_timer st =? 0) && is_active ag &&
      bool_decide (new = if coupled_control (params st) then AD_MUX_COLLECTING_DISTRIBUTING
                         else AD_MUX_COLLECTING)
  | AD_MUX_COLLECTING, AD_MUX_DISTRIBUTING =>
      has (sm_vars pt) AD_PORT_SELECTED && has partner LACP_STATE_SYNCHRONIZATION &&
      has partner LACP_STATE_COLLECTING
  | _, _ => true
  end.

Abbreviation heap := (gmap ptr slave).
Abbreviation MB := (M bonding).

Section port.
Context (lv : option ptr) (L : ptr -> list ptr) (st0 : bonding) (p b : ptr) (sp0 : slave).
Context (Hwf0 : lag_wf lv (slave_list st0) L (slaves st0)).
Context (Hp : p ∈ slave_list st0) (Hb : b ∈ slave_list st0).
Context (Hsp0 : slaves st0 !! p = Some sp0) (Hagg0 : port_aggregator (ad_port sp0) = Some b).

(** In [st], reached from [st0], the port is in mux state [m] and advertises
    COLLECTING and DISTRIBUTING as [c] and [d] say. *)
Definition mx (c d : bool) (m : mux_states_t) (st : bonding) : Prop :=
  keeps true (Some p) st0 st /\
  exists sp, slaves st !! p = Some sp /\ sm_mux_state (ad_port sp) = m /\
    has (actor_oper_port_state (ad_port sp)) LACP_STATE_COLLECTING = c /\
    has (actor_oper_port_state (ad_port sp)) LACP_STATE_DISTRIBUTING = d.

Lemma mx_wf c d m st : mx c d m st -> lag_wf lv (slave_list st0) L (slaves st).
Proof. intros [Hk _]. by eapply lag_wf_keeps. Qed.

Lemma mx_agg c d m st :
  mx c d m st -> exists sp, slaves st !! p = Some sp /\ port_aggregator (ad_port sp) = Some b /\
    port_slave (ad_port sp) = Some p.
Proof.
  intros Hm. destruct (kp_slave _ _ _ _ (proj1 Hm) p sp0 Hsp0) as (sp & Hsp & Hsh & _).
  exists sp. split; [done|]. split; [by rewrite (se_agg _ _ Hsh)|].
  by eapply (lw_slave _ _ _ _ (mx_wf _ _ _ _ Hm)).
Qed.

(** Steps that keep the port, and steps on its state word. *)
Lemma mx_keep {A} c d m (e : MB A) st :
  mx c d m st -> wp e (fun _ st' => keeps true None st st') st ->
  wp e (fun _ st' => mx c d m st') st.
Proof.
  intros [Hk (sp & Hsp & Hm & Hc & Hd)] He. eapply wp_mono; [done|].
  intros x st' Hk'. cbv beta in Hk'.
  split; [eapply keeps_trans; [done|]; by eapply keeps_weaken|].
  destruct (kp_slave _ _ _ _ Hk' p sp Hsp) as (sp' & Hsp' & _ & _ & Hmux).
  destruct (Hmux ltac:(done)) as [E1 E2 E3]. exists sp'. repeat split; congruence.
Qed.

Lemma mx_port (f : port -> port) c d m c' d' m' st :
  mx c d m st ->
  (forall pt, next_port_in_aggregator (f pt) = next_port_in_aggregator pt /\
    port_aggregator (f pt) = port_aggregator pt /\ port_slave (f pt) = port_slave pt /\
    has (sm_vars (f pt)) AD_PORT_SELECTED = has (sm_vars pt) AD_PORT_SELECTED) ->
  (forall pt, sm_mux_state pt = m ->
     has (actor_oper_port_state pt) LACP_STATE_COLLECTING = c ->
     has (actor_oper_port_state pt) LACP_STATE_DISTRIBUTING = d ->
     sm_mux_state (f pt) = m' /\
     has (actor_oper_port_state (f pt)) LACP_STATE_COLLECTING = c' /\
     has (actor_oper_port_state (f pt)) LACP_STATE_DISTRIBUTING = d') ->
  wp (upd_port p f) (fun _ st' => mx c' d' m' st') st.
Proof.
  intros [Hk (sp & Hsp & Hm & Hc & Hd)] Hf1 Hf2. eapply wp_upd_slave; [done|].
  destruct (Hf1 (ad_port sp)) as (E1 & E2 & E3 & E4). split.
  - eapply keeps_trans; [done|]. eapply keeps_insert; [done| |done|by intros []].
    split; [split|]; rec_simpl; done.
  - exists (sp <| ad_port ::= f |>). rec_simpl. rewrite lookup_insert_eq. auto.
Qed.

Ltac mx_port_tac :=
  eapply mx_port; [eassumption
  | intros ?; repeat split; rec_simpl; by flags
  | intros pt ? ? ?; rec_simpl; repeat split; flags; done ].

Lemma mx_set_state c d m m' st :
  mx c d m st -> wp (set_mux_state p m') (fun _ st' => mx c d m' st') st.
Proof. intros Hm. mx_port_tac. Qed.

Lemma mx_set_ntt c d m st : mx c d m st -> wp (set_ntt p) (fun _ st' => mx c d m st') st.
Proof. intros Hm. mx_port_tac. Qed.

Lemma mx_clr_sync c d m st :
  mx c d m st -> wp (upd_actor_state p (fun s => clrf s LACP_STATE_SYNCHRONIZATION))
    (fun _ st' => mx c d m st') st.
Proof. intros Hm. mx_port_tac. Qed.
Lemma mx_set_sync c d m st :
  mx c d m st -> wp (upd_actor_state p (fun s => setf s LACP_STATE_SYNCHRONIZATION))
    (fun _ st' => mx c d m st') st.
Proof. intros Hm. mx_port_tac. Qed.
Lemma mx_clr_coll c d m st :
  mx c d m st -> wp (upd_actor_state p (fun s => clrf s LACP_STATE_COLLECTING))
    (fun _ st' => mx false d m st') st.
Proof. intros Hm. mx_port_tac. Qed.
Lemma mx_set_coll c d m st :
  mx c d m st -> wp (upd_actor_state p (fun s => setf s LACP_STATE_COLLECTING))
    (fun _ st' => mx true d m st') st.
Proof. intros Hm. mx_port_tac. Qed.
Lemma mx_clr_dist c d m st :
  mx c d m st -> wp (upd_actor_state p (fun s => clrf s LACP_STATE_DISTRIBUTING))
    (fun _ st' => mx c false m st') st.
Proof. intros Hm. mx_port_tac. Qed.
Lemma mx_set_dist c d m st :
  mx c d m st -> wp (upd_actor_state p (fun s => setf s LACP_STATE_DISTRIBUTING))
    (fun _ st' => mx c true m st') st.
Proof. intros Hm. mx_port_tac. Qed.

(** Enabling and disabling touch the activity bits of the slave only. *)
Lemma mx_get_agg c d m st (Q : option ptr -> bonding -> Prop) :
  mx c d m st -> Q (Some b) st -> wp (port_agg p) Q st.
Proof.
  intros Hm HQ. destruct (mx_agg _ _ _ _ Hm) as (sp & Hsp & Hag & _).
  apply wp_bind. eapply wp_get_port; [done|]. apply wp_ret. by rewrite Hag.
Qed.

Lemma mx_agg_at c d m st : mx c d m st -> is_Some (slaves st !! b).
Proof. intros Hm. by eapply (lw_in _ _ _ _ (mx_wf _ _ _ _ Hm)). Qed.

Lemma mx_flags c d m f st :
  mx c d m st -> wp (upd_flags f p) (fun _ st' => mx c d m st') st.
Proof. intros Hm. eapply mx_keep; [done|]. eapply wp_upd_flags; [by eapply mx_wf|done]. Qed.

Lemma mx_enable_port c d m st :
  mx c d m st -> wp (__enable_port p) (fun _ st' => mx c d m st') st.
Proof. intros Hm. eapply mx_keep; [done|]. eapply wp_enable_port; [by eapply mx_wf|done]. Qed.

Lemma mx_disable_cd c d m upd st :
  mx c d m st ->
  wp (ad_disable_collecting_distributing p upd) (fun _ st' => mx c d m st') st.
Proof.
  intros Hm. apply wp_bind. eapply mx_get_agg; [done|]. apply wp_bind.
  apply wp_get_agg_some; [by eapply mx_agg_at|]. intros sb _.
  destruct (__agg_has_partner _); [|by apply wp_ret].
  apply wp_bind. eapply wp_mono; [by apply mx_flags|]. intros ? ? ?. by apply wp_ret.
Qed.

Lemma mx_disable_dist c d m upd st :
  mx c d m st -> wp (ad_disable_distributing p upd) (fun _ st' => mx c d m st') st.
Proof.
  intros Hm. apply wp_bind. eapply mx_get_agg; [done|]. apply wp_bind.
  apply wp_get_agg_some; [by eapply mx_agg_at|]. intros sb _.
  destruct (__agg_has_partner _); [|by apply wp_ret].
  apply wp_bind. eapply wp_mono; [by apply mx_flags|]. intros ? ? ?. by apply wp_ret.
Qed.

Lemma mx_enable_coll c d m st :
  mx c d m st -> wp (ad_enable_collecting p) (fun _ st' => mx c d m st') st.
Proof.
  intros Hm. apply wp_bind. eapply mx_get_agg; [done|]. apply wp_bind, wp_ret, wp_bind.
  apply wp_get_agg_some; [by eapply mx_agg_at|]. intros sb _.
  apply wp_when; intros _; [|done]. eapply mx_keep; [done|].
  eapply wp_enable_collecting_port; [by eapply mx_wf|done].
Qed.

Lemma mx_enable_cd c d m upd st :
  mx c d m st ->
  wp (ad_enable_collecting_distributing p upd) (fun _ st' => mx c d m st') st.
Proof.
  intros Hm. apply wp_bind. eapply mx_get_agg; [done|]. apply wp_bind, wp_ret, wp_bind.
  apply wp_get_agg_some; [by eapply mx_agg_at|]. intros sb _.
  destruct (is_active _); [|by apply wp_ret].
  apply wp_bind. eapply wp_mono; [by apply mx_enable_port|]. intros [] st1 Hm1.
  apply wp_bind. eapply (wp_mono _ (fun _ st' => mx c d m st'));
    [|by intros ? ? ?; apply wp_ret].
  destruct (mx_agg _ _ _ _ Hm1) as (sp & Hsp & _ & Hps).
  apply wp_bind. eapply wp_get_port; [done|]. rewrite Hps. apply wp_bind, wp_ret.
  apply wp_bind, wp_gets. apply wp_when; intros _; [|done].
  eapply mx_keep; [done|]. apply wp_mod. by apply keeps_same_slaves.
Qed.

Ltac mx_run lem :=
  apply wp_bind; eapply wp_mono; [by eapply lem|]; intros ? ? ?; cbv beta in *.

(** The action of the state entered leaves the flags it stands for. *)
Lemma mx_action c d m upd st :
  mx c d m st -> (m = AD_MUX_WAITING -> c = false /\ d = false) ->
  (m = AD_MUX_DISTRIBUTING -> c = true) -> m <> AD_MUX_OTHER ->
  wp (mux_action p (Some b) upd)
    (fun _ st' => mx (collecting_state m) (distributing_state m) m st') st.
Proof.
  intros Hm Hw Hd Ho. pose proof Hm as [_ (sp & Hsp & Em & _)].
  apply wp_bind. eapply wp_get_port; [done|]. rewrite Em.
  destruct m; try done; simpl.
  - mx_run mx_clr_sync. mx_run mx_disable_cd. mx_run mx_clr_coll. mx_run mx_clr_dist.
    mx_run mx_set_ntt. by apply wp_ret.
  - destruct (Hw eq_refl) as [-> ->]. apply wp_bind.
    eapply (wp_mono _ (fun _ st' => mx false false AD_MUX_WAITING st'));
      [mx_port_tac|]. intros ? ? ?. by apply wp_ret.
  - apply wp_bind, wp_ret, wp_bind. apply wp_get_agg_some; [by eapply mx_agg_at|].
    intros sb _. apply wp_bind. eapply (wp_mono _ (fun _ st' => mx c d AD_MUX_ATTACHED st')).
    { destruct (is_active _); [by apply mx_set_sync|by apply mx_clr_sync]. }
    intros ? ? ?. mx_run mx_clr_coll. mx_run mx_clr_dist. mx_run mx_disable_cd.
    mx_run mx_set_ntt. by apply wp_ret.
  - mx_run mx_set_coll. mx_run mx_set_dist. mx_run mx_set_sync. mx_run mx_enable_cd.
    mx_run mx_set_ntt. by apply wp_ret.
  - mx_run mx_set_coll. mx_run mx_clr_dist. mx_run mx_set_sync. mx_run mx_enable_coll.
    mx_run mx_disable_dist. mx_run mx_set_ntt. by apply wp_ret.
  - rewrite (Hd eq_refl) in *. mx_run mx_set_dist. mx_run mx_set_sync. by apply mx_enable_cd.
Qed.

(** The edges that the port may follow. *)
Definition may_step (m m' : mux_states_t) : Prop :=
  mux_edge m m' = true /\
  forall sb, slaves st0 !! b = Some sb ->
    mux_guard st0 (ad_port sp0) (ad_agg sb) m m' = true.

Lemma may_detach m : may_step m AD_MUX_DETACHED.
Proof. by destruct m. Qed.

(** The choice of the next state follows an edge. *)
Definition stepped (c d : bool) (m : mux_states_t) (st : bonding) : Prop :=
  exists m', mx c d m' st /\ (m' = m \/ may_step m m').

Lemma stepped_same c d m st : mx c d m st -> stepped c d m st.
Proof. intros. exists m. auto. Qed.

Lemma stepped_set c d m m' st (u : bool) :
  mx c d m st -> may_step m m' ->
  wp (set_mux_state p m' ;;; ret u) (fun _ st' => stepped c d m st') st.
Proof.
  intros Hm He. apply wp_bind. eapply wp_mono; [by eapply mx_set_state|].
  intros ? ? ?. apply wp_ret. exists m'. auto.
Qed.

Lemma mx_refresh c d m st :
  mx c d m st -> wp (refresh_ready (Some b)) (fun _ st' => mx c d m st') st.
Proof.
  intros Hm. eapply mx_keep; [done|].
  pose proof (mx_wf _ _ _ _ Hm) as Hwf. rewrite <-(kp_list _ _ _ _ (proj1 Hm)) in Hwf.
  eapply wp_refresh_ready; [done|]. by rewrite (kp_list _ _ _ _ (proj1 Hm)).
Qed.

Lemma stepped_unselect c d m (u : bool) st :
  mx c d m st ->
  wp (mux_unselect p (Some b) ;;; ret u) (fun _ st' => stepped c d m st') st.
Proof.
  intros Hm. apply wp_bind, wp_bind.
  eapply (wp_mono _ (fun _ st' => mx c d m st')); [mx_port_tac|].
  intros ? ? ?. mx_run mx_refresh. eapply wp_mono; [by eapply mx_set_state|].
  intros ? ? ?. apply wp_ret. exists AD_MUX_DETACHED. split; [done|]. right. apply may_detach.
Qed.

Lemma mx_move_to_attached c d m st :
  mx c d m st -> m <> AD_MUX_ATTACHED ->
  wp (__port_move_to_attached_state p) (fun r st' =>
    mx c d (if r : bool then AD_MUX_ATTACHED else m) st') st.
Proof.
  intros Hm Hne. pose proof Hm as [_ (sp & Hsp & Em & _)].
  apply wp_bind. eapply wp_get_port; [done|]. apply wp_bind.
  eapply (wp_mono _ (fun _ st' => exists m', mx c d m' st' /\
    (m' = AD_MUX_ATTACHED \/ m' = m))).
  { destruct (_ || _); [|apply wp_ret; eauto].
    eapply wp_mono; [by eapply (mx_set_state _ _ _ AD_MUX_ATTACHED)|].
    intros ? ? ?. exists AD_MUX_ATTACHED. auto. }
  intros [] st1 (m' & Hm1 & Hm'). pose proof Hm1 as [_ (sp1 & Hsp1 & Em1 & _)].
  apply wp_bind. eapply wp_get_port; [done|]. apply wp_ret. rewrite Em1.
  destruct Hm' as [->| ->]; case_bool_decide; done.
Qed.

Lemma stepped_keep_enabled c d m active upd st :
  mx c d m st -> wp (mux_keep_enabled p active upd) (fun _ st' => stepped c d m st') st.
Proof.
  intros Hm. unfold mux_keep_enabled.
  destruct active; [|apply wp_ret; by apply stepped_same].
  destruct (mx_agg _ _ _ _ Hm) as (sp & Hsp & _ & Hps).
  apply wp_bind, wp_bind, wp_bind. eapply wp_get_port; [done|]. rewrite Hps.
  apply wp_bind, wp_ret, wp_bind. eapply wp_get_slave; [done|]. apply wp_ret, wp_ret.
  destruct (negb _); [|apply wp_ret; by apply stepped_same].
  mx_run mx_enable_port. apply wp_ret. by apply stepped_same.
Qed.

Lemma stepped_waiting c d t upd st :
  mx c d AD_MUX_WAITING st ->
  wp (mux_waiting p (Some b) t upd) (fun _ st' => stepped c d AD_MUX_WAITING st') st.
Proof.
  intros Hm. unfold mux_waiting. destruct (tick_down t) as [t' e]. apply wp_bind.
  eapply (wp_mono _ (fun _ st' => mx c d AD_MUX_WAITING st')); [mx_port_tac|].
  intros ? st1 Hm1. apply wp_bind.
  eapply (wp_mono _ (fun _ st' => mx c d AD_MUX_WAITING st')).
  { apply wp_when; intros _; [mx_port_tac|done]. }
  intros ? st2 Hm2. apply wp_bind. eapply wp_mono; [by eapply mx_refresh|].
  intros ? st3 Hm3. cbv beta in Hm3.
  destruct (mx_agg _ _ _ _ Hm3) as (sp3 & Hsp3 & _).
  apply wp_bind. eapply wp_get_port; [done|]. unfold when_. destruct (_ && _).
  - by apply stepped_set.
  - apply wp_bind, wp_ret, wp_ret. by apply stepped_same.
Qed.

Lemma mx_timer c d m st :
  mx c d m st ->
  wp (__check_agg_selection_timer p)
    (fun r st' => st' = st /\ r = negb (agg_select_timer st =? 0)) st.
Proof.
  intros Hm. destruct (mx_agg _ _ _ _ Hm) as (sp & Hsp & _ & Hps).
  apply wp_bind, wp_bind. eapply wp_get_port; [done|]. apply wp_ret. rewrite Hps.
  by apply wp_gets.
Qed.

Lemma stepped_attached c d upd :
  mx c d AD_MUX_ATTACHED st0 ->
  wp (mux_attached p (Some b) (ad_port sp0) upd)
    (fun _ st' => stepped c d AD_MUX_ATTACHED st') st0.
Proof.
  intros Hm. destruct (mx_agg _ _ _ _ Hm) as (sp & Hsp & _ & Hps).
  pose proof (mx_agg_at _ _ _ _ Hm) as [sb Hsb]. apply wp_bind.
  eapply (wp_mono _ (fun r st' => st' = st0 /\ (r = false -> agg_select_timer st0 = 0))).
  { destruct (_ && _); [|by apply wp_ret]. eapply wp_mono; [by eapply mx_timer|].
    intros r ? [-> ->]. split; [done|]. lia. }
  intros timer ? [-> Ht]. destruct (_ && negb timer) eqn:Eg.
  { apply wp_bind, wp_ret, wp_bind. eapply wp_get_agg; [done|].
    destruct (is_active _) eqn:Eact; [|apply wp_bind, wp_ret, wp_ret; by apply stepped_same].
    apply wp_bind, wp_bind, wp_bind. eapply wp_get_port; [done|]. apply wp_ret. rewrite Hps.
    apply wp_bind, wp_ret, wp_bind, wp_gets.
    eapply wp_mono; [by eapply mx_set_state|]. intros ? ? Hm'.
    apply wp_ret. eexists. split; [exact Hm'|]. right. split.
    { by destruct (coupled_control _). }
    intros sb' Hsb'. simplify_eq. apply andb_true_iff in Eg as [Es Et].
    unfold mux_guard. rewrite Es, Eact, (Ht ltac:(by destruct timer)).
    by destruct (coupled_control _). }
  destruct (_ || _); [by apply stepped_unselect|].
  apply wp_bind, wp_ret, wp_bind. eapply wp_get_agg; [done|].
  unfold when_. apply wp_bind.
  destruct (is_active _); [|apply wp_ret, wp_ret; by apply stepped_same].
  eapply wp_mono; [by apply mx_set_sync|]. intros ? ? ?. apply wp_ret. by apply stepped_same.
Qed.

Lemma stepped_cd c d upd st :
  mx c d AD_MUX_COLLECTING_DISTRIBUTING st ->
  wp (mux_collecting_distributing p (Some b) upd)
    (fun _ st' => stepped c d AD_MUX_COLLECTING_DISTRIBUTING st') st.
Proof.
  intros Hm. apply wp_bind. eapply wp_mono; [by apply mx_move_to_attached|].
  intros [|] st1 Hm1; [apply wp_ret; eexists; split; [done|by right]|].
  apply wp_bind, wp_ret, wp_bind. apply wp_get_agg_some; [by eapply mx_agg_at|].
  intros sb _. by apply stepped_keep_enabled.
Qed.

Lemma stepped_collecting c d upd st :
  mx c d AD_MUX_COLLECTING st ->
  wp (mux_collecting p (Some b) (ad_port sp0) upd) (fun _ st' => stepped c d AD_MUX_COLLECTING st') st.
Proof.
  intros Hm. apply wp_bind. eapply wp_mono; [by apply mx_move_to_attached|].
  intros [|] st1 Hm1; [apply wp_ret; eexists; split; [done|by right]|].
  destruct (_ && _) eqn:Eg; [by apply stepped_set|].
  apply wp_bind, wp_ret, wp_bind. apply wp_get_agg_some; [by eapply mx_agg_at|].
  intros sb _. destruct (is_active _); [|apply wp_ret; by apply stepped_same].
  destruct (mx_agg _ _ _ _ Hm1) as (sp & Hsp & _ & Hps).
  apply wp_bind, wp_bind. eapply wp_get_port; [done|]. rewrite Hps.
  apply wp_bind, wp_ret, wp_bind. eapply wp_get_slave; [done|]. apply wp_ret.
  destruct (bond_is_slave_rx_disabled _); [|apply wp_ret; by apply stepped_same].
  mx_run mx_enable_coll. apply wp_ret. by apply stepped_same.
Qed.

Lemma stepped_distributing c d pt upd st :
  mx c d AD_MUX_DISTRIBUTING st ->
  wp (mux_distributing p (Some b) pt upd)
    (fun _ st' => stepped c d AD_MUX_DISTRIBUTING st') st.
Proof.
  intros Hm. unfold mux_distributing. destruct (_ || _); [by apply stepped_set|].
  apply wp_bind, wp_get_agg_some; [by eapply mx_agg_at|]. intros sb _.
  by apply stepped_keep_enabled.
Qed.

Lemma wp_mux_next_state c d m upd :
  mx c d m st0 ->
  wp (mux_next_state p (Some b) upd) (fun _ st' => stepped c d m st') st0.
Proof.
  intros Hm. pose proof Hm as [_ (sp & Hsp & Em & _)]. simplify_eq.
  apply wp_bind. eapply wp_get_port; [done|]. cbv beta zeta.
  destruct (has _ AD_PORT_BEGIN); [apply stepped_set; [done|apply may_detach]|].
  destruct (sm_mux_state _) eqn:Em.
  - apply wp_ret. by apply stepped_same.
  - unfold when_. destruct (_ || _); [by apply stepped_set|].
    apply wp_bind, wp_ret, wp_ret. by apply stepped_same.
  - destruct (negb _); [by apply stepped_unselect|by apply stepped_waiting].
  - by apply stepped_attached.
  - by apply stepped_cd.
  - by apply stepped_collecting.
  - by apply stepped_distributing.
Qed.
End port.

(** The whole machine, from a state where the flags agree with the mux state:
    it moves along an edge or stays, and the flags agree again. *)
Definition mux_stepped (st : bonding) (pt : port) (b : ptr) (m' : mux_states_t) : Prop :=
  m' = sm_mux_state pt \/
  (mux_edge (sm_mux_state pt) m' = true /\
   forall sb, slaves st !! b = Some sb ->
     mux_guard st pt (ad_agg sb) (sm_mux_state pt) m' = true).

Lemma wp_ad_mux_machine L p b sp upd st :
  ad_wf None L st -> p ∈ slave_list st -> slaves st !! p = Some sp ->
  port_aggregator (ad_port sp) = Some b -> b ∈ slave_list st ->
  wp (ad_mux_machine p upd) (fun _ st' => ad_wf None L st' /\ keeps true (Some p) st st' /\
    exists sp', slaves st' !! p = Some sp' /\
      mux_stepped st (ad_port sp) b (sm_mux_state (ad_port sp'))) st.
Proof.
  intros Hwf Hp Hsp Hagg Hb. pose proof (pw_lag _ _ _ (aw_ports _ _ _ Hwf)) as Hlag.
  destruct (pw_port _ _ _ (aw_ports _ _ _ Hwf) p sp Hp Hsp ltac:(done)) as [_ [Hc Hd]].
  unfold mux_stepped. set (m := sm_mux_state (ad_port sp)) in *.
  assert (mx st p (collecting_state m) (distributing_state m) m st) as Hm.
  { split; [apply keeps_refl|]. by exists sp. }
  assert (forall m' st', mx st p (collecting_state m') (distributing_state m') m' st' ->
    m' = m \/ may_step st b sp m m' ->
    ad_wf None L st' /\ keeps true (Some p) st st' /\
    exists sp', slaves st' !! p = Some sp' /\ (sm_mux_state (ad_port sp') = m \/
       may_step st b sp m (sm_mux_state (ad_port sp')))) as Hend.
  { intros m' st' [Hk (sp' & Hsp' & Em & Hc' & Hd')] He. split; [|split; [done|]].
    - split; [|eapply one_active_keeps; [done|apply Hwf]].
      eapply ports_wf_keeps_exc; [done|apply Hwf|]. intros ? ?; simplify_eq.
      by split.
    - exists sp'. split; [done|]. by rewrite Em. }
  apply wp_bind. eapply wp_get_port; [done|]. rewrite Hagg. apply wp_bind.
  eapply wp_mono; [by eapply (wp_mux_next_state None L st p b sp)|]. intros u st1 (m' & Hm1 & He).
  pose proof Hm1 as [_ (sp1 & Hsp1 & Em1 & _)].
  apply wp_bind. eapply wp_get_port; [done|]. rewrite Em1. fold m.
  clear Em1. case_decide as E; [rewrite E in Hm1; apply wp_ret, (Hend m); auto|].
  destruct He as [He|[He Hg]]; [done|].
  eapply wp_mono; [eapply (mx_action None L st p b sp); try done|].
  - intros ->. by destruct m.
  - intros ->. by destruct m.
  - intros ->. by destruct m.
  - intros ? st' Hm'. cbv beta in Hm'. apply (Hend m'); [done|by right].
Qed.
End ad_mux.
