(* ===== verification/AdUnbind.v ===== *)
(** * 802.3ad: unbinding a slave

    [bond_3ad_unbind_slave] always finds a new aggregator for the ports that
    stay, takes the leaving port off its list and leaves no pointer to the
    slave that is about to be freed. *)

From stdpp Require Import functions.
From S2P Require Import Prelude.
From S2P Require Import AdTypes.
From S2P Require Import AdPort.
From S2P Require Import AdMachine.
From S2P Require Import AdControl.
From S2P Require Import AdEntry.
From S2P Require Import AdInv.
From S2P Require Import AdSelect.
From S2P Require Import AdAttach.
From S2P Require Import AdSafe.

Section ad_unbind.
Context `{K : Kernel} (KL : KernelLaws K).

Abbreviation heap := (gmap ptr slave).
Abbreviation MB := (M bonding).

(** ** The invariant with a leaving port *)

Lemma lag_wf_leave ids L h p : lag_wf None ids L h -> lag_wf (Some p) ids L h.
Proof. intros []. split; eauto. Qed.

Lemma ad_wf_leave L st p : ad_wf None L st -> ad_wf (Some p) L st.
Proof.
  intros [[Hl Hp] Ha]. split; [|done]. split; [by apply lag_wf_leave|]. eauto.
Qed.

(** The leaving port is exempt from [port_wf]. *)
Lemma wp_upd_leaving L p (f : port -> port) st :
  ad_wf (Some p) L st -> p ∈ slave_list st ->
  (forall pt, next_port_in_aggregator (f pt) = next_port_in_aggregator pt /\
    port_aggregator (f pt) = port_aggregator pt /\ port_slave (f pt) = port_slave pt) ->
  wp (upd_port p f) (fun _ st' => ad_wf (Some p) L st' /\ slave_list st' = slave_list st) st.
Proof.
  intros Hwf Hp Hf. destruct (ad_wf_in _ _ _ _ Hwf Hp) as [sp Hsp].
  destruct Hwf as [[Hl Hw] Ha]. eapply wp_upd_slave; [done|]. split; [|done].
  split; [|by apply (one_active_upd_port L st p sp (f (ad_port sp)))].
  split; rec_simpl.
  - eapply lag_wf_links; [|done]. split.
    + intros q Hq. by rewrite lookup_insert_ne by congruence.
    + intros q s Hq. rewrite lookup_insert. case_decide; simplify_eq; eexists;
        (split; [done|]); split; rec_simpl; (apply Hf || done).
  - intros q sq Hq. rewrite lookup_insert. case_decide; [|by apply Hw].
    intros _ []. by subst.
Qed.

(** ** A replacement exists *)

Lemma only_or_none (p : ptr) (l : list ptr) :
  NoDup l -> filter (fun q => q <> p) l = [] -> l = [] \/ l = [p].
Proof.
  destruct l as [|x l]; [auto|]. intros [Hx _]%NoDup_cons Hf. right.
  assert (forall q, q ∈ x :: l -> q = p) as Hall.
  { intros q Hq. destruct (decide (q = p)); [done|]. exfalso.
    assert (q ∈ filter (fun q => q <> p) (x :: l)) as Hin by by apply list_elem_of_filter.
    rewrite Hf in Hin. by apply not_elem_of_nil in Hin. }
  assert (x = p) as -> by (apply Hall; set_solver). f_equal.
  destruct l as [|y l]; [done|]. assert (y = p) as -> by (apply Hall; set_solver). set_solver.
Qed.

(** Some aggregator is empty or holds only the leaving port. *)
Lemma replaceable_exists lv ids L h p :
  lag_wf lv ids L h -> p ∈ ids -> exists a, a ∈ ids /\ (L a = [] \/ L a = [p]).
Proof.
  intros Hwf Hp. set (f := fun a => filter (fun q => q <> p) (L a)).
  destruct (decide (Exists (fun a => f a = []) ids)) as [He|He].
  { apply Exists_exists in He as (a & Ha & HL). exists a. split; [done|].
    apply only_or_none; [by eapply lw_nodup|done]. }
  exfalso. apply not_Exists_Forall in He; [|apply _]. rewrite Forall_forall in He.
  assert (length ids <= length (ids ≫= f))%nat as Hge by by apply bind_length_ge.
  assert (length (p :: (ids ≫= f)) <= length ids)%nat as Hle.
  { apply NoDup_incl_length.
    - apply NoDup_ListNoDup, NoDup_cons. split.
      + rewrite list_elem_of_bind. intros (a & Ha & Hin). unfold f in Ha.
        by apply list_elem_of_filter in Ha as [? _].
      + apply NoDup_bind; [| |apply Hwf].
        * intros a b q Ha Hb Hqa Hqb. unfold f in *.
          apply list_elem_of_filter in Hqa as [_ ?], Hqb as [_ ?].
          by eapply lag_wf_disjoint.
        * intros a Ha. apply NoDup_filter. by eapply lw_nodup.
    - intros q Hq. apply list_elem_of_In. apply list_elem_of_In in Hq.
      apply elem_of_cons in Hq as [->|Hq]; [done|].
      apply list_elem_of_bind in Hq as (a & Ha & Hin). unfold f in Ha.
      apply list_elem_of_filter in Ha as [_ ?]. by eapply lw_mem. }
  simpl in Hle. lia.
Qed.

Lemma wp_agg_replaceable lv ids L p a sa st :
  lag_wf lv ids L (slaves st) -> a ∈ ids -> slaves st !! a = Some sa ->
  wp (agg_replaceable (ad_agg sa) p) (fun r st' => st' = st /\
    r = bool_decide (L a = [] \/ L a = [p])) st.
Proof.
  intros Hwf Ha Hsa. pose proof (lw_chain _ _ _ _ Hwf a sa Ha Hsa) as Hc.
  unfold agg_replaceable. destruct (L a) as [|q l]; simpl in Hc.
  { rewrite Hc. apply wp_ret. split; [done|]. symmetry. apply bool_decide_eq_true. auto. }
  destruct Hc as [-> (sq & Hsq & Hc)]. case_decide as E; [subst q|].
  - apply wp_bind. eapply wp_get_port; [done|]. apply wp_ret. split; [done|].
    apply lag_chain_head in Hc as ->. destruct l as [|r l]; simpl.
    + rewrite !bool_decide_eq_true_2; auto.
    + rewrite !bool_decide_eq_false_2; [done|by intros [?|?]..].
  - apply wp_ret. split; [done|]. symmetry. apply bool_decide_eq_false.
    intros [?|?]; congruence.
Qed.

Lemma wp_find_new_aggregator lv L p st :
  lag_wf lv (slave_list st) L (slaves st) -> p ∈ slave_list st ->
  wp (find_new_aggregator p) (fun r st' => st' = st /\
    exists n, r = Some n /\ n ∈ slave_list st /\ (L n = [] \/ L n = [p])) st.
Proof.
  intros Hwf Hp. apply wp_bind, wp_gets.
  apply (wp_for_each (fun pre r st' => st' = st /\ r = None /\
    forall a, a ∈ pre -> ~ (L a = [] \/ L a = [p]))).
  - split; [done|]. split; [done|]. intros a Ha. by apply not_elem_of_nil in Ha.
  - intros pre a post r st' Hl (-> & -> & Hno).
    assert (a ∈ slave_list st) as Ha by (rewrite Hl; set_solver).
    destruct (lw_in _ _ _ _ Hwf a Ha) as [sa Hsa].
    apply wp_bind. eapply wp_get_agg; [done|].
    apply wp_bind. eapply wp_mono; [by eapply wp_agg_replaceable|].
    intros r ? [-> ->]. case_bool_decide as E; apply wp_ret; [by eauto|].
    split; [done|]. split; [done|]. intros b [Hb| ->%list_elem_of_singleton]%elem_of_app; auto.
  - intros r st' (-> & _ & Hno).
    destruct (replaceable_exists _ _ _ _ p Hwf Hp) as (a & Ha & HL). by apply Hno in HL.
Qed.

(** ** Handing a LAG over *)

(** The slave at [q] while the ports of aggregator [ag] move to [n]; the ports
    [dn] have moved. *)
Record handing (ag : aggregator) (n : ptr) (dn : list ptr) (q : ptr) (t t' : slave)
    : Prop := {
  hg_next : next_port_in_aggregator (ad_port t') = next_port_in_aggregator (ad_port t);
  hg_pslave : port_slave (ad_port t') = port_slave (ad_port t);
  hg_sel : has (sm_vars (ad_port t')) AD_PORT_SELECTED =
           has (sm_vars (ad_port t)) AD_PORT_SELECTED;
  hg_mux : mux_eq t t';
  hg_in : q ∈ dn -> port_aggregator (ad_port t') = Some n;
  hg_out : q ∉ dn -> port_aggregator (ad_port t') = port_aggregator (ad_port t);
  hg_aslave : agg_slave (ad_agg t') = agg_slave (ad_agg t);
  hg_new : q = n -> lag_ports (ad_agg t') = lag_ports ag /\
                    num_of_ports (ad_agg t') = num_of_ports ag /\
                    is_active (ad_agg t') = is_active ag;
  hg_other : q <> n -> ad_agg t' = ad_agg t }.

Lemma handing_port ag n dn q0 id (h h' : heap) :
  heap_rel (handing ag n dn) h h' ->
  heap_rel (handing ag n (dn ++ [q0])) h
    (alter (fun t => t <| ad_port ::= fun qt =>
       qt <| port_aggregator := Some n |> <| actor_port_aggregator_identifier := id |> |>)
       q0 h').
Proof.
  intros [HN HS]. split.
  - intros q Hq. rewrite lookup_alter_None. auto.
  - intros q t Hq. destruct (HS q t Hq) as (t' & Ht' & Hr). rewrite lookup_alter.
    case_decide as E.
    + subst q0. rewrite Ht'. simpl. eexists. split; [done|].
      destruct Hr as [? ? ? [] ? ? ? ? ?]. split; rec_simpl; try done; try (by split).
      intros Hn. set_solver.
    + exists t'. split; [done|]. destruct Hr. split; try done; intros; set_solver.
Qed.

Lemma handing_start ag n (h : heap) (g : aggregator -> aggregator) :
  (forall a, lag_ports (g a) = lag_ports ag /\ num_of_ports (g a) = num_of_ports ag /\
     is_active (g a) = is_active ag /\ agg_slave (g a) = agg_slave a) ->
  heap_rel (handing ag n []) h (alter (fun t => t <| ad_agg ::= g |>) n h).
Proof.
  intros Hg. split.
  - intros q Hq. by rewrite lookup_alter_None.
  - intros q t Hq. rewrite lookup_alter. destruct (Hg (ad_agg t)) as (? & ? & ? & ?).
    case_decide as E.
    + subst n. rewrite Hq. eexists. split; [done|]. split; rec_simpl; try done.
      intros Hn. by apply not_elem_of_nil in Hn.
    + exists t. split; [done|]. split; try done; try congruence.
      intros Hn. by apply not_elem_of_nil in Hn.
Qed.

Lemma wp_move_lag lv L a n sa st :
  lag_wf lv (slave_list st) L (slaves st) -> a ∈ slave_list st -> n ∈ slave_list st ->
  n <> a -> slaves st !! a = Some sa ->
  wp (move_lag a n) (fun _ st' => params st' = params st /\ slave_list st' = slave_list st /\
    exists h, heap_rel (handing (ad_agg sa) n (L a)) (slaves st) h /\
      slaves st' = alter (fun t => t <| ad_agg ::= ad_clear_agg |>) a h) st.
Proof.
  intros Hwf Ha Hn Hne Hsa. apply wp_bind. eapply wp_get_agg; [done|].
  apply wp_bind, wp_upd_slave_alter; [by eapply lw_in|].
  match goal with |- wp _ _ ?s1 => set (st1 := s1) end.
  assert (heap_rel (handing (ad_agg sa) n []) (slaves st) (slaves st1)) as Hr1
    by by apply handing_start.
  apply wp_bind. apply wp_get_agg_some; [by apply lookup_alter_is_Some; eapply lw_in|].
  intros sn _. apply wp_bind.
  eapply (wp_mono _ (fun _ st' => params st' = params st /\ slave_list st' = slave_list st /\
    heap_rel (handing (ad_agg sa) n (L a)) (slaves st) (slaves st'))).
  - apply wp_bind, wp_gets, wp_bind. eapply (wp_get_agg _ _ _ sa).
    { unfold st1. rec_simpl. by rewrite lookup_alter_ne. }
    pose proof (lw_chain _ _ _ _ Hwf a sa Ha Hsa) as Hc.
    rewrite (lag_chain_head _ _ _ Hc).
    apply (wp_for_lag (fun pre _ st' => params st' = params st /\
      slave_list st' = slave_list st /\
      heap_rel (handing (ad_agg sa) n pre) (slaves st) (slaves st')) _ _ (L a) _ []);
      [done| |done| | |done].
    + pose proof (lag_wf_fuel _ _ _ _ a Hwf Ha). unfold lag_fuel, st1. rec_simpl.
      rewrite <-!size_dom, dom_alter_L, !size_dom. lia.
    + intros pre ? st' (_ & _ & Hr). rewrite <-(lag_chain_head _ _ _ Hc).
      eapply lag_chain_ext; [|done]. intros q Hq sq Hsq.
      destruct (proj2 Hr q sq Hsq) as (sq' & ? & []). eauto.
    + intros pre q post ? st' Hl (HP & HS & Hr). apply wp_bind.
      apply wp_upd_slave_alter; [|apply wp_ret; split; [done|]; split; [done|];
        by apply handing_port].
      destruct (lw_in _ _ _ _ Hwf q) as [sq Hsq]; [eapply lw_mem; [done|exact Ha|];
        rewrite Hl; set_solver|].
      destruct (proj2 Hr q sq Hsq) as (sq' & ? & _). eauto.
  - intros [] st' (HP & HS & Hr). apply wp_upd_slave_alter.
    + destruct (proj2 Hr a sa Hsa) as (sa' & ? & _). eauto.
    + split; [done|]. split; [done|]. exists (slaves st'). done.
Qed.

(** The slave at [q] once the ports of aggregator [p] belong to [n]. *)
Record handed (ag : aggregator) (p n : ptr) (l : list ptr) (q : ptr) (t t' : slave)
    : Prop := {
  hd_next : next_port_in_aggregator (ad_port t') = next_port_in_aggregator (ad_port t);
  hd_pslave : port_slave (ad_port t') = port_slave (ad_port t);
  hd_sel : has (sm_vars (ad_port t')) AD_PORT_SELECTED =
           has (sm_vars (ad_port t)) AD_PORT_SELECTED;
  hd_mux : mux_eq t t';
  hd_in : q ∈ l -> port_aggregator (ad_port t') = Some n;
  hd_out : q ∉ l -> port_aggregator (ad_port t') = port_aggregator (ad_port t);
  hd_aslave : agg_slave (ad_agg t') = agg_slave (ad_agg t);
  hd_new : q = n -> lag_ports (ad_agg t') = lag_ports ag /\
                    num_of_ports (ad_agg t') = num_of_ports ag /\
                    is_active (ad_agg t') = is_active ag;
  hd_old : q = p -> lag_ports (ad_agg t') = None /\ num_of_ports (ad_agg t') = 0 /\
                    is_active (ad_agg t') = false;
  hd_other : q <> n -> q <> p -> ad_agg t' = ad_agg t }.

Lemma handing_handed ag p n l (h h1 : heap) :
  n <> p -> heap_rel (handing ag n l) h h1 ->
  heap_rel (handed ag p n l) h (alter (fun t => t <| ad_agg ::= ad_clear_agg |>) p h1).
Proof.
  intros Hne [HN HS]. split.
  - intros q Hq. rewrite lookup_alter_None. auto.
  - intros q t Hq. destruct (HS q t Hq) as (t1 & Ht1 & []). rewrite lookup_alter.
    case_decide as E.
    + subst q. rewrite Ht1. eexists. split; [done|]. destruct hg_mux0.
      split; rec_simpl; try done; by split.
    + exists t1. split; [done|]. split; try done; intros; first [congruence|auto].
Qed.

Section handover.
Context (ids : list ptr) (L : ptr -> list ptr) (h h' : heap) (p n : ptr) (sp : slave).
Context (Hwf : lag_wf (Some p) ids L h) (Hp : p ∈ ids) (Hn : n ∈ ids) (Hne : n <> p).
Context (Hsp : h !! p = Some sp) (Hold : L n = [] \/ L n = [p]).
Context (Hh : heap_rel (handed (ad_agg sp) p n (L p)) h h').

Definition handed_lists : ptr -> list ptr := <[p := []]> (<[n := L p]> L).

Lemma handed_lists_p : handed_lists p = [].
Proof. unfold handed_lists. by rewrite fn_lookup_insert. Qed.
Lemma handed_lists_n : handed_lists n = L p.
Proof. unfold handed_lists. by rewrite fn_lookup_insert_ne, fn_lookup_insert. Qed.
Lemma handed_lists_other b : b <> p -> b <> n -> handed_lists b = L b.
Proof. intros. unfold handed_lists. by rewrite !fn_lookup_insert_ne. Qed.

Lemma handed_chain b sb' :
  b ∈ ids -> h' !! b = Some sb' ->
  lag_chain h' (lag_ports (ad_agg sb')) (handed_lists b) /\
  num_of_ports (ad_agg sb') = u16 (Z.of_nat (length (handed_lists b))).
Proof.
  intros Hb Hsb'. destruct (heap_rel_inv _ _ _ _ _ Hh Hsb') as (sb & Hsb & Hr).
  assert (forall o l, lag_chain h o l -> lag_chain h' o l) as Hext.
  { intros o l. apply lag_chain_ext. intros q _ sq (sq' & ? & [])%(proj2 Hh). eauto. }
  destruct (decide (b = p)) as [->|Hbp].
  { rewrite handed_lists_p. by destruct (hd_old _ _ _ _ _ _ _ Hr eq_refl) as (-> & -> & _). }
  destruct (decide (b = n)) as [->|Hbn].
  { rewrite handed_lists_n. destruct (hd_new _ _ _ _ _ _ _ Hr eq_refl) as (-> & -> & _).
    split; [apply Hext; by eapply lw_chain|by eapply lw_num]. }
  rewrite handed_lists_other by done. rewrite (hd_other _ _ _ _ _ _ _ Hr) by done.
  split; [apply Hext; by eapply lw_chain|by eapply lw_num].
Qed.

Lemma handed_mem b q :
  b ∈ ids -> q ∈ handed_lists b -> (b = n /\ q ∈ L p) \/ (q ∈ L b /\ q ∉ L p).
Proof.
  intros Hb Hq. destruct (decide (b = p)) as [->|Hbp].
  { rewrite handed_lists_p in Hq. by apply not_elem_of_nil in Hq. }
  destruct (decide (b = n)) as [->|Hbn]; [rewrite handed_lists_n in Hq; auto|].
  rewrite handed_lists_other in Hq by done. right. split; [done|].
  intros Hq'. apply Hbp. by eapply lag_wf_disjoint.
Qed.

Lemma lag_wf_handed : lag_wf (Some p) ids handed_lists h'.
Proof.
  split.
  - apply Hwf.
  - intros q [s (s' & ? & _)%(proj2 Hh)]%(lw_in _ _ _ _ Hwf). eauto.
  - intros b sb' Hb Hsb'. by apply handed_chain.
  - intros b Hb. destruct (decide (b = p)) as [->|Hbp].
    { rewrite handed_lists_p. apply NoDup_nil_2. }
    destruct (decide (b = n)) as [->|Hbn].
    + rewrite handed_lists_n. by eapply lw_nodup.
    + rewrite handed_lists_other by done. by eapply lw_nodup.
  - intros b sb' Hb Hsb'. by apply handed_chain.
  - intros b q Hb [[-> Hq]|[Hq _]]%handed_mem; [|by eapply lw_mem|done].
    by eapply (lw_mem _ _ _ _ Hwf p).
  - intros b q sq' Hb Hq Hsq'.
    destruct (heap_rel_inv _ _ _ _ _ Hh Hsq') as (sq & Hsq & Hr).
    apply handed_mem in Hq as [[-> Hq]|[Hq Hnq]]; [by apply Hr| |done].
    rewrite (hd_out _ _ _ _ _ _ _ Hr Hnq). by eapply lw_fwd.
  - intros b q sq' Hq Hsq' Hlv Hagg.
    destruct (heap_rel_inv _ _ _ _ _ Hh Hsq') as (sq & Hsq & Hr).
    destruct (decide (q ∈ L p)) as [Hin|Hnin].
    { rewrite (hd_in _ _ _ _ _ _ _ Hr Hin) in Hagg. simplify_eq. by rewrite handed_lists_n. }
    rewrite (hd_out _ _ _ _ _ _ _ Hr Hnin) in Hagg.
    destruct (lw_back _ _ _ _ Hwf b q sq Hq Hsq Hlv Hagg) as [Hb HqL]. split; [done|].
    destruct (decide (b = n)) as [->|Hbn]; [destruct Hold as [E|E]; rewrite E in HqL; set_solver|].
    rewrite handed_lists_other; [done| |done]. by intros ->.
  - intros q sq' Hq Hsq' Hlv Hagg.
    destruct (heap_rel_inv _ _ _ _ _ Hh Hsq') as (sq & Hsq & Hr).
    rewrite (hd_next _ _ _ _ _ _ _ Hr). eapply (lw_next _ _ _ _ Hwf); [done|done|done|].
    rewrite <-Hagg. symmetry. apply (hd_out _ _ _ _ _ _ _ Hr). intros Hin.
    by rewrite (hd_in _ _ _ _ _ _ _ Hr Hin) in Hagg.
  - intros q sq' Hq Hsq'. destruct (heap_rel_inv _ _ _ _ _ Hh Hsq') as (sq & Hsq & Hr).
    rewrite (hd_pslave _ _ _ _ _ _ _ Hr), (hd_aslave _ _ _ _ _ _ _ Hr).
    by eapply lw_slave.
Qed.
End handover.

(** ** The aggregator of the leaving slave *)

Lemma ports_wf_handed L p n sp st st' :
  ports_wf (Some p) L st -> p ∈ slave_list st -> n ∈ slave_list st -> n <> p ->
  slaves st !! p = Some sp -> (L n = [] \/ L n = [p]) ->
  slave_list st' = slave_list st ->
  heap_rel (handed (ad_agg sp) p n (L p)) (slaves st) (slaves st') ->
  ports_wf (Some p) (handed_lists L p n) st'.
Proof.
  intros [Hl Hw] Hp Hn Hne Hsp Hold HS Hr. split; rewrite HS.
  - by eapply lag_wf_handed.
  - intros q sq' Hq Hsq' Hlv. destruct (heap_rel_inv _ _ _ _ _ Hr Hsq') as (sq & Hsq & Hd).
    destruct (Hw q sq Hq Hsq Hlv) as [H1 [H2 H3]]. destruct (hd_mux _ _ _ _ _ _ _ Hd).
    split; [|split; congruence]. rewrite (hd_sel _ _ _ _ _ _ _ Hd).
    destruct (decide (q ∈ L p)) as [Hin|Hnin].
    + by rewrite (hd_in _ _ _ _ _ _ _ Hd Hin).
    + by rewrite (hd_out _ _ _ _ _ _ _ Hd Hnin).
Qed.

(** If the new aggregator was not active, the activity moves with the LAG. *)
Lemma one_active_handed L p n sp st st' :
  ad_wf (Some p) L st -> p ∈ slave_list st -> n ∈ slave_list st -> n <> p ->
  slaves st !! p = Some sp -> slave_list st' = slave_list st ->
  heap_rel (handed (ad_agg sp) p n (L p)) (slaves st) (slaves st') ->
  is_active_at (slaves st) n = false ->
  one_active (handed_lists L p n) st'.
Proof.
  intros Hwf Hp Hn Hne Hsp HS Hr Hna. pose proof (aw_active _ _ _ Hwf) as (o & Ho & Hin).
  assert (forall q, q ∈ slave_list st -> is_active_at (slaves st') q =
    if decide (q = n) then is_active_at (slaves st) p
    else if decide (q = p) then false else is_active_at (slaves st) q) as Hact.
  { intros q Hq. destruct (ad_wf_in _ _ _ _ Hwf Hq) as [sq Hsq]. unfold is_active_at.
    rewrite Hsq. destruct (proj2 Hr q sq Hsq) as (sq' & -> & Hd). rewrite Hsp.
    repeat case_decide; [by apply Hd|by apply Hd|by rewrite (hd_other _ _ _ _ _ _ _ Hd)]. }
  assert (o <> Some n) as Hon.
  { intros ->. rewrite (Ho n Hn) in Hna. by rewrite bool_decide_eq_true_2 in Hna. }
  exists (if decide (o = Some p) then Some n else o). rewrite HS. split.
  - intros q Hq. rewrite (Hact q Hq). pose proof (Ho q Hq) as Hoq. pose proof (Ho p Hp) as Hop.
    repeat case_decide; subst; rewrite ?Hoq, ?Hop; repeat case_bool_decide; congruence.
  - intros a. case_decide as E.
    + intros [= <-]. split; [done|]. rewrite handed_lists_n by done. by apply Hin.
    + intros ->. destruct (Hin a eq_refl). split; [done|].
      rewrite handed_lists_other; congruence.
Qed.

(** Clearing the aggregator of a slave whose only port is its own. *)
Lemma ports_wf_clear L p st :
  ports_wf (Some p) L st -> p ∈ slave_list st -> L p = [p] ->
  ports_wf (Some p) (<[p := []]> L) (st <| slaves ::= alter
    (fun t => t <| ad_agg ::= ad_clear_agg |>) p |>).
Proof.
  intros [Hl Hw] Hp HL. split; rec_simpl.
  - apply (lag_wf_unlink (Some p) (slave_list st) L (slaves st) p p [] []); [done|done|done|].
    split; [intros q Hq; by rewrite lookup_alter_None|].
    intros q t Hq. rewrite lookup_alter. case_decide as E.
    + subst q. rewrite Hq. eexists. split; [done|].
      pose proof (lw_num _ _ _ _ Hl p t Hp Hq) as Hnum. rewrite HL in Hnum.
      split; rec_simpl; try done. rewrite Hnum. done.
    + exists t. split; [done|]. split; try done; congruence.
  - intros q sq Hq. rewrite lookup_alter. case_decide; [|by apply Hw].
    intros _ []. by subst.
Qed.

Lemma one_active_clear L p st :
  ad_wf (Some p) L st -> is_active_at (slaves st) p = false ->
  one_active (<[p := []]> L) (st <| slaves ::= alter
    (fun t => t <| ad_agg ::= ad_clear_agg |>) p |>).
Proof.
  intros Hwf Hna. pose proof (aw_active _ _ _ Hwf) as (o & Ho & Hin). exists o. rec_simpl.
  split.
  - intros q Hq. rewrite <-(Ho q Hq). unfold is_active_at in *. rewrite lookup_alter.
    case_decide; [|done]. subst. by destruct (slaves st !! q).
  - intros a ->. destruct (Hin a eq_refl) as [Ha HL]. split; [done|].
    rewrite fn_lookup_insert_ne; [done|]. intros ->.
    rewrite (Ho a Ha) in Hna. by rewrite bool_decide_eq_true_2 in Hna.
Qed.

(** Whether the selection runs or not, the invariant holds afterwards. *)
Lemma wp_select_if L p (b : bool) st :
  ports_wf (Some p) L st -> p ∈ slave_list st -> (b = false -> one_active L st) ->
  wp (when_ b (let* first := __get_first_agg p in
               let* _ := ad_agg_selection_logic first false in ret tt))
    (fun _ st' => ad_wf (Some p) L st' /\ slave_list st' = slave_list st) st.
Proof.
  intros Hwf Hp Hone. apply wp_when; intros Eb; [|by split; [split|]; auto].
  apply wp_bind. eapply wp_mono; [eapply wp_get_first_agg; [apply Hwf|done]|].
  intros o ? (-> & f & -> & Hf). apply wp_bind.
  eapply wp_mono; [by eapply wp_selection_wf|]. intros u st' [Hwf' Hk].
  apply wp_ret. split; [done|apply Hk].
Qed.

Lemma wp_select_if_first L p (b : bool) st :
  ports_wf (Some p) L st -> p ∈ slave_list st -> (b = false -> one_active L st) ->
  wp (when_ b (let* first := __get_first_agg p in
               match first with
               | None => ret tt
               | Some f => let* _ := ad_agg_selection_logic (Some f) false in ret tt
               end))
    (fun _ st' => ad_wf (Some p) L st' /\ slave_list st' = slave_list st) st.
Proof.
  intros Hwf Hp Hone. apply wp_when; intros Eb; [|by split; [split|]; auto].
  apply wp_bind. eapply wp_mono; [eapply wp_get_first_agg; [apply Hwf|done]|].
  intros o ? (-> & f & -> & Hf). apply wp_bind.
  eapply wp_mono; [by eapply wp_selection_wf|]. intros u st' [Hwf' Hk].
  apply wp_ret. split; [done|apply Hk].
Qed.

(** A new aggregator that holds the leaving port and is active asks for a new
    selection, so otherwise it was inactive. *)
Lemma new_inactive L p n sn st :
  ad_wf (Some p) L st -> n ∈ slave_list st -> slaves st !! n = Some sn ->
  (L n = [] \/ L n = [p]) ->
  bool_decide (lag_ports (ad_agg sn) = Some p) && is_active (ad_agg sn) = false ->
  is_active_at (slaves st) n = false.
Proof.
  intros Hwf Hn Hsn Hold Hnew. unfold is_active_at. rewrite Hsn.
  destruct (is_active (ad_agg sn)) eqn:Ea; [|done]. exfalso.
  pose proof (aw_active _ _ _ Hwf) as (o & Ho & Hin).
  assert (o = Some n) as ->.
  { specialize (Ho n Hn). unfold is_active_at in Ho. rewrite Hsn, Ea in Ho.
    symmetry in Ho. by apply bool_decide_eq_true in Ho. }
  destruct (Hin n eq_refl) as [_ HL]. destruct Hold as [?|E]; [done|].
  pose proof (lw_chain _ _ _ _ (pw_lag _ _ _ (aw_ports _ _ _ Hwf)) n sn Hn Hsn) as Hc.
  rewrite E in Hc. destruct Hc as [Hc _]. by rewrite Hc, bool_decide_eq_true_2 in Hnew.
Qed.

Lemma wp_unbind_aggregator L p st :
  ad_wf (Some p) L st -> p ∈ slave_list st ->
  wp (unbind_aggregator p) (fun _ st' => exists L', ad_wf (Some p) L' st' /\ L' p = [] /\
    slave_list st' = slave_list st) st.
Proof.
  intros Hwf Hp. destruct (ad_wf_in _ _ _ _ Hwf Hp) as [sp Hsp].
  pose proof (pw_lag _ _ _ (aw_ports _ _ _ Hwf)) as Hlag.
  apply wp_bind. eapply wp_get_agg; [done|].
  destruct (lag_ports (ad_agg sp)) as [q|] eqn:Elag.
  2: { apply wp_ret. exists L. split; [done|]. split; [|done].
       by eapply lag_ports_None_empty. }
  assert (L p <> []) as HLp by (intros E; eapply lag_ports_None_empty in E; eauto; congruence).
  apply wp_bind. eapply wp_mono; [by eapply wp_agg_replaceable|].
  intros alone ? [-> ->]. case_bool_decide as Eal; simpl.
  - destruct Eal as [|HL1]; [done|]. apply wp_bind, wp_upd_slave_alter; [eauto|].
    eapply wp_mono; [apply wp_select_if_first; [apply ports_wf_clear; [apply Hwf|done|done]|done|]|].
    + intros Ena. apply one_active_clear; [done|]. unfold is_active_at. by rewrite Hsp.
    + intros [] st' [Hwf' HS]. eexists. split; [done|]. by rewrite fn_lookup_insert.
  - apply wp_bind. eapply wp_mono; [by eapply wp_find_new_aggregator|].
    intros r ? (-> & n & -> & Hn & Hold).
    assert (n <> p) as Hne by by intros ->.
    destruct (ad_wf_in _ _ _ _ Hwf Hn) as [sn Hsn].
    apply wp_bind. eapply wp_get_agg; [done|]. apply wp_bind.
    eapply wp_mono; [by eapply wp_move_lag|].
    intros [] st1 (HP1 & HS1 & h1 & Hh1 & Hs1).
    assert (heap_rel (handed (ad_agg sp) p n (L p)) (slaves st) (slaves st1)) as Hr
      by (rewrite Hs1; by apply handing_handed).
    eapply wp_mono; [apply (wp_select_if (handed_lists L p n))|].
    + eapply ports_wf_handed; [apply Hwf|done..].
    + by rewrite HS1.
    + intros Enew. eapply one_active_handed; [done..|]. by eapply new_inactive.
    + intros [] st' [Hwf' HS]. eexists. split; [done|].
      split; [apply handed_lists_p|]. congruence.
Qed.

(** ** Taking the leaving port off its list *)

(** A heap unlinked for the leaving port, and the frame of the other ports. *)
Record leave_frame (p q : ptr) (s s' : slave) : Prop := {
  lf_sel : q <> p -> has (sm_vars (ad_port s')) AD_PORT_SELECTED =
                     has (sm_vars (ad_port s)) AD_PORT_SELECTED;
  lf_mux : q <> p -> mux_eq s s';
  lf_act : is_active (ad_agg s') = is_active (ad_agg s) }.

Definition left (a p : ptr) (pre post : list ptr) (st st' : bonding) : Prop :=
  slave_list st' = slave_list st /\
  heap_rel (fun q s s' => unlinked (Some p) a p pre post q s s' /\ leave_frame p q s s')
    (slaves st) (slaves st').

Lemma ports_wf_left L a p pre post st st' :
  ports_wf (Some p) L st -> a ∈ slave_list st -> L a = pre ++ p :: post ->
  left a p pre post st st' -> ports_wf (Some p) (<[a := pre ++ post]> L) st'.
Proof.
  intros [Hl Hw] Ha HL [HS Hr]. split; rewrite HS.
  - eapply lag_wf_unlink; [done|done|done|]. eapply heap_rel_mono; [|done]. naive_solver.
  - intros q sq' Hq Hsq' Hlv. assert (q <> p) as Hne by congruence.
    destruct (heap_rel_inv _ _ _ _ _ Hr Hsq') as (sq & Hsq & Hu & [Hsel Hmux _]).
    destruct (Hw q sq Hq Hsq Hlv) as [H1 [H2 H3]]. destruct (Hmux Hne).
    split; [|split; congruence].
    by rewrite (Hsel Hne), (ul_agg _ _ _ _ _ _ _ _ Hu Hne).
Qed.

Lemma only_active_left a p pre post st st' ids o :
  left a p pre post st st' -> only_active (slaves st) ids o -> only_active (slaves st') ids o.
Proof.
  intros [_ Hr] Ho q Hq. rewrite <-(Ho q Hq). unfold is_active_at.
  destruct (slaves st !! q) as [sq|] eqn:E.
  - destruct (proj2 Hr q sq E) as (sq' & -> & _ & []). done.
  - by rewrite (proj1 Hr q E).
Qed.

Ltac left_cases :=
  split; [done|]; rec_simpl; split;
  [ intros ? ?; rewrite ?lookup_alter_None; done
  | let Hq := fresh "Hq" in
    intros q s Hq; rewrite !lookup_alter; repeat case_decide; subst;
    rewrite ?Hq; simpl; simplify_eq; eexists; (split; [reflexivity|]);
    (split; [split|split]); rec_simpl; try done; try naive_solver; by split ].

Lemma wp_leave L a p pre post st sp (m : MB unit) Q :
  lag_wf (Some p) (slave_list st) L (slaves st) -> a ∈ slave_list st ->
  L a = pre ++ p :: post -> slaves st !! p = Some sp ->
  (forall st', left a p pre post st st' -> wp m Q st') ->
  wp ((match last pre with
       | Some r => upd_port r (fun rt =>
           rt <| next_port_in_aggregator := next_port_in_aggregator (ad_port sp) |>)
       | None => upd_agg a (fun ag =>
           ag <| lag_ports := next_port_in_aggregator (ad_port sp) |>)
       end) ;;;
      upd_agg a (fun ag => ag <| num_of_ports ::= fun n => u16 (n - 1) |>) ;;; m) Q st.
Proof.
  intros Hwf Ha HL Hsp Hm. destruct (lw_in _ _ _ _ Hwf a Ha) as [sa Hsa].
  pose proof (lw_chain _ _ _ _ Hwf a sa Ha Hsa) as Hc. rewrite HL in Hc.
  pose proof (lag_chain_head _ _ _ Hc) as Hhead.
  destruct (lag_chain_split _ _ _ _ _ Hc) as (sp' & Hsp' & Hnext). simplify_eq.
  rewrite Hnext. apply wp_bind. destruct (last pre) as [r|] eqn:El.
  - assert (r ∈ slave_list st /\ r <> p) as [Hr Hrp].
    { apply last_Some_elem_of in El. split.
      - eapply lw_mem; [done|exact Ha|rewrite HL; set_solver].
      - eapply (unlink_rest (Some p) (slave_list st) L (slaves st) a p pre post); [done..|].
        set_solver. }
    destruct pre as [|x pre]; [done|]. pose proof (lw_in _ _ _ _ Hwf r Hr) as Hir.
    apply wp_upd_slave_alter; [done|]. apply wp_bind, wp_upd_slave_alter.
    { rec_simpl. rewrite lookup_alter_is_Some. eauto. }
    apply Hm. left_cases.
  - apply last_None in El as ->. simpl in Hhead.
    apply wp_upd_slave_alter; [eauto|]. apply wp_bind, wp_upd_slave_alter.
    { rec_simpl. rewrite lookup_alter_is_Some. eauto. }
    apply Hm. left_cases.
Qed.

Definition shrinks (L L' : ptr -> list ptr) : Prop := forall b q, q ∈ L' b -> q ∈ L b.

Lemma shrink_unlink L a p pre post :
  L a = pre ++ p :: post -> shrinks L (<[a := pre ++ post]> L).
Proof.
  intros HL b q. destruct (decide (b = a)) as [->|Hne].
  - rewrite fn_lookup_insert, HL. set_solver.
  - by rewrite fn_lookup_insert_ne.
Qed.

Lemma lag_wf_length lv ids L h a : lag_wf lv ids L h -> a ∈ ids -> (length (L a) <= length ids)%nat.
Proof.
  intros Hwf Ha. apply NoDup_incl_length.
  - apply NoDup_ListNoDup. by eapply lw_nodup.
  - intros q Hq%list_elem_of_In. apply list_elem_of_In. by eapply lw_mem.
Qed.

(** Clearing an aggregator whose port count is zero changes no list: with fewer
    than 2^16 slaves the 16-bit count is exact. *)
Lemma wp_clear_if_empty lv L a sa o st :
  ports_wf lv L st -> a ∈ slave_list st -> slaves st !! a = Some sa ->
  Z.of_nat (length (slave_list st)) < 65536 ->
  only_active (slaves st) (slave_list st) o ->
  (forall b, o = Some b -> b <> a -> b ∈ slave_list st /\ L b <> []) ->
  wp (when_ (num_of_ports (ad_agg sa) =? 0) (upd_agg a ad_clear_agg)) (fun _ st' =>
    ports_wf lv L st' /\ slave_list st' = slave_list st /\
    (is_active (ad_agg sa) = false -> one_active L st')) st.
Proof.
  intros [Hl Hw] Ha Hsa Hlen Ho Hin.
  assert (is_active (ad_agg sa) = false -> o <> Some a) as Hoa.
  { intros Hna ->. specialize (Ho a Ha). unfold is_active_at in Ho.
    by rewrite Hsa, Hna, bool_decide_eq_true_2 in Ho. }
  apply wp_when; intros En.
  2: { split; [done|]. split; [done|]. intros Hna. exists o. split; [done|].
       intros b ->. apply Hin; [done|]. intros ->. by apply Hoa. }
  pose proof (lw_num _ _ _ _ Hl a sa Ha Hsa) as Hnum.
  pose proof (lag_wf_length _ _ _ _ a Hl Ha) as Hla.
  rewrite u16_id in Hnum by lia. assert (L a = []) as HLa by (apply nil_length_inv; lia).
  pose proof (lw_chain _ _ _ _ Hl a sa Ha Hsa) as Hc. rewrite HLa in Hc. simpl in Hc.
  eapply wp_upd_slave; [done|]. split; [split; rec_simpl|split; [done|]].
  - eapply lag_wf_links; [|done]. split.
    + intros q Hq. by rewrite lookup_insert_ne by congruence.
    + intros q s Hq. rewrite lookup_insert. case_decide; simplify_eq; eexists;
        (split; [done|]); split; unfold ad_clear_agg; rec_simpl; try done; first [by rewrite Hc|lia].
  - intros q sq Hq. rewrite lookup_insert. case_decide; [|by apply Hw].
    intros [= <-]. rec_simpl. subst q. by apply Hw.
  - intros Hna. exists o. rec_simpl. split.
    + intros q Hq. rewrite <-(Ho q Hq). unfold is_active_at. rewrite lookup_insert.
      case_decide; [|done]. subst q. by rewrite Hsa, Hna.
    + intros b ->. apply Hin; [done|]. intros ->. by apply Hoa.
Qed.

Lemma wp_unbind_at L a p pre post st :
  ad_wf (Some p) L st -> p ∈ slave_list st -> a ∈ slave_list st ->
  Z.of_nat (length (slave_list st)) < 65536 -> L a = pre ++ p :: post ->
  wp (unbind_at p a (last pre)) (fun _ st' =>
    ad_wf (Some p) (<[a := pre ++ post]> L) st' /\ slave_list st' = slave_list st) st.
Proof.
  intros Hwf Hp Ha Hlen HL. destruct (ad_wf_in _ _ _ _ Hwf Hp) as [sp Hsp].
  pose proof (aw_active _ _ _ Hwf) as (o & Ho & Hin).
  apply wp_bind. eapply wp_get_port; [done|].
  eapply wp_leave; [apply Hwf|done|done|done|]. intros st1 Hl1.
  pose proof (proj1 Hl1) as HS1. set (L1 := <[a := pre ++ post]> L).
  assert (ports_wf (Some p) L1 st1) as Hwf1 by (eapply ports_wf_left; [apply Hwf|done..]).
  pose proof (only_active_left _ _ _ _ _ _ _ _ Hl1 Ho) as Ho1.
  assert (forall b, o = Some b -> b <> a -> b ∈ slave_list st1 /\ L1 b <> []) as Hin1.
  { intros b -> Hne. unfold L1. rewrite HS1, fn_lookup_insert_ne by done. auto. }
  rewrite <-HS1 in Ha, Hp, Ho1, Hlen |- *.
  apply wp_bind. eapply wp_mono; [eapply wp_agg_active_ports; [apply Hwf1|done]|].
  intros n ? [-> ->]. destruct (_ =? 0) eqn:Ecount.
  2: { apply wp_ret. split; [|done]. split; [done|]. exists o. split; [done|].
       intros b Eb. destruct (decide (b = a)) as [->|Hne]; [|auto].
       split; [done|]. by eapply active_count_nonempty. }
  destruct (lw_in _ _ _ _ (pw_lag _ _ _ Hwf1) a Ha) as [sa Hsa].
  apply wp_bind. eapply wp_get_agg; [done|]. apply wp_bind.
  eapply wp_mono; [by eapply wp_clear_if_empty|].
  intros [] st2 (Hwf2 & HS2 & Hone). rewrite <-HS2 in *.
  by apply wp_select_if.
Qed.

Lemma wp_unbind_port_from L a p st :
  ad_wf (Some p) L st -> p ∈ slave_list st -> a ∈ slave_list st ->
  Z.of_nat (length (slave_list st)) < 65536 ->
  wp (unbind_port_from p a) (fun _ st' => slave_list st' = slave_list st /\
    exists L', ad_wf (Some p) L' st' /\ (p ∉ L' a) /\ shrinks L L') st.
Proof.
  intros Hwf Hp Ha Hlen. destruct (ad_wf_in _ _ _ _ Hwf Ha) as [sa Hsa].
  pose proof (pw_lag _ _ _ (aw_ports _ _ _ Hwf)) as Hl.
  apply wp_bind. eapply (wp_for_agg_ports (Some p) (slave_list st) L a sa
    (fun pre (prev : option ptr) st' => st' = st /\ prev = last pre /\ p ∉ pre)
    (fun _ st' => wp (ret tt) _ st'));
    [done|done|done|split; [done|]; split; [done|apply not_elem_of_nil]| | |].
  - intros pre x st' (-> & _). pose proof (lw_chain _ _ _ _ Hl a sa Ha Hsa) as Hc.
    by rewrite <-(lag_chain_head _ _ _ Hc).
  - intros pre q post prev st' HL (-> & -> & Hnp). case_decide as E.
    + subst q. apply wp_bind. eapply wp_mono; [by eapply wp_unbind_at|].
      intros [] st' [Hwf' HS']. apply wp_ret, wp_ret. split; [done|].
      eexists. split; [done|]. split; [|by eapply shrink_unlink].
      rewrite fn_lookup_insert. intros Hin.
      by eapply (unlink_rest (Some p) (slave_list st) L (slaves st) a p pre post) in Hin as [? _].
    + apply wp_ret. split; [done|]. rewrite last_snoc. split; [done|]. set_solver.
  - intros x st' (-> & _ & Hn). apply wp_ret. split; [done|]. exists L.
    split; [done|]. split; [done|]. by intros b q.
Qed.

(** ** The whole of unbinding *)

(** The slave is on no list and its aggregator is empty. *)
Definition unbound (p : ptr) (L : ptr -> list ptr) (st : bonding) : Prop :=
  (forall a, a ∈ slave_list st -> p ∉ L a) /\ L p = [].

Lemma wp_unbind_lists L p st :
  ad_wf (Some p) L st -> p ∈ slave_list st -> L p = [] ->
  Z.of_nat (length (slave_list st)) < 65536 ->
  wp (unbind_from_lists p) (fun _ st' => slave_list st' = slave_list st /\
      exists L', ad_wf (Some p) L' st' /\ unbound p L' st') st.
Proof.
  intros Hwf Hp HLp Hlen. apply wp_bind, wp_gets.
  apply (wp_for_each (fun pre _ st' => slave_list st' = slave_list st /\
    exists L', ad_wf (Some p) L' st' /\ L' p = [] /\ forall a, a ∈ pre -> p ∉ L' a)).
  - split; [done|]. exists L. split; [done|]. split; [done|].
    intros a Ha. by apply not_elem_of_nil in Ha.
  - intros pre a post ? st1 Hl (HS & L1 & Hwf1 & HLp1 & Hout). apply wp_bind.
    eapply wp_mono; [apply (wp_unbind_port_from L1); [done|..]; rewrite HS; [done|rewrite Hl; set_solver|done]|].
    intros [] st2 (HS2 & L2 & Hwf2 & Ha2 & Hsh). apply wp_ret. split; [congruence|].
    exists L2. split; [done|]. split.
    + destruct (L2 p) as [|q l] eqn:E; [done|].
      specialize (Hsh p q). rewrite E, HLp1 in Hsh. set_solver.
    + intros b [Hb| ->%list_elem_of_singleton]%elem_of_app; [|done].
      intros Hin. by apply (Hout b Hb), Hsh.
  - intros ? st' (HS & L' & Hwf' & HLp' & Hout). split; [done|]. exists L'.
    split; [done|]. split; [by rewrite HS|done].
Qed.

Lemma wp_leaving_step {A} L p (f : port -> port) (k : MB A) Q l st :
  ad_wf (Some p) L st -> slave_list st = l -> p ∈ l ->
  (forall pt, next_port_in_aggregator (f pt) = next_port_in_aggregator pt /\
    port_aggregator (f pt) = port_aggregator pt /\ port_slave (f pt) = port_slave pt) ->
  (forall st', ad_wf (Some p) L st' -> slave_list st' = l -> wp k Q st') ->
  wp (upd_port p f ;;; k) Q st.
Proof.
  intros Hwf <- Hp Hf Hk. apply wp_bind. eapply wp_mono; [by apply (wp_upd_leaving L)|].
  intros [] st' [? ?]. auto.
Qed.

Lemma wp_bond_3ad_unbind_slave L p st :
  ad_wf None L st -> p ∈ slave_list st -> Z.of_nat (length (slave_list st)) < 65536 ->
  wp (bond_3ad_unbind_slave p) (fun _ st' => slave_list st' = slave_list st /\
    exists L1 st1, ad_wf (Some p) L1 st1 /\ unbound p L1 st1 /\
      slave_list st1 = slave_list st /\
      slaves st' = alter (fun s => s <| ad_port ::= fun pt => pt <| port_slave := None |> |>) p
        (slaves st1)) st.
Proof.
  intros Hwf%(ad_wf_leave _ _ p) Hp Hlen. destruct (ad_wf_in _ _ _ _ Hwf Hp) as [sp Hsp].
  apply wp_bind. eapply wp_get_port; [done|].
  rewrite (ad_wf_slave _ _ _ _ _ Hwf Hp Hsp). clear Hsp sp.
  eapply wp_leaving_step; [done|done|done|done|]. intros st1 Hwf1 HS1.
  eapply wp_leaving_step; [done|done|done|done|]. intros st2 Hwf2 HS2.
  eapply wp_leaving_step; [done|done|done|done|]. intros st3 Hwf3 HS3.
  eapply wp_leaving_step; [done|done|done|done|]. intros st4 Hwf4 HS4.
  eapply wp_leaving_step; [done|done|done|done|]. intros st5 Hwf5 HS5.
  clear st1 Hwf1 HS1 st2 Hwf2 HS2 st3 Hwf3 HS3 st4 Hwf4 HS4. rewrite <-HS5 in *.
  apply wp_bind. eapply wp_mono.
  { apply wp_keeps_ad_wf; [done|]. eapply wp_ad_lacpdu_send; [apply Hwf5|done]. }
  intros r st6 [Hwf6 HS6]. rewrite <-HS6 in *. apply wp_bind.
  eapply wp_mono; [by eapply wp_unbind_aggregator|].
  intros [] st7 (L7 & Hwf7 & HLp7 & HS7). rewrite <-HS7 in *.
  apply wp_bind. eapply wp_mono; [by eapply wp_unbind_lists|].
  intros [] st8 (HS8 & L8 & Hwf8 & Hu8). apply wp_upd_slave_alter.
  - by eapply ad_wf_in; [|rewrite HS8].
  - split; [done|]. exists L8, st8. done.
Qed.

(** ** Removing the slave *)

(** Once unbound, the slave can be taken off the list and freed: nothing of the
    remaining slaves refers to it. *)
Lemma ad_wf_remove p L st st' :
  ad_wf (Some p) L st -> unbound p L st ->
  slave_list st' = filter (fun q => q <> p) (slave_list st) ->
  (forall q, q <> p -> slaves st' !! q = slaves st !! q) ->
  ad_wf None L st'.
Proof.
  intros [[Hl Hw] (o & Ho & Hin)] [Hout HLp] HS Hh.
  assert (forall q, q ∈ slave_list st' <-> q <> p /\ q ∈ slave_list st) as Hmem
    by (intros q; by rewrite HS, list_elem_of_filter).
  assert (forall a, a ∈ slave_list st -> L a <> [] -> a <> p) as Hap by congruence.
  split; [split; [split|]|].
  - rewrite HS. apply NoDup_filter, Hl.
  - intros q [Hq1 Hq2]%Hmem. rewrite Hh by done. by eapply lw_in.
  - intros a sa [Ha1 Ha2]%Hmem Hsa. rewrite Hh in Hsa by done.
    eapply lag_chain_ext; [|by eapply lw_chain]. intros q Hq sq Hsq.
    exists sq. split; [|done]. rewrite Hh; [done|]. intros ->. by eapply Hout.
  - intros a [_ Ha]%Hmem. by eapply lw_nodup.
  - intros a sa [Ha1 Ha2]%Hmem Hsa. rewrite Hh in Hsa by done. by eapply lw_num.
  - intros a q [Ha1 Ha2]%Hmem Hq. apply Hmem. split; [|by eapply lw_mem].
    intros ->. by eapply Hout.
  - intros a q sq [Ha1 Ha2]%Hmem Hq Hsq. eapply lw_fwd; [done..|].
    rewrite <-Hh; [done|]. intros ->. by eapply Hout.
  - intros a q sq [Hq1 Hq2]%Hmem Hsq _ Hagg. rewrite Hh in Hsq by done.
    destruct (lw_back _ _ _ _ Hl a q sq Hq2 Hsq ltac:(congruence) Hagg) as [Ha HqL].
    split; [|done]. apply Hmem. split; [|done]. apply Hap; [done|]. by destruct (L a); [set_solver|].
  - intros q sq [Hq1 Hq2]%Hmem Hsq _. rewrite Hh in Hsq by done. eapply lw_next; [done..|congruence].
  - intros q sq [Hq1 Hq2]%Hmem Hsq. rewrite Hh in Hsq by done. by eapply lw_slave.
  - intros q sq [Hq1 Hq2]%Hmem Hsq _. rewrite Hh in Hsq by done. eapply Hw; [done..|congruence].
  - exists o. split.
    + intros a [Ha1 Ha2]%Hmem. rewrite <-(Ho a Ha2). unfold is_active_at. by rewrite Hh.
    + intros a ->. destruct (Hin a eq_refl). split; [|done]. apply Hmem. auto.
Qed.

Lemma wp_bond_release_ad L p st :
  ad_wf None L st -> p ∈ slave_list st -> Z.of_nat (length (slave_list st)) < 65536 ->
  wp (bond_release_ad p) (fun _ st' => exists L', ad_wf None L' st' /\
    slave_list st' = filter (fun q => q <> p) (slave_list st) /\ slaves st' !! p = None) st.
Proof.
  intros Hwf Hp Hlen. apply wp_bind. eapply wp_mono; [by eapply wp_bond_3ad_unbind_slave|].
  intros [] st' (HS & L1 & st1 & Hwf1 & Hu & HS1 & Hs). apply wp_mod. exists L1.
  split; [|split; rec_simpl; [by rewrite HS|apply lookup_delete_eq]].
  eapply ad_wf_remove; [done|done|rec_simpl; congruence|]. rec_simpl. intros q Hq.
  rewrite lookup_delete_ne, Hs, lookup_alter_ne; done.
Qed.
End ad_unbind.
