(* ===== verification/AdBind.v ===== *)
(** * 802.3ad: binding a slave

    [bond_3ad_bind_slave] sets up the port and the aggregator of a new slave; a
    slave bound and linked satisfies the invariant. *)

From stdpp Require Import functions.
From S2P Require Import Prelude.
From S2P Require Import AdTypes.
From S2P Require Import AdPort.
From S2P Require Import AdMachine.
From S2P Require Import AdControl.
From S2P Require Import AdEntry.
From S2P Require Import AdInv.
From S2P Require Import AdSelect.
From S2P Require Import AdAttach.
From S2P Require Import AdSafe.

Section ad_bind.
Context `{K : Kernel} (KL : KernelLaws K).

Abbreviation heap := (gmap ptr slave).
Abbreviation MB := (M bonding).

(** From [st0] to [st] only the slave at [s] changed, and it satisfies [P]. *)
Definition only_at (s : ptr) (st0 : bonding) (P : slave -> Prop) (st : bonding) : Prop :=
  slave_list st = slave_list st0 /\
  (forall q, q <> s -> slaves st !! q = slaves st0 !! q) /\
  exists sl, slaves st !! s = Some sl /\ P sl.

Section run.
Context (s : ptr) (st0 : bonding).

Lemma only_upd (P P' : slave -> Prop) f st :
  only_at s st0 P st -> (forall sl, P sl -> P' (f sl)) ->
  wp (upd_slave s f) (fun _ st' => only_at s st0 P' st') st.
Proof.
  intros (HS & Hq & sl & Hsl & HP) Hf. eapply wp_upd_slave; [done|].
  split; [done|]. rec_simpl. split.
  - intros q Hne. rewrite lookup_insert_ne by done. auto.
  - exists (f sl). rewrite lookup_insert_eq. auto.
Qed.

Lemma only_mono (P P' : slave -> Prop) st :
  only_at s st0 P st -> (forall sl, P sl -> P' sl) -> only_at s st0 P' st.
Proof. intros (HS & Hq & sl & Hsl & HP) HPP. split; [done|]. split; [done|]. eauto. Qed.

Lemma only_same (P : slave -> Prop) st st' :
  only_at s st0 P st -> slave_list st' = slave_list st -> slaves st' = slaves st ->
  only_at s st0 P st'.
Proof. intros (HS & Hq & Hsl) E1 E2. unfold only_at. by rewrite E1, E2. Qed.
End run.

(** A port that is on no list and in no collecting state. *)
Definition fresh_port (pt : port) : Prop :=
  port_aggregator pt = None /\ next_port_in_aggregator pt = None /\
  has (sm_vars pt) AD_PORT_SELECTED = false /\ mux_flags pt.

Lemma fresh_initialize bp pt : fresh_port (ad_initialize_port bp pt).
Proof.
  unfold fresh_port, mux_flags, ad_initialize_port.
  destruct (lacp_active bp), (lacp_fast bp); rec_simpl; rewrite mux_state_0_unnamed;
    repeat split; by flags.
Qed.

Lemma fresh_frame pt pt' : port_frame pt pt' -> fresh_port pt -> fresh_port pt'.
Proof.
  intros [] (H1 & H2 & H3 & H4 & H5). repeat split; try congruence.
  destruct (has (sm_vars pt') _); [|done]. by rewrite pf_sel in H3.
Qed.

(** The slave once bound: its port is fresh, its aggregator empty. *)
Definition bound (s : ptr) (sl : slave) : Prop :=
  fresh_port (ad_port sl) /\ port_slave (ad_port sl) = Some s /\
  agg_slave (ad_agg sl) = Some s /\ lag_ports (ad_agg sl) = None /\
  num_of_ports (ad_agg sl) = 0 /\ is_active (ad_agg sl) = false.

Lemma only_get_port s st0 P st (Q : port -> bonding -> Prop) :
  only_at s st0 P st -> (forall sl, slaves st !! s = Some sl -> P sl -> Q (ad_port sl) st) ->
  wp (get_port s) Q st.
Proof. intros (_ & _ & sl & Hsl & HP) HQ. eapply wp_get_port; eauto. Qed.

(** The port has its slave and is fresh. *)
Definition owned (s : ptr) (sl : slave) : Prop :=
  fresh_port (ad_port sl) /\ port_slave (ad_port sl) = Some s.

Lemma owned_frame s sl (f : port -> port) :
  port_frame (ad_port sl) (f (ad_port sl)) -> owned s sl -> owned s (sl <| ad_port ::= f |>).
Proof.
  intros Hf [H1 H2]. split; rec_simpl; [by eapply fresh_frame|].
  by rewrite (pf_slave _ _ Hf).
Qed.

Lemma owned_upd s st0 st f :
  only_at s st0 (owned s) st -> (forall pt, port_frame pt (f pt)) ->
  wp (upd_port s f) (fun _ st' => only_at s st0 (owned s) st') st.
Proof.
  intros Ho Hf. eapply only_upd; [done|]. intros sl. apply owned_frame, Hf.
Qed.

(** The second half of the binding: keys, system identity and activity. *)
Lemma wp_bind_port s st0 st (k : MB unit) Q :
  only_at s st0 (owned s) st ->
  (forall st', only_at s st0 (owned s) st' -> wp k Q st') ->
  wp (ad_update_actor_keys s false ;;; __ad_actor_update_port s ;;;
      upd_port s (fun pt =>
        pt <| sm_tx_timer_counter := u16 (Z.quot ad_ticks_per_sec AD_MAX_TX_IN_SECOND) |>) ;;;
      __disable_port s ;;; k) Q st.
Proof.
  intros Ho Hk. apply wp_bind, wp_bind. eapply only_get_port; [done|].
  intros sl Hsl [_ Hs]. rewrite Hs. apply wp_bind, wp_ret, wp_bind.
  eapply wp_get_slave; [done|].
  eapply wp_mono; [by apply (owned_upd s st0); [|apply frame_update_actor_keys]|].
  clear sl Hsl Hs. intros [] st1 Ho1.
  apply wp_bind, wp_bind. eapply only_get_port; [done|].
  intros sl Hsl [_ Hs]. rewrite Hs. apply wp_bind, wp_ret, wp_bind.
  eapply wp_get_slave; [done|]. apply wp_bind, wp_gets, wp_bind, wp_gets.
  eapply wp_mono; [by apply (owned_upd s st0)|]. clear sl Hsl Hs. intros [] st2 Ho2.
  apply wp_bind. eapply wp_mono; [by apply (owned_upd s st0)|]. intros [] st3 Ho3.
  apply wp_bind, wp_bind. eapply only_get_port; [done|]. intros sl Hsl [_ Hs]. rewrite Hs.
  apply wp_bind, wp_ret. eapply wp_mono; [eapply (only_upd _ _ _ (owned s)); [done|]|].
  - by intros sl' [].
  - intros [] st4 Ho4. by apply Hk.
Qed.

Lemma wp_bond_3ad_bind_slave s st0 st :
  only_at s st0 (fun sl => port_slave (ad_port sl) <> Some s) st ->
  wp (bond_3ad_bind_slave s) (fun _ st' => only_at s st0 (bound s) st') st.
Proof.
  intros Ho. apply wp_bind. eapply only_get_port; [done|]. intros sl Hsl Hne.
  rewrite decide_False by done. apply wp_bind, wp_gets, wp_bind.
  eapply wp_mono; [eapply (only_upd _ _ _ (fun sl => fresh_port (ad_port sl))); [done|]|].
  { intros. apply fresh_initialize. }
  clear sl Hsl Hne. intros [] st1 Ho1. apply wp_bind. eapply only_get_port; [done|].
  intros sl _ _. apply wp_bind.
  eapply wp_mono; [eapply (only_upd _ _ _ (fun sl => fresh_port (ad_port sl))); [done|done]|].
  clear sl. intros [] st2 Ho2. apply wp_bind. destruct Ho2 as (HS2 & Hq2 & sl & Hsl & Hf).
  eapply wp_get_slave; [done|]. apply wp_bind.
  eapply wp_mono; [eapply (only_upd s st0 (fun sl => fresh_port (ad_port sl)) (owned s))|].
  { split; eauto. }
  { intros sl' Hf'. split; [exact Hf'|done]. }
  clear sl Hsl Hf HS2 Hq2. intros [] st3 Ho3. cbv beta in Ho3.
  eapply (wp_bind_port s st0); [done|]. intros st4 Ho4.
  apply wp_bind. eapply wp_mono;
    [eapply (only_upd _ _ _ (fun sl => owned s sl /\ lag_ports (ad_agg sl) = None)); [done|]|].
  { by intros sl' []. }
  intros [] st5 Ho5. apply wp_bind, wp_mod, wp_bind, wp_gets, wp_bind, wp_gets.
  eapply (only_upd s st0 (fun sl => owned s sl /\ lag_ports (ad_agg sl) = None)).
  - by eapply only_same.
  - by intros sl [[H1 H2] H3].
Qed.

(** ** Linking the bound slave *)

Section add.
Context (L : ptr -> list ptr) (s : ptr) (st st' : bonding) (sl : slave) (ids : list ptr).
Context (Hl : lag_wf None (slave_list st) L (slaves st)) (Hs : s ∉ slave_list st).
Context (Hnd : NoDup ids) (Hids : forall q, q ∈ ids <-> q = s \/ q ∈ slave_list st).
Context (Hq : forall q, q <> s -> slaves st' !! q = slaves st !! q).
Context (Hsl : slaves st' !! s = Some sl) (Hb : bound s sl).

Lemma add_other q : q ∈ slave_list st -> q <> s /\ slaves st' !! q = slaves st !! q.
Proof. intros Hin. assert (q <> s) by by intros ->. auto. Qed.

Lemma add_lists_other b : b <> s -> (<[s := []]> L) b = L b.
Proof. intros. by rewrite fn_lookup_insert_ne. Qed.

Lemma lag_wf_add : lag_wf None ids (<[s := []]> L) (slaves st').
Proof.
  destruct Hb as ((Hag & Hnx & _) & Hps & Has & Hlag & Hnum & _). split.
  - done.
  - intros q [->|Hin]%Hids; [eauto|]. destruct (add_other q Hin) as [_ ->]. by eapply lw_in.
  - intros a sa [->|Hin]%Hids Hsa; [simplify_eq; by rewrite fn_lookup_insert|].
    destruct (add_other a Hin) as [Hne E]. rewrite E in Hsa. rewrite add_lists_other by done.
    eapply lag_chain_ext; [|by eapply lw_chain]. intros q Hin' sq Hsq. exists sq.
    split; [|done]. destruct (add_other q) as [_ ->]; [by eapply lw_mem|done].
  - intros a [->|Hin]%Hids; [rewrite fn_lookup_insert; apply NoDup_nil_2|].
    rewrite add_lists_other by (by apply add_other). by eapply lw_nodup.
  - intros a sa [->|Hin]%Hids Hsa; [simplify_eq; by rewrite fn_lookup_insert|].
    destruct (add_other a Hin) as [Hne E]. rewrite E in Hsa. rewrite add_lists_other by done.
    by eapply lw_num.
  - intros a q [->|Hin]%Hids; [rewrite fn_lookup_insert; set_solver|].
    rewrite add_lists_other by (by apply add_other). intros Hin'. apply Hids. right.
    by eapply lw_mem.
  - intros a q sq [->|Hin]%Hids; [rewrite fn_lookup_insert; set_solver|].
    rewrite add_lists_other by (by apply add_other). intros Hin' Hsq.
    destruct (add_other q) as [_ E]; [by eapply lw_mem|]. rewrite E in Hsq. by eapply lw_fwd.
  - intros a q sq [->|Hin]%Hids Hsq _ Hagg; [congruence|].
    destruct (add_other q Hin) as [_ E]. rewrite E in Hsq.
    destruct (lw_back _ _ _ _ Hl a q sq Hin Hsq ltac:(done) Hagg) as [Ha HqL].
    rewrite add_lists_other by (by apply add_other). split; [apply Hids; auto|done].
  - intros q sq [->|Hin]%Hids Hsq _; [congruence|].
    destruct (add_other q Hin) as [_ E]. rewrite E in Hsq. by eapply lw_next.
  - intros q sq [->|Hin]%Hids Hsq; [simplify_eq; done|].
    destruct (add_other q Hin) as [_ E]. rewrite E in Hsq. by eapply lw_slave.
Qed.
End add.

Lemma ad_wf_add L i s st st' :
  ad_wf None L st -> s ∉ slave_list st -> only_at s st (bound s) st' ->
  ad_wf None (<[s := []]> L)
    (st' <| slave_list ::= fun l => take i l ++ s :: drop i l |>).
Proof.
  intros [[Hl Hw] (o & Ho & Hin)] Hs (HS & Hq & sl & Hsl & Hb).
  set (ids := take i (slave_list st) ++ s :: drop i (slave_list st)).
  assert (ids ≡ₚ s :: slave_list st) as Hperm.
  { unfold ids. by rewrite <-Permutation_middle, take_drop. }
  assert (forall q, q ∈ ids <-> q = s \/ q ∈ slave_list st) as Hids
    by (intros q; by rewrite Hperm, elem_of_cons).
  assert (slave_list (st' <| slave_list ::= fun l => take i l ++ s :: drop i l |>) = ids) as E
    by (rec_simpl; by rewrite HS).
  pose proof (add_other s st st' Hs Hq) as Hoth.
  pose proof Hb as ((_ & _ & Hsel & Hmux) & _ & _ & _ & _ & Hina).
  split; [split|]; [rewrite E; rec_simpl|rewrite E; rec_simpl|].
  - eapply lag_wf_add; [done|done| |done|done|done|done].
    rewrite Hperm. apply NoDup_cons. split; [done|apply Hl].
  - intros q sq [->|Hq']%Hids Hsq _.
    + simplify_eq. split; [by rewrite Hsel|done].
    + destruct (Hoth q Hq') as [_ E']. rewrite E' in Hsq. by apply (Hw q sq Hq' Hsq).
  - exists o. rewrite E. rec_simpl. split.
    + intros q [->|Hq']%Hids.
      * unfold is_active_at. rewrite Hsl, Hina. symmetry. apply bool_decide_eq_false.
        intros ->. by destruct (Hin s eq_refl).
      * rewrite <-(Ho q Hq'). unfold is_active_at. by destruct (Hoth q Hq') as [_ ->].
    + intros a ->. destruct (Hin a eq_refl) as [Ha HLa]. destruct (Hoth a Ha) as [Hne _].
      rewrite add_lists_other by done. split; [apply Hids; auto|done].
Qed.

Lemma wp_upd_not_bound s st0 f st :
  only_at s st0 (fun sl => port_slave (ad_port sl) <> Some s) st ->
  (forall sl, port_slave (ad_port (f sl)) = port_slave (ad_port sl)) ->
  wp (upd_slave s f) (fun _ st' =>
    only_at s st0 (fun sl => port_slave (ad_port sl) <> Some s) st') st.
Proof. intros Ho Hf. eapply only_upd; [done|]. intros sl. by rewrite Hf. Qed.

(** Enslaving a slave whose AD info is not yet bound keeps the invariant. *)
Lemma wp_bond_enslave_ad L i s sl st :
  ad_wf None L st -> s ∉ slave_list st -> port_slave (ad_port sl) <> Some s ->
  wp (bond_enslave_ad i s sl) (fun _ st' => exists L', ad_wf None L' st' /\
    slave_list st' = take i (slave_list st) ++ s :: drop i (slave_list st)) st.
Proof.
  intros Hwf Hs Hsl. apply wp_bind, wp_gets, wp_bind, wp_mod.
  assert (only_at s st (fun sl => port_slave (ad_port sl) <> Some s)
    (st <| slaves ::= <[s := sl]> |>)) as Ho.
  { split; [done|]. rec_simpl. split; [intros q Hne; by rewrite lookup_insert_ne|].
    exists sl. by rewrite lookup_insert_eq. }
  apply wp_bind. eapply wp_mono; [by apply (wp_upd_not_bound s st)|]. clear Ho. intros [] st1 Ho.
  apply wp_bind. eapply (wp_mono _ (fun _ st' =>
    only_at s st (fun sl => port_slave (ad_port sl) <> Some s) st')).
  { destruct (last (slave_list st)) as [pr|] eqn:El.
    - apply last_Some_elem_of in El. destruct (ad_wf_in _ _ _ _ Hwf El) as [psl Hpsl].
      apply wp_bind. eapply (wp_get_slave _ _ _ psl).
      + destruct Ho as (_ & Hq & _). rewrite Hq; [done|]. by intros ->.
      + by apply (wp_upd_not_bound s st).
    - apply wp_bind. eapply wp_mono; [by apply (wp_upd_not_bound s st)|]. intros [] st2 Ho2.
      apply wp_bind, wp_mod, wp_bind, wp_mod, wp_mod. cbv beta in Ho2. by eapply only_same. }
  intros [] st2 Ho2. apply wp_bind. eapply wp_mono; [by eapply wp_bond_3ad_bind_slave|].
  intros [] st3 Ho3. apply wp_mod. eexists. split; [by eapply ad_wf_add|].
  rec_simpl. by rewrite (proj1 Ho3).
Qed.
End ad_bind.
