(* ===== verification/AdReach.v ===== *)
(** * 802.3ad: the reachable states

    Every entry point of [servers/bond_3ad.c], run in any order from a bond
    without slaves, ends without following a null or dangling pointer and
    keeps the invariant. *)

From S2P Require Import Prelude.
From S2P Require Import AdTypes.
From S2P Require Import AdPort.
From S2P Require Import AdMachine.
From S2P Require Import AdControl.
From S2P Require Import AdEntry.
From S2P Require Import AdInv.
From S2P Require Import AdSelect.
From S2P Require Import AdAttach.
From S2P Require Import AdSafe.
From S2P Require Import AdMux.
From S2P Require Import AdUnbind.
From S2P Require Import AdBind.

Section ad_reach.
Context `{K : Kernel}.

Abbreviation MB := (M bonding).

(** ** The operations *)

(** Calls into the module, and changes that the rest of the driver makes to
    the data the module reads. *)
Inductive ad_op :=
  | OpEnslave (i : nat) (s : ptr) (sl : slave)
  | OpRelease (s : ptr)
  | OpTick (env : list Z) (rtnl : bool)
  | OpReceive (skb : sk_buff) (s : ptr)
  | OpLinkChange (s : ptr) (link : Z)
  | OpSpeedDuplex (s : ptr)
  | OpLacpRate
  | OpLacpActive
  | OpActorSettings
  | OpInitiateSelection (timeout : Z)
  | OpSetCarrier
  | OpGetInfo
  | OpParams (bp : bond_params) (addr : mac_addr)
  | OpDevice (s : ptr) (link speed duplex : Z) (dev : net_device) (fl : slave_flags)
      (prio : Z).

Definition run_op (op : ad_op) : MB unit :=
  match op with
  | OpEnslave i s sl => bond_enslave_ad i s sl
  | OpRelease s => bond_release_ad s
  | OpTick env rtnl => bond_3ad_state_machine_handler env rtnl
  | OpReceive skb s => let* _ := bond_3ad_lacpdu_recv skb s in ret tt
  | OpLinkChange s link => bond_3ad_handle_link_change s link
  | OpSpeedDuplex s => bond_3ad_adapter_speed_duplex_changed s
  | OpLacpRate => bond_3ad_update_lacp_rate
  | OpLacpActive => bond_3ad_update_lacp_active
  | OpActorSettings => bond_3ad_update_ad_actor_settings
  | OpInitiateSelection t => bond_3ad_initiate_agg_selection t
  | OpSetCarrier => let* _ := bond_3ad_set_carrier in ret tt
  | OpGetInfo => let* _ := bond_3ad_get_active_agg_info in ret tt
  | OpParams bp addr => modify (fun st => st <| params := bp |> <| bond_dev_addr := addr |>)
  | OpDevice s link speed duplex dev fl prio =>
      upd_slave s (fun sl => sl <| sl_link := link |> <| sl_speed := speed |>
        <| sl_duplex := duplex |> <| sl_dev := dev |> <| sl_flags := fl |>
        <| ad_port_priority := prio |>)
  end.

(** A new slave is not yet in the bond, and the bond has fewer than 2^16 - 1
    slaves; the other calls concern a slave of the bond. *)
Definition allowed (op : ad_op) (st : bonding) : Prop :=
  match op with
  | OpEnslave _ s sl => (s ∉ slave_list st) /\ port_slave (ad_port sl) <> Some s /\
                        Z.of_nat (length (slave_list st)) < 65535
  | OpRelease s | OpReceive _ s | OpLinkChange s _ | OpSpeedDuplex s
  | OpDevice s _ _ _ _ _ _ => s ∈ slave_list st
  | _ => True
  end.

Inductive reachable : bonding -> Prop :=
  | reach_init st : slave_list st = [] -> reachable st
  | reach_step st op st' :
      reachable st -> allowed op st -> run_op op st = Ok (tt, st') -> reachable st'.

Definition ad_inv (st : bonding) : Prop :=
  (exists L, ad_wf None L st) /\ Z.of_nat (length (slave_list st)) < 65536.

(** ** Safe runs *)

Definition safe {A} (m : MB A) (st : bonding) : Prop :=
  wp m (fun _ st' => (exists L, ad_wf None L st') /\ slave_list st' = slave_list st) st.

Lemma safe_ret {A} (a : A) st : (exists L, ad_wf None L st) -> safe (ret a) st.
Proof. by intros. Qed.

Lemma safe_bind {A B} (m : MB A) (k : A -> MB B) st :
  safe m st ->
  (forall a st', (exists L, ad_wf None L st') -> slave_list st' = slave_list st ->
     safe (k a) st') ->
  safe (bind m k) st.
Proof.
  intros Hm Hk. apply wp_bind. eapply wp_mono; [done|]. intros a st' [HL HS].
  eapply wp_mono; [by apply Hk|]. intros b st'' [HL' HS']. split; [done|congruence].
Qed.

Lemma safe_gets {A B} (f : bonding -> A) (k : A -> MB B) st :
  safe (k (f st)) st -> safe (bind (gets f) k) st.
Proof. done. Qed.

Lemma safe_for_each {A B} (body : A -> B -> MB (ctl A)) l a st :
  (exists L, ad_wf None L st) ->
  (forall a x st', x ∈ l -> (exists L, ad_wf None L st') -> slave_list st' = slave_list st ->
     safe (body a x) st') ->
  safe (for_each l a body) st.
Proof.
  intros HL Hb. apply (wp_for_each (fun _ _ st' =>
    (exists L, ad_wf None L st') /\ slave_list st' = slave_list st)); [done| |done].
  intros pre x post a' st' Hl [HL' HS']. eapply wp_mono.
  - apply Hb; [rewrite Hl; set_solver|done|done].
  - intros c st'' [HL'' HS'']. destruct c; split; (done || congruence).
Qed.

Lemma ad_wf_same lv L st st' :
  slaves st' = slaves st -> slave_list st' = slave_list st -> ad_wf lv L st -> ad_wf lv L st'.
Proof.
  intros E1 E2 [[Hl Hw] (o & Ho & Hin)]. split; [split|]; rewrite ?E1, ?E2; [done..|].
  exists o. by rewrite E1, E2.
Qed.

Lemma safe_mod f st :
  (exists L, ad_wf None L st) -> slaves (f st) = slaves st ->
  slave_list (f st) = slave_list st -> safe (modify f) st.
Proof. intros [L Hwf] E1 E2. apply wp_mod. split; [|done]. exists L. by eapply ad_wf_same. Qed.

Lemma safe_keeps {A} (m : MB A) st :
  (exists L, ad_wf None L st) ->
  (forall L, ad_wf None L st -> wp m (fun _ st' => keeps true None st st') st) -> safe m st.
Proof.
  intros [L Hwf] Hm. eapply wp_mono; [eapply wp_keeps_ad_wf; [done|by eapply Hm]|].
  intros a st' [? ?]. eauto.
Qed.

Lemma safe_frame p f st :
  (exists L, ad_wf None L st) -> p ∈ slave_list st -> (forall pt, port_frame pt (f pt)) ->
  safe (upd_port p f) st.
Proof.
  intros [L Hwf] Hp Hf. eapply wp_mono; [by eapply wp_upd_port_frame|].
  intros a st' [? ?]. eauto.
Qed.

(** Reading the port of a slave of the bond, which has its slave pointer. *)
Lemma safe_get_port {A} p (k : port -> MB A) st :
  (exists L, ad_wf None L st) -> p ∈ slave_list st ->
  (forall sp, slaves st !! p = Some sp -> port_slave (ad_port sp) = Some p ->
     safe (k (ad_port sp)) st) ->
  safe (bind (get_port p) k) st.
Proof.
  intros [L Hwf] Hp Hk. destruct (ad_wf_in _ _ _ _ Hwf Hp) as [sp Hsp].
  apply wp_bind. eapply wp_get_port; [done|]. apply Hk; [done|]. by eapply ad_wf_slave.
Qed.

(** ** The machines and the handler *)

Context (KL : KernelLaws K).

Lemma safe_run_machines p upd st :
  (exists L, ad_wf None L st) -> p ∈ slave_list st -> safe (run_machines p upd) st.
Proof.
  intros HL Hp. apply safe_bind.
  { destruct HL as [L Hwf]. eapply wp_mono; [by eapply wp_ad_rx_machine|].
    intros a st' [? ?]. eauto. }
  intros _ st1 HL1 HS1. rewrite <-HS1 in Hp. clear HL HS1 st.
  apply safe_bind; [apply safe_frame; [done|done|apply frame_periodic]|].
  intros _ st HL HS. rewrite <-HS in Hp. clear HL1 HS st1.
  apply wp_bind. destruct HL as [L Hwf].
  eapply wp_mono; [by eapply wp_ad_port_selection_logic|].
  intros u st1 (HS1 & (sp & b & Hsp & _ & Hagg & Hb) & L1 & Hwf1).
  rewrite <-HS1 in Hp |- *. apply wp_bind.
  eapply wp_mono; [by eapply wp_ad_mux_machine|].
  intros u2 st2 (Hwf2 & Hk2 & _). rewrite <-(kp_list _ _ _ _ Hk2) in Hp |- *.
  change (safe (ad_tx_machine p ;;; (upd_port p ad_churn_machine ;;;
    let* pt := get_port p in
    when_ (has (sm_vars pt) AD_PORT_BEGIN)
      (upd_port p (fun pt => pt <| sm_vars ::= fun v => clrf v AD_PORT_BEGIN |>)) ;;;
    ret u2)) st2).
  apply safe_bind.
  { eapply wp_mono; [by eapply wp_ad_tx_machine|]. intros a st' [? ?]. eauto. }
  intros _ st3 HL3 HS3. rewrite <-HS3 in Hp.
  apply safe_bind; [apply safe_frame; [done|done|apply frame_churn]|].
  intros _ st4 HL4 HS4. rewrite <-HS4 in Hp. apply safe_get_port; [done|done|].
  intros sp4 _ _. apply safe_bind; [|intros; by apply safe_ret].
  unfold when_. case_match; [|by apply safe_ret]. apply safe_frame; [done|done|].
  intros pt. split; try reflexivity. rec_simpl. by flags.
Qed.

Lemma safe_timer_advance env st :
  (exists L, ad_wf None L st) -> safe (bond_agg_timer_advance env) st.
Proof.
  revert st. induction env as [|v env IH]; intros st HL; simpl; apply safe_gets;
    (case_match; [by apply safe_ret|]).
  - apply safe_bind; [by apply safe_mod|]. intros. by apply safe_ret.
  - apply safe_bind; [by apply safe_mod|]. intros _ st1 HL1 HS1. case_match; [|by apply IH].
    apply safe_bind; [by apply safe_mod|]. intros. by apply safe_ret.
Qed.

Lemma safe_set_carrier st : (exists L, ad_wf None L st) -> safe bond_3ad_set_carrier st.
Proof.
  intros [L Hwf]. eapply wp_mono; [eapply wp_set_carrier; apply Hwf|].
  intros r st' [_ ->]. case_decide; (split; [exists L; by apply (ad_wf_same None L st)|done]).
Qed.

Lemma safe_selection p upd st :
  (exists L, ad_wf None L st) -> p ∈ slave_list st ->
  safe (let* agg := __get_first_agg p in ad_agg_selection_logic agg upd) st.
Proof.
  intros [L Hwf] Hp. apply wp_bind.
  eapply wp_mono; [eapply wp_get_first_agg; [apply Hwf|done]|].
  intros o ? (-> & f & -> & Hf).
  eapply wp_mono; [eapply wp_selection_wf; [apply Hwf|done]|].
  intros u st' [Hwf' Hk]. split; [eauto|apply Hk].
Qed.

Lemma safe_assoc {A B C} (m : MB A) (f : A -> MB B) (g : B -> MB C) st :
  safe (let* y := (let* x := m in f x) in g y) st -> safe (let* x := m in let* y := f x in g y) st.
Proof.
  unfold safe, wp, bind. by destruct (m st) as [[a s]|].
Qed.

Lemma safe_handler_select env upd st :
  (exists L, ad_wf None L st) -> safe (handler_select env upd) st.
Proof.
  intros HL. apply safe_bind; [by apply safe_timer_advance|].
  intros e st1 HL1 HS1. destruct e; [|by apply safe_ret].
  apply safe_gets. destruct (slave_list st1) as [|f l] eqn:El.
  { apply safe_bind; [by apply safe_set_carrier|]. intros. by apply safe_ret. }
  assert (f ∈ slave_list st1) as Hf by (rewrite El; set_solver).
  apply safe_get_port; [done|done|]. intros sp Hsp ->.
  apply (safe_assoc (__get_first_agg f)), safe_bind; [by apply safe_selection|].
  intros u st2 HL2 HS2. apply safe_bind; [by apply safe_set_carrier|].
  intros. by apply safe_ret.
Qed.

Lemma safe_handler env rtnl st :
  (exists L, ad_wf None L st) -> safe (bond_3ad_state_machine_handler env rtnl) st.
Proof.
  intros HL. apply safe_gets. apply safe_bind.
  { destruct (slave_list st) eqn:El; [by apply safe_ret|].
    apply safe_bind; [by apply safe_handler_select|].
    intros [u|] st1 HL1 HS1; [|by apply safe_ret].
    apply safe_gets. apply safe_for_each; [done|].
    intros u' p st2 Hp HL2 HS2. rewrite <-HS2 in Hp.
    apply safe_get_port; [done|done|]. intros sp _ ->.
    apply safe_bind; [by apply safe_run_machines|]. intros. by apply safe_ret. }
  intros u st1 HL1 HS1. apply safe_bind.
  { apply safe_for_each; [done|]. intros n s st2 Hs [L2 Hwf2] HS2.
    rewrite <-HS1, <-HS2 in Hs. destruct (ad_wf_in _ _ _ _ Hwf2 Hs) as [sl Hsl].
    apply wp_bind. eapply wp_get_slave; [done|]. case_match; apply safe_ret; eauto. }
  intros n st2 HL2 HS2. apply safe_bind.
  { unfold when_. case_match; [by apply safe_mod|by apply safe_ret]. }
  intros _ st3 HL3 HS3. apply safe_bind; [|intros; by apply safe_mod].
  unfold when_. case_match; [by apply safe_mod|by apply safe_ret].
Qed.

(** ** The other entry points *)

Lemma safe_get_slave {A} p (k : slave -> MB A) st :
  (exists L, ad_wf None L st) -> p ∈ slave_list st ->
  (forall sp, slaves st !! p = Some sp -> safe (k sp) st) -> safe (bind (get_slave p) k) st.
Proof.
  intros [L Hwf] Hp Hk. destruct (ad_wf_in _ _ _ _ Hwf Hp) as [sp Hsp].
  apply wp_bind. eapply wp_get_slave; [done|]. by apply Hk.
Qed.

Lemma safe_inc_stat s f st :
  (exists L, ad_wf None L st) -> s ∈ slave_list st -> safe (inc_stat s f) st.
Proof.
  intros HL Hs. apply safe_keeps; [done|]. intros L Hwf. eapply wp_inc_stat; [apply Hwf|done].
Qed.

Lemma safe_update_actor_keys p r st :
  (exists L, ad_wf None L st) -> p ∈ slave_list st -> safe (ad_update_actor_keys p r) st.
Proof.
  intros HL Hp. apply safe_get_port; [done|done|]. intros sp Hsp Hps.
  destruct r; [|rewrite Hps; apply wp_bind, wp_ret]; apply safe_get_slave; try done;
    intros; apply safe_frame; try done; apply frame_update_actor_keys.
Qed.

Lemma safe_for_each_port (f : ptr -> MB unit) st :
  (exists L, ad_wf None L st) ->
  (forall p st', p ∈ slave_list st' -> (exists L, ad_wf None L st') -> safe (f p) st') ->
  safe (for_each_port f) st.
Proof.
  intros HL Hf. apply safe_gets, safe_for_each; [done|].
  intros [] p st' Hp HL' HS'. apply safe_bind; [apply Hf; [by rewrite HS'|done]|].
  intros. by apply safe_ret.
Qed.

Lemma safe_actor_update_port p st :
  (exists L, ad_wf None L st) -> p ∈ slave_list st -> safe (__ad_actor_update_port p) st.
Proof.
  intros HL Hp. apply safe_get_port; [done|done|]. intros sp Hsp ->.
  apply wp_bind, wp_ret. apply safe_get_slave; [done|done|]. intros sl Hsl.
  apply safe_gets, safe_gets, safe_frame; done.
Qed.

Lemma safe_marker_send s m st :
  (exists L, ad_wf None L st) -> s ∈ slave_list st -> safe (ad_marker_send s m) st.
Proof.
  intros HL Hs. apply safe_get_port; [done|done|]. intros sp _ Hps.
  apply safe_bind.
  { apply safe_gets, safe_bind; [by apply safe_mod|intros; by apply safe_ret]. }
  intros ok st2 HL2 HS2. rewrite <-HS2 in Hs. destruct (negb ok); [by apply safe_ret|].
  rewrite Hps. apply wp_bind, wp_ret. apply safe_bind.
  { destruct (_ =? _); [by apply safe_inc_stat|].
    destruct (_ =? _); [by apply safe_inc_stat|by apply safe_ret]. }
  intros _ st3 HL3 HS3. rewrite <-HS3 in Hs. apply safe_get_slave; [done|done|].
  intros sl _. apply safe_bind; [by apply safe_mod|]. intros. by apply safe_ret.
Qed.

Lemma safe_receive skb s st :
  (exists L, ad_wf None L st) -> s ∈ slave_list st -> safe (bond_3ad_lacpdu_recv skb s) st.
Proof.
  intros HL Hs. unfold bond_3ad_lacpdu_recv.
  destruct (negb _); [by apply safe_ret|]. destruct (negb _); [by apply safe_ret|].
  destruct (skb_lacpdu skb) as [l|];
    [|apply safe_bind; [by apply safe_inc_stat|intros; by apply safe_ret]].
  apply safe_get_port; [done|done|]. intros sp Hsp Hps. rewrite Hps.
  destruct (_ =? _).
  { apply safe_bind; [|intros; by apply safe_ret]. destruct HL as [L Hwf].
    eapply wp_mono; [by eapply wp_ad_rx_machine|]. intros a st' [? ?]. eauto. }
  destruct (_ =? _); (apply safe_bind; [|intros; by apply safe_ret]); [|by apply safe_inc_stat].
  destruct (_ =? _); [|destruct (_ =? _); [|by apply safe_inc_stat]].
  - apply safe_get_port; [done|done|]. intros sp1 _ ->. apply wp_bind, wp_ret.
    apply safe_bind; [by apply safe_inc_stat|]. intros _ st1 HL1 HS1. rewrite <-HS1 in Hs.
    apply safe_bind; [by apply safe_marker_send|]. intros; by apply safe_ret.
  - apply safe_get_port; [done|done|]. intros sp1 _ ->. apply wp_bind, wp_ret.
    by apply safe_inc_stat.
Qed.

Lemma safe_link_change s link st :
  (exists L, ad_wf None L st) -> s ∈ slave_list st ->
  safe (bond_3ad_handle_link_change s link) st.
Proof.
  intros HL Hs. apply safe_get_port; [done|done|]. intros sp Hsp ->. apply safe_bind.
  { destruct (_ =? _); (apply safe_bind; [by apply safe_frame|]);
      intros _ st1 HL1 HS1; apply safe_update_actor_keys; try done; by rewrite HS1. }
  intros _ st1 HL1 HS1. rewrite <-HS1 in Hs.
  apply (safe_assoc (__get_first_agg s)), safe_bind; [by apply safe_selection|].
  intros u st2 HL2 HS2. by apply safe_mod.
Qed.

Lemma safe_actor_flag (b : bool) fl st :
  Z.land fl LACP_STATE_COLLECTING = 0 -> Z.land fl LACP_STATE_DISTRIBUTING = 0 ->
  (exists L, ad_wf None L st) ->
  safe (for_each_port (fun s => upd_actor_state s (fun v => if b then setf v fl else clrf v fl))) st.
Proof.
  intros Hc Hd HL. apply safe_for_each_port; [done|]. intros p st' Hp HL'.
  apply safe_frame; [done|done|]. intros pt.
  split; try done; rec_simpl; destruct b; by rewrite ?has_setf_other, ?has_clrf_other.
Qed.

(** The report is about the active aggregator: the search over the ports finds
    it whenever there is one. *)
Definition active_info (L : ptr -> list ptr) (st : bonding) : option ad_info :=
  match active_of (slaves st) (slave_list st) with
  | None => None
  | Some a =>
      match slaves st !! a with
      | None => None
      | Some s =>
          Some (AdInfo (aggregator_identifier (ad_agg s)) (active_count (slaves st) (L a))
                  (actor_oper_aggregator_key (ad_agg s))
                  (partner_oper_aggregator_key (ad_agg s)) (partner_system (ad_agg s)))
      end
  end.

Lemma active_unique L st a :
  ad_wf None L st -> a ∈ slave_list st -> is_active_at (slaves st) a = true ->
  active_of (slaves st) (slave_list st) = Some a.
Proof.
  intros Hwf Ha Hact. pose proof (aw_active _ _ _ Hwf) as (o & Ho & Hin).
  rewrite (only_active_of _ _ o); [|apply Hwf|done|by intros; apply Hin].
  rewrite (Ho a Ha) in Hact. by apply bool_decide_eq_true in Hact.
Qed.

Lemma active_has_port L st a :
  ad_wf None L st -> active_of (slaves st) (slave_list st) = Some a ->
  is_active_at (slaves st) a = true /\
  exists p sp, p ∈ slave_list st /\ slaves st !! p = Some sp /\
    port_aggregator (ad_port sp) = Some a.
Proof.
  intros Hwf Ea. pose proof (aw_active _ _ _ Hwf) as (o & Ho & Hin).
  rewrite (only_active_of _ _ o) in Ea; [|apply Hwf|done|by intros; apply Hin]. subst o.
  destruct (Hin a eq_refl) as [Ha HL]. rewrite (Ho a Ha).
  split; [by apply bool_decide_eq_true|]. destruct (L a) as [|p l] eqn:EL; [done|].
  pose proof (pw_lag _ _ _ (aw_ports _ _ _ Hwf)) as Hl.
  assert (p ∈ L a) as HpL by (rewrite EL; set_solver).
  assert (p ∈ slave_list st) as Hp by by eapply lw_mem.
  destruct (ad_wf_in _ _ _ _ Hwf Hp) as [sp Hsp]. exists p, sp.
  split; [done|]. split; [done|]. by eapply lw_fwd.
Qed.

Lemma wp_get_info L st :
  ad_wf None L st ->
  wp bond_3ad_get_active_agg_info (fun r st' => st' = st /\ r = active_info L st) st.
Proof.
  intros Hwf. pose proof (pw_lag _ _ _ (aw_ports _ _ _ Hwf)) as Hl.
  apply wp_bind, wp_gets, wp_bind.
  eapply (wp_mono _ (fun r st' => st' = st /\ r = active_of (slaves st) (slave_list st))).
  - apply (wp_for_each (fun pre r st' => st' = st /\ r = None /\ forall p sp a, p ∈ pre ->
      slaves st !! p = Some sp -> port_aggregator (ad_port sp) = Some a ->
      is_active_at (slaves st) a = false)).
    + split; [done|]. split; [done|]. intros p sp a Hp. by apply not_elem_of_nil in Hp.
    + intros pre p post r st' Hlist (-> & -> & Hno).
      assert (p ∈ slave_list st) as Hp by (rewrite Hlist; set_solver).
      destruct (ad_wf_in _ _ _ _ Hwf Hp) as [sp Hsp].
      apply wp_bind. eapply wp_get_port; [done|].
      destruct (port_aggregator (ad_port sp)) as [a|] eqn:Ea.
      2: { apply wp_ret. split; [done|]. split; [done|].
           intros q sq b [Hq| ->%list_elem_of_singleton]%elem_of_app; [by apply Hno|].
           congruence. }
      destruct (lw_back _ _ _ _ Hl a p sp Hp Hsp ltac:(done) Ea) as [Ha _].
      destruct (ad_wf_in _ _ _ _ Hwf Ha) as [sa Hsa].
      assert (is_active_at (slaves st) a = is_active (ad_agg sa)) as Hact
        by (unfold is_active_at; by rewrite Hsa).
      apply wp_bind. eapply wp_get_agg; [done|].
      destruct (is_active _); apply wp_ret; (split; [done|]).
      * symmetry. by eapply active_unique.
      * split; [done|]. intros q sq b [Hq| ->%list_elem_of_singleton]%elem_of_app;
          [by apply Hno|]. congruence.
    + intros r st' (-> & -> & Hno). split; [done|].
      destruct (active_of _ _) as [a|] eqn:Ea; [|done].
      destruct (active_has_port _ _ _ Hwf Ea) as (Hact & p & sp & Hp & Hsp & Hag).
      by rewrite (Hno p sp a) in Hact.
  - intros r st' [-> ->]. unfold active_info.
    destruct (active_of _ _) as [a|] eqn:Ea; [|by apply wp_ret].
    apply active_of_in in Ea as Ha. destruct (ad_wf_in _ _ _ _ Hwf Ha) as [sa Hsa].
    rewrite Hsa. apply wp_bind. eapply wp_get_agg; [done|]. apply wp_bind.
    eapply wp_mono; [by eapply wp_agg_active_ports|]. intros n ? [-> ->]. by apply wp_ret.
Qed.

(** ** All operations *)

Lemma safe_inv (m : MB unit) st :
  ad_inv st -> safe m st -> wp m (fun _ st' => ad_inv st') st.
Proof.
  intros [_ Hlen] Hm. eapply wp_mono; [done|]. intros a st' [HL HS].
  split; [done|]. by rewrite HS.
Qed.

Lemma safe_device s f st :
  (exists L, ad_wf None L st) -> s ∈ slave_list st ->
  (forall sl, ad_port (f sl) = ad_port sl /\ ad_agg (f sl) = ad_agg sl) ->
  safe (upd_slave s f) st.
Proof.
  intros HL Hs Hf. apply safe_keeps; [done|]. intros L Hwf.
  destruct (ad_wf_in _ _ _ _ Hwf Hs) as [sl Hsl]. destruct (Hf sl) as [E1 E2].
  eapply wp_upd_slave; [done|]. eapply keeps_insert; [done|..]; rewrite ?E1, ?E2.
  - by split; [split|]; rewrite ?E1, ?E2.
  - done.
  - by intros _; split; rewrite ?E1.
Qed.

Lemma wp_run_op op st :
  ad_inv st -> allowed op st -> wp (run_op op) (fun _ st' => ad_inv st') st.
Proof.
  intros Hinv Hal. pose proof Hinv as [HL Hlen]. destruct op; simpl in Hal.
  - destruct HL as [L Hwf]. destruct Hal as (H1 & H2 & H3).
    eapply wp_mono; [by eapply wp_bond_enslave_ad|]. intros ? st' (L' & Hwf' & HS).
    split; [eauto|]. rewrite HS, length_app. cbn [length].
    rewrite length_take, length_drop. lia.
  - destruct HL as [L Hwf]. eapply wp_mono; [by eapply wp_bond_release_ad|].
    intros ? st' (L' & Hwf' & HS & _). split; [eauto|]. rewrite HS.
    pose proof (length_filter (fun q => q <> s) (slave_list st)). lia.
  - apply safe_inv; [done|]. by apply safe_handler.
  - apply safe_inv; [done|]. apply safe_bind; [by apply safe_receive|].
    intros. by apply safe_ret.
  - apply safe_inv; [done|]. by apply safe_link_change.
  - apply safe_inv; [done|]. apply safe_get_port; [done|done|]. intros sp _ ->.
    by apply safe_update_actor_keys.
  - apply safe_inv; [done|]. apply safe_gets, safe_actor_flag; [by flag_side..|done].
  - apply safe_inv; [done|]. apply safe_gets, safe_actor_flag; [by flag_side..|done].
  - apply safe_inv; [done|]. apply safe_bind; [by apply safe_mod|]. intros _ st1 HL1 HS1.
    apply safe_for_each_port; [done|]. intros p st2 Hp HL2.
    apply safe_bind; [by apply safe_actor_update_port|]. intros _ st3 HL3 HS3.
    apply safe_frame; [done|by rewrite HS3|done].
  - apply safe_inv; [done|]. by apply safe_mod.
  - apply safe_inv; [done|]. apply safe_bind; [by apply safe_set_carrier|].
    intros. by apply safe_ret.
  - apply safe_inv; [done|]. apply safe_bind; [|intros; by apply safe_ret].
    destruct HL as [L Hwf]. eapply wp_mono; [by apply (wp_get_info L)|].
    intros r st' [-> _]. eauto.
  - apply safe_inv; [done|]. by apply safe_mod.
  - apply safe_inv; [done|]. by apply safe_device.
Qed.

Lemma ad_inv_init st : slave_list st = [] -> ad_inv st.
Proof.
  intros HS. split; [|by rewrite HS]. exists (fun _ => []).
  assert (forall q, q ∉ slave_list st) as Hn by (intros q; rewrite HS; apply not_elem_of_nil).
  split; [split; [split|]|]; try (intros; by exfalso; eapply Hn).
  - rewrite HS. apply NoDup_nil_2.
  - exists None. split; [|done]. intros q Hq. by exfalso; eapply Hn.
Qed.

Lemma reachable_inv st : reachable st -> ad_inv st.
Proof.
  induction 1 as [st HS|st op st' _ IH Hal Hrun]; [by apply ad_inv_init|].
  pose proof (wp_run_op op st IH Hal) as Hwp. unfold wp in Hwp. by rewrite Hrun in Hwp.
Qed.
End ad_reach.
