(* ===== verification/AdSample.v ===== *)
(** * 802.3ad: concrete ports and bonds

    Zeroed objects as [kzalloc] returns them, and ports and bonds of the
    concrete kernel on which the theorems are evaluated. *)

From S2P Require Import Prelude.
From S2P Require Import AdTypes.
From S2P Require Import AdPort.
From S2P Require Import AdMachine.
From S2P Require Import AdControl.
From S2P Require Import AdEntry.

Definition mac (x : Z) : mac_addr := [0x52; 0x54; 0x00; 0x00; 0x00; x].
Definition zero_mac : mac_addr := [0; 0; 0; 0; 0; 0].

Definition zero_params : port_params := PortParams zero_mac 0 0 0 0 0.
Definition zero_pdu : lacpdu :=
  Lacpdu 0 0 0 0 0 zero_mac 0 0 0 0 0 0 0 zero_mac 0 0 0 0 0 0 0.
Definition zero_port : port :=
  Port 0 0 zero_mac 0 0 false 0 0 0 0 zero_params zero_params false 0
    AD_RX_OTHER 0 AD_PERIODIC_OTHER 0 AD_MUX_OTHER 0 0 0 None None None 0 0 0 0 0
    AD_CHURN_MONITOR AD_CHURN_MONITOR zero_pdu.
Definition zero_agg : aggregator :=
  Aggregator zero_mac 0 false 0 0 zero_mac 0 0 0 0 None None false 0.

Definition linux_params : bond_params :=
  BondParams 0 0 true true true false 65535 zero_mac 0.

(** An initialised port of the concrete kernel, past its first tick. *)
Definition linux_port : port :=
  @ad_initialize_port LinuxKernel linux_params zero_port
    <| sm_vars := AD_PORT_LACP_ENABLED |>
    <| actor_system := mac 1 |>
    <| actor_system_priority := 65535 |>
    <| actor_port_number := 1 |>
    <| actor_admin_port_key := 9 |>
    <| actor_oper_port_key := 9 |>.

(** A slave that is up at 1000 Mb/s full duplex. *)
Definition linux_slave (hw : mac_addr) : @slave LinuxKernel :=
  @Slave LinuxKernel 0 1000 1 (LinuxDev true true) hw (LinuxFlags true true false) 0 0
    zero_stats zero_port zero_agg.

Definition linux_bond : @bonding LinuxKernel :=
  @Bonding LinuxKernel linux_params (LinuxDev true false) (mac 1) zero_mac 0 0 0 zero_stats
    [] ∅ 0 [].

(** A bond of two slaves, enslaved one after the other, after [n] ticks. *)
Definition linux_run (n : nat) : res (unit * @bonding LinuxKernel) :=
  (@bond_enslave_ad LinuxKernel 0 0%nat (linux_slave (mac 1)) ;;;
   @bond_enslave_ad LinuxKernel 1 1%nat (linux_slave (mac 2)) ;;;
   Nat.iter n (fun m => m ;;; @bond_3ad_state_machine_handler LinuxKernel [] true) (ret tt))
  linux_bond.

Definition linux_state (n : nat) : @bonding LinuxKernel :=
  match linux_run n with Ok (_, st) => st | Err _ => linux_bond end.
