(* ===== verification/AdRx.v ===== *)
(** * 802.3ad: the receive machine and the exchange of LACPDUs

    The receive machine against its diagram and over time, and what two ports
    learn from each other's LACPDUs. *)

From S2P Require Import Prelude.
From S2P Require Import AdTypes.
From S2P Require Import AdPort.
From S2P Require Import AdSample.

Section port_time.
Context `{K : Kernel}.

(** ** Runs over several ticks *)

(** [n] runs of the receive machine without a LACPDU. *)
Fixpoint rx_idle (n : nat) (p : port) : res port :=
  match n with
  | O => Ok p
  | S n => res_bind (ad_rx_machine_port None p) (rx_idle n)
  end.

(** ** Receive machine *)

(** The state that the receive machine is in after one run, by the diagram. *)
Definition rx_spec (l : option lacpdu) (p : port) : rx_states_t :=
  if has (sm_vars p) AD_PORT_BEGIN then AD_RX_PORT_DISABLED
  else if negb (is_enabled p) then AD_RX_PORT_DISABLED
  else
    match l, sm_rx_state p with
    | Some _, (AD_RX_EXPIRED | AD_RX_DEFAULTED | AD_RX_CURRENT) => AD_RX_CURRENT
    | _, s =>
        if sm_rx_timer_counter p =? 1 then
          match s with
          | AD_RX_EXPIRED => AD_RX_DEFAULTED
          | AD_RX_CURRENT => AD_RX_EXPIRED
          | _ => s
          end
        else
          match s with
          | AD_RX_PORT_DISABLED => if has (sm_vars p) AD_PORT_LACP_ENABLED
                                   then AD_RX_EXPIRED else AD_RX_LACP_DISABLED
          | _ => s
          end
    end.

Lemma tick_down_expired c :
  0 <= c < 65536 -> tick_down c = (Z.max 0 (c - 1), c =? 1).
Proof.
  intros Hc. unfold tick_down. destruct (Z.eqb_spec c 0) as [->|Hne]; [done|].
  rewrite u16_id by lia. f_equal; [lia|]. lia.
Qed.

Lemma rx_action_state l p p' :
  rx_action l p = Ok p' ->
  sm_rx_state p' = match sm_rx_state p with
                   | AD_RX_INITIALIZE => AD_RX_PORT_DISABLED
                   | s => s
                   end.
Proof.
  unfold rx_action, rx_port_disabled_action, __record_default, __update_default_selected,
    __update_selected, __update_ntt, __record_pdu, __choose_matched.
  destruct (sm_rx_state p) eqn:E; intros H; repeat case_match; simplify_eq; rec_simpl; done.
Qed.

Lemma rx_action_total l p :
  (sm_rx_state p = AD_RX_CURRENT -> l <> None) -> exists p', rx_action l p = Ok p'.
Proof.
  intros Hl. unfold rx_action. destruct (sm_rx_state p); eauto.
  destruct l; [|by destruct Hl]. case_match; eauto.
Qed.

Lemma rx_next_spec l p :
  0 <= sm_rx_timer_counter p < 65536 -> sm_rx_state p <> AD_RX_INITIALIZE ->
  rx_spec l p = match sm_rx_state (rx_next_state l p) with
                | AD_RX_INITIALIZE => AD_RX_PORT_DISABLED
                | s => s
                end.
Proof.
  intros Ht Hi. unfold rx_spec, rx_next_state. rewrite tick_down_expired by done.
  destruct (has _ AD_PORT_BEGIN); [done|]. destruct (is_enabled p) eqn:Een; [|done].
  destruct l; destruct (sm_rx_state p) eqn:E; try done; simpl;
    destruct (sm_rx_timer_counter p =? 1); rec_simpl; rewrite ?E; try done; rewrite ?Een; simpl;
    rec_simpl; rewrite ?E; try done; destruct (has _ AD_PORT_LACP_ENABLED); done.
Qed.

Lemma rx_current_has_pdu p :
  sm_rx_state (rx_next_state None p) = AD_RX_CURRENT -> sm_rx_state p = AD_RX_CURRENT.
Proof.
  unfold rx_next_state. rewrite (bool_decide_eq_false_2 (is_Some None)) by (by intros []).
  destruct (tick_down _) as [c e]. simpl.
  destruct (has _ AD_PORT_BEGIN); [done|]. destruct (negb (is_enabled p)); [done|].
  destruct e; repeat case_match; try done; rec_simpl; congruence.
Qed.

Lemma rx_run l p :
  exists p', ad_rx_machine_port l p = Ok p' /\
    (0 <= sm_rx_timer_counter p < 65536 -> sm_rx_state p <> AD_RX_INITIALIZE ->
     sm_rx_state p' = rx_spec l p).
Proof.
  unfold ad_rx_machine_port. destruct (_ || _) eqn:E.
  - destruct (rx_action_total l (rx_next_state l p)) as [p' Hp'].
    + intros Hc ->. apply rx_current_has_pdu in Hc as Hc'. rewrite Hc, Hc' in E.
      rewrite (bool_decide_eq_false_2 (is_Some None)) in E by (by intros []).
      by rewrite bool_decide_eq_true_2 in E.
    + exists p'. split; [done|]. intros Ht Hi. rewrite rx_next_spec by done.
      by eapply rx_action_state.
  - exists (rx_next_state l p). split; [done|]. intros Ht Hi. rewrite rx_next_spec by done.
    apply orb_false_iff in E as [E _]. apply negb_false_iff, bool_decide_eq_true in E.
    rewrite E. by destruct (sm_rx_state p).
Qed.

(** One idle tick in a timed state that is not the last one. *)
Lemma rx_idle_step p :
  has (sm_vars p) AD_PORT_BEGIN = false -> is_enabled p = true ->
  (sm_rx_state p = AD_RX_CURRENT \/ sm_rx_state p = AD_RX_EXPIRED) ->
  1 < sm_rx_timer_counter p < 65536 ->
  ad_rx_machine_port None p =
    Ok (p <| sm_rx_timer_counter := sm_rx_timer_counter p - 1 |>).
Proof.
  intros Hb He Hs Ht. unfold ad_rx_machine_port, rx_next_state.
  rewrite Hb, He. rewrite (bool_decide_eq_false_2 (is_Some None)) by (by intros []). simpl.
  rewrite tick_down_expired by lia. rewrite (proj2 (Z.eqb_neq _ 1)) by lia.
  rewrite Z.max_r by lia. destruct Hs as [Hs|Hs]; rec_simpl; rewrite Hs; rec_simpl;
    by rewrite Hs, bool_decide_eq_true_2.
Qed.

Lemma rx_idle_run n p :
  has (sm_vars p) AD_PORT_BEGIN = false -> is_enabled p = true ->
  (sm_rx_state p = AD_RX_CURRENT \/ sm_rx_state p = AD_RX_EXPIRED) ->
  Z.of_nat n < sm_rx_timer_counter p < 65536 ->
  rx_idle n p = Ok (p <| sm_rx_timer_counter := sm_rx_timer_counter p - Z.of_nat n |>).
Proof.
  revert p. induction n as [|n IH]; intros p Hb He Hs Ht; simpl.
  - f_equal. rewrite Z.sub_0_r. by destruct p.
  - rewrite rx_idle_step by (done || lia). simpl. rewrite IH; rec_simpl; try done; [|lia].
    f_equal. destruct p. unfold upd_field; simpl. f_equal. lia.
Qed.

Lemma rx_idle_app n m p : rx_idle (n + m) p = res_bind (rx_idle n p) (rx_idle m).
Proof.
  revert p. induction n as [|n IH]; intros p; [done|]. simpl.
  destruct (ad_rx_machine_port None p); simpl; auto.
Qed.

(** The tick on which [current_while] expires. *)
Lemma rx_current_expires p :
  has (sm_vars p) AD_PORT_BEGIN = false -> is_enabled p = true ->
  sm_rx_state p = AD_RX_CURRENT -> sm_rx_timer_counter p = 1 ->
  ad_rx_machine_port None p =
    rx_action None (p <| sm_rx_timer_counter := 0 |> <| sm_rx_state := AD_RX_EXPIRED |>).
Proof.
  intros Hb He Hs Ht. unfold ad_rx_machine_port, rx_next_state.
  rewrite Hb, He. rewrite (bool_decide_eq_false_2 (is_Some None)) by (by intros []). simpl.
  rewrite Ht. rewrite tick_down_expired by lia. simpl. rec_simpl. rewrite Hs. by rec_simpl.
Qed.

Lemma rx_expired_expires p :
  has (sm_vars p) AD_PORT_BEGIN = false -> is_enabled p = true ->
  sm_rx_state p = AD_RX_EXPIRED -> sm_rx_timer_counter p = 1 ->
  ad_rx_machine_port None p =
    rx_action None (p <| sm_rx_timer_counter := 0 |> <| sm_rx_state := AD_RX_DEFAULTED |>).
Proof.
  intros Hb He Hs Ht. unfold ad_rx_machine_port, rx_next_state.
  rewrite Hb, He. rewrite (bool_decide_eq_false_2 (is_Some None)) by (by intros []). simpl.
  rewrite Ht. rewrite tick_down_expired by lia. simpl. rec_simpl. rewrite Hs. by rec_simpl.
Qed.

(** The short timeout in ticks. *)
Definition short_ticks : Z := __ad_timer_to_ticks AD_CURRENT_WHILE_TIMER (u16 AD_SHORT_TIMEOUT).

Lemma ticks_range (KL : KernelLaws K) : 3 <= ad_ticks_per_sec <= 500.
Proof.
  pose proof ad_timer_interval_range as Hr. unfold ad_ticks_per_sec.
  rewrite Z.quot_div_nonneg by lia.
  assert (3 <= 1000 / AD_TIMER_INTERVAL <= 500).
  { split; [apply Z.div_le_lower_bound; lia|].
    transitivity (1000 / 2); [apply Z.div_le_compat_l; lia|done]. }
  rewrite u16_id; lia.
Qed.

Lemma short_ticks_range (KL : KernelLaws K) : 9 <= short_ticks <= 1500.
Proof.
  pose proof (ticks_range KL). unfold short_ticks, __ad_timer_to_ticks.
  change (negb (u16 AD_SHORT_TIMEOUT =? 0)) with true. cbv iota.
  unfold AD_SHORT_TIMEOUT_TIME, AD_FAST_PERIODIC_TIME. rewrite u16_id; lia.
Qed.

(** The end of the silence: EXPIRED at tick [n], DEFAULTED [short_ticks] later. *)
Lemma rx_silence_expired (KL : KernelLaws K) n p :
  has (sm_vars p) AD_PORT_BEGIN = false -> is_enabled p = true ->
  sm_rx_state p = AD_RX_CURRENT -> sm_rx_timer_counter p = Z.of_nat n -> (0 < n)%nat ->
  Z.of_nat n < 65536 ->
  exists pe, rx_idle n p = Ok pe /\ sm_rx_state pe = AD_RX_EXPIRED /\
    sm_rx_timer_counter pe = short_ticks /\
    has (pp_port_state (partner_oper pe)) LACP_STATE_SYNCHRONIZATION = false /\
    has (sm_vars pe) AD_PORT_BEGIN = false /\ is_enabled pe = true /\
    partner_admin pe = partner_admin p.
Proof.
  intros Hb He Hs Ht Hn Hlt. replace n with (n - 1 + 1)%nat by lia. rewrite rx_idle_app.
  rewrite rx_idle_run by (done || lia || by left). simpl.
  rewrite rx_current_expires; rec_simpl; [|done|done|done|lia].
  eexists. split; [reflexivity|]. rec_simpl. repeat split; try done; [by flags..|].
  unfold AD_PORT_CHURNED. rewrite has_setf_other by done. by rewrite has_clrf_other.
Qed.

Lemma rx_silence_defaulted (KL : KernelLaws K) pe :
  has (sm_vars pe) AD_PORT_BEGIN = false -> is_enabled pe = true ->
  sm_rx_state pe = AD_RX_EXPIRED -> sm_rx_timer_counter pe = short_ticks ->
  exists pd, rx_idle (Z.to_nat short_ticks) pe = Ok pd /\ sm_rx_state pd = AD_RX_DEFAULTED /\
    partner_oper pd = partner_admin pe /\
    has (actor_oper_port_state pd) LACP_STATE_DEFAULTED = true /\
    has (actor_oper_port_state pd) LACP_STATE_EXPIRED = false.
Proof.
  intros Hb He Hs Ht. pose proof (short_ticks_range KL).
  replace (Z.to_nat short_ticks) with (Z.to_nat short_ticks - 1 + 1)%nat by lia.
  rewrite rx_idle_app, rx_idle_run by (done || lia || by right). simpl.
  rewrite rx_expired_expires; rec_simpl; [|done|done|done|lia].
  eexists. split; [reflexivity|]. unfold __record_default. rec_simpl.
  unfold __update_default_selected. rec_simpl.
  repeat case_match; rec_simpl; repeat split; by flags.
Qed.

(** ** Two ports exchange LACPDUs *)

(** The LACPDU that port [a] sends. *)
Definition pdu_of (a : port) : lacpdu := port_lacpdu (__update_lacpdu_from_port a).

Definition same_bit (x y f : Z) : Prop := Z.land x f = Z.land y f.

(** What port [a] holds about its partner describes port [b]. *)
Record knows (a b : port) : Prop := {
  kn_number : pp_port_number (partner_oper a) = actor_port_number b;
  kn_prio : pp_port_priority (partner_oper a) = actor_port_priority b;
  kn_system : pp_system (partner_oper a) = actor_system b;
  kn_sysprio : pp_system_priority (partner_oper a) = actor_system_priority b;
  kn_key : pp_key (partner_oper a) = actor_oper_port_key b;
  kn_agg : same_bit (pp_port_state (partner_oper a)) (actor_oper_port_state b)
             LACP_STATE_AGGREGATION }.

(** The 16-bit fields that go into a LACPDU are in range. *)
Definition pdu_range (a : port) : Prop :=
  Forall (fun v => 0 <= v < 65536)
    [actor_port_number a; actor_port_priority a; actor_system_priority a;
     actor_oper_port_key a; pp_port_number (partner_oper a);
     pp_port_priority (partner_oper a); pp_system_priority (partner_oper a);
     pp_key (partner_oper a)].

Ltac in_range := match goal with
  | H : pdu_range _ |- 0 <= _ < 65536 =>
      unfold pdu_range in H; rewrite !Forall_cons in H; cbv beta in H; tauto
  end.

(** The fields of the LACPDU, read back by the receiver. *)
Lemma pdu_fields (KL : KernelLaws K) a :
  pdu_range a ->
  ntohs (l_actor_port (pdu_of a)) = actor_port_number a /\
  ntohs (l_actor_port_priority (pdu_of a)) = actor_port_priority a /\
  l_actor_system (pdu_of a) = actor_system a /\
  ntohs (l_actor_system_priority (pdu_of a)) = actor_system_priority a /\
  ntohs (l_actor_key (pdu_of a)) = actor_oper_port_key a /\
  l_actor_state (pdu_of a) = actor_oper_port_state a /\
  ntohs (l_partner_port (pdu_of a)) = pp_port_number (partner_oper a) /\
  ntohs (l_partner_port_priority (pdu_of a)) = pp_port_priority (partner_oper a) /\
  l_partner_system (pdu_of a) = pp_system (partner_oper a) /\
  ntohs (l_partner_system_priority (pdu_of a)) = pp_system_priority (partner_oper a) /\
  ntohs (l_partner_key (pdu_of a)) = pp_key (partner_oper a) /\
  l_partner_state (pdu_of a) = pp_port_state (partner_oper a).
Proof.
  intros Hr. unfold pdu_of, __update_lacpdu_from_port. rec_simpl.
  rewrite !ntohs_htons by in_range. done.
Qed.

Lemma mac_equal_refl (KL : KernelLaws K) m : MAC_ADDRESS_EQUAL m m = true.
Proof. by apply ether_addr_equal_spec. Qed.



(** A LACPDU repeated by an unchanged partner does not unselect the port. *)
Lemma update_selected_recorded (KL : KernelLaws K) l p :
  __update_selected l (__record_pdu l p) = __record_pdu l p.
Proof.
  assert (forall pp, pp = partner_oper (__record_pdu l p) ->
    pp_port_number pp = ntohs (l_actor_port l) /\
    pp_port_priority pp = ntohs (l_actor_port_priority l) /\
    pp_system pp = l_actor_system l /\
    pp_system_priority pp = ntohs (l_actor_system_priority l) /\
    pp_key pp = ntohs (l_actor_key l) /\
    Z.land (pp_port_state pp) LACP_STATE_AGGREGATION =
    Z.land (l_actor_state l) LACP_STATE_AGGREGATION) as Hpp.
  { intros pp ->. unfold __record_pdu. destruct (_ && _); rec_simpl; repeat split;
      [apply land_setf_other; flag_side|apply land_clrf_other; flag_side]. }
  unfold __update_selected.
  destruct (Hpp _ eq_refl) as (E1 & E2 & E3 & E4 & E5 & E6).
  rewrite E1, E2, E3, E4, E5, E6. by rewrite !Z.eqb_refl, mac_equal_refl.
Qed.

(** The four state flags that [__update_ntt] compares. *)
Definition ntt_bits : list Z :=
  [LACP_STATE_LACP_ACTIVITY; LACP_STATE_LACP_TIMEOUT; LACP_STATE_SYNCHRONIZATION;
   LACP_STATE_AGGREGATION].

Lemma update_ntt_knows (KL : KernelLaws K) a b :
  pdu_range a -> knows a b ->
  Forall (same_bit (pp_port_state (partner_oper a)) (actor_oper_port_state b)) ntt_bits ->
  __update_ntt (pdu_of a) b = b.
Proof.
  intros Hr [E1 E2 E3 E4 E5 E6] Hb.
  destruct (pdu_fields KL a Hr) as (_ & _ & _ & _ & _ & _ & F1 & F2 & F3 & F4 & F5 & F6).
  unfold ntt_bits in Hb. rewrite !Forall_cons in Hb. destruct Hb as (B1 & B2 & B3 & B4 & _).
  unfold __update_ntt. rewrite F1, F2, F3, F4, F5, F6, E1, E2, E3, E4, E5, B1, B2, B3, B4.
  by rewrite !Z.eqb_refl, mac_equal_refl.
Qed.

(** ** A LACPDU of our own *)

Lemma rx_idle_stopped n p :
  has (sm_vars p) AD_PORT_BEGIN = false -> is_enabled p = true ->
  sm_rx_state p = AD_RX_CURRENT -> sm_rx_timer_counter p = 0 ->
  exists p', rx_idle n p = Ok p' /\ sm_rx_state p' = AD_RX_CURRENT /\
    partner_oper p' = partner_oper p.
Proof.
  revert p. induction n as [|n IH]; intros p Hb He Hs Ht; simpl; [eauto|].
  assert (ad_rx_machine_port None p = Ok (p <| sm_rx_timer_counter := 0 |>)) as ->.
  { unfold ad_rx_machine_port, rx_next_state. rewrite Hb, He, Ht.
    rewrite (bool_decide_eq_false_2 (is_Some None)) by (by intros []). simpl.
    change (tick_down 0) with (0, false). cbv iota beta. rec_simpl. rewrite Hs. rec_simpl.
    by rewrite Hs, bool_decide_eq_true_2. }
  destruct (IH (p <| sm_rx_timer_counter := 0 |>)) as (p' & H1 & H2 & H3); [done..|].
  exists p'. split; [done|]. split; [done|]. by rewrite H3.
Qed.

Lemma rx_loopback (KL : KernelLaws K) l p :
  has (sm_vars p) AD_PORT_BEGIN = false -> is_enabled p = true ->
  (sm_rx_state p = AD_RX_EXPIRED \/ sm_rx_state p = AD_RX_DEFAULTED \/
   sm_rx_state p = AD_RX_CURRENT) ->
  l_actor_system l = actor_system p ->
  exists p', ad_rx_machine_port (Some l) p = Ok p' /\ sm_rx_state p' = AD_RX_CURRENT /\
    sm_rx_timer_counter p' = 0 /\ has (sm_vars p') AD_PORT_BEGIN = false /\
    is_enabled p' = true /\ partner_oper p' = partner_oper p.
Proof.
  intros Hb He Hs Hl. unfold ad_rx_machine_port, rx_next_state. rewrite Hb, He. simpl.
  rewrite orb_true_r.
  assert (bool_decide (sm_rx_state p = AD_RX_EXPIRED)
    || bool_decide (sm_rx_state p = AD_RX_DEFAULTED)
    || bool_decide (sm_rx_state p = AD_RX_CURRENT) = true) as ->.
  { by destruct Hs as [->|[-> | ->]]. }
  simpl. unfold rx_action. case_bool_decide; rec_simpl; rewrite Hl, mac_equal_refl by done;
    eexists; (split; [reflexivity|]); rec_simpl; repeat split; try done.
  by rewrite has_setf_other.
Qed.
End port_time.

(** ** Properties *)

(** C33. The receive machine ends on every port and every input: it never follows a
    null LACPDU pointer, and the state it leaves is the one its diagram gives
    for the port's flags, timer and former state. *)
Theorem rx_follows_diagram `{K : Kernel} (l : option lacpdu) (p : port) :
  0 <= sm_rx_timer_counter p < 65536 -> sm_rx_state p <> AD_RX_INITIALIZE ->
  exists p', ad_rx_machine_port l p = Ok p' /\ sm_rx_state p' = rx_spec l p.
Proof. intros Ht Hs. destruct (rx_run l p) as (p' & Hrun & Hp). exists p'. auto. Qed.

Lemma rx_follows_diagram_witness :
  exists p', @ad_rx_machine_port LinuxKernel (Some zero_pdu)
      (linux_port <| is_enabled := true |> <| sm_rx_state := AD_RX_EXPIRED |>) = Ok p' /\
    sm_rx_state p' = AD_RX_CURRENT.
Proof. apply (@rx_follows_diagram LinuxKernel (Some zero_pdu)); by vm_compute. Defined.

(** A partner that falls silent is forgotten in time: an enabled port in CURRENT
    with [n] ticks left on its timer is in CURRENT for fewer than [n] idle
    ticks, in EXPIRED with the short timer and an out-of-sync partner at tick
    [n], and after the short timeout in DEFAULTED with the administrative
    partner. *)
Theorem rx_silence_defaults `{K : Kernel} (KL : KernelLaws K) (n : nat) (p : port) :
  has (sm_vars p) AD_PORT_BEGIN = false -> is_enabled p = true ->
  sm_rx_state p = AD_RX_CURRENT -> sm_rx_timer_counter p = Z.of_nat n -> (0 < n)%nat ->
  Z.of_nat n < 65536 ->
  (forall k, (k < n)%nat -> exists pk, rx_idle k p = Ok pk /\ sm_rx_state pk = AD_RX_CURRENT) /\
  (exists pe, rx_idle n p = Ok pe /\ sm_rx_state pe = AD_RX_EXPIRED /\
     sm_rx_timer_counter pe = short_ticks /\
     has (pp_port_state (partner_oper pe)) LACP_STATE_SYNCHRONIZATION = false) /\
  (exists pd, rx_idle (n + Z.to_nat short_ticks) p = Ok pd /\
     sm_rx_state pd = AD_RX_DEFAULTED /\ partner_oper pd = partner_admin p /\
     has (actor_oper_port_state pd) LACP_STATE_DEFAULTED = true /\
     has (actor_oper_port_state pd) LACP_STATE_EXPIRED = false).
Proof.
  intros Hb He Hs Ht Hn Hlt. split; [|split].
  - intros k Hk. rewrite rx_idle_run by (done || lia || by left). eexists. split; [done|].
    by rec_simpl.
  - destruct (rx_silence_expired KL n p) as (pe & ? & ? & ? & ? & _); [done..|]. eauto.
  - destruct (rx_silence_expired KL n p) as (pe & H1 & H2 & H3 & H4 & H5 & H6 & <-); [done..|].
    rewrite rx_idle_app, H1. simpl. by apply rx_silence_defaulted.
Qed.

Lemma rx_silence_defaults_witness :
  exists pd, @rx_idle LinuxKernel (30 + Z.to_nat (@short_ticks LinuxKernel))
    (linux_port <| sm_rx_state := AD_RX_CURRENT |> <| sm_rx_timer_counter := 30 |>) = Ok pd /\
    sm_rx_state pd = AD_RX_DEFAULTED.
Proof.
  destruct (@rx_silence_defaults LinuxKernel LinuxKernelLaws 30
    (linux_port <| sm_rx_state := AD_RX_CURRENT |> <| sm_rx_timer_counter := 30 |>))
    as (_ & _ & pd & H1 & H2 & _); [reflexivity|reflexivity|reflexivity|reflexivity|lia|lia|].
  exists pd. split; [exact H1|exact H2].
Defined.


(** Port [a] of the witness knows port [linux_port]. *)
Definition knowing_port : port :=
  linux_port <| actor_system := mac 7 |>
    <| partner_oper := PortParams (mac 1) 65535 9 1 255 5 |>.


(** A partner that repeats its LACPDU does not cost the port its aggregator: once
    a LACPDU is recorded, [__update_selected] leaves the port as it is on the
    same LACPDU; and a partner whose view of the port is up to date does not
    make it transmit. *)
Theorem repeated_lacpdu_is_quiet `{K : Kernel} (KL : KernelLaws K) (l : lacpdu) (a b : port) :
  __update_selected l (__record_pdu l b) = __record_pdu l b /\
  (pdu_range a -> knows a b ->
   Forall (same_bit (pp_port_state (partner_oper a)) (actor_oper_port_state b)) ntt_bits ->
   __update_ntt (pdu_of a) b = b).
Proof. split; [by apply update_selected_recorded|]. by apply update_ntt_knows. Qed.

Lemma repeated_lacpdu_is_quiet_witness :
  @__update_ntt LinuxKernel (@pdu_of LinuxKernel
    (knowing_port <| partner_oper := PortParams (mac 1) 65535 9 1 255 7 |>)) linux_port
  = linux_port.
Proof.
  apply (@repeated_lacpdu_is_quiet LinuxKernel LinuxKernelLaws zero_pdu
    (knowing_port <| partner_oper := PortParams (mac 1) 65535 9 1 255 7 |>) linux_port).
  - repeat constructor; vm_compute; congruence.
  - split; reflexivity.
  - repeat constructor.
Defined.

(** A LACPDU with the port's own system stops the timeout: the port is left in
    CURRENT with a stopped timer, and however long it then hears nothing it
    keeps the partner it had. *)
Theorem loopback_stops_timeout `{K : Kernel} (KL : KernelLaws K) (l : lacpdu) (p : port) :
  has (sm_vars p) AD_PORT_BEGIN = false -> is_enabled p = true ->
  (sm_rx_state p = AD_RX_EXPIRED \/ sm_rx_state p = AD_RX_DEFAULTED \/
   sm_rx_state p = AD_RX_CURRENT) ->
  l_actor_system l = actor_system p ->
  exists p', ad_rx_machine_port (Some l) p = Ok p' /\
    forall n, exists pn, rx_idle n p' = Ok pn /\ sm_rx_state pn = AD_RX_CURRENT /\
      partner_oper pn = partner_oper p.
Proof.
  intros Hb He Hs Hl.
  destruct (rx_loopback KL l p Hb He Hs Hl) as (p' & H1 & H2 & H3 & H4 & H5 & <-).
  exists p'. split; [done|]. intros n. by apply rx_idle_stopped.
Qed.

Lemma loopback_stops_timeout_witness :
  exists p', @ad_rx_machine_port LinuxKernel
      (Some (@pdu_of LinuxKernel linux_port)) (linux_port <| sm_rx_state := AD_RX_EXPIRED |>)
    = Ok p' /\
    exists pn, @rx_idle LinuxKernel 1000 p' = Ok pn /\ sm_rx_state pn = AD_RX_CURRENT.
Proof.
  destruct (@loopback_stops_timeout LinuxKernel LinuxKernelLaws (@pdu_of LinuxKernel linux_port)
    (linux_port <| sm_rx_state := AD_RX_EXPIRED |>)) as (p' & H1 & H2);
    [reflexivity|reflexivity|left; reflexivity|reflexivity|].
  exists p'. split; [exact H1|]. destruct (H2 1000%nat) as (pn & H3 & H4 & _).
  exists pn. split; [exact H3|exact H4].
Defined.
