(* ===== verification/AdTimers.v ===== *)
(** * 802.3ad: periodic, churn and transmit machines over time, and the port key *)

From S2P Require Import Prelude.
From S2P Require Import AdTypes.
From S2P Require Import AdPort.
From S2P Require Import AdMachine.
From S2P Require Import AdEntry.
From S2P Require Import AdInv.
From S2P Require Import AdAttach.
From S2P Require Import AdSample.
From S2P Require Import AdRx.

Section timers.
Context `{K : Kernel}.

Definition periodic_ticks (n : nat) (p : port) : port := Nat.iter n ad_periodic_machine p.
Definition churn_ticks (n : nat) (p : port) : port := Nat.iter n ad_churn_machine p.

(** ** Periodic machine *)

(** The periodic machine of the port runs. *)
Definition periodic_on (p : port) : Prop :=
  has (sm_vars p) AD_PORT_BEGIN = false /\ has (sm_vars p) AD_PORT_LACP_ENABLED = true /\
  is_enabled p = true /\
  has (actor_oper_port_state p) LACP_STATE_LACP_ACTIVITY
    || has (pp_port_state (partner_oper p)) LACP_STATE_LACP_ACTIVITY = true.

(** The partner asks for fast transmissions. *)
Definition partner_fast (p : port) : bool :=
  has (pp_port_state (partner_oper p)) LACP_STATE_LACP_TIMEOUT.

Definition period_state (p : port) : periodic_states_t :=
  if partner_fast p then AD_FAST_PERIODIC else AD_SLOW_PERIODIC.

(** One second or thirty, in ticks. *)
Definition period (p : port) : Z :=
  (if partner_fast p then AD_FAST_PERIODIC_TIME else AD_SLOW_PERIODIC_TIME) * ad_ticks_per_sec.

Lemma period_range (KL : KernelLaws K) p : 3 <= period p <= 15000.
Proof.
  pose proof (ticks_range KL). unfold period, AD_FAST_PERIODIC_TIME, AD_SLOW_PERIODIC_TIME.
  destruct (partner_fast p); lia.
Qed.

Lemma periodic_off_cond p :
  periodic_on p ->
  (has (sm_vars p) AD_PORT_BEGIN || negb (has (sm_vars p) AD_PORT_LACP_ENABLED)
   || negb (is_enabled p))
  || (negb (has (actor_oper_port_state p) LACP_STATE_LACP_ACTIVITY) &&
      negb (has (pp_port_state (partner_oper p)) LACP_STATE_LACP_ACTIVITY)) = false.
Proof.
  intros (-> & -> & -> & Ha). simpl. by rewrite <-negb_orb, Ha.
Qed.

(** The port [k] ticks into a period. *)
Definition in_period (p : port) (k : Z) : port :=
  p <| sm_periodic_state := period_state p |> <| sm_periodic_timer_counter := period p - k |>.

Lemma periodic_first (KL : KernelLaws K) p :
  periodic_on p -> sm_periodic_state p = AD_PERIODIC_TX -> sm_periodic_timer_counter p = 0 ->
  ad_periodic_machine p = in_period p 1.
Proof.
  intros Hon Hs Hc. unfold ad_periodic_machine, periodic_next_state.
  rewrite periodic_off_cond, Hc, Hs by done. simpl.
  pose proof (ticks_range KL) as Hr.
  assert (u16 (__ad_timer_to_ticks AD_PERIODIC_TIMER (u16 AD_FAST_PERIODIC_TIME) - 1) =
    AD_FAST_PERIODIC_TIME * ad_ticks_per_sec - 1) as E1.
  { unfold __ad_timer_to_ticks, AD_FAST_PERIODIC_TIME. change (u16 1) with 1.
    rewrite (u16_id (1 * _)) by lia. rewrite u16_id; lia. }
  assert (u16 (__ad_timer_to_ticks AD_PERIODIC_TIMER (u16 AD_SLOW_PERIODIC_TIME) - 1) =
    AD_SLOW_PERIODIC_TIME * ad_ticks_per_sec - 1) as E2.
  { unfold __ad_timer_to_ticks, AD_SLOW_PERIODIC_TIME. change (u16 30) with 30.
    rewrite (u16_id (30 * _)) by lia. rewrite u16_id; lia. }
  unfold in_period, period_state, period, partner_fast.
  destruct (has _ LACP_STATE_LACP_TIMEOUT); cbn [negb]; rec_simpl;
    rewrite bool_decide_eq_false_2 by done; cbn [negb]; unfold periodic_action; rec_simpl;
    by rewrite ?E1, ?E2.
Qed.

Lemma periodic_on_in p k : periodic_on p -> periodic_on (in_period p k).
Proof. done. Qed.

(** A tick with the timer running. *)
Lemma periodic_tick p c :
  periodic_on p -> 1 < c < 65536 ->
  let q := p <| sm_periodic_state := period_state p |> <| sm_periodic_timer_counter := c |> in
  ad_periodic_machine q = q <| sm_periodic_timer_counter := c - 1 |>.
Proof.
  intros Hon Hc q. unfold ad_periodic_machine, periodic_next_state.
  rewrite (periodic_off_cond q) by done. unfold q. rec_simpl.
  rewrite (proj2 (Z.eqb_neq c 0)) by lia. simpl. rewrite u16_id by lia.
  rewrite (proj2 (Z.eqb_neq (c - 1) 0)) by lia.
  unfold period_state, partner_fast. destruct (has _ LACP_STATE_LACP_TIMEOUT) eqn:E; rec_simpl;
    rewrite ?E; simpl; rec_simpl; destruct p; unfold upd_field; simpl; by rewrite u16_id by lia.
Qed.

Lemma periodic_last p :
  periodic_on p ->
  let q := p <| sm_periodic_state := period_state p |> <| sm_periodic_timer_counter := 1 |> in
  ad_periodic_machine q =
    p <| sm_periodic_state := AD_PERIODIC_TX |> <| sm_periodic_timer_counter := 0 |>
      <| ntt := true |>.
Proof.
  intros Hon q. unfold ad_periodic_machine, periodic_next_state.
  rewrite (periodic_off_cond q) by done. unfold q. rec_simpl. simpl.
  unfold periodic_action. rec_simpl. unfold period_state.
  destruct (partner_fast p); destruct p; done.
Qed.

Lemma periodic_run (KL : KernelLaws K) p k :
  periodic_on p -> sm_periodic_state p = AD_PERIODIC_TX -> sm_periodic_timer_counter p = 0 ->
  Z.of_nat k < period p - 1 ->
  periodic_ticks (S k) p = in_period p (Z.of_nat k + 1).
Proof.
  intros Hon Hs Hc. pose proof (period_range KL p) as Hr. induction k as [|k IH]; intros Hk.
  - by apply periodic_first.
  - unfold periodic_ticks in *. rewrite Nat.iter_succ, IH by lia. unfold in_period.
    rewrite (periodic_tick p (period p - (Z.of_nat k + 1))) by (done || lia).
    destruct p; unfold upd_field; simpl. f_equal. lia.
Qed.

Lemma periodic_end (KL : KernelLaws K) p :
  periodic_on p -> sm_periodic_state p = AD_PERIODIC_TX -> sm_periodic_timer_counter p = 0 ->
  periodic_ticks (Z.to_nat (period p)) p = p <| ntt := true |>.
Proof.
  intros Hon Hs Hc. pose proof (period_range KL p) as Hr.
  replace (Z.to_nat (period p)) with (S (S (Z.to_nat (period p - 2)))) by lia.
  unfold periodic_ticks. rewrite Nat.iter_succ. fold (periodic_ticks (S (Z.to_nat (period p - 2))) p).
  rewrite periodic_run by (done || lia). unfold in_period.
  replace (period p - (Z.of_nat (Z.to_nat (period p - 2)) + 1)) with 1 by lia.
  rewrite periodic_last by done. destruct p. simpl in *. by subst.
Qed.

(** ** Churn machine *)

Definition churn_time : Z := __ad_timer_to_ticks AD_ACTOR_CHURN_TIMER 0.

Lemma churn_time_range (KL : KernelLaws K) : 180 <= churn_time <= 30000.
Proof.
  pose proof (ticks_range KL). unfold churn_time, __ad_timer_to_ticks, AD_CHURN_DETECTION_TIME.
  rewrite u16_id; lia.
Qed.

(** The port while churn is monitored, [c] ticks before the decision. *)
Definition monitored (p : port) (c : Z) : port :=
  p <| sm_vars ::= fun v => clrf v AD_PORT_CHURNED |>
    <| sm_churn_actor_state := AD_CHURN_MONITOR |>
    <| sm_churn_partner_state := AD_CHURN_MONITOR |>
    <| sm_churn_actor_timer_counter := c |>
    <| sm_churn_partner_timer_counter := c |>.

Lemma churn_reset p :
  has (sm_vars p) AD_PORT_CHURNED = true -> ad_churn_machine p = monitored p churn_time.
Proof. intros Hc. unfold ad_churn_machine. by rewrite Hc. Qed.

Lemma churn_wait p c :
  1 < c < 65536 -> ad_churn_machine (monitored p c) = monitored p (c - 1).
Proof.
  intros Hc. unfold ad_churn_machine. unfold monitored at 1. rec_simpl.
  rewrite has_clrf_same. unfold monitored at 1. rec_simpl.
  rewrite tick_down_expired by lia. rewrite (proj2 (Z.eqb_neq c 1)) by lia. simpl.
  unfold monitored at 1. rec_simpl.
  rewrite tick_down_expired by lia. rewrite (proj2 (Z.eqb_neq c 1)) by lia. simpl.
  rewrite Z.max_r by lia. unfold monitored. by destruct p.
Qed.

(** What the machine decides from the two SYNCHRONIZATION flags. *)
Definition churn_verdict (sync : bool) : churn_state_t := if sync then AD_NO_CHURN else AD_CHURN.
Definition churn_count (sync : bool) (n : Z) : Z := if sync then n else u32 (n + 1).

Lemma churn_decide q :
  has (sm_vars q) AD_PORT_CHURNED = false ->
  sm_churn_actor_timer_counter q = 1 -> sm_churn_partner_timer_counter q = 1 ->
  sm_churn_actor_state q = AD_CHURN_MONITOR -> sm_churn_partner_state q = AD_CHURN_MONITOR ->
  let a := has (actor_oper_port_state q) LACP_STATE_SYNCHRONIZATION in
  let b := has (pp_port_state (partner_oper q)) LACP_STATE_SYNCHRONIZATION in
  let q' := ad_churn_machine q in
  sm_churn_actor_state q' = churn_verdict a /\
  churn_actor_count q' = churn_count a (churn_actor_count q) /\
  sm_churn_partner_state q' = churn_verdict b /\
  churn_partner_count q' = churn_count b (churn_partner_count q).
Proof.
  intros H1 H2 H3 H4 H5 a b q'. subst a b q'. unfold ad_churn_machine, churn_verdict, churn_count.
  rewrite H1, H2. change (tick_down 1) with (0, true). cbv beta iota. rec_simpl.
  rewrite H4. rewrite bool_decide_eq_true_2 by done. cbn [andb].
  destruct (has (actor_oper_port_state q) LACP_STATE_SYNCHRONIZATION) eqn:Ea;
    rec_simpl; rewrite H3; change (tick_down 1) with (0, true); cbv beta iota; rec_simpl;
    rewrite H5, bool_decide_eq_true_2 by done; cbn [andb];
    destruct (has (pp_port_state (partner_oper q)) LACP_STATE_SYNCHRONIZATION) eqn:Eb;
    rec_simpl; done.
Qed.

Lemma churn_run (KL : KernelLaws K) p k :
  has (sm_vars p) AD_PORT_CHURNED = true -> Z.of_nat k < churn_time ->
  churn_ticks (S k) p = monitored p (churn_time - Z.of_nat k).
Proof.
  intros Hc. pose proof (churn_time_range KL). induction k as [|k IH]; intros Hk.
  - rewrite Z.sub_0_r. by apply churn_reset.
  - unfold churn_ticks in *. rewrite Nat.iter_succ, IH by lia. rewrite churn_wait by lia.
    f_equal. lia.
Qed.

(** ** Transmit machine *)

(** The transmit counter after the decrement, and whether a LACPDU goes out. *)
Definition tx_counter (pt : port) : Z := Z.max 0 (sm_tx_timer_counter pt - 1).
Definition tx_wants (pt : port) : bool :=
  (tx_counter pt =? 0) && ntt pt && has (sm_vars pt) AD_PORT_LACP_ENABLED.
Definition tx_gap : Z := u16 (Z.quot ad_ticks_per_sec AD_MAX_TX_IN_SECOND).

(** Port [p] of [st] after a run of the transmit machine. *)
Definition tx_done (p : ptr) (st st' : bonding) : Prop :=
  exists sp sp', slaves st !! p = Some sp /\ slaves st' !! p = Some sp' /\
    let pt := ad_port sp in let pt' := ad_port sp' in
    let sent := tx_wants pt && dev_alloc_skb_ok (alloc_count st) in
    trace st' = (if sent then [XmitLacpdu p lacpdu_mcast_addr (sl_perm_hwaddr sp) (pdu_of pt)]
                 else []) ++ trace st /\
    sm_tx_timer_counter pt' = (if sent then tx_gap else tx_counter pt) /\
    ntt pt' = (if sent then false else ntt pt) /\
    sm_vars pt' = sm_vars pt /\ port_slave pt' = port_slave pt.

Lemma pdu_of_counter c pt :
  pdu_of (pt <| sm_tx_timer_counter := c |>) = pdu_of pt.
Proof. done. Qed.

(** The second half of the machine, when a LACPDU is wanted. *)
Lemma wp_tx_send p st sp :
  slaves st !! p = Some sp -> port_slave (ad_port sp) = Some p ->
  wp (upd_port p __update_lacpdu_from_port ;;;
      let* r := ad_lacpdu_send p in
      if 0 <=? r then
        upd_port p (fun pt => pt <| ntt := false |> <| sm_tx_timer_counter := tx_gap |>)
      else ret tt)
    (fun _ st' => exists sp', slaves st' !! p = Some sp' /\
      let ok := dev_alloc_skb_ok (alloc_count st) in
      trace st' = (if ok then [XmitLacpdu p lacpdu_mcast_addr (sl_perm_hwaddr sp)
                                 (pdu_of (ad_port sp))] else []) ++ trace st /\
      sm_tx_timer_counter (ad_port sp') =
        (if ok then tx_gap else sm_tx_timer_counter (ad_port sp)) /\
      ntt (ad_port sp') = (if ok then false else ntt (ad_port sp)) /\
      sm_vars (ad_port sp') = sm_vars (ad_port sp) /\
      port_slave (ad_port sp') = port_slave (ad_port sp)) st.
Proof.
  intros Hsp Hps. apply wp_bind. eapply wp_upd_slave; [done|].
  apply wp_bind, wp_bind. eapply wp_get_port; [rec_simpl; by rewrite lookup_insert_eq|].
  apply wp_bind, wp_bind, wp_gets, wp_bind, wp_mod, wp_ret. rec_simpl.
  destruct (dev_alloc_skb_ok (alloc_count st)); simpl.
  - apply wp_bind. eapply (wp_deref _ p).
    { by rewrite <-Hps. }
    apply wp_bind, wp_bind. eapply wp_upd_slave; [rec_simpl; by rewrite lookup_insert_eq|].
    apply wp_mod, wp_bind. eapply wp_get_slave; [rec_simpl; by rewrite lookup_insert_eq|].
    apply wp_bind, wp_mod, wp_ret. cbn [Z.leb Z.compare].
    eapply wp_upd_slave; [rec_simpl; by rewrite lookup_insert_eq|].
    eexists. split; [rec_simpl; by rewrite lookup_insert_eq|]. rec_simpl. done.
  - apply wp_ret. simpl. apply wp_ret. eexists.
    split; [rec_simpl; by rewrite lookup_insert_eq|]. rec_simpl. done.
Qed.

Lemma wp_tx_machine p st sp :
  slaves st !! p = Some sp -> port_slave (ad_port sp) = Some p ->
  0 <= sm_tx_timer_counter (ad_port sp) < 65536 ->
  wp (ad_tx_machine p) (fun _ st' => tx_done p st st') st.
Proof.
  intros Hsp Hps Hc. apply wp_bind. eapply wp_get_port; [done|].
  set (sp1 := sp <| ad_port ::= fun pt => pt <| sm_tx_timer_counter := tx_counter pt |> |>).
  apply wp_bind. eapply (wp_mono _ (fun _ st' => slaves st' !! p = Some sp1 /\
    trace st' = trace st /\ alloc_count st' = alloc_count st)).
  { destruct (Z.eqb_spec (sm_tx_timer_counter (ad_port sp)) 0) as [E|E].
    - apply wp_ret. split; [|done]. rewrite Hsp. f_equal. unfold sp1, tx_counter, upd_field.
      simpl. destruct sp as [? ? ? ? ? ? ? ? ? pt ?]. simpl in *. f_equal.
      destruct pt. simpl in *. by rewrite E.
    - eapply wp_upd_slave; [done|]. rec_simpl. split; [|done]. rewrite lookup_insert_eq. f_equal.
      unfold sp1, tx_counter, upd_field. simpl. f_equal. f_equal.
      rewrite u16_id by lia. lia. }
  intros [] st1 (Hsp1 & Ht1 & Ha1). apply wp_bind. eapply wp_get_port; [done|].
  unfold sp1 at 1 2 3. rec_simpl.
  assert (forall st', tx_wants (ad_port sp) = false ->
    slaves st' !! p = Some sp1 -> trace st' = trace st -> tx_done p st st') as Hidle.
  { intros st' E H1 H2. exists sp, sp1. split; [done|]. split; [done|]. cbv zeta.
    rewrite E, H2. unfold sp1. by rec_simpl. }
  unfold tx_done, tx_wants in *. destruct (tx_counter (ad_port sp) =? 0) eqn:Ec;
    [|apply wp_ret; by apply Hidle]. simpl in Hidle |- *.
  destruct (ntt (ad_port sp) && has (sm_vars (ad_port sp)) AD_PORT_LACP_ENABLED) eqn:Ew;
    [|apply wp_ret; by apply Hidle].
  eapply wp_mono; [eapply (wp_tx_send p st1 sp1); [done|done]|].
  intros [] st' (sp' & Hsp' & H1 & H2 & H3 & H4 & H5). exists sp, sp'.
  split; [done|]. split; [done|]. cbv zeta in *.
  rewrite Ht1 in H1. rewrite Ha1 in H1, H2, H3. cbn [andb]. unfold sp1 in H1, H2, H3, H4, H5. rec_simpl_all.
  apply andb_true_iff in Ew as [Ew1 Ew2]. rewrite H1, H2, H3, H4, H5, Ec, Ew1, Ew2. done.
Qed.

(** Runs of the transmit machine, with a request to transmit before some. *)
Fixpoint tx_requests (p : ptr) (bs : list bool) : M bonding unit :=
  match bs with
  | [] => ret tt
  | b :: bs =>
      when_ b (upd_port p (fun pt => pt <| ntt := true |>)) ;;;
      ad_tx_machine p ;;; tx_requests p bs
  end.

Lemma wp_tx_requests p bs st sp :
  slaves st !! p = Some sp -> port_slave (ad_port sp) = Some p ->
  Z.of_nat (length bs) < sm_tx_timer_counter (ad_port sp) < 65536 ->
  wp (tx_requests p bs) (fun _ st' => trace st' = trace st) st.
Proof.
  revert st sp. induction bs as [|b bs IH]; intros st sp Hsp Hps Hc; [by apply wp_ret|].
  cbn [length] in Hc. apply wp_bind.
  eapply (wp_mono _ (fun _ st' => trace st' = trace st /\ exists sp1,
    slaves st' !! p = Some sp1 /\ port_slave (ad_port sp1) = Some p /\
    sm_tx_timer_counter (ad_port sp1) = sm_tx_timer_counter (ad_port sp))).
  { apply wp_when; intros _; [|by eauto]. eapply wp_upd_slave; [done|]. rec_simpl.
    split; [done|]. rewrite lookup_insert_eq. eexists. split; [done|]. by rec_simpl. }
  intros [] st1 (<- & sp1 & Hsp1 & Hps1 & Hc1). apply wp_bind.
  eapply wp_mono; [eapply wp_tx_machine; [done|done|lia]|].
  intros [] st2 (? & sp2 & ? & Hsp2 & Ht & Hct & _ & _ & Hs2). simplify_eq.
  assert (tx_wants (ad_port sp1) = false) as E.
  { unfold tx_wants, tx_counter. rewrite (proj2 (Z.eqb_neq _ 0)) by lia. done. }
  rewrite E in *. simpl in Ht, Hct.
  rewrite <-Ht. eapply IH; [done|congruence|]. rewrite Hct. unfold tx_counter. lia.
Qed.

Lemma tx_gap_range (KL : KernelLaws K) : 1 <= tx_gap <= 166.
Proof.
  pose proof (ticks_range KL). unfold tx_gap, AD_MAX_TX_IN_SECOND.
  rewrite Z.quot_div_nonneg by lia.
  assert (1 <= ad_ticks_per_sec / 3 <= 166).
  { split; [apply Z.div_le_lower_bound; lia|].
    transitivity (500 / 3); [apply Z.div_le_mono; lia|done]. }
  rewrite u16_id; lia.
Qed.

(** ** The port key *)

Lemma link_speed_range s : 0 <= link_speed_of s <= 19.
Proof.
  unfold link_speed_of, switch_z. destruct (negb _); [lia|].
  destruct (find _ link_speed_cases) as [c|] eqn:E; [|lia].
  apply find_some in E as [Hin _].
  assert (Forall (fun c => 0 <= c.2 <= 19) link_speed_cases) as Hall
    by (repeat constructor; vm_compute; congruence).
  rewrite Forall_forall in Hall. apply Hall. by apply list_elem_of_In.
Qed.

Lemma duplex_range s : duplex_of s = 0 \/ duplex_of s = 1.
Proof. unfold duplex_of. destruct (_ =? _); [|auto]. destruct (_ =? _); auto. Qed.

Lemma lor_add a b : Z.land a b = 0 -> Z.lor a b = a + b.
Proof. intros H. rewrite Z.add_nocarry_lxor, <-Z.lxor_lor by done. done. Qed.

(** Clearing the low six bits. *)
Lemma clrf_low k : clrf k (Z.lor AD_SPEED_KEY_MASKS AD_DUPLEX_KEY_MASKS) = 64 * (k / 64).
Proof.
  change (Z.lor AD_SPEED_KEY_MASKS AD_DUPLEX_KEY_MASKS) with (Z.ones 6).
  unfold clrf. rewrite <-Z.ldiff_land, Z.ldiff_ones_r by lia.
  rewrite Z.shiftl_mul_pow2, Z.shiftr_div_pow2 by lia. change (2 ^ 6) with 64. lia.
Qed.

Lemma key_join u s d :
  0 <= u < 1024 -> 0 <= s < 32 -> 0 <= d < 2 ->
  u16 (Z.lor (64 * u) (Z.lor (Z.shiftl s 1) d)) = 64 * u + 2 * s + d.
Proof.
  intros Hu Hs Hd. rewrite Z.shiftl_mul_pow2 by lia. change (2 ^ 1) with 2.
  assert (Z.land (s * 2) d = 0) as E1.
  { rewrite <-(Z.mod_small d (2 ^ 1)) by (change (2 ^ 1) with 2; lia).
    rewrite <-Z.land_ones by lia.
    rewrite (Z.land_comm d), Z.land_assoc, Z.land_ones by lia.
    change (2 ^ 1) with 2. rewrite Z_mod_mult. apply Z.land_0_l. }
  rewrite (lor_add (s * 2) d) by done.
  assert (Z.land (64 * u) (s * 2 + d) = 0) as E2.
  { rewrite <-(Z.mod_small (s * 2 + d) (2 ^ 6)) by (change (2 ^ 6) with 64; lia).
    rewrite <-Z.land_ones by lia.
    rewrite (Z.land_comm (s * 2 + d)), Z.land_assoc, Z.land_ones by lia.
    change (2 ^ 6) with 64. rewrite (Z.mul_comm 64), Z_mod_mult. apply Z.land_0_l. }
  rewrite lor_add by done. rewrite u16_id; lia.
Qed.

(** The three fields of a key. *)
Lemma key_split u s d :
  0 <= u < 1024 -> 0 <= s < 32 -> 0 <= d < 2 ->
  let k := 64 * u + 2 * s + d in
  Z.land k AD_DUPLEX_KEY_MASKS = d /\
  Z.shiftr (Z.land k AD_SPEED_KEY_MASKS) 1 = s /\
  Z.land k AD_USER_KEY_MASKS = 64 * u.
Proof.
  intros Hu Hs Hd k. unfold k. repeat split.
  - change AD_DUPLEX_KEY_MASKS with (Z.ones 1). rewrite Z.land_ones by lia.
    change (2 ^ 1) with 2. symmetry. apply (Z.mod_unique _ _ (32 * u + s)); lia.
  - rewrite Z.shiftr_land. change (Z.shiftr AD_SPEED_KEY_MASKS 1) with (Z.ones 5).
    rewrite Z.land_ones, Z.shiftr_div_pow2 by lia. change (2 ^ 1) with 2. change (2 ^ 5) with 32.
    assert ((64 * u + 2 * s + d) / 2 = 32 * u + s) as ->
      by (symmetry; apply (Z.div_unique _ _ _ d); lia).
    symmetry. apply (Z.mod_unique _ _ u); lia.
  - assert (forall x, 0 <= x < 65536 -> Z.land x AD_USER_KEY_MASKS = 64 * (x / 64)) as Hland.
    { intros x Hx. change AD_USER_KEY_MASKS with (Z.shiftl (Z.ones 10) 6).
      rewrite <-(clrf_low x). unfold clrf.
      change (Z.lor AD_SPEED_KEY_MASKS AD_DUPLEX_KEY_MASKS) with (Z.ones 6).
      apply Z.bits_inj'. intros i Hi. rewrite !Z.land_spec, Z.lnot_spec by lia.
      rewrite Z.shiftl_spec by lia. destruct (Z.lt_ge_cases i 6).
      - rewrite (Z.testbit_neg_r _ (i - 6)), (Z.ones_spec_low 6 i) by lia. done.
      - rewrite (Z.ones_spec_high 6 i) by lia. simpl. destruct (Z.lt_ge_cases i 16).
        + by rewrite Z.ones_spec_low by lia.
        + assert (Z.testbit x i = false) as ->; [|done].
          rewrite <-(Z.mod_small x (2 ^ 16)) by (change (2 ^ 16) with 65536; lia).
          apply Z.mod_pow2_bits_high. lia. }
    rewrite Hland by lia. f_equal. symmetry. apply (Z.div_unique _ _ _ (2 * s + d)); lia.
Qed.

Definition key_speed (s : slave) (reset : bool) : Z := if reset then 0 else link_speed_of s.
Definition key_duplex (s : slave) (reset : bool) : Z := if reset then 0 else duplex_of s.

Lemma actor_keys_value s reset p :
  0 <= actor_admin_port_key p < 65536 ->
  let k := 64 * (actor_admin_port_key p / 64) + 2 * key_speed s reset + key_duplex s reset in
  actor_admin_port_key (update_actor_keys s reset p) = k /\
  actor_oper_port_key (update_actor_keys s reset p) = k /\
  (actor_oper_port_key p <> k ->
   has (sm_vars (update_actor_keys s reset p)) AD_PORT_LACP_ENABLED =
     negb (key_duplex s reset =? 0)).
Proof.
  intros Ha k. assert (0 <= actor_admin_port_key p / 64 < 1024) as Hu.
  { split; [apply Z.div_pos; lia|apply Z.div_lt_upper_bound; lia]. }
  pose proof (link_speed_range s). pose proof (duplex_range s).
  assert (actor_admin_port_key (set_actor_keys s reset p) = k /\
    actor_oper_port_key (set_actor_keys s reset p) = k) as [E1 E2].
  { unfold set_actor_keys, k, key_speed, key_duplex. destruct reset; rec_simpl.
    - rewrite clrf_low. lia.
    - rewrite clrf_low, key_join by lia. done. }
  unfold update_actor_keys. rewrite E2. fold (key_speed s reset) (key_duplex s reset).
  generalize dependent (set_actor_keys s reset p). intros q E1 E2.
  destruct (Z.eqb_spec (actor_oper_port_key p) k) as [E|E]; [done|]. cbn [negb].
  destruct (key_duplex s reset =? 0), reset; cbn [negb andb];
    repeat case_match; rec_simpl; (split; [done|split; [done|]]); intros _; by flags.
Qed.
End timers.

(** The transmit machine asked to send at every one of [n] ticks, and the number
    of LACPDUs that go out, on the concrete kernel. *)
Definition linux_tx (n : nat) : nat :=
  match @tx_requests LinuxKernel 0%nat (replicate n true)
          (linux_state 30 <| trace := [] |>
             <| slaves ::= alter (fun s : @slave LinuxKernel =>
                  s <| ad_port ::= fun pt => pt <| sm_tx_timer_counter := 0 |> |>) 0%nat |>) with
  | Ok (_, st) => length (trace st)
  | Err _ => 0
  end.

(** A slave of the concrete kernel at a given speed. *)
Definition slave_at (speed : Z) : @slave LinuxKernel :=
  linux_slave (mac 1) <| sl_speed := speed |>.

(** ** Properties *)

(** LACPDUs are requested at the partner's pace: from the transmission state, a port
    whose periodic machine runs waits in the state for the rate its partner
    asked for without touching [ntt], and after exactly one second (fast) or
    thirty (slow) is back in the transmission state with [ntt] set. *)
Theorem periodic_period `{K : Kernel} (KL : KernelLaws K) (p : port) :
  periodic_on p -> sm_periodic_state p = AD_PERIODIC_TX -> sm_periodic_timer_counter p = 0 ->
  (forall k, (0 < k)%nat -> Z.of_nat k < period p ->
     sm_periodic_state (periodic_ticks k p) = period_state p /\
     ntt (periodic_ticks k p) = ntt p) /\
  periodic_ticks (Z.to_nat (period p)) p = p <| ntt := true |>.
Proof.
  intros Hon Hs Hc. split; [|by apply periodic_end].
  intros [|k] Hk Hlt; [lia|]. rewrite periodic_run by (done || lia). unfold in_period.
  by rec_simpl.
Qed.

Lemma periodic_period_witness :
  @periodic_ticks LinuxKernel
    (Z.to_nat (@period LinuxKernel (linux_port <| sm_periodic_state := AD_PERIODIC_TX |>)))
    (linux_port <| sm_periodic_state := AD_PERIODIC_TX |>)
  = linux_port <| sm_periodic_state := AD_PERIODIC_TX |> <| ntt := true |>.
Proof.
  apply (@periodic_period LinuxKernel LinuxKernelLaws
    (linux_port <| sm_periodic_state := AD_PERIODIC_TX |>)); [|reflexivity|reflexivity].
  split; [reflexivity|]. split; [reflexivity|]. split; reflexivity.
Defined.

(** Churn is decided once, a minute after it is asked for: the machine restarts its
    monitoring, stays in it for the churn detection time, and then reports
    churn, counting it, exactly for the sides that are out of sync. *)
Theorem churn_detection `{K : Kernel} (KL : KernelLaws K) (p : port) :
  has (sm_vars p) AD_PORT_CHURNED = true ->
  (forall k, (0 < k)%nat -> Z.of_nat k <= churn_time ->
     sm_churn_actor_state (churn_ticks k p) = AD_CHURN_MONITOR /\
     sm_churn_partner_state (churn_ticks k p) = AD_CHURN_MONITOR) /\
  let a := has (actor_oper_port_state p) LACP_STATE_SYNCHRONIZATION in
  let b := has (pp_port_state (partner_oper p)) LACP_STATE_SYNCHRONIZATION in
  let q := churn_ticks (S (Z.to_nat churn_time)) p in
  sm_churn_actor_state q = churn_verdict a /\
  churn_actor_count q = churn_count a (churn_actor_count p) /\
  sm_churn_partner_state q = churn_verdict b /\
  churn_partner_count q = churn_count b (churn_partner_count p).
Proof.
  intros Hc. pose proof (churn_time_range KL) as Hr. split.
  - intros [|k] Hk Hlt; [lia|]. rewrite churn_run by (done || lia). unfold monitored.
    by rec_simpl.
  - cbv zeta. unfold churn_ticks. rewrite Nat.iter_succ.
    replace (Z.to_nat churn_time) with (S (Z.to_nat (churn_time - 1))) by lia.
    fold (churn_ticks (S (Z.to_nat (churn_time - 1))) p). rewrite churn_run by (done || lia).
    replace (churn_time - Z.of_nat (Z.to_nat (churn_time - 1))) with 1 by lia.
    apply (churn_decide (monitored p 1)); unfold monitored; rec_simpl; try done.
    apply has_clrf_same.
Qed.

Lemma churn_detection_witness :
  sm_churn_actor_state (@churn_ticks LinuxKernel
    (S (Z.to_nat (@churn_time LinuxKernel))) (linux_port <| sm_vars := AD_PORT_CHURNED |>)) = AD_CHURN.
Proof.
  destruct (@churn_detection LinuxKernel LinuxKernelLaws
    (linux_port <| sm_vars := AD_PORT_CHURNED |>)) as (_ & H & _); [reflexivity|].
  rewrite H. reflexivity.
Defined.

(** What the transmit machine does in one run: it counts the transmit timer down,
    and sends one LACPDU with the current contents of the port, to the slow
    protocols address from the slave's permanent address, exactly when the
    timer is over, a transmission is due, LACP is enabled and a buffer is
    available; then it clears [ntt] and rearms the timer. *)
Theorem tx_machine_sends `{K : Kernel} (p : ptr) (st : bonding) (sp : slave) :
  slaves st !! p = Some sp -> port_slave (ad_port sp) = Some p ->
  0 <= sm_tx_timer_counter (ad_port sp) < 65536 ->
  exists st', ad_tx_machine p st = Ok (tt, st') /\ tx_done p st st'.
Proof.
  intros Hsp Hps Hc. pose proof (wp_tx_machine p st sp Hsp Hps Hc) as Hwp.
  apply wp_inv in Hwp as ([] & st' & ? & ?). eauto.
Qed.

Lemma tx_machine_sends_witness :
  exists st', @ad_tx_machine LinuxKernel 0%nat (linux_state 30) = Ok (tt, st').
Proof.
  destruct (slaves (linux_state 30) !! 0%nat) as [sp|] eqn:E; [|vm_compute in E; discriminate].
  destruct (@tx_machine_sends LinuxKernel 0%nat (linux_state 30) sp) as (st' & H & _).
  - exact E.
  - vm_compute in E. injection E as <-. reflexivity.
  - vm_compute in E. injection E as <-. vm_compute. split; congruence.
  - exists st'. exact H.
Defined.

(** LACPDUs of a port are spaced: with the transmit timer just rearmed, whatever
    requests to transmit come in, fewer than a third of a second of ticks
    sends nothing. *)
Theorem tx_spacing `{K : Kernel} (KL : KernelLaws K) (p : ptr) (bs : list bool)
    (st : bonding) (sp : slave) :
  slaves st !! p = Some sp -> port_slave (ad_port sp) = Some p ->
  sm_tx_timer_counter (ad_port sp) = tx_gap -> Z.of_nat (length bs) < tx_gap ->
  exists st', tx_requests p bs st = Ok (tt, st') /\ trace st' = trace st.
Proof.
  intros Hsp Hps Hc Hlen. pose proof (tx_gap_range KL).
  assert (wp (tx_requests p bs) (fun _ st' => trace st' = trace st) st) as Hwp.
  { eapply wp_tx_requests; [done|done|]. rewrite Hc. lia. }
  apply wp_inv in Hwp as ([] & st' & ? & ?). eauto.
Qed.

Lemma tx_spacing_witness :
  exists st', @tx_requests LinuxKernel 0%nat [true; true]
    (linux_state 0) = Ok (tt, st') /\ trace st' = [].
Proof.
  destruct (slaves (linux_state 0) !! 0%nat) as [sp|] eqn:E; [|vm_compute in E; discriminate].
  destruct (@tx_spacing LinuxKernel LinuxKernelLaws 0%nat [true; true] (linux_state 0) sp)
    as (st' & H1 & H2).
  - exact E.
  - vm_compute in E. injection E as <-. reflexivity.
  - vm_compute in E. injection E as <-. vm_compute. reflexivity.
  - vm_compute. reflexivity.
  - exists st'. split; [exact H1|]. rewrite H2. vm_compute. reflexivity.
Defined.

(** The rate limit is a spacing and not a count: with the 100 ms tick of the
    kernel, a port asked to transmit at every tick sends four LACPDUs within the
    ten ticks of one second. *)
Theorem tx_four_per_second : linux_tx 10 = 4%nat /\ linux_tx 9 = 3%nat.
Proof. split; vm_compute; reflexivity. Qed.

(** The port key is the user key, the speed and the duplex of the link: the update
    leaves the administrative and operational keys equal, with the user bits
    as they were, the speed code and the duplex bit of the slave (zero on a
    reset) in their fields; a change of the key enables LACP exactly for a
    full-duplex port. *)
Theorem actor_key_fields `{K : Kernel} (s : slave) (reset : bool) (p : port) :
  0 <= actor_admin_port_key p < 65536 ->
  let q := update_actor_keys s reset p in
  actor_oper_port_key q = actor_admin_port_key q /\
  0 <= actor_oper_port_key q < 65536 /\
  Z.land (actor_oper_port_key q) AD_DUPLEX_KEY_MASKS = key_duplex s reset /\
  Z.shiftr (Z.land (actor_oper_port_key q) AD_SPEED_KEY_MASKS) 1 = key_speed s reset /\
  Z.land (actor_oper_port_key q) AD_USER_KEY_MASKS = 64 * (actor_admin_port_key p / 64) /\
  (actor_oper_port_key p <> actor_oper_port_key q ->
   has (sm_vars q) AD_PORT_LACP_ENABLED = negb (key_duplex s reset =? 0)).
Proof.
  intros Ha q. destruct (actor_keys_value s reset p Ha) as (E1 & E2 & E3). unfold q.
  assert (0 <= actor_admin_port_key p / 64 < 1024) as Hu.
  { split; [apply Z.div_pos; lia|apply Z.div_lt_upper_bound; lia]. }
  pose proof (link_speed_range s). pose proof (duplex_range s).
  assert (0 <= key_speed s reset < 32 /\ 0 <= key_duplex s reset < 2) as [Hs Hd]
    by (unfold key_speed, key_duplex; destruct reset; lia).
  rewrite E1, E2. destruct (key_split _ _ _ Hu Hs Hd) as (-> & -> & ->).
  split; [done|]. split; [lia|]. done.
Qed.

Lemma actor_key_fields_witness :
  actor_oper_port_key (@update_actor_keys LinuxKernel (slave_at 10000) false linux_port) =
  actor_admin_port_key (@update_actor_keys LinuxKernel (slave_at 10000) false linux_port).
Proof.
  destruct (@actor_key_fields LinuxKernel (slave_at 10000) false linux_port) as [H _];
    [vm_compute; split; congruence|]. exact H.
Defined.

(** The speed tables agree: for every link speed the driver knows, the bandwidth
    counted for one port of an aggregator is the speed of the link in Mb/s. *)
Theorem bandwidth_is_link_speed :
  Forall (fun speed =>
    switch_z bandwidth_cases 0 (@link_speed_of LinuxKernel (slave_at speed)) = speed)
    [10; 100; 1000; 2500; 5000; 10000; 14000; 20000; 25000; 40000; 50000; 56000; 80000;
     100000; 200000; 400000; 800000; 1600000].
Proof. repeat (constructor; [vm_compute; reflexivity|]). constructor. Qed.
