(* ===== verification/AdProps.v ===== *)
(** * 802.3ad: theorems about the bond

    The safety of the whole module, the structure of every reachable state, and
    what the selection, the release of a slave, the mux machine, the timers and
    the reception of frames do. *)

From S2P Require Import Prelude.
From S2P Require Import AdTypes.
From S2P Require Import AdPort.
From S2P Require Import AdMachine.
From S2P Require Import AdControl.
From S2P Require Import AdEntry.
From S2P Require Import AdInv.
From S2P Require Import AdSelect.
From S2P Require Import AdAttach.
From S2P Require Import AdSafe.
From S2P Require Import AdMux.
From S2P Require Import AdUnbind.
From S2P Require Import AdBind.
From S2P Require Import AdReach.
From S2P Require Import AdSample.

Section props.
Context `{K : Kernel}.

Abbreviation MB := (M bonding).

(** ** Shared lemmas *)

(** A run described by [wp] is a run. *)
Lemma wp_runs {A} (m : MB A) (Q : A -> bonding -> Prop) st :
  wp m Q st -> exists a st', m st = Ok (a, st') /\ Q a st'.
Proof. apply wp_inv. Qed.

Lemma lag_next_in lv ids L h a p sp q :
  lag_wf lv ids L h -> a ∈ ids -> p ∈ L a -> h !! p = Some sp ->
  next_port_in_aggregator (ad_port sp) = Some q -> q ∈ L a.
Proof.
  intros Hwf Ha Hp Hsp Hn. destruct (lw_in _ _ _ _ Hwf a Ha) as [sa Hsa].
  pose proof (lw_chain _ _ _ _ Hwf a sa Ha Hsa) as Hc.
  apply list_elem_of_split in Hp as (l1 & l2 & E). rewrite E in Hc |- *.
  destruct (lag_chain_split _ _ _ _ _ Hc) as (sp' & Hsp' & Hn'). simplify_eq.
  rewrite Hn in Hn'. destruct l2; simplify_eq/=. set_solver.
Qed.

(** No pointer of the slaves of [st] leads to [p]. *)
Definition no_pointer_to (p : ptr) (st : bonding) : Prop :=
  forall q sq, q ∈ slave_list st -> slaves st !! q = Some sq ->
    port_aggregator (ad_port sq) <> Some p /\
    next_port_in_aggregator (ad_port sq) <> Some p /\
    lag_ports (ad_agg sq) <> Some p /\
    port_slave (ad_port sq) <> Some p /\ agg_slave (ad_agg sq) <> Some p.

Lemma ad_wf_no_pointer L st p :
  ad_wf None L st -> p ∉ slave_list st -> no_pointer_to p st.
Proof.
  intros Hwf Hp q sq Hq Hsq. pose proof (pw_lag _ _ _ (aw_ports _ _ _ Hwf)) as Hl.
  destruct (lw_slave _ _ _ _ Hl q sq Hq Hsq) as [-> ->]. repeat split.
  - intros E. by destruct (lw_back _ _ _ _ Hl p q sq Hq Hsq ltac:(done) E).
  - intros E. destruct (port_aggregator (ad_port sq)) as [a|] eqn:Ea.
    + destruct (lw_back _ _ _ _ Hl a q sq Hq Hsq ltac:(done) Ea) as [Ha HqL].
      apply Hp. eapply lw_mem; [done|exact Ha|]. by eapply lag_next_in.
    + by rewrite (lw_next _ _ _ _ Hl q sq Hq Hsq ltac:(done) Ea) in E.
  - intros E. pose proof (lw_chain _ _ _ _ Hl q sq Hq Hsq) as Hc.
    apply lag_chain_head in Hc. rewrite E in Hc. apply Hp.
    eapply lw_mem; [done|exact Hq|]. destruct (L q); simplify_eq/=. set_solver.
  - congruence.
  - congruence.
Qed.

(** [l] is what a walk along the list of aggregator [a] visits. *)
Definition ports_of (st : bonding) (a : ptr) (l : list ptr) : Prop :=
  exists sa, slaves st !! a = Some sa /\
    lag_chain (slaves st) (lag_ports (ad_agg sa)) l /\ NoDup l /\
    num_of_ports (ad_agg sa) = Z.of_nat (length l) /\
    forall p, p ∈ l <-> p ∈ slave_list st /\
      exists sp, slaves st !! p = Some sp /\ port_aggregator (ad_port sp) = Some a.

Lemma lag_wf_ports_of L st a :
  lag_wf None (slave_list st) L (slaves st) ->
  Z.of_nat (length (slave_list st)) < 65536 -> a ∈ slave_list st -> ports_of st a (L a).
Proof.
  intros Hl Hlen Ha. destruct (lw_in _ _ _ _ Hl a Ha) as [sa Hsa]. exists sa.
  split; [done|]. split; [by eapply lw_chain|]. split; [by eapply lw_nodup|]. split.
  - rewrite (lw_num _ _ _ _ Hl a sa Ha Hsa). apply u16_id.
    pose proof (lag_wf_length _ _ _ _ a Hl Ha). lia.
  - intros p. split.
    + intros Hp. assert (p ∈ slave_list st) as Hin by by eapply lw_mem.
      split; [done|]. destruct (lw_in _ _ _ _ Hl p Hin) as [sp Hsp]. exists sp.
      split; [done|]. by eapply lw_fwd.
    + intros (Hin & sp & Hsp & Hag).
      by destruct (lw_back _ _ _ _ Hl a p sp Hin Hsp ltac:(done) Hag).
Qed.

(** The lists of ports of the bond. *)
Definition lists_of (L : ptr -> list ptr) (st : bonding) : Prop :=
  forall a, a ∈ slave_list st -> ports_of st a (L a).

Lemma reachable_wf (KL : KernelLaws K) st :
  reachable st -> exists L, ad_wf None L st /\ lists_of L st /\
    Z.of_nat (length (slave_list st)) < 65536.
Proof.
  intros Hr. destruct (reachable_inv KL st Hr) as [[L Hwf] Hlen]. exists L.
  split; [done|]. split; [|done]. intros a Ha. apply lag_wf_ports_of; [apply Hwf|done..].
Qed.

(** The state after an operation. *)
Definition after (op : ad_op) (st : bonding) : bonding :=
  match run_op op st with Ok (_, st') => st' | Err _ => st end.

Lemma reachable_after op st : reachable st -> allowed op st -> reachable (after op st).
Proof.
  intros Hr Hal. unfold after. destruct (run_op op st) as [[[] st']|e] eqn:E; [|done].
  by eapply reach_step.
Qed.

(** The carrier that the active aggregator calls for. *)
Lemma carrier_update_ok (KL : KernelLaws K) want dev :
  netif_carrier_ok (carrier_update want dev) = want.
Proof.
  unfold carrier_update. destruct (netif_carrier_ok dev) eqn:E, want; simpl;
    rewrite ?netif_carrier_on_ok, ?netif_carrier_off_ok; done.
Qed.

(** ** The selection timer under interference *)

(** The last value stored before the [k]-th turn. *)
Definition last_store (env : list Z) (k : nat) (t : Z) : Z := default t (last (take k env)).

(** ** Updates of every port *)

(** The slaves after [f] was applied to the ports of [ids]. *)
Definition ports_updated (f : port -> port) (ids : list ptr) (st st' : bonding) : Prop :=
  slave_list st' = slave_list st /\
  forall q, slaves st' !! q =
    if decide (q ∈ ids) then (fun s => s <| ad_port ::= f |>) <$> slaves st !! q
    else slaves st !! q.

Lemma wp_update_ports (f : port -> port) st :
  NoDup (slave_list st) -> (forall p, p ∈ slave_list st -> is_Some (slaves st !! p)) ->
  wp (for_each_port (fun s => upd_port s f))
    (fun _ st' => ports_updated f (slave_list st) st st') st.
Proof.
  intros Hnd Hin. apply wp_bind, wp_gets.
  apply (wp_for_each (fun pre _ st' => ports_updated f pre st st')); [| |done].
  - split; [done|]. intros q. by rewrite decide_False by apply not_elem_of_nil.
  - intros pre p post ? st' Hl [HS Hq].
    assert (p ∉ pre) as Hp.
    { rewrite Hl in Hnd. apply NoDup_app in Hnd as (_ & Hx & _). intros Hp.
      apply (Hx p Hp). set_solver. }
    destruct (Hin p) as [sp Hsp]; [rewrite Hl; set_solver|].
    apply wp_bind. eapply (wp_upd_slave _ _ _ _ sp).
    { by rewrite Hq, decide_False. }
    apply wp_ret. split; [done|]. intros q. rec_simpl. rewrite lookup_insert.
    destruct (decide (p = q)) as [<-|Hne].
    + rewrite decide_True by set_solver. by rewrite Hsp.
    + rewrite Hq. destruct (decide (q ∈ pre)).
      * rewrite decide_True by set_solver. done.
      * rewrite decide_False; [done|]. set_solver.
Qed.
End props.

(** ** A bond of the concrete kernel *)

(** Two slaves, enslaved one after the other. *)
Definition linux_two : @bonding LinuxKernel :=
  after (OpEnslave 1 1%nat (linux_slave (mac 2)))
    (after (OpEnslave 0 0%nat (linux_slave (mac 1))) linux_bond).

(** What the partner sends on its port [i], in network byte order: it is in sync,
    collecting and distributing, and knows the port of the bond. *)
Definition peer_pdu (i : Z) : lacpdu :=
  zero_pdu <| l_subtype := 1 |> <| l_version_number := 1 |>
    <| l_actor_system := mac 9 |> <| l_actor_system_priority := 256 |>
    <| l_actor_key := 17 * 256 |> <| l_actor_port := i * 256 |> <| l_actor_state := 0x3f |>
    <| l_partner_system := mac 1 |> <| l_partner_system_priority := 65535 |>
    <| l_partner_key := 9 * 256 |> <| l_partner_port := i * 256 |>
    <| l_partner_port_priority := 255 * 256 |> <| l_partner_state := 0x3f |>.

Definition linux_frame (i : Z) : @sk_buff :=
  SkBuff (@PKT_TYPE_LACPDU LinuxKernel) lacpdu_mcast_addr (Some (peer_pdu i)).

(** One second: a LACPDU for each slave, then ten ticks. *)
Definition linux_second (st : @bonding LinuxKernel) : @bonding LinuxKernel :=
  Nat.iter 10 (after (OpTick [] true))
    (after (OpReceive (linux_frame 2) 1%nat) (after (OpReceive (linux_frame 1) 0%nat) st)).

Definition linux_peer (n : nat) : @bonding LinuxKernel := Nat.iter n linux_second linux_two.

Definition linux_ok (st : @bonding LinuxKernel) : Prop :=
  reachable st /\ slave_list st = [0%nat; 1%nat].

Lemma linux_step op st :
  linux_ok st -> allowed op st ->
  ((exists L, ad_wf None L st) -> safe (run_op op) st) -> linux_ok (after op st).
Proof.
  intros [Hr HS] Hal Hs. split; [by apply reachable_after|].
  destruct (reachable_inv LinuxKernelLaws st Hr) as [HL _]. specialize (Hs HL).
  unfold safe, wp in Hs. unfold after. rewrite <-HS.
  destruct (run_op op st) as [[u st']|e]; [by destruct Hs|done].
Qed.

Lemma linux_receive skb s st :
  linux_ok st -> s ∈ [0%nat; 1%nat] -> linux_ok (after (OpReceive skb s) st).
Proof.
  intros Hok Hs. destruct Hok as [Hr HS]. rewrite <-HS in Hs.
  apply linux_step; [done|done|]. intros HL. simpl.
  apply safe_bind; [by apply (safe_receive LinuxKernelLaws)|]. intros. by apply safe_ret.
Qed.

Lemma linux_peer_ok n : linux_ok (linux_peer n).
Proof.
  induction n as [|n IH].
  - split; [|by vm_compute].
    apply reachable_after; [apply reachable_after; [by apply reach_init|]|].
    + split; [apply not_elem_of_nil|]. split; [done|]. simpl. lia.
    + assert (slave_list (after (OpEnslave 0 0%nat (linux_slave (mac 1))) linux_bond) = [0%nat])
        as E by by vm_compute.
      simpl. rewrite E. split; [by rewrite list_elem_of_singleton|]. split; [done|]. simpl. lia.
  - cbn [linux_peer Nat.iter]. unfold linux_second.
    assert (forall k st, linux_ok st ->
      linux_ok (Nat.iter k (after (@OpTick LinuxKernel [] true)) st)) as Hticks.
    { intros k st Hok. induction k as [|k IHk]; [done|]. apply linux_step; [done|done|].
      intros. by apply (safe_handler LinuxKernelLaws). }
    apply Hticks. apply linux_receive; [apply linux_receive|]; [done|set_solver..].
Qed.

Lemma linux_peer_in n p : p ∈ [0%nat; 1%nat] -> p ∈ slave_list (linux_peer n).
Proof. by rewrite (proj2 (linux_peer_ok n)). Qed.

(** The slave at address [p] after [n] seconds. *)
Definition linux_at (n : nat) (p : ptr) : @slave LinuxKernel :=
  default (linux_slave zero_mac) (slaves (linux_peer n) !! p).

Section claims.
Context `{K : Kernel} (KL : KernelLaws K).

(** C1. Safety: in every state that the module reaches, every allowed call ends
    without following a null or dangling pointer and without a walk that does
    not end, and it keeps the invariant. *)
Theorem ad_no_fault op st :
  reachable st -> allowed op st -> exists st', run_op op st = Ok (tt, st') /\ ad_inv st'.
Proof.
  intros Hr Hal. pose proof (wp_run_op KL op st (reachable_inv KL st Hr) Hal) as Hwp.
  apply wp_runs in Hwp as ([] & st' & ? & ?). eauto.
Qed.

(** C2. In every reachable state the LAG list of each aggregator is a duplicate
    free list that ends, holds exactly the ports whose aggregator pointer names
    the aggregator, and [num_of_ports] is its length. *)
Theorem reachable_lists st a :
  reachable st -> a ∈ slave_list st -> exists l, ports_of st a l.
Proof. intros Hr Ha. destruct (reachable_wf KL st Hr) as (L & _ & HL & _). eauto. Qed.

(** In every reachable state at most one aggregator is active, and an active
    aggregator holds a port. *)
Theorem reachable_one_active st a b :
  reachable st -> a ∈ slave_list st -> b ∈ slave_list st ->
  is_active_at (slaves st) a = true -> is_active_at (slaves st) b = true ->
  a = b /\ exists p sp, p ∈ slave_list st /\ slaves st !! p = Some sp /\
    port_aggregator (ad_port sp) = Some a.
Proof.
  intros Hr Ha Hb Hact Hbct. destruct (reachable_wf KL st Hr) as (L & Hwf & _).
  pose proof (active_unique _ _ _ Hwf Ha Hact) as E1.
  pose proof (active_unique _ _ _ Hwf Hb Hbct) as E2.
  split; [congruence|]. by eapply active_has_port.
Qed.

(** In every reachable state each port advertises COLLECTING and DISTRIBUTING
    exactly as its mux state says, and a SELECTED port has an aggregator of the
    bond. *)
Theorem reachable_mux_flags st p sp :
  reachable st -> p ∈ slave_list st -> slaves st !! p = Some sp ->
  mux_flags (ad_port sp) /\
  (has (sm_vars (ad_port sp)) AD_PORT_SELECTED = true ->
   exists a, port_aggregator (ad_port sp) = Some a /\ a ∈ slave_list st).
Proof.
  intros Hr Hp Hsp. destruct (reachable_wf KL st Hr) as (L & Hwf & _).
  destruct (pw_port _ _ _ (aw_ports _ _ _ Hwf) p sp Hp Hsp ltac:(done)) as [Hsel Hmux].
  split; [done|]. intros Hs. specialize (Hsel Hs).
  destruct (port_aggregator (ad_port sp)) as [a|] eqn:Ea; [|done]. exists a.
  split; [done|]. by eapply (lw_back _ _ _ _ (pw_lag _ _ _ (aw_ports _ _ _ Hwf))).
Qed.

(** C3. Refinement of the selection: from every reachable state the selection logic
    ends, makes exactly the aggregator of the specification active, keeps all
    lists, and leaves the carrier of the bond on exactly when the active
    aggregator has enough active ports. *)
Theorem selection_refines f upd st :
  reachable st -> f ∈ slave_list st ->
  exists L u st', lists_of L st /\ lists_of L st' /\
    ad_agg_selection_logic (Some f) upd st = Ok (u, st') /\
    only_active (slaves st') (slave_list st)
      (select_result (ad_select (params st)) (slaves st) L (slave_list st)) /\
    netif_carrier_ok (bond_dev st') = carrier_wanted L st'.
Proof.
  intros Hr Hf. destruct (reachable_wf KL st Hr) as (L & Hwf & HL & Hlen).
  pose proof (pw_lag _ _ _ (aw_ports _ _ _ Hwf)) as Hl.
  destruct (wp_runs _ _ _ (wp_agg_selection_logic None L f upd st Hl Hf))
    as (u & st' & Hrun & Hk & Hon & _ & _ & dev & Hdev).
  exists L, u, st'. split; [done|]. split.
  { intros a Ha. pose proof (kp_list _ _ _ _ Hk) as HS.
    apply lag_wf_ports_of; rewrite ?HS in *; [by eapply lag_wf_keeps|done..]. }
  split; [done|]. split; [done|]. rewrite Hdev. by apply carrier_update_ok.
Qed.

(** Under every policy but STABLE, the selection leaves an aggregator active
    whenever some aggregator has an active port and a link that is up, and no
    such aggregator ranks above the active one: first by not being individual,
    then by having a partner, then by the policy. *)
Theorem selection_optimal f upd st :
  reachable st -> f ∈ slave_list st -> ad_select (params st) <> BOND_AD_STABLE ->
  exists L u st', lists_of L st /\ ad_agg_selection_logic (Some f) upd st = Ok (u, st') /\
    forall c, c ∈ slave_list st -> candidate (slaves st) L c = true ->
    exists b, active_of (slaves st') (slave_list st) = Some b /\
      lex_ltb (agg_key (ad_select (params st)) (slaves st) L b)
              (agg_key (ad_select (params st)) (slaves st) L c) = false.
Proof.
  intros Hr Hf Hmode. destruct (reachable_wf KL st Hr) as (L & Hwf & HL & Hlen).
  pose proof (pw_lag _ _ _ (aw_ports _ _ _ Hwf)) as Hl.
  destruct (wp_runs _ _ _ (wp_agg_selection_logic None L f upd st Hl Hf))
    as (u & st' & Hrun & _ & Hon & _).
  exists L, u, st'. split; [done|]. split; [done|]. intros c Hc Hcand.
  rewrite (only_active_of _ _ _ (lw_ids _ _ _ _ Hl) Hon)
    by (intros; by eapply select_result_in).
  unfold select_result. rewrite (proj2 (Z.eqb_neq _ _) Hmode).
  destruct (best_agg _ _ _ _) as [b|] eqn:Eb.
  - exists b. split; [done|]. apply best_of_spec in Eb as [Hbest _]. auto.
  - exfalso. by eapply best_of_none.
Qed.

(** Under STABLE, an active aggregator with an active port, a link that is up, a
    partner and a nonzero key stays the active one. *)
Theorem selection_stable f upd st a sa :
  reachable st -> f ∈ slave_list st -> ad_select (params st) = BOND_AD_STABLE ->
  a ∈ slave_list st -> slaves st !! a = Some sa -> is_active (ad_agg sa) = true ->
  __agg_has_partner (ad_agg sa) = true -> actor_oper_aggregator_key (ad_agg sa) <> 0 ->
  exists L u st', lists_of L st /\ ad_agg_selection_logic (Some f) upd st = Ok (u, st') /\
    (candidate (slaves st) L a = true ->
     active_of (slaves st') (slave_list st) = Some a).
Proof.
  intros Hr Hf Hmode Ha Hsa Hact Hpart Hkey.
  destruct (reachable_wf KL st Hr) as (L & Hwf & HL & Hlen).
  pose proof (pw_lag _ _ _ (aw_ports _ _ _ Hwf)) as Hl.
  destruct (wp_runs _ _ _ (wp_agg_selection_logic None L f upd st Hl Hf))
    as (u & st' & Hrun & _ & Hon & _).
  exists L, u, st'. split; [done|]. split; [done|]. intros Hcand.
  rewrite (only_active_of _ _ _ (lw_ids _ _ _ _ Hl) Hon)
    by (intros; by eapply select_result_in).
  unfold select_result. rewrite Hmode, Z.eqb_refl.
  rewrite (active_unique L st a Hwf Ha) by (unfold is_active_at; by rewrite Hsa).
  destruct (best_agg _ _ _ _) as [b|] eqn:Eb; [|exfalso; by eapply best_of_none].
  assert (b ∈ slave_list st) as Hb by by eapply best_agg_in.
  destruct (lw_in _ _ _ _ Hl b Hb) as [sb Hsb].
  unfold stable_keeps. rewrite Hsa, Hsb, Hpart, (proj2 (Z.eqb_neq _ _) Hkey).
  apply andb_true_iff in Hcand as [-> _]. done.
Qed.

(** The port selection always finds an aggregator: from every reachable state it
    ends with the port SELECTED and on the list of an aggregator of the bond, and
    the invariant holds. *)
Theorem port_selection_attaches p upd st :
  reachable st -> p ∈ slave_list st ->
  exists u st', ad_port_selection_logic p upd st = Ok (u, st') /\
    attached p st' /\ ad_inv st' /\ slave_list st' = slave_list st.
Proof.
  intros Hr Hp. destruct (reachable_wf KL st Hr) as (L & Hwf & _ & Hlen).
  destruct (wp_runs _ _ _ (wp_ad_port_selection_logic KL L p upd st Hwf Hp))
    as (u & st' & Hrun & HS & Hat & HL). exists u, st'.
  split; [done|]. split; [done|]. split; [|done]. split; [done|]. by rewrite HS.
Qed.

(** The search for an aggregator takes the port off its old list and then puts it
    in front of the list of the first LAG with matching parameters, or else of the
    first aggregator without ports; all other ports keep their aggregator. *)
Theorem select_aggregator_joins p st :
  reachable st -> p ∈ slave_list st ->
  exists L st', lists_of L st /\ select_aggregator p st = Ok (true, st') /\
    reattached L p st st'.
Proof.
  intros Hr Hp. destruct (reachable_wf KL st Hr) as (L & Hwf & HL & _).
  pose proof (pw_lag _ _ _ (aw_ports _ _ _ Hwf)) as Hl.
  destruct (wp_runs _ _ _ (wp_select_aggregator L p st Hl Hp)) as (u & st' & Hrun & -> & Hre).
  eauto.
Qed.

(** C5. Releasing a slave: no pointer of the remaining slaves leads to the freed one,
    and the invariant holds of the remaining slaves. *)
Theorem release_leaves_no_pointer p st :
  reachable st -> p ∈ slave_list st ->
  exists st', bond_release_ad p st = Ok (tt, st') /\ no_pointer_to p st' /\
    slave_list st' = filter (fun q => q <> p) (slave_list st) /\
    slaves st' !! p = None /\ ad_inv st'.
Proof.
  intros Hr Hp. destruct (reachable_wf KL st Hr) as (L & Hwf & HL & Hlen).
  destruct (wp_runs _ _ _ (wp_bond_release_ad KL L p st Hwf Hp Hlen))
    as ([] & st' & Hrun & L' & Hwf' & HS & Hnone). exists st'. split; [done|]. split.
  { eapply ad_wf_no_pointer; [done|]. rewrite HS, list_elem_of_filter. naive_solver. }
  split; [done|]. split; [done|]. split; [eauto|]. rewrite HS.
  pose proof (length_filter (fun q => q <> p) (slave_list st)). lia.
Qed.


(** The report on the active aggregator changes nothing and describes the active
    aggregator with its number of active ports; it fails exactly when no aggregator
    is active. *)
Theorem active_agg_reported st :
  reachable st ->
  exists L, lists_of L st /\ bond_3ad_get_active_agg_info st = Ok (active_info L st, st).
Proof.
  intros Hr. destruct (reachable_wf KL st Hr) as (L & Hwf & HL & _). exists L.
  split; [done|].
  destruct (wp_runs _ _ _ (wp_get_info KL L st Hwf)) as (r & st' & Hrun & -> & ->). done.
Qed.
End claims.

(** The selection timer, when other threads store new values in it during the
    compare-and-exchange loop: the loop ends, the decrement applies to the last value
    stored before the turn that succeeds, and the call reports expiry exactly when
    that value was 1. *)
Theorem agg_timer_advance_last `{K : Kernel} env st :
  exists k r, (k <= length env)%nat /\
    let v := last_store env k (agg_select_timer st) in
    bond_agg_timer_advance env st =
      Ok (r, st <| agg_select_timer := if v =? 0 then 0 else v - 1 |>) /\ r = (v =? 1).
Proof.
  revert st. induction env as [|x env IH]; intros st.
  - exists 0%nat, (agg_select_timer st =? 1). split; [done|]. cbv zeta. unfold last_store. simpl.
    unfold bind, gets. destruct (Z.eqb_spec (agg_select_timer st) 0) as [E|E].
    + split; [|done]. unfold ret. rewrite E. f_equal. f_equal. destruct st. simpl in *.
      by rewrite E.
    + split; [|done]. unfold modify, ret. do 2 f_equal. lia.
  - simpl. unfold bind, gets. destruct (Z.eqb_spec (agg_select_timer st) 0) as [E|E].
    + exists 0%nat, (agg_select_timer st =? 1). split; [lia|]. cbv zeta. unfold last_store. simpl.
      split; [|done]. unfold ret. rewrite E. f_equal. f_equal. destruct st. simpl in *.
      by rewrite E.
    + unfold bond_3ad_initiate_agg_selection, modify.
      destruct (Z.eqb_spec x (agg_select_timer st)) as [Ex|Ex].
      * exists 1%nat, (x =? 1). split; [lia|]. cbv zeta. unfold last_store. simpl.
        split; [|done]. unfold ret. rewrite (proj2 (Z.eqb_neq x 0)) by lia.
        rewrite Ex. destruct st. unfold upd_field. simpl. do 2 f_equal. lia.
      * destruct (IH (st <| agg_select_timer := x |>)) as (k & r & Hk & Hrun & Hr).
        exists (S k), r. split; [lia|]. cbv zeta in *. rewrite Hrun.
        assert (last_store (x :: env) (S k) (agg_select_timer st) =
          last_store env k (agg_select_timer (st <| agg_select_timer := x |>))) as ->.
        { unfold last_store. simpl. destruct (take k env) as [|y l]; [done|].
          rewrite last_cons_cons. destruct (last (y :: l)) eqn:El; [done|].
          by apply last_None in El. }
        split; [|done]. destruct st. done.
Qed.

Section receive.
Context `{K : Kernel} (KL : KernelLaws K).

Abbreviation MB := (M bonding).

(** The state after the counters and the port of slave [s] changed. *)
Definition counted (s : ptr) (sl : slave) (f : bond_3ad_stats -> bond_3ad_stats)
    (st : bonding) : bonding :=
  st <| slaves ::= <[s := sl <| ad_stats ::= f |>]> |> <| bond_stats ::= f |>.

Lemma wp_inc_counted s sl f (Q : unit -> bonding -> Prop) st :
  slaves st !! s = Some sl -> Q tt (counted s sl f st) -> wp (inc_stat s f) Q st.
Proof. intros Hs HQ. apply wp_bind. eapply wp_upd_slave; [done|]. by apply wp_mod. Qed.

Lemma counted_lookup s sl f st :
  slaves (counted s sl f st) !! s = Some (sl <| ad_stats ::= f |>).
Proof. unfold counted. rec_simpl. apply lookup_insert_eq. Qed.

(** Frames that are not for the module leave everything unchanged and are passed
    on; a frame too short for a LACPDU is counted as illegal, for the slave and for
    the bond, and passed on. *)
Theorem other_frames_ignored skb s sl st :
  slaves st !! s = Some sl ->
  bond_3ad_lacpdu_recv skb s st =
    if (skb_protocol skb =? PKT_TYPE_LACPDU) &&
       MAC_ADDRESS_EQUAL (skb_h_dest skb) lacpdu_mcast_addr
    then match skb_lacpdu skb with
         | None => Ok (RX_HANDLER_ANOTHER,
             counted s sl (fun t => t <| lacpdu_illegal_rx ::= atomic64_inc |>) st)
         | Some l => bond_3ad_rx_indication l s st
         end
    else Ok (RX_HANDLER_ANOTHER, st).
Proof.
  intros Hs. unfold bond_3ad_lacpdu_recv. destruct (_ =? _); [|done].
  destruct (MAC_ADDRESS_EQUAL _ _); [|done]. destruct (skb_lacpdu skb); [done|].
  simpl. unfold inc_stat, bind, upd_slave. by rewrite Hs.
Qed.

(** A LACPDU for a slave of the bond is consumed: it is counted for the slave and
    the bond, the receive machine of that port runs on it, and nothing else
    changes. *)
Theorem lacpdu_received l s sl st :
  reachable st -> s ∈ slave_list st -> slaves st !! s = Some sl ->
  l_subtype l = AD_TYPE_LACPDU ->
  exists pt', ad_rx_machine_port (Some l) (ad_port sl) = Ok pt' /\
    bond_3ad_rx_indication l s st = Ok (RX_HANDLER_CONSUMED,
      counted s (sl <| ad_port := pt' |>) (fun t => t <| lacpdu_rx ::= atomic64_inc |>) st).
Proof.
  intros Hr Hin Hs Ht. destruct (reachable_wf KL st Hr) as (L & Hwf & _).
  destruct (lw_slave _ _ _ _ (pw_lag _ _ _ (aw_ports _ _ _ Hwf)) s sl Hin Hs) as [Hps _].
  destruct (rx_machine_ok KL (Some l) (ad_port sl)) as (pt' & Hok & _). exists pt'.
  split; [done|].
  assert (wp (bond_3ad_rx_indication l s) (fun r st' => r = RX_HANDLER_CONSUMED /\ st' =
      counted s (sl <| ad_port := pt' |>) (fun t => t <| lacpdu_rx ::= atomic64_inc |>) st)
    st) as Hwp; [|by apply wp_runs in Hwp as (? & ? & -> & -> & ->)].
  apply wp_bind. eapply wp_get_port; [done|]. rewrite Hps, Ht, Z.eqb_refl.
  apply wp_bind, wp_bind, wp_bind. eapply wp_get_port; [done|]. rewrite Hps.
  apply wp_bind, wp_ret. eapply wp_inc_counted; [done|].
  apply wp_bind. eapply wp_get_port; [apply counted_lookup|]. apply wp_bind.
  rec_simpl. unfold wp, lift at 1. rewrite Hok.
  eapply wp_upd_slave; [apply counted_lookup|]. apply wp_ret. split; [done|].
  unfold counted. destruct st, sl. unfold upd_field. simpl. by rewrite insert_insert_eq.
Qed.

(** A marker information PDU is consumed and counted, and when a buffer is
    available the same marker is sent back from that slave as a marker response,
    which is counted too. *)
Theorem marker_answered l s sl st :
  reachable st -> s ∈ slave_list st -> slaves st !! s = Some sl ->
  l_subtype l = AD_TYPE_MARKER ->
  mk_tlv_type (marker_of_lacpdu l) = AD_MARKER_INFORMATION_SUBTYPE ->
  exists st', bond_3ad_rx_indication l s st = Ok (RX_HANDLER_CONSUMED, st') /\
    let rx := fun t => t <| marker_rx ::= atomic64_inc |> in
    let tx := fun t => t <| marker_resp_tx ::= atomic64_inc |> in
    let sent := dev_alloc_skb_ok (alloc_count st) in
    slaves st' = <[s := sl <| ad_stats ::= fun t => if sent then tx (rx t) else rx t |>]>
      (slaves st) /\
    bond_stats st' = (if sent then tx (rx (bond_stats st)) else rx (bond_stats st)) /\
    trace st' = if sent then
      XmitMarker s lacpdu_mcast_addr (sl_perm_hwaddr sl)
        (marker_of_lacpdu l <| mk_tlv_type := AD_MARKER_RESPONSE_SUBTYPE |>) :: trace st
      else trace st.
Proof.
  intros Hr Hin Hs Ht Hm. destruct (reachable_wf KL st Hr) as (L & Hwf & _).
  destruct (lw_slave _ _ _ _ (pw_lag _ _ _ (aw_ports _ _ _ Hwf)) s sl Hin Hs) as [Hps _].
  match goal with |- exists st', _ /\ @?Q st' =>
    enough (wp (bond_3ad_rx_indication l s)
      (fun r st' => r = RX_HANDLER_CONSUMED /\ Q st') st) as Hwp
      by (apply wp_runs in Hwp as (? & ? & -> & -> & ?); eauto) end.
  apply wp_bind. eapply wp_get_port; [done|]. cbv zeta. rewrite Hps, Ht, Hm, !Z.eqb_refl.
  rewrite (proj2 (Z.eqb_neq AD_TYPE_MARKER _)) by (pose proof ad_types_distinct; congruence).
  cbv zeta.
  apply wp_bind, wp_bind. eapply wp_get_port; [done|]. rewrite Hps.
  apply wp_bind, wp_ret, wp_bind. eapply wp_inc_counted; [done|].
  apply wp_bind, wp_bind. eapply wp_get_port; [apply counted_lookup|].
  apply wp_bind, wp_bind, wp_gets, wp_bind, wp_mod, wp_ret.
  unfold counted at 1. rec_simpl. destruct (dev_alloc_skb_ok (alloc_count st)) eqn:Ea; simpl.
  - rewrite Hps. apply wp_bind, wp_ret, wp_bind.
    rewrite (proj2 (Z.eqb_neq AD_MARKER_RESPONSE_SUBTYPE _))
      by (pose proof marker_types_distinct; congruence).
    rewrite Z.eqb_refl. eapply wp_inc_counted; [rec_simpl; apply lookup_insert_eq|].
    apply wp_bind. eapply wp_get_slave; [apply counted_lookup|].
    apply wp_bind, wp_mod, wp_ret, wp_ret, wp_ret. split; [done|]. unfold counted. rec_simpl.
    by rewrite insert_insert_eq.
  - apply wp_ret, wp_ret, wp_ret. done.
Qed.
End receive.

(** A change of the lacp_rate option reaches every port of the bond: afterwards each
    port advertises a short timeout exactly when the rate is fast, and nothing else of
    any slave changes. *)
Theorem lacp_rate_everywhere `{K : Kernel} (KL : KernelLaws K) st :
  reachable st ->
  exists st', bond_3ad_update_lacp_rate st = Ok (tt, st') /\
    slave_list st' = slave_list st /\
    forall p sp, p ∈ slave_list st -> slaves st !! p = Some sp ->
    exists v, slaves st' !! p =
        Some (sp <| ad_port ::= fun pt => pt <| actor_oper_port_state := v |> |>) /\
      has v LACP_STATE_LACP_TIMEOUT = lacp_fast (params st) /\
      forall f, Z.land LACP_STATE_LACP_TIMEOUT f = 0 ->
        has v f = has (actor_oper_port_state (ad_port sp)) f.
Proof.
  intros Hr. destruct (reachable_wf KL st Hr) as (L & Hwf & _).
  pose proof (pw_lag _ _ _ (aw_ports _ _ _ Hwf)) as Hl.
  set (g := fun v => if lacp_fast (params st) then setf v LACP_STATE_LACP_TIMEOUT
                     else clrf v LACP_STATE_LACP_TIMEOUT).
  destruct (wp_runs _ _ _ (wp_update_ports (fun pt => pt <| actor_oper_port_state ::= g |>) st
    (lw_ids _ _ _ _ Hl) (lw_in _ _ _ _ Hl))) as ([] & st' & Hrun & HS & Hq).
  exists st'. split; [exact Hrun|]. split; [done|]. intros p sp Hp Hsp.
  exists (g (actor_oper_port_state (ad_port sp))). split.
  - by rewrite Hq, decide_True, Hsp.
  - assert (LACP_STATE_LACP_TIMEOUT <> 0) as Hz by by apply (lacp_bits_nonzero 1).
    unfold g. destruct (lacp_fast _).
    + split; [by apply has_setf_same|]. intros. by apply has_setf_other.
    + split; [apply has_clrf_same|]. intros. by apply has_clrf_other.
Qed.

(** ** The theorems at concrete states *)

Ltac peer_in := apply linux_peer_in; set_solver.

Lemma ad_no_fault_witness :
  exists st', run_op (OpRelease 0%nat) (linux_peer 9) = Ok (tt, st') /\ ad_inv st'.
Proof.
  apply (@ad_no_fault LinuxKernel LinuxKernelLaws); [apply (linux_peer_ok 9)|peer_in].
Defined.

Lemma reachable_lists_witness : exists l, ports_of (linux_peer 9) 0%nat l.
Proof.
  apply (@reachable_lists LinuxKernel LinuxKernelLaws); [apply (linux_peer_ok 9)|peer_in].
Defined.

Lemma reachable_one_active_witness :
  0%nat = 0%nat /\ exists p sp, p ∈ slave_list (linux_peer 9) /\
    slaves (linux_peer 9) !! p = Some sp /\ port_aggregator (ad_port sp) = Some 0%nat.
Proof.
  apply (@reachable_one_active LinuxKernel LinuxKernelLaws);
    [apply (linux_peer_ok 9)|peer_in|peer_in|by vm_compute|by vm_compute].
Defined.

Lemma reachable_mux_flags_witness :
  @mux_flags LinuxKernel (ad_port (linux_at 9 0%nat)) /\
  (has (sm_vars (ad_port (linux_at 9 0%nat))) (@AD_PORT_SELECTED) = true ->
   exists a, port_aggregator (ad_port (linux_at 9 0%nat)) = Some a /\
     a ∈ slave_list (linux_peer 9)).
Proof.
  apply (@reachable_mux_flags LinuxKernel LinuxKernelLaws _ 0%nat);
    [apply (linux_peer_ok 9)|peer_in|by vm_compute].
Defined.

Lemma selection_refines_witness :
  exists L u st', lists_of L (linux_peer 9) /\ lists_of L st' /\
    ad_agg_selection_logic (Some 0%nat) false (linux_peer 9) = Ok (u, st') /\
    only_active (slaves st') (slave_list (linux_peer 9))
      (select_result (ad_select (params (linux_peer 9))) (slaves (linux_peer 9)) L
         (slave_list (linux_peer 9))) /\
    netif_carrier_ok (bond_dev st') = carrier_wanted L st'.
Proof.
  apply (@selection_refines LinuxKernel LinuxKernelLaws); [apply (linux_peer_ok 9)|peer_in].
Defined.

(** The same bond under the COUNT policy. *)
Definition linux_count : @bonding LinuxKernel :=
  after (OpParams (linux_params <| ad_select := 2 |>) (mac 1)) (linux_peer 9).

Lemma linux_count_ok : linux_ok linux_count.
Proof.
  split; [|by vm_compute]. apply reachable_after; [apply (linux_peer_ok 9)|done].
Qed.

Lemma selection_optimal_witness :
  exists L u st', lists_of L linux_count /\
    ad_agg_selection_logic (Some 0%nat) false linux_count = Ok (u, st') /\
    forall c, c ∈ slave_list linux_count -> candidate (slaves linux_count) L c = true ->
    exists b, active_of (slaves st') (slave_list linux_count) = Some b /\
      lex_ltb (agg_key (ad_select (params linux_count)) (slaves linux_count) L b)
              (agg_key (ad_select (params linux_count)) (slaves linux_count) L c) = false.
Proof.
  apply (@selection_optimal LinuxKernel LinuxKernelLaws); [apply linux_count_ok| |].
  - rewrite (proj2 linux_count_ok). set_solver.
  - by vm_compute.
Defined.

Lemma selection_stable_witness :
  exists L u st', lists_of L (linux_peer 9) /\
    ad_agg_selection_logic (Some 1%nat) false (linux_peer 9) = Ok (u, st') /\
    (candidate (slaves (linux_peer 9)) L 0%nat = true ->
     active_of (slaves st') (slave_list (linux_peer 9)) = Some 0%nat).
Proof.
  apply (@selection_stable LinuxKernel LinuxKernelLaws _ _ _ _ (linux_at 9 0%nat));
    [apply (linux_peer_ok 9)|peer_in|by vm_compute|peer_in|by vm_compute..].
Defined.

Lemma port_selection_attaches_witness :
  exists u st', ad_port_selection_logic 1%nat false (linux_peer 9) = Ok (u, st') /\
    attached 1%nat st' /\ ad_inv st' /\ slave_list st' = slave_list (linux_peer 9).
Proof.
  apply (@port_selection_attaches LinuxKernel LinuxKernelLaws);
    [apply (linux_peer_ok 9)|peer_in].
Defined.

Lemma select_aggregator_joins_witness :
  exists L st', lists_of L (linux_peer 9) /\
    select_aggregator 1%nat (linux_peer 9) = Ok (true, st') /\
    reattached L 1%nat (linux_peer 9) st'.
Proof.
  apply (@select_aggregator_joins LinuxKernel LinuxKernelLaws);
    [apply (linux_peer_ok 9)|peer_in].
Defined.

Lemma release_leaves_no_pointer_witness :
  exists st', bond_release_ad 0%nat (linux_peer 9) = Ok (tt, st') /\ no_pointer_to 0%nat st' /\
    slave_list st' = filter (fun q => q <> 0%nat) (slave_list (linux_peer 9)) /\
    slaves st' !! 0%nat = None /\ ad_inv st'.
Proof.
  apply (@release_leaves_no_pointer LinuxKernel LinuxKernelLaws);
    [apply (linux_peer_ok 9)|peer_in].
Defined.


Lemma active_agg_reported_witness :
  exists L, lists_of L (linux_peer 9) /\
    bond_3ad_get_active_agg_info (linux_peer 9) = Ok (active_info L (linux_peer 9), linux_peer 9).
Proof.
  apply (@active_agg_reported LinuxKernel LinuxKernelLaws), (linux_peer_ok 9).
Defined.

Lemma other_frames_ignored_witness :
  bond_3ad_lacpdu_recv (SkBuff 0x0608 (mac 3) None) 0%nat (linux_peer 9) =
    Ok (RX_HANDLER_ANOTHER, linux_peer 9).
Proof.
  rewrite (@other_frames_ignored LinuxKernel _ _ (linux_at 9 0%nat)); by vm_compute.
Defined.

Lemma lacpdu_received_witness :
  exists pt', @ad_rx_machine_port LinuxKernel (Some (peer_pdu 1)) (ad_port (linux_at 9 0%nat))
      = Ok pt' /\
    bond_3ad_rx_indication (peer_pdu 1) 0%nat (linux_peer 9) = Ok (RX_HANDLER_CONSUMED,
      counted 0%nat (linux_at 9 0%nat <| ad_port := pt' |>)
        (fun t => t <| lacpdu_rx ::= atomic64_inc |>) (linux_peer 9)).
Proof.
  apply (@lacpdu_received LinuxKernel LinuxKernelLaws);
    [apply (linux_peer_ok 9)|peer_in|by vm_compute|by vm_compute].
Defined.

Lemma marker_answered_witness :
  let l := zero_pdu <| l_subtype := 2 |> <| l_tlv_type_actor_info := 1 |> in
  exists st', bond_3ad_rx_indication l 0%nat (linux_peer 9) = Ok (RX_HANDLER_CONSUMED, st').
Proof.
  intros l.
  destruct (@marker_answered LinuxKernel LinuxKernelLaws l 0%nat (linux_at 9 0%nat)
    (linux_peer 9)) as (st' & Hrun & _);
    [apply (linux_peer_ok 9)|peer_in|by vm_compute|by vm_compute|by vm_compute|].
  exists st'. exact Hrun.
Defined.

Lemma lacp_rate_everywhere_witness :
  exists st', bond_3ad_update_lacp_rate (linux_peer 9) = Ok (tt, st') /\
    slave_list st' = slave_list (linux_peer 9).
Proof.
  destruct (@lacp_rate_everywhere LinuxKernel LinuxKernelLaws (linux_peer 9)
    (proj1 (linux_peer_ok 9))) as (st' & Hrun & HS & _).
  exists st'. split; [exact Hrun|exact HS].
Defined.

(** A bond of two slaves whose partner sends one LACPDU per second on each link: when
    the selection timer has run out both ports are collecting and distributing in one
    LAG, whose aggregator is the only active one, and the carrier of the bond is on. *)
Theorem bond_comes_up :
  map (fun p => (sm_mux_state (ad_port (linux_at 9 p)),
                 port_aggregator (ad_port (linux_at 9 p)), is_active (ad_agg (linux_at 9 p))))
    (slave_list (linux_peer 9)) =
    [(AD_MUX_COLLECTING_DISTRIBUTING, Some 0%nat, true);
     (AD_MUX_COLLECTING_DISTRIBUTING, Some 0%nat, false)] /\
  netif_carrier_ok (bond_dev (linux_peer 9)) = true.
Proof. split; by vm_compute. Qed.
