(* ===== verification/MsgTypes.v ===== *)
(** * System V message queues: data and the services of the IPC core

    The data of [msg.c]: queues, messages, the records that sleeping senders and
    receivers keep on their stacks, and the state of one IPC namespace.  What the
    code calls in [ipc/util.c], [ipc/msgutil.c], the security modules and the
    library of the kernel is the class [Ipc]. *)

From S2P Require Import Prelude.

(** Tasks, addresses of queues; user buffers are described by [Ipc]. *)
Abbreviation task := nat.
Abbreviation qptr := nat.

(** ** Constants of msg.c *)

Definition SEARCH_ANY : Z := 1.
Definition SEARCH_EQUAL : Z := 2.
Definition SEARCH_NOTEQUAL : Z := 3.
Definition SEARCH_LESSEQUAL : Z := 4.
Definition SEARCH_NUMBER : Z := 5.

Definition USHRT_MAX : Z := 65535.
Definition INT_MAX : Z := 2 ^ 31 - 1.
Definition LONG_MAX : Z := 2 ^ 63 - 1.
Definition LONG_MIN : Z := - 2 ^ 63.

(** Signed machine integers. *)
Definition s32 (z : Z) : Z := let m := u32 z in if m <? 2 ^ 31 then m else m - 2 ^ 32.
Definition s64 (z : Z) : Z := let m := u64 z in if m <? 2 ^ 63 then m else m - 2 ^ 64.

(** ** Permissions, messages, queues *)

(** [struct kern_ipc_perm]: the fields that the code of [msg.c] and its callees
    read or write. *)
Record kern_ipc_perm := KernIpcPerm {
  ipc_deleted : bool;
  ipc_id : Z;
  ipc_key : Z;
  ipc_mode : Z;
  ipc_uid : Z;
  ipc_gid : Z;
  ipc_cuid : Z;
  ipc_cgid : Z;
  ipc_refcount : Z }.
#[export] Instance eta_kern_ipc_perm : Eta kern_ipc_perm := fun r =>
  KernIpcPerm (ipc_deleted r) (ipc_id r) (ipc_key r) (ipc_mode r) (ipc_uid r) (ipc_gid r)
    (ipc_cuid r) (ipc_cgid r) (ipc_refcount r).

(** [struct ipc64_perm], the user's view. *)
Record ipc64_perm := Ipc64Perm {
  perm_key : Z; perm_uid : Z; perm_gid : Z; perm_cuid : Z; perm_cgid : Z; perm_mode : Z;
  perm_seq : Z }.
#[export] Instance eta_ipc64_perm : Eta ipc64_perm := fun r =>
  Ipc64Perm (perm_key r) (perm_uid r) (perm_gid r) (perm_cuid r) (perm_cgid r) (perm_mode r)
    (perm_seq r).
Definition zero_perm : ipc64_perm := Ipc64Perm 0 0 0 0 0 0 0.

(** [struct msg_msg], with its text in one piece. *)
Record msg_msg := MsgMsg { m_type : Z; m_ts : Z; m_text : list Z }.
#[export] Instance eta_msg_msg : Eta msg_msg := fun r => MsgMsg (m_type r) (m_ts r) (m_text r).
#[export] Instance msg_msg_eq_dec : EqDecision msg_msg.
Proof. solve_decision. Defined.

Record msg_queue := MsgQueue {
  q_perm : kern_ipc_perm;
  q_stime : Z;
  q_rtime : Z;
  q_ctime : Z;
  q_cbytes : Z;
  q_qnum : Z;
  q_qbytes : Z;
  q_lspid : option Z;
  q_lrpid : option Z;
  q_messages : list msg_msg;
  q_receivers : list task;
  q_senders : list task }.
#[export] Instance eta_msg_queue : Eta msg_queue := fun r =>
  MsgQueue (q_perm r) (q_stime r) (q_rtime r) (q_ctime r) (q_cbytes r) (q_qnum r) (q_qbytes r)
    (q_lspid r) (q_lrpid r) (q_messages r) (q_receivers r) (q_senders r).

(** ** The records of sleeping tasks *)

(** A [struct msg_msg *] that may hold an error: [inl e] is [ERR_PTR(e)]. *)
Abbreviation msg_or_err := (Z + msg_msg)%type.

Record msg_receiver := MsgReceiver {
  r_tsk : task;
  r_mode : Z;
  r_msgtype : Z;
  r_maxsize : Z;
  r_msg : msg_or_err }.
#[export] Instance eta_msg_receiver : Eta msg_receiver := fun r =>
  MsgReceiver (r_tsk r) (r_mode r) (r_msgtype r) (r_maxsize r) (r_msg r).

(** [s_next] tells whether [list.next] is not null. *)
Record msg_sender := MsgSender { s_tsk : task; s_msgsz : Z; s_next : bool }.
#[export] Instance eta_msg_sender : Eta msg_sender := fun r =>
  MsgSender (s_tsk r) (s_msgsz r) (s_next r).

(** ** The services of the IPC core *)

Class Ipc := {
  (* errno.h *)
  EPERM : Z; EACCES : Z; EAGAIN : Z; EFAULT : Z; EINVAL : Z; ENOMEM : Z; E2BIG : Z;
  ENOMSG : Z; EIDRM : Z; ENOSYS : Z; ERESTARTNOHAND : Z;
  (* linux/ipc.h, linux/msg.h, linux/stat.h *)
  IPC_NOWAIT : Z; MSG_NOERROR : Z; MSG_EXCEPT : Z; MSG_COPY : Z;
  IPC_RMID : Z; IPC_SET : Z; IPC_STAT : Z; IPC_INFO : Z;
  MSG_STAT : Z; MSG_INFO : Z; MSG_STAT_ANY : Z;
  IPC_OLD : Z; IPC_64 : Z;
  S_IRWXUGO : Z; S_IRUGO : Z; S_IWUGO : Z;
  MSGMNI : Z; MSGMAX : Z; MSGMNB : Z;
  MSGPOOL : Z; MSGTQL : Z; MSGMAP : Z; MSGSSZ : Z; MSGSEG : Z;
  CONFIG_CHECKPOINT_RESTORE : bool;
  (* user memory: a user pointer with what is behind it *)
  ubuf : Type;
  load_msg : ubuf -> Z -> Z + list Z;
  store_msg_fails : ubuf -> msg_msg -> Z -> bool;
  put_user_fails : ubuf -> bool;
  copy_msg : msg_msg -> msg_msg -> msg_or_err;
  (* permissions and security modules *)
  ipcperms : task -> kern_ipc_perm -> Z -> bool;
  security_msg_queue_alloc : kern_ipc_perm -> Z;
  security_msg_queue_msgsnd : kern_ipc_perm -> msg_msg -> Z -> Z;
  security_msg_queue_msgrcv : kern_ipc_perm -> msg_msg -> task -> Z -> Z -> Z;
  security_msg_queue_msgctl : option kern_ipc_perm -> Z -> Z;
  ipc_update_perm : ipc64_perm -> kern_ipc_perm -> Z + kern_ipc_perm;
  kernel_to_ipc64_perm : kern_ipc_perm -> ipc64_perm;
  (* identifiers *)
  ipc_ids : Type;
  ipc_init_ids : ipc_ids;
  ipc_addid : ipc_ids -> qptr -> kern_ipc_perm -> Z -> Z + (Z * ipc_ids * kern_ipc_perm);
  ipc_rmid : ipc_ids -> qptr -> kern_ipc_perm -> ipc_ids * kern_ipc_perm;
  ipc_obtain_object_idr : ipc_ids -> Z -> Z + qptr;
  ipc_obtain_object_check : ipc_ids -> Z -> Z + qptr;
  ipcctl_obtain_check : ipc_ids -> Z -> Z -> option ipc64_perm -> Z -> Z + qptr;
  ipcget_found : ipc_ids -> Z -> Z -> option Z;
  ipc_get_maxidx : ipc_ids -> Z;
  ipc_in_use : ipc_ids -> Z;
  free_ipcs_order : ipc_ids -> list qptr;
  ids_mem : ipc_ids -> qptr -> Prop;
  (* reference counts, validity *)
  ipc_rcu_getref : kern_ipc_perm -> option kern_ipc_perm;
  ipc_rcu_putref : kern_ipc_perm -> kern_ipc_perm * bool;
  ipc_valid_object : kern_ipc_perm -> bool;
  (* per-cpu counters, process numbers *)
  percpu_counter : Type;
  percpu_counter_init : percpu_counter;
  percpu_counter_add_local : percpu_counter -> Z -> percpu_counter;
  percpu_counter_sub_local : percpu_counter -> Z -> percpu_counter;
  percpu_counter_sum : percpu_counter -> Z;
  task_pid : task -> Z;
  task_tgid : task -> Z;
  pid_vnr : option Z -> Z
}.

Section ipc_data.
Context `{I : Ipc}.

(** What the code relies on.  The reference count is a [refcount_t], which
    saturates at [INT_MAX]; the laws speak of counts below that. *)
Class IpcLaws : Prop := {
  errno_positive : Forall (fun e => 0 < e)
    [EPERM; EACCES; EAGAIN; EFAULT; EINVAL; ENOMEM; E2BIG; ENOMSG; EIDRM; ENOSYS;
     ERESTARTNOHAND];
  EAGAIN_not_EIDRM : EAGAIN <> EIDRM;
  EAGAIN_not_E2BIG : EAGAIN <> E2BIG;
  rmid_not_set : IPC_RMID <> IPC_SET /\ clrf IPC_SET IPC_64 <> IPC_RMID;
  ipc_versions : IPC_OLD <> IPC_64;
  msg_limits : 0 <= MSGMAX < 2 ^ 32 /\ 0 <= MSGMNB < 2 ^ 32;
  getref_zero : forall p, ipc_refcount p = 0 -> ipc_rcu_getref p = None;
  getref_live : forall p, 0 < ipc_refcount p < INT_MAX ->
    ipc_rcu_getref p = Some (p <| ipc_refcount ::= Z.succ |>);
  putref_spec : forall p, 0 < ipc_refcount p < INT_MAX ->
    ipc_rcu_putref p = (p <| ipc_refcount ::= Z.pred |>, ipc_refcount p =? 1);
  valid_spec : forall p, ipc_valid_object p = negb (ipc_deleted p);
  init_ids_empty : forall q, ~ ids_mem ipc_init_ids q;
  addid_spec : forall ids q p n id ids' p',
    ipc_addid ids q p n = inr (id, ids', p') ->
    0 <= id /\ ipc_id p' = id /\ ipc_deleted p' = false /\ ipc_refcount p' = 1 /\
    ipc_obtain_object_check ids' id = inr q /\
    forall x, ids_mem ids' x <-> x = q \/ ids_mem ids x;
  rmid_spec : forall ids q p ids' p',
    ipc_rmid ids q p = (ids', p') ->
    ipc_deleted p' = true /\ ipc_refcount p' = ipc_refcount p /\
    forall x, ids_mem ids' x <-> x <> q /\ ids_mem ids x;
  obtain_idr_mem : forall ids id q, ipc_obtain_object_idr ids id = inr q -> ids_mem ids q;
  obtain_check_mem : forall ids id q,
    ipc_obtain_object_check ids id = inr q -> ids_mem ids q;
  ctl_obtain_mem : forall ids id cmd perm n q,
    ipcctl_obtain_check ids id cmd perm n = inr q -> ids_mem ids q;
  free_ipcs_spec : forall ids, NoDup (free_ipcs_order ids) /\
    forall q, q ∈ free_ipcs_order ids <-> ids_mem ids q;
  update_perm_spec : forall perm p p', ipc_update_perm perm p = inr p' ->
    ipc_deleted p' = ipc_deleted p /\ ipc_refcount p' = ipc_refcount p;
  update_perm_error : forall perm p e, ipc_update_perm perm p = inl e -> e < 0;
  msgrcv_hook_refcount : forall p f m t ty mode,
    security_msg_queue_msgrcv (p <| ipc_refcount ::= f |>) m t ty mode =
    security_msg_queue_msgrcv p m t ty mode;
  percpu_init_sum : percpu_counter_sum percpu_counter_init = 0;
  percpu_add_sum : forall c x,
    percpu_counter_sum (percpu_counter_add_local c x) = s64 (percpu_counter_sum c + x);
  percpu_sub_sum : forall c x,
    percpu_counter_sum (percpu_counter_sub_local c x) = s64 (percpu_counter_sum c - x)
}.

(** ** Stacks of sleeping tasks *)

(** The arguments of a [do_msgrcv]; [ra_compat] tells whether its [msg_handler] is
    [compat_do_msg_fill]. *)
Record rcv_args := RcvArgs {
  ra_buf : ubuf;
  ra_bufsz : Z;
  ra_msgtyp : Z;
  ra_mode : Z;
  ra_flg : Z;
  ra_copy : option msg_msg;
  ra_compat : bool }.

(** What a task that is about to take the lock of a queue will do under it. *)
Inductive locking :=
  | ForSnd (msg : msg_msg) (msgsz msgflg : Z)
  | ForRcv (a : rcv_args).

(** A task inside a call that does not hold the lock of its queue.  [SndFrame] and
    [RcvFrame] are inside [schedule()]; the other two are inside an RCU section:
    [RcvRetry] has read -EAGAIN without the lock and is about to take it, [Locking] has
    found the queue and is about to lock it at the head of the loop. *)
Inductive frame :=
  | SndFrame (q : qptr) (msg : msg_msg) (msgsz msgflg : Z) (s : msg_sender)
  | RcvFrame (q : qptr) (a : rcv_args) (msr : msg_receiver)
  | RcvRetry (q : qptr) (a : rcv_args) (msr : msg_receiver)
  | Locking (q : qptr) (c : locking).

(** A call of [store_msg]: task, destination, message and length. *)
Inductive msg_event := StoreMsg (t : task) (dest : ubuf) (mtype : Z) (msg : msg_msg) (len : Z).

(** The part of [struct ipc_namespace] for message queues with the memory its
    functions work on: the queues, the stacks of the tasks inside a call, the tasks made
    runnable by [wake_up_q] since they last went to sleep, and the pending calls of
    [msg_rcu_free], each with the RCU readers it waits for. *)
Record msg_ns := MsgNs {
  msg_ctlmax : Z;
  msg_ctlmnb : Z;
  msg_ctlmni : Z;
  percpu_msg_bytes : percpu_counter;
  percpu_msg_hdrs : percpu_counter;
  msg_ids : ipc_ids;
  queues : gmap qptr msg_queue;
  stacks : gmap task frame;
  woken : gset task;
  rcu_cbs : gmap qptr (gset task);
  events : list msg_event }.
#[export] Instance eta_msg_ns : Eta msg_ns := fun r =>
  MsgNs (msg_ctlmax r) (msg_ctlmnb r) (msg_ctlmni r) (percpu_msg_bytes r) (percpu_msg_hdrs r)
    (msg_ids r) (queues r) (stacks r) (woken r) (rcu_cbs r) (events r).

Lemma msg_ns_ext st st' :
  msg_ctlmax st = msg_ctlmax st' -> msg_ctlmnb st = msg_ctlmnb st' ->
  msg_ctlmni st = msg_ctlmni st' -> percpu_msg_bytes st = percpu_msg_bytes st' ->
  percpu_msg_hdrs st = percpu_msg_hdrs st' -> msg_ids st = msg_ids st' ->
  queues st = queues st' -> stacks st = stacks st' -> woken st = woken st' ->
  rcu_cbs st = rcu_cbs st' -> events st = events st' -> st = st'.
Proof. destruct st, st'. simpl. congruence. Qed.
End ipc_data.

Arguments IpcLaws : clear implicits.
Arguments IpcLaws I : assert.
