(* ===== verification/MsgOps.v ===== *)
(** * System V message queues: the functions of msg.c

    What a task does while it holds the lock of a queue is one atomic step.  A system
    call is split where it takes the lock of the queue that it has found inside an RCU
    section, at [schedule()], and in a receiver that wakes up also where it takes the
    lock again. *)

From S2P Require Import Prelude.
From S2P Require Import MsgTypes.

Section msg_ops.
Context `{I : Ipc}.

Abbreviation MN := (M msg_ns).

(** ** Memory *)

Definition get_msq (q : qptr) : MN msg_queue := fun st =>
  match queues st !! q with Some msq => Ok (msq, st) | None => Err Dangling end.
Definition upd_msq (q : qptr) (f : msg_queue -> msg_queue) : MN unit := fun st =>
  match queues st !! q with
  | Some msq => Ok (tt, st <| queues ::= <[q := f msq]> |>)
  | None => Err Dangling
  end.

(** The receiver record on the stack of task [t]. *)
Definition frame_receiver (fr : frame) : option msg_receiver :=
  match fr with
  | SndFrame _ _ _ _ _ | Locking _ _ => None
  | RcvFrame _ _ msr | RcvRetry _ _ msr => Some msr
  end.
Definition set_frame_receiver (msr : msg_receiver) (fr : frame) : frame :=
  match fr with
  | SndFrame q m n g s => SndFrame q m n g s
  | RcvFrame q a _ => RcvFrame q a msr
  | RcvRetry q a _ => RcvRetry q a msr
  | Locking q c => Locking q c
  end.
Definition get_receiver (t : task) : MN msg_receiver := fun st =>
  match stacks st !! t ≫= frame_receiver with
  | Some msr => Ok (msr, st)
  | None => Err Dangling
  end.
Definition upd_receiver (t : task) (f : msg_receiver -> msg_receiver) : MN unit := fun st =>
  match stacks st !! t with
  | Some fr =>
      match frame_receiver fr with
      | Some msr => Ok (tt, st <| stacks ::= <[t := set_frame_receiver (f msr) fr]> |>)
      | None => Err Dangling
      end
  | None => Err Dangling
  end.

(** The sender record on the stack of task [t]. *)
Definition get_sender (t : task) : MN msg_sender := fun st =>
  match stacks st !! t with
  | Some (SndFrame _ _ _ _ s) => Ok (s, st)
  | _ => Err Dangling
  end.
Definition upd_sender (t : task) (f : msg_sender -> msg_sender) : MN unit := fun st =>
  match stacks st !! t with
  | Some (SndFrame q m n g s) => Ok (tt, st <| stacks ::= <[t := SndFrame q m n g (f s)]> |>)
  | _ => Err Dangling
  end.

Definition push_frame (t : task) (fr : frame) : MN unit :=
  modify (fun st => st <| stacks ::= <[t := fr]> |>).
Definition pop_frame (t : task) : MN unit :=
  modify (fun st => st <| stacks ::= delete t |>).

(** [wake_up_q], and [__set_current_state(TASK_INTERRUPTIBLE)]. *)
Definition wake_up_q (wake_q : list task) : MN unit :=
  modify (fun st => st <| woken ::= fun w => w ∪ list_to_set wake_q |>).
Definition set_interruptible (t : task) : MN unit :=
  modify (fun st => st <| woken ::= fun w => w ∖ {[t]} |>).

(** Lists of the kernel: [list_del], [list_move_tail], the entry after [x]. *)
Definition list_del (x : task) (l : list task) : list task := filter (fun y => y <> x) l.
Definition list_move_tail (x : task) (l : list task) : list task := list_del x l ++ [x].
Fixpoint list_next (l : list task) (x : task) : option task :=
  match l with
  | [] => None
  | y :: l' => if decide (y = x) then head l' else list_next l' x
  end.

(** ** RCU and reference counts *)

Definition in_rcu (fr : frame) : bool :=
  match fr with RcvRetry _ _ _ | Locking _ _ => true | _ => false end.

(** The tasks inside an RCU section. *)
Definition rcu_readers (st : msg_ns) : gset task :=
  dom (filter (fun tf => in_rcu (tf.2) = true) (stacks st)).

(** [ipc_rcu_putref(&msq->q_perm, msg_rcu_free)]: the last reference calls
    [call_rcu]. *)
Definition msq_putref (q : qptr) : MN unit :=
  let* msq := get_msq q in
  let '(p, last) := ipc_rcu_putref (q_perm msq) in
  upd_msq q (fun msq => msq <| q_perm := p |>) ;;;
  when_ last (modify (fun st => st <| rcu_cbs ::= <[q := rcu_readers st]> |>)).

(** [rcu_read_unlock] of task [t]: no pending call waits for it any more. *)
Definition rcu_read_unlock (t : task) : MN unit :=
  modify (fun st => st <| rcu_cbs ::= fmap (fun R => R ∖ {[t]}) |>).

(** [msg_rcu_free], after the grace period. *)
Definition msg_rcu_free (q : qptr) : MN unit :=
  modify (fun st => st <| queues ::= delete q |> <| rcu_cbs ::= delete q |>).

(** ** Senders *)

Definition msg_fits_inqueue (msq : msg_queue) (msgsz : Z) : bool :=
  (u64 (msgsz + q_cbytes msq) <=? q_qbytes msq) &&
  (u64 (1 + q_qnum msq) <=? q_qbytes msq).

Definition ss_add (t : task) (q : qptr) (msg : msg_msg) (msgsz msgflg : Z) : MN unit :=
  push_frame t (SndFrame q msg msgsz msgflg (MsgSender t msgsz true)) ;;;
  set_interruptible t ;;;
  upd_msq q (fun msq => msq <| q_senders ::= fun l => l ++ [t] |>).

Definition ss_del (q : qptr) (t : task) : MN unit :=
  let* mss := get_sender t in
  when_ (s_next mss) (upd_msq q (fun msq => msq <| q_senders ::= list_del t |>)).

(** The loop of [ss_wakeup] from entry [mss], with the tasks put on [wake_q]. *)
Fixpoint ss_wakeup_loop (fuel : nat) (q : qptr) (kill : bool) (mss stop_tsk : option task)
    (wake_q : list task) : MN (list task) :=
  match mss with
  | None => ret wake_q
  | Some x =>
      match fuel with
      | O => fail_with OutOfFuel
      | S fuel =>
          let* msq := get_msq q in
          let t := list_next (q_senders msq) x in
          let* s := get_sender x in
          if kill then
            upd_sender x (fun s => s <| s_next := false |>) ;;;
            ss_wakeup_loop fuel q kill t stop_tsk (wake_q ++ [s_tsk s])
          else if decide (stop_tsk = Some (s_tsk s)) then ret wake_q
          else if negb (msg_fits_inqueue msq (s_msgsz s)) then
            upd_msq q (fun msq => msq <| q_senders ::= list_move_tail x |>) ;;;
            ss_wakeup_loop fuel q kill t
              (match stop_tsk with None => Some (s_tsk s) | Some _ => stop_tsk end) wake_q
          else ss_wakeup_loop fuel q kill t stop_tsk (wake_q ++ [s_tsk s])
      end
  end.

(** Each sender is visited at most once more than it is moved. *)
Definition ss_wakeup (q : qptr) (wake_q : list task) (kill : bool) : MN (list task) :=
  let* msq := get_msq q in
  ss_wakeup_loop (2 * length (q_senders msq) + 1) q kill (head (q_senders msq)) None wake_q.

(** ** Receivers *)

Definition expunge_all (q : qptr) (r : Z) (wake_q : list task) : MN (list task) :=
  let* msq := get_msq q in
  for_each (q_receivers msq) wake_q (fun wake_q x =>
    let* msr := get_receiver x in
    upd_receiver x (fun msr => msr <| r_msg := inl r |>) ;;;
    ret (Continue (wake_q ++ [r_tsk msr]))).

Definition testmsg (msg : msg_msg) (type mode : Z) : bool :=
  if (mode =? SEARCH_ANY) || (mode =? SEARCH_NUMBER) then true
  else if mode =? SEARCH_LESSEQUAL then m_type msg <=? type
  else if mode =? SEARCH_EQUAL then m_type msg =? type
  else if mode =? SEARCH_NOTEQUAL then negb (m_type msg =? type)
  else false.

(** The message is of the wanted type and the security modules allow it. *)
Definition wanted (perm : kern_ipc_perm) (msg : msg_msg) (t : task) (type mode : Z) : bool :=
  testmsg msg type mode && (security_msg_queue_msgrcv perm msg t type mode =? 0).

Definition pipelined_send (q : qptr) (msg : msg_msg) (wake_q : list task) (now : Z)
    : MN (bool * list task) :=
  let* msq := get_msq q in
  for_each (q_receivers msq) (false, wake_q) (fun '(_, wake_q) x =>
    let* msr := get_receiver x in
    if wanted (q_perm msq) msg (r_tsk msr) (r_msgtype msr) (r_mode msr) then
      upd_msq q (fun msq => msq <| q_receivers ::= list_del x |>) ;;;
      if r_maxsize msr <? m_ts msg then
        upd_receiver x (fun msr => msr <| r_msg := inl (- E2BIG) |>) ;;;
        ret (Continue (false, wake_q ++ [r_tsk msr]))
      else
        upd_msq q (fun msq =>
          msq <| q_lrpid := Some (task_pid (r_tsk msr)) |> <| q_rtime := now |>) ;;;
        upd_receiver x (fun msr => msr <| r_msg := inr msg |>) ;;;
        ret (Break (true, wake_q ++ [r_tsk msr]))
    else ret (Continue (false, wake_q))).

(** ** Sending *)

(** What a call has done: returned a value to its caller, gone to sleep, or gone as
    far as the next lock that it takes. *)
Inductive outcome := Returned (r : Z) | Slept | Running.

(** The end of [do_msgsnd], once the message fits. *)
Definition msgsnd_deliver (t : task) (q : qptr) (msg : msg_msg) (msgsz now : Z)
    : MN outcome :=
  upd_msq q (fun msq => msq <| q_lspid := Some (task_tgid t) |> <| q_stime := now |>) ;;;
  let* '(sent, wake_q) := pipelined_send q msg [] now in
  when_ (negb sent)
    (upd_msq q (fun msq =>
       msq <| q_messages ::= fun l => l ++ [msg] |>
           <| q_cbytes ::= fun n => u64 (n + msgsz) |>
           <| q_qnum ::= fun n => u64 (n + 1) |>) ;;;
     modify (fun st =>
       st <| percpu_msg_bytes ::= fun c => percpu_counter_add_local c (s64 msgsz) |>
          <| percpu_msg_hdrs ::= fun c => percpu_counter_add_local c 1 |>)) ;;;
  wake_up_q wake_q ;;;
  ret (Returned 0).

(** One turn of the loop of [do_msgsnd] up to [schedule()], with the lock. *)
Definition msgsnd_try (t : task) (q : qptr) (msg : msg_msg) (msgsz msgflg now : Z)
    : MN outcome :=
  let* msq := get_msq q in
  if ipcperms t (q_perm msq) S_IWUGO then ret (Returned (- EACCES))
  else if negb (ipc_valid_object (q_perm msq)) then ret (Returned (- EIDRM))
  else
    let err := security_msg_queue_msgsnd (q_perm msq) msg msgflg in
    if negb (err =? 0) then ret (Returned err)
    else if msg_fits_inqueue msq msgsz then msgsnd_deliver t q msg msgsz now
    else if has msgflg IPC_NOWAIT then ret (Returned (- EAGAIN))
    else
      ss_add t q msg msgsz msgflg ;;;
      let* msq := get_msq q in
      match ipc_rcu_getref (q_perm msq) with
      | None => pop_frame t ;;; ret (Returned (- EIDRM))
      | Some p => upd_msq q (fun msq => msq <| q_perm := p |>) ;;; ret Slept
      end.

(** [do_msgsnd] up to [ipc_lock_object]. *)
Definition do_msgsnd (t : task) (msqid mtype : Z) (mtext : ubuf) (msgsz msgflg : Z)
    : MN outcome :=
  let* max := gets msg_ctlmax in
  if (max <? msgsz) || (s64 msgsz <? 0) || (msqid <? 0) then ret (Returned (- EINVAL))
  else if mtype <? 1 then ret (Returned (- EINVAL))
  else
    match load_msg mtext msgsz with
    | inl e => ret (Returned e)
    | inr text =>
        let msg := MsgMsg mtype msgsz text in
        let* ids := gets msg_ids in
        match ipc_obtain_object_check ids msqid with
        | inl e => ret (Returned e)
        | inr q => push_frame t (Locking q (ForSnd msg msgsz msgflg)) ;;; ret Running
        end
    end.

(** [do_msgsnd] from [ipc_lock_object]; a task that returns or goes to sleep leaves its
    RCU section. *)
Definition msgsnd_lock (t : task) (now : Z) : MN outcome :=
  let* fr := gets (fun st => stacks st !! t) in
  match fr with
  | Some (Locking q (ForSnd msg msgsz msgflg)) =>
      pop_frame t ;;;
      let* o := msgsnd_try t q msg msgsz msgflg now in
      rcu_read_unlock t ;;;
      ret o
  | _ => fail_with Dangling
  end.

(** [do_msgsnd] after [schedule()]; [sig] tells whether a signal is pending. *)
Definition msgsnd_resume (t : task) (sig : bool) (now : Z) : MN outcome :=
  let* fr := gets (fun st => stacks st !! t) in
  match fr with
  | Some (SndFrame q msg msgsz msgflg _) =>
      msq_putref q ;;;
      let* msq := get_msq q in
      if negb (ipc_valid_object (q_perm msq)) then pop_frame t ;;; ret (Returned (- EIDRM))
      else
        ss_del q t ;;;
        pop_frame t ;;;
        if sig then ret (Returned (- ERESTARTNOHAND))
        else msgsnd_try t q msg msgsz msgflg now
  | _ => fail_with Dangling
  end.

(** ** Receiving *)

(** The mode, and the type that [*msgtyp] holds afterwards. *)
Definition convert_mode (msgtyp msgflg : Z) : Z * Z :=
  if has msgflg MSG_COPY then (SEARCH_NUMBER, msgtyp)
  else if msgtyp =? 0 then (SEARCH_ANY, msgtyp)
  else if msgtyp <? 0 then
    (SEARCH_LESSEQUAL, if msgtyp =? LONG_MIN then LONG_MAX else - msgtyp)
  else if has msgflg MSG_EXCEPT then (SEARCH_NOTEQUAL, msgtyp)
  else (SEARCH_EQUAL, msgtyp).

(** The loop of [find_msg] on the messages from position [i]. *)
Fixpoint find_msg_loop (perm : kern_ipc_perm) (t : task) (mode : Z) (l : list msg_msg)
    (i : nat) (msgtyp : Z) (found : option nat) (count : Z) : option nat :=
  match l with
  | [] => found
  | msg :: l' =>
      if wanted perm msg t msgtyp mode then
        if (mode =? SEARCH_LESSEQUAL) && negb (m_type msg =? 1) then
          find_msg_loop perm t mode l' (S i) (m_type msg - 1) (Some i) (count + 1)
        else if mode =? SEARCH_NUMBER then
          if msgtyp =? count then Some i
          else find_msg_loop perm t mode l' (S i) msgtyp found (count + 1)
        else Some i
      else find_msg_loop perm t mode l' (S i) msgtyp found count
  end.

(** The position of the message; [None] is ERR_PTR(-EAGAIN). *)
Definition find_msg (msq : msg_queue) (t : task) (msgtyp mode : Z) : option nat :=
  find_msg_loop (q_perm msq) t mode (q_messages msq) 0 msgtyp None 0.

Definition do_msg_fill (t : task) (dest : ubuf) (msg : msg_msg) (bufsz : Z) : MN Z :=
  if put_user_fails dest then ret (- EFAULT)
  else
    let msgsz := if m_ts msg <? bufsz then m_ts msg else bufsz in
    modify (fun st => st <| events ::= cons (StoreMsg t dest (m_type msg) msg msgsz) |>) ;;;
    if store_msg_fails dest msg msgsz then ret (- EFAULT) else ret msgsz.

(** The type is put into a [compat_long_t]. *)
Definition compat_do_msg_fill (t : task) (dest : ubuf) (msg : msg_msg) (bufsz : Z) : MN Z :=
  if put_user_fails dest then ret (- EFAULT)
  else
    let msgsz := if m_ts msg <? bufsz then m_ts msg else bufsz in
    modify (fun st =>
      st <| events ::= cons (StoreMsg t dest (s32 (m_type msg)) msg msgsz) |>) ;;;
    if store_msg_fails dest msg msgsz then ret (- EFAULT) else ret msgsz.

Definition prepare_copy (buf : ubuf) (bufsz : Z) : msg_or_err :=
  if CONFIG_CHECKPOINT_RESTORE then
    match load_msg buf bufsz with
    | inl e => inl e
    | inr text => inr (MsgMsg 0 bufsz text)
    end
  else inl (- ENOSYS).

(** The end of [do_msgrcv]: [IS_ERR(msg)] or the message for the user. *)
Definition msgrcv_exit (t : task) (a : rcv_args) (msg : msg_or_err) : MN outcome :=
  rcu_read_unlock t ;;;
  match msg with
  | inl e => ret (Returned e)
  | inr msg =>
      let* r := (if ra_compat a then compat_do_msg_fill else do_msg_fill)
        t (ra_buf a) msg (ra_bufsz a) in
      ret (Returned r)
  end.

(** Take message [i] off the queue. *)
Definition msgrcv_take (t : task) (q : qptr) (i : nat) (msg : msg_msg) (now : Z) : MN unit :=
  upd_msq q (fun msq =>
    msq <| q_messages ::= delete i |>
        <| q_qnum ::= fun n => u64 (n - 1) |>
        <| q_rtime := now |>
        <| q_lrpid := Some (task_tgid t) |>
        <| q_cbytes ::= fun n => u64 (n - m_ts msg) |>) ;;;
  modify (fun st =>
    st <| percpu_msg_bytes ::= fun c => percpu_counter_sub_local c (s64 (m_ts msg)) |>
       <| percpu_msg_hdrs ::= fun c => percpu_counter_sub_local c 1 |>) ;;;
  let* wake_q := ss_wakeup q [] false in
  wake_up_q wake_q.

(** Enqueue as a receiver and go to sleep. *)
Definition msgrcv_sleep (t : task) (q : qptr) (a : rcv_args) : MN outcome :=
  upd_msq q (fun msq => msq <| q_receivers ::= fun l => l ++ [t] |>) ;;;
  push_frame t (RcvFrame q a (MsgReceiver t (ra_mode a) (ra_msgtyp a)
    (if has (ra_flg a) MSG_NOERROR then INT_MAX else ra_bufsz a) (inl (- EAGAIN)))) ;;;
  set_interruptible t ;;;
  rcu_read_unlock t ;;;
  ret Slept.

(** One turn of the loop of [do_msgrcv] from [ipc_lock_object] up to [schedule()]. *)
Definition msgrcv_try (t : task) (q : qptr) (a : rcv_args) (now : Z) : MN outcome :=
  let* msq := get_msq q in
  if negb (ipc_valid_object (q_perm msq)) then msgrcv_exit t a (inl (- EIDRM))
  else
    match find_msg msq t (ra_msgtyp a) (ra_mode a) with
    | Some i =>
        match q_messages msq !! i with
        | None => fail_with Dangling
        | Some msg =>
            if (ra_bufsz a <? m_ts msg) && negb (has (ra_flg a) MSG_NOERROR)
            then msgrcv_exit t a (inl (- E2BIG))
            else if has (ra_flg a) MSG_COPY then
              match ra_copy a with
              | None => fail_with NullDeref
              | Some copy => msgrcv_exit t a (copy_msg msg copy)
              end
            else msgrcv_take t q i msg now ;;; msgrcv_exit t a (inr msg)
        end
    | None =>
        if has (ra_flg a) IPC_NOWAIT then msgrcv_exit t a (inl (- ENOMSG))
        else msgrcv_sleep t q a
    end.

(** The head of the loop of [do_msgrcv], before it takes the lock. *)
Definition msgrcv_enter (t : task) (q : qptr) (a : rcv_args) : MN outcome :=
  let* msq := get_msq q in
  if ipcperms t (q_perm msq) S_IRUGO then msgrcv_exit t a (inl (- EACCES))
  else push_frame t (Locking q (ForRcv a)) ;;; ret Running.

(** [do_msgrcv] up to [ipc_lock_object]; [compat] tells which [msg_handler] it has. *)
Definition do_msgrcv (t : task) (msqid : Z) (buf : ubuf) (bufsz msgtyp msgflg : Z) (compat : bool)
    : MN outcome :=
  if (msqid <? 0) || (s64 bufsz <? 0) then ret (Returned (- EINVAL))
  else
    let* max := gets msg_ctlmax in
    let copy : option msg_or_err :=
      if has msgflg MSG_COPY then
        Some (if has msgflg MSG_EXCEPT || negb (has msgflg IPC_NOWAIT) then inl (- EINVAL)
              else prepare_copy buf (Z.min bufsz max))
      else None in
    match copy with
    | Some (inl e) => ret (Returned e)
    | _ =>
        let copy := match copy with Some (inr m) => Some m | _ => None end in
        let '(mode, msgtyp) := convert_mode msgtyp msgflg in
        let* ids := gets msg_ids in
        match ipc_obtain_object_check ids msqid with
        | inl e => ret (Returned e)
        | inr q => msgrcv_enter t q (RcvArgs buf bufsz msgtyp mode msgflg copy compat)
        end
    end.

(** [do_msgrcv] from [ipc_lock_object] at the head of its loop. *)
Definition msgrcv_lock (t : task) (now : Z) : MN outcome :=
  let* fr := gets (fun st => stacks st !! t) in
  match fr with
  | Some (Locking q (ForRcv a)) => pop_frame t ;;; msgrcv_try t q a now
  | _ => fail_with Dangling
  end.

(** [do_msgrcv] after [schedule()], before it takes the lock again: [None] if the
    receiver read -EAGAIN. *)
Definition msgrcv_wake (t : task) : MN (option outcome) :=
  let* fr := gets (fun st => stacks st !! t) in
  match fr with
  | Some (RcvFrame q a msr) =>
      if decide (r_msg msr = inl (- EAGAIN)) then
        push_frame t (RcvRetry q a msr) ;;; ret None
      else pop_frame t ;;; let* o := msgrcv_exit t a (r_msg msr) in ret (Some o)
  | _ => fail_with Dangling
  end.

(** The rest of the loop body, with the lock of the queue; the receiver record goes
    out of scope at its end, and the next turn begins. *)
Definition msgrcv_locked (t : task) (sig : bool) : MN outcome :=
  let* fr := gets (fun st => stacks st !! t) in
  match fr with
  | Some (RcvRetry q a msr) =>
      let* _ := get_msq q in
      if decide (r_msg msr = inl (- EAGAIN)) then
        upd_msq q (fun msq => msq <| q_receivers ::= list_del t |>) ;;;
        pop_frame t ;;;
        if sig then msgrcv_exit t a (inl (- ERESTARTNOHAND))
        else msgrcv_enter t q a
      else pop_frame t ;;; msgrcv_exit t a (r_msg msr)
  | _ => fail_with Dangling
  end.

(** ** Creating and removing queues *)

(** [newque] with the memory at [q] from [kmalloc], [None] if there is none. *)
Definition newque (key msgflg : Z) (mem : option qptr) (now : Z) : MN Z :=
  match mem with
  | None => ret (- ENOMEM)
  | Some q =>
      let perm := KernIpcPerm false 0 key (Z.land msgflg S_IRWXUGO) 0 0 0 0 0 in
      let retval := security_msg_queue_alloc perm in
      if negb (retval =? 0) then ret retval
      else
        let* mnb := gets msg_ctlmnb in
        let* mni := gets msg_ctlmni in
        let* ids := gets msg_ids in
        match ipc_addid ids q perm mni with
        | inl e => ret e
        | inr (id, ids', perm') =>
            modify (fun st =>
              st <| msg_ids := ids' |>
                 <| queues ::= <[q := MsgQueue perm' 0 0 now 0 0 mnb None None [] [] []]> |>) ;;;
            ret id
        end
  end.

(** [ipcget] finds a queue or reports an error, or calls [newque]. *)
Definition ksys_msgget (key msgflg : Z) (mem : option qptr) (now : Z) : MN Z :=
  let* ids := gets msg_ids in
  match ipcget_found ids key msgflg with
  | Some r => ret r
  | None => newque key msgflg mem now
  end.

Definition msg_rmid (q : qptr) : MN unit :=
  let* msq := get_msq q in
  let* ids := gets msg_ids in
  let '(ids', p) := ipc_rmid ids q (q_perm msq) in
  modify (fun st => st <| msg_ids := ids' |>) ;;;
  upd_msq q (fun msq => msq <| q_perm := p |>).

Definition freeque (q : qptr) : MN unit :=
  let* wake_q := expunge_all q (- EIDRM) [] in
  let* wake_q := ss_wakeup q wake_q true in
  msg_rmid q ;;;
  wake_up_q wake_q ;;;
  let* msq := get_msq q in
  for_each (q_messages msq) tt (fun _ _ =>
    modify (fun st =>
      st <| percpu_msg_hdrs ::= fun c => percpu_counter_sub_local c 1 |>) ;;;
    ret (Continue tt)) ;;;
  modify (fun st =>
    st <| percpu_msg_bytes ::= fun c => percpu_counter_sub_local c (s64 (q_cbytes msq)) |>) ;;;
  upd_msq q (fun msq => msq <| q_lspid := None |> <| q_lrpid := None |>) ;;;
  msq_putref q.
End msg_ops.
