(* ===== verification/MsgCtl.v ===== *)
(** * System V message queues: control operations and the system calls

    [msgctl] with its reports and the layouts it copies to and from the user, for
    native and for 32-bit callers ([ipc/compat.c]), the namespace set-up, and the
    entry points of the system calls.  The build is a 64-bit one: [unsigned long] is
    64 bits wide. *)

From S2P Require Import Prelude.
From S2P Require Import MsgTypes.
From S2P Require Import MsgOps.

(** ** Layouts *)

Record msqid64_ds := Msqid64Ds {
  msg_perm : ipc64_perm;
  msg_stime : Z; msg_rtime : Z; msg_ctime : Z;
  msg_cbytes : Z; msg_qnum : Z; msg_qbytes : Z;
  msg_lspid : Z; msg_lrpid : Z }.
Definition zero_msqid64 : msqid64_ds := Msqid64Ds zero_perm 0 0 0 0 0 0 0 0.

(** The old layout, [struct msqid_ds]. *)
Record msqid_ds := MsqidDs {
  old_perm : ipc64_perm;
  old_stime : Z; old_rtime : Z; old_ctime : Z;
  old_lcbytes : Z; old_lqbytes : Z;
  old_cbytes : Z; old_qnum : Z; old_qbytes : Z;
  old_lspid : Z; old_lrpid : Z }.

(** [struct compat_msqid64_ds]. *)
Record compat_msqid64_ds := CompatMsqid64Ds {
  c64_perm : ipc64_perm;
  c64_stime : Z; c64_stime_high : Z;
  c64_rtime : Z; c64_rtime_high : Z;
  c64_ctime : Z; c64_ctime_high : Z;
  c64_cbytes : Z; c64_qnum : Z; c64_qbytes : Z;
  c64_lspid : Z; c64_lrpid : Z }.

Record compat_msqid_ds := CompatMsqidDs {
  c_perm : ipc64_perm;
  c_first : Z; c_last : Z;
  c_stime : Z; c_rtime : Z; c_ctime : Z;
  c_lcbytes : Z; c_lqbytes : Z;
  c_cbytes : Z; c_qnum : Z; c_qbytes : Z;
  c_lspid : Z; c_lrpid : Z }.

Record msginfo := MsgInfo {
  msgpool : Z; msgmap : Z; msgmax : Z; msgmnb : Z; msgmni : Z; msgssz : Z; msgtql : Z;
  msgseg : Z }.

(** What a call copies to its caller. *)
Inductive copied :=
  | CopiedInfo (i : msginfo)
  | Copied64 (d : msqid64_ds)
  | CopiedOld (d : msqid_ds)
  | CopiedCompat64 (d : compat_msqid64_ds)
  | CopiedCompat (d : compat_msqid_ds).

(** User memory as [msgctl] reads it ([None] is a fault), and the conversions of
    identifiers to old layouts. *)
Class IpcUser `{I : Ipc} := {
  copy_to_user_fails : ubuf -> bool;
  user_msqid64 : ubuf -> option msqid64_ds;
  user_msqid : ubuf -> option msqid_ds;
  user_compat_ipc64_perm : ubuf -> option ipc64_perm;
  user_compat_ipc_perm : ubuf -> option ipc64_perm;
  user_compat_qbytes64 : ubuf -> option Z;
  user_compat_qbytes : ubuf -> option Z;
  user_mtype : ubuf -> option Z;
  user_compat_mtype : ubuf -> option Z;
  mtext_of : ubuf -> ubuf;
  compat_mtext_of : ubuf -> ubuf;
  ipc64_perm_to_ipc_perm : ipc64_perm -> ipc64_perm;
  SET_UID : Z -> Z;
  SET_GID : Z -> Z
}.

Section msg_ctl.
Context `{U : IpcUser}.

Abbreviation MN := (M msg_ns).

(** ** ipc/compat.c *)

Definition get_compat_ipc64_perm (to : ipc64_perm) (from : ubuf) : Z + ipc64_perm :=
  match user_compat_ipc64_perm from with
  | None => inl (- EFAULT)
  | Some v => inr (to <| perm_uid := perm_uid v |> <| perm_gid := perm_gid v |>
                      <| perm_mode := perm_mode v |>)
  end.
Definition get_compat_ipc_perm (to : ipc64_perm) (from : ubuf) : Z + ipc64_perm :=
  match user_compat_ipc_perm from with
  | None => inl (- EFAULT)
  | Some v => inr (to <| perm_uid := perm_uid v |> <| perm_gid := perm_gid v |>
                      <| perm_mode := perm_mode v |>)
  end.
Definition to_compat_ipc64_perm (from : ipc64_perm) : ipc64_perm :=
  Ipc64Perm (perm_key from) (perm_uid from) (perm_gid from) (perm_cuid from)
    (perm_cgid from) (perm_mode from) (perm_seq from).
Definition to_compat_ipc_perm (from : ipc64_perm) : ipc64_perm :=
  Ipc64Perm (perm_key from) (SET_UID (perm_uid from)) (SET_GID (perm_gid from))
    (SET_UID (perm_cuid from)) (SET_GID (perm_cgid from)) (perm_mode from) (perm_seq from).

(** ** Copies to and from the user *)

Definition cap_ushort (n : Z) : Z := if USHRT_MAX <? n then USHRT_MAX else n.

Definition msqid_to_old (i : msqid64_ds) : msqid_ds :=
  MsqidDs (ipc64_perm_to_ipc_perm (msg_perm i))
    (msg_stime i) (msg_rtime i) (msg_ctime i)
    (msg_cbytes i) (msg_qbytes i)
    (cap_ushort (msg_cbytes i)) (cap_ushort (msg_qnum i)) (cap_ushort (msg_qbytes i))
    (msg_lspid i) (msg_lrpid i).

(** The value is nonzero if the call failed. *)
Definition copy_msqid_to_user (buf : ubuf) (i : msqid64_ds) (version : Z)
    : Z * option copied :=
  if version =? IPC_64 then
    if copy_to_user_fails buf then (1, None) else (0, Some (Copied64 i))
  else if version =? IPC_OLD then
    if copy_to_user_fails buf then (1, None) else (0, Some (CopiedOld (msqid_to_old i)))
  else (- EINVAL, None).

(** [out->msg_perm] keeps the fields that are not copied; they are never read. *)
Definition copy_msqid_from_user (buf : ubuf) (version : Z) : Z + msqid64_ds :=
  if version =? IPC_64 then
    match user_msqid64 buf with None => inl (- EFAULT) | Some d => inr d end
  else if version =? IPC_OLD then
    match user_msqid buf with
    | None => inl (- EFAULT)
    | Some d =>
        inr (Msqid64Ds
          (zero_perm <| perm_uid := perm_uid (old_perm d) |>
                     <| perm_gid := perm_gid (old_perm d) |>
                     <| perm_mode := perm_mode (old_perm d) |>)
          0 0 0 0 0 (if old_qbytes d =? 0 then old_lqbytes d else old_qbytes d) 0 0)
    end
  else inl (- EINVAL).

Definition copy_compat_msqid_from_user (buf : ubuf) (version : Z) : Z + msqid64_ds :=
  let perm := if version =? IPC_64 then get_compat_ipc64_perm zero_perm buf
              else get_compat_ipc_perm zero_perm buf in
  let qbytes := if version =? IPC_64 then user_compat_qbytes64 buf
                else user_compat_qbytes buf in
  match perm, qbytes with
  | inr perm, Some n => inr (Msqid64Ds perm 0 0 0 0 0 n 0 0)
  | _, _ => inl (- EFAULT)
  end.

Definition compat64_of (i : msqid64_ds) : compat_msqid64_ds :=
  CompatMsqid64Ds (to_compat_ipc64_perm (msg_perm i))
    (u32 (msg_stime i)) (u32 (Z.shiftr (msg_stime i) 32))
    (u32 (msg_rtime i)) (u32 (Z.shiftr (msg_rtime i) 32))
    (u32 (msg_ctime i)) (u32 (Z.shiftr (msg_ctime i) 32))
    (u32 (msg_cbytes i)) (u32 (msg_qnum i)) (u32 (msg_qbytes i))
    (msg_lspid i) (msg_lrpid i).

Definition compat_of (i : msqid64_ds) : compat_msqid_ds :=
  CompatMsqidDs (to_compat_ipc_perm (msg_perm i)) 0 0
    (s32 (msg_stime i)) (s32 (msg_rtime i)) (s32 (msg_ctime i)) 0 0
    (u16 (msg_cbytes i)) (u16 (msg_qnum i)) (u16 (msg_qbytes i))
    (u16 (msg_lspid i)) (u16 (msg_lrpid i)).

Definition copy_compat_msqid_to_user (buf : ubuf) (i : msqid64_ds) (version : Z)
    : Z * option copied :=
  if copy_to_user_fails buf then (1, None)
  else if version =? IPC_64 then (0, Some (CopiedCompat64 (compat64_of i)))
  else (0, Some (CopiedCompat (compat_of i))).

(** ** msgctl *)

(** [qbytes] is an [int]; [cap] tells whether the caller has CAP_SYS_RESOURCE. *)
Definition msgctl_set (q : qptr) (perm : option ipc64_perm) (qbytes : Z) (cap : bool) (now : Z)
    : MN Z :=
  let* mnb := gets msg_ctlmnb in
  if (mnb <? u32 qbytes) && negb cap then ret (- EPERM)
  else
    match perm with
    | None => fail_with NullDeref
    | Some perm =>
        let* msq := get_msq q in
        match ipc_update_perm perm (q_perm msq) with
        | inl err => ret err
        | inr p =>
            upd_msq q (fun msq =>
              msq <| q_perm := p |> <| q_qbytes := u64 qbytes |> <| q_ctime := now |>) ;;;
            let* wake_q := expunge_all q (- EAGAIN) [] in
            let* wake_q := ss_wakeup q wake_q false in
            wake_up_q wake_q ;;;
            ret 0
        end
    end.

Definition msgctl_down (msqid cmd : Z) (perm : option ipc64_perm) (qbytes : Z) (cap : bool)
    (now : Z) : MN Z :=
  let* ids := gets msg_ids in
  match ipcctl_obtain_check ids msqid cmd perm qbytes with
  | inl err => ret err
  | inr q =>
      let* msq := get_msq q in
      let err := security_msg_queue_msgctl (Some (q_perm msq)) cmd in
      if negb (err =? 0) then ret err
      else if cmd =? IPC_RMID then freeque q ;;; ret 0
      else if cmd =? IPC_SET then msgctl_set q perm qbytes cap now
      else ret (- EINVAL)
  end.

(** [min_t(int, x, INT_MAX)] *)
Definition min_t_int (x : Z) : Z := Z.min (s32 x) INT_MAX.

Definition msgctl_info (cmd : Z) : MN (Z * option msginfo) :=
  let err := security_msg_queue_msgctl None cmd in
  if negb (err =? 0) then ret (err, None)
  else
    let* st := get in
    let info := cmd =? MSG_INFO in
    let max_idx := ipc_get_maxidx (msg_ids st) in
    ret (if max_idx <? 0 then 0 else max_idx,
         Some (MsgInfo
           (if info then ipc_in_use (msg_ids st) else MSGPOOL)
           (if info then min_t_int (percpu_counter_sum (percpu_msg_hdrs st)) else MSGMAP)
           (s32 (msg_ctlmax st)) (s32 (msg_ctlmnb st)) (s32 (msg_ctlmni st))
           MSGSSZ
           (if info then min_t_int (percpu_counter_sum (percpu_msg_bytes st)) else MSGTQL)
           MSGSEG)).

Definition msq_stat (msq : msg_queue) : msqid64_ds :=
  Msqid64Ds (kernel_to_ipc64_perm (q_perm msq)) (q_stime msq) (q_rtime msq) (q_ctime msq)
    (q_cbytes msq) (q_qnum msq) (q_qbytes msq) (pid_vnr (q_lspid msq)) (pid_vnr (q_lrpid msq)).

Definition msgctl_stat (t : task) (msqid cmd : Z) : MN (Z * msqid64_ds) :=
  let* ids := gets msg_ids in
  match (if (cmd =? MSG_STAT) || (cmd =? MSG_STAT_ANY)
         then ipc_obtain_object_idr ids msqid else ipc_obtain_object_check ids msqid) with
  | inl err => ret (err, zero_msqid64)
  | inr q =>
      let* msq := get_msq q in
      if negb (cmd =? MSG_STAT_ANY) && ipcperms t (q_perm msq) S_IRUGO
      then ret (- EACCES, zero_msqid64)
      else
        let err := security_msg_queue_msgctl (Some (q_perm msq)) cmd in
        if negb (err =? 0) then ret (err, zero_msqid64)
        else if negb (ipc_valid_object (q_perm msq)) then ret (- EIDRM, zero_msqid64)
        else ret (if cmd =? IPC_STAT then 0 else ipc_id (q_perm msq), msq_stat msq)
  end.

(** The tail of [ksys_msgctl] for a report: copy it unless the call failed. *)
Definition report (err : Z) (copy : Z * option copied) : Z * option copied :=
  if err <? 0 then (err, None)
  else if negb (copy.1 =? 0) then (- EFAULT, None)
  else (err, copy.2).

Definition copy_msginfo_to_user (buf : ubuf) (i : option msginfo) : Z * option copied :=
  if copy_to_user_fails buf then (1, None) else (0, CopiedInfo <$> i).

Definition ksys_msgctl (t : task) (msqid cmd : Z) (buf : ubuf) (version : Z) (cap : bool)
    (now : Z) : MN (Z * option copied) :=
  if (msqid <? 0) || (cmd <? 0) then ret (- EINVAL, None)
  else if (cmd =? IPC_INFO) || (cmd =? MSG_INFO) then
    let* '(err, i) := msgctl_info cmd in ret (report err (copy_msginfo_to_user buf i))
  else if (cmd =? MSG_STAT) || (cmd =? MSG_STAT_ANY) || (cmd =? IPC_STAT) then
    let* '(err, d) := msgctl_stat t msqid cmd in
    ret (report err (copy_msqid_to_user buf d version))
  else if cmd =? IPC_SET then
    match copy_msqid_from_user buf version with
    | inl _ => ret (- EFAULT, None)
    | inr d =>
        let* r := msgctl_down msqid cmd (Some (msg_perm d)) (s32 (msg_qbytes d)) cap now in
        ret (r, None)
    end
  else if cmd =? IPC_RMID then
    let* r := msgctl_down msqid cmd None 0 cap now in ret (r, None)
  else ret (- EINVAL, None).

(** The command selects the case without its IPC_64 bit but is passed on with it. *)
Definition compat_ksys_msgctl (t : task) (msqid cmd : Z) (uptr : ubuf) (version : Z)
    (cap : bool) (now : Z) : MN (Z * option copied) :=
  let c := clrf cmd IPC_64 in
  if (msqid <? 0) || (cmd <? 0) then ret (- EINVAL, None)
  else if (c =? IPC_INFO) || (c =? MSG_INFO) then
    let* '(err, i) := msgctl_info cmd in ret (report err (copy_msginfo_to_user uptr i))
  else if (c =? IPC_STAT) || (c =? MSG_STAT) || (c =? MSG_STAT_ANY) then
    let* '(err, d) := msgctl_stat t msqid cmd in
    ret (report err (copy_compat_msqid_to_user uptr d version))
  else if c =? IPC_SET then
    match copy_compat_msqid_from_user uptr version with
    | inl _ => ret (- EFAULT, None)
    | inr d =>
        let* r := msgctl_down msqid cmd (Some (msg_perm d)) (s32 (msg_qbytes d)) cap now in
        ret (r, None)
    end
  else if c =? IPC_RMID then
    let* r := msgctl_down msqid cmd None 0 cap now in ret (r, None)
  else ret (- EINVAL, None).

(** ** msgsnd and msgrcv *)

Definition ksys_msgsnd (t : task) (msqid : Z) (msgp : ubuf) (msgsz msgflg : Z)
    : MN outcome :=
  match user_mtype msgp with
  | None => ret (Returned (- EFAULT))
  | Some mtype => do_msgsnd t msqid mtype (mtext_of msgp) msgsz msgflg
  end.
Definition compat_ksys_msgsnd (t : task) (msqid : Z) (msgp : ubuf) (msgsz msgflg : Z)
    : MN outcome :=
  match user_compat_mtype msgp with
  | None => ret (Returned (- EFAULT))
  | Some mtype =>
      do_msgsnd t msqid mtype (compat_mtext_of msgp) (u64 (s32 msgsz)) msgflg
  end.

Definition ksys_msgrcv (t : task) (msqid : Z) (msgp : ubuf) (msgsz msgtyp msgflg : Z)
    : MN outcome :=
  do_msgrcv t msqid msgp msgsz msgtyp msgflg false.
Definition compat_ksys_msgrcv (t : task) (msqid : Z) (msgp : ubuf)
    (msgsz msgtyp msgflg : Z) : MN outcome :=
  do_msgrcv t msqid msgp (u64 (s32 msgsz)) (s32 msgtyp) msgflg true.

(** ** Namespaces *)

(** [r1] and [r2] are the results of the two calls of [percpu_counter_init]. *)
Definition msg_init_ns (r1 r2 : Z) : MN Z :=
  modify (fun st => st <| msg_ctlmax := MSGMAX |> <| msg_ctlmnb := MSGMNB |>
                       <| msg_ctlmni := MSGMNI |>) ;;;
  if negb (r1 =? 0) then ret r1
  else
    modify (fun st => st <| percpu_msg_bytes := percpu_counter_init |>) ;;;
    if negb (r2 =? 0) then ret r2
    else
      modify (fun st => st <| percpu_msg_hdrs := percpu_counter_init |>
                           <| msg_ids := ipc_init_ids |>) ;;;
      ret 0.

Definition msg_exit_ns : MN unit :=
  let* ids := gets msg_ids in
  for_each (free_ipcs_order ids) tt (fun _ q => freeque q ;;; ret (Continue tt)).
End msg_ctl.
