(* ===== verification/MsgLoops.v ===== *)
(** * System V message queues: what the loops compute

    The loops over sleeping senders and receivers, described as functions of the
    lists they walk. *)

From S2P Require Import Prelude.
From S2P Require Import MsgTypes.
From S2P Require Import MsgOps.

Section list_head.
Lemma list_next_split (l1 l2 : list task) x :
  x ∉ l1 -> list_next (l1 ++ x :: l2) x = head l2.
Proof.
  induction l1 as [|y l1 IH]; intros Hx; simpl; [by rewrite decide_True|].
  rewrite decide_False by set_solver. apply IH. set_solver.
Qed.

Lemma list_del_notin (l : list task) x : x ∉ l -> list_del x l = l.
Proof.
  unfold list_del. induction l as [|y l IH]; intros Hx; [done|].
  rewrite filter_cons_True by set_solver. f_equal. apply IH. set_solver.
Qed.

Lemma list_del_split (l1 l2 : list task) x :
  x ∉ l1 -> x ∉ l2 -> list_del x (l1 ++ x :: l2) = l1 ++ l2.
Proof.
  intros H1 H2. unfold list_del. rewrite filter_app, filter_cons_False by naive_solver.
  fold (list_del x l1) (list_del x l2). by rewrite !list_del_notin.
Qed.

Lemma elem_of_list_del (l : list task) x y : y ∈ list_del x l <-> y <> x /\ y ∈ l.
Proof. unfold list_del. by rewrite list_elem_of_filter. Qed.

Lemma NoDup_move_tail (l1 l2 : list task) x :
  NoDup (l1 ++ x :: l2) -> NoDup (l1 ++ l2 ++ [x]).
Proof. by rewrite (Permutation_cons_append l2 x). Qed.

Lemma NoDup_list_del (l : list task) x : NoDup l -> NoDup (list_del x l).
Proof. apply NoDup_filter. Qed.
End list_head.

Section msg_loops.
Context `{I : Ipc}.

Abbreviation MN := (M msg_ns).

(** ** Rules for the memory *)

Lemma wp_get_msq q msq (Q : msg_queue -> msg_ns -> Prop) st :
  queues st !! q = Some msq -> Q msq st -> wp (get_msq q) Q st.
Proof. intros Hq HQ. unfold wp, get_msq. by rewrite Hq. Qed.

Lemma wp_upd_msq q f msq (Q : unit -> msg_ns -> Prop) st :
  queues st !! q = Some msq -> Q tt (st <| queues ::= <[q := f msq]> |>) ->
  wp (upd_msq q f) Q st.
Proof. intros Hq HQ. unfold wp, upd_msq. by rewrite Hq. Qed.

Lemma wp_get_sender t q m n g s (Q : msg_sender -> msg_ns -> Prop) st :
  stacks st !! t = Some (SndFrame q m n g s) -> Q s st -> wp (get_sender t) Q st.
Proof. intros Ht HQ. unfold wp, get_sender. by rewrite Ht. Qed.

Lemma wp_upd_sender t f q m n g s (Q : unit -> msg_ns -> Prop) st :
  stacks st !! t = Some (SndFrame q m n g s) ->
  Q tt (st <| stacks ::= <[t := SndFrame q m n g (f s)]> |>) -> wp (upd_sender t f) Q st.
Proof. intros Ht HQ. unfold wp, upd_sender. by rewrite Ht. Qed.

Lemma wp_get_receiver t fr msr (Q : msg_receiver -> msg_ns -> Prop) st :
  stacks st !! t = Some fr -> frame_receiver fr = Some msr -> Q msr st ->
  wp (get_receiver t) Q st.
Proof. intros Ht Hr HQ. unfold wp, get_receiver. rewrite Ht. simpl. by rewrite Hr. Qed.

Lemma wp_upd_receiver t f fr msr (Q : unit -> msg_ns -> Prop) st :
  stacks st !! t = Some fr -> frame_receiver fr = Some msr ->
  Q tt (st <| stacks ::= <[t := set_frame_receiver (f msr) fr]> |>) ->
  wp (upd_receiver t f) Q st.
Proof. intros Ht Hr HQ. unfold wp, upd_receiver. by rewrite Ht, Hr. Qed.

(** ** Waking the senders *)

(** The sender record of task [t], and whether its message fits. *)
Definition sender_of (st : msg_ns) (t : task) : option msg_sender :=
  match stacks st !! t with Some (SndFrame _ _ _ _ s) => Some s | _ => None end.

Definition sender_fits (msq : msg_queue) (st : msg_ns) (t : task) : bool :=
  match sender_of st t with
  | Some s => msg_fits_inqueue msq (s_msgsz s)
  | None => false
  end.

(** Every entry of the list is the record of a sender asleep. *)
Definition senders_ok (l : list task) (st : msg_ns) : Prop :=
  NoDup l /\ forall t, t ∈ l -> exists s, sender_of st t = Some s /\ s_tsk s = t.

Definition with_senders (msq : msg_queue) (l : list task) : msg_queue :=
  msq <| q_senders := l |>.

Lemma wp_get_sender_of t s (Q : msg_sender -> msg_ns -> Prop) st :
  sender_of st t = Some s -> Q s st -> wp (get_sender t) Q st.
Proof.
  unfold sender_of. intros Hs HQ. destruct (stacks st !! t) as [[]|] eqn:E; simplify_eq.
  by eapply wp_get_sender.
Qed.

(** The state with the sender list [l]. *)
Definition resend (q : qptr) (msq : msg_queue) (l : list task) (st : msg_ns) : msg_ns :=
  st <| queues ::= <[q := with_senders msq l]> |>.

Lemma resend_lookup q msq l st :
  queues (resend q msq l st) !! q = Some (with_senders msq l).
Proof. unfold resend. rec_simpl. apply lookup_insert_eq. Qed.

Lemma resend_resend q msq l l' st :
  (resend q msq l st) <| queues ::= <[q := with_senders msq l']> |> = resend q msq l' st.
Proof.
  unfold resend. destruct st. unfold upd_field. simpl. by rewrite insert_insert_eq.
Qed.

Lemma resend_sender_of q msq l st t : sender_of (resend q msq l st) t = sender_of st t.
Proof. done. Qed.

Section wakeup.
Context (q : qptr) (msq : msg_queue) (st : msg_ns).

Abbreviation fits := (fun t => sender_fits msq st t = true).
Abbreviation waits := (fun t => sender_fits msq st t = false).

(** One turn at entry [x] of the list [pre ++ x :: post]. *)
Lemma wp_wakeup_turn fuel pre x post stop wq Q :
  NoDup (pre ++ x :: post) ->
  (exists s, sender_of st x = Some s /\ s_tsk s = x) -> stop <> Some x ->
  (sender_fits msq st x = true ->
   wp (ss_wakeup_loop fuel q false (head post) stop (wq ++ [x])) Q
     (resend q msq (pre ++ x :: post) st)) ->
  (sender_fits msq st x = false ->
   wp (ss_wakeup_loop fuel q false (head post)
         (match stop with None => Some x | Some _ => stop end) wq) Q
     (resend q msq (pre ++ post ++ [x]) st)) ->
  wp (ss_wakeup_loop (S fuel) q false (Some x) stop wq) Q
    (resend q msq (pre ++ x :: post) st).
Proof.
  intros Hnd (s & Hs & Ht) Hstop Hfit Hwait.
  pose proof (proj1 (NoDup_app _ _) Hnd) as (_ & Hpre & [Hx _]%NoDup_cons).
  assert (x ∉ pre) as Hxp by (intros Hx'; apply (Hpre x Hx'); set_solver).
  simpl. apply wp_bind. eapply wp_get_msq; [apply resend_lookup|].
  apply wp_bind. eapply wp_get_sender_of; [by rewrite resend_sender_of|].
  rewrite Ht, decide_False by done.
  assert (list_next (q_senders (with_senders msq (pre ++ x :: post))) x = head post) as ->
    by by apply list_next_split.
  assert (msg_fits_inqueue (with_senders msq (pre ++ x :: post)) (s_msgsz s) =
    sender_fits msq st x) as -> by (unfold sender_fits; by rewrite Hs).
  destruct (sender_fits msq st x); [by apply Hfit|].
  apply wp_bind. eapply wp_upd_msq; [apply resend_lookup|].
  assert (with_senders msq (pre ++ x :: post) <| q_senders ::= list_move_tail x |> =
    with_senders msq (pre ++ post ++ [x])) as ->.
  { unfold with_senders, upd_field. simpl. unfold list_move_tail.
    by rewrite list_del_split, <-app_assoc. }
  rewrite resend_resend. by apply Hwait.
Qed.

(** After the first entry [a] that stays asleep: the others up to [a]. *)
Lemma wp_wakeup_rest a todo : forall fuel pre moved wq,
  senders_ok (pre ++ todo ++ a :: moved) st -> (length todo < fuel)%nat ->
  wp (ss_wakeup_loop fuel q false (head (todo ++ a :: moved)) (Some a) wq)
    (fun wq' st' => wq' = wq ++ filter fits todo /\
       st' = resend q msq (pre ++ filter fits todo ++ a :: moved ++ filter waits todo) st)
    (resend q msq (pre ++ todo ++ a :: moved) st).
Proof.
  induction todo as [|x todo IH]; intros fuel pre moved wq [Hnd Hok] Hfuel;
    (destruct fuel as [|fuel]; [simpl in Hfuel; lia|]).
  - destruct (Hok a) as (s & Hs & Ht); [set_solver|].
    simpl. apply wp_bind. eapply wp_get_msq; [apply resend_lookup|].
    apply wp_bind. eapply wp_get_sender_of; [by rewrite resend_sender_of|].
    rewrite Ht, decide_True by done. apply wp_ret. by rewrite !app_nil_r.
  - cbn [app head]. apply wp_wakeup_turn; [done|apply Hok; set_solver| | |].
    + intros [= ->]. apply NoDup_app in Hnd as (_ & _ & [Hx _]%NoDup_cons). set_solver.
    + intros Hf. eapply wp_mono.
      * specialize (IH fuel (pre ++ [x]) moved (wq ++ [x])). rewrite <-app_assoc in IH.
        apply IH; [done|simpl in Hfuel; lia].
      * intros wq' st' [-> ->]. rewrite filter_cons_True, filter_cons_False by congruence.
        by rewrite <-!app_assoc.
    + intros Hf. rewrite <-app_assoc. cbn [app].
      assert (head (todo ++ a :: moved) = head (todo ++ a :: moved ++ [x])) as ->
        by by destruct todo.
      eapply wp_mono.
      * apply (IH fuel pre (moved ++ [x]) wq); [|simpl in Hfuel; lia]. split.
        -- apply NoDup_move_tail in Hnd. by rewrite <-app_assoc in Hnd.
        -- intros t Ht. apply Hok. set_solver.
      * intros wq' st' [-> ->]. rewrite filter_cons_False, filter_cons_True by congruence.
        by rewrite <-!app_assoc.
Qed.

(** All entries from the start of [todo], those before it being awake. *)
Lemma wp_wakeup_all todo : forall fuel pre wq,
  senders_ok (pre ++ todo) st -> (length todo < fuel)%nat ->
  wp (ss_wakeup_loop fuel q false (head todo) None wq)
    (fun wq' st' => wq' = wq ++ filter fits todo /\
       st' = resend q msq (pre ++ filter fits todo ++ filter waits todo) st)
    (resend q msq (pre ++ todo) st).
Proof.
  induction todo as [|x todo IH]; intros fuel pre wq [Hnd Hok] Hfuel.
  { destruct fuel; apply wp_ret; by rewrite !app_nil_r. }
  destruct fuel as [|fuel]; simpl in Hfuel; [lia|]. cbn [head].
  apply wp_wakeup_turn; [done|apply Hok; set_solver|done| |].
  - intros Hf. eapply wp_mono.
    + specialize (IH fuel (pre ++ [x]) (wq ++ [x])). rewrite <-app_assoc in IH.
      apply IH; [done|lia].
    + intros wq' st' [-> ->]. rewrite filter_cons_True, filter_cons_False by congruence.
      by rewrite <-!app_assoc.
  - intros Hf. rewrite filter_cons_False, filter_cons_True by congruence.
    destruct todo as [|y todo]; [destruct fuel; by apply wp_ret; rewrite !app_nil_r|].
    apply (wp_wakeup_rest x (y :: todo) fuel pre [] wq); [|simpl in *; lia]. split.
    + by apply NoDup_move_tail in Hnd.
    + intros t Ht. apply Hok. set_solver.
Qed.
End wakeup.

(** [ss_wakeup] without [kill]: the senders whose message fits are woken in order,
    and go before the others in the list. *)
Lemma wp_ss_wakeup q msq wq st :
  queues st !! q = Some msq -> senders_ok (q_senders msq) st ->
  wp (ss_wakeup q wq false) (fun wq' st' =>
    let fits := filter (fun t => sender_fits msq st t = true) (q_senders msq) in
    let waits := filter (fun t => sender_fits msq st t = false) (q_senders msq) in
    wq' = wq ++ fits /\ st' = resend q msq (fits ++ waits) st) st.
Proof.
  intros Hq Hok. apply wp_bind. eapply wp_get_msq; [done|].
  assert (resend q msq ([] ++ q_senders msq) st = st) as E.
  { unfold resend, with_senders. destruct st, msq. unfold upd_field. simpl in *.
    by rewrite insert_id. }
  pose proof (wp_wakeup_all q msq st (q_senders msq) (2 * length (q_senders msq) + 1) [] wq
    Hok ltac:(lia)) as Hwp.
  by rewrite E in Hwp.
Qed.

(** ** Writing the records of several tasks *)

Definition restack (l : list task) (f : frame -> frame) (S : gmap task frame)
    : gmap task frame :=
  map_imap (fun t fr => Some (if decide (t ∈ l) then f fr else fr)) S.

Lemma lookup_restack l f S t :
  restack l f S !! t = (fun fr => if decide (t ∈ l) then f fr else fr) <$> S !! t.
Proof. unfold restack. rewrite map_lookup_imap. by destruct (S !! t). Qed.

Lemma restack_nil f S : restack [] f S = S.
Proof.
  apply map_eq. intros t. rewrite lookup_restack. by destruct (S !! t).
Qed.

Lemma restack_snoc l f S t fr :
  S !! t = Some fr -> <[t := f fr]> (restack l f S) = restack (l ++ [t]) f S.
Proof.
  intros Ht. apply map_eq. intros u. rewrite lookup_insert, !lookup_restack.
  destruct (decide (t = u)) as [<-|Hne].
  - rewrite Ht. simpl. by rewrite decide_True by set_solver.
  - destruct (S !! u); simpl; [|done]. f_equal. destruct (decide (u ∈ l)).
    + by rewrite decide_True by set_solver.
    + by rewrite decide_False by set_solver.
Qed.

Definition with_stacks (S : gmap task frame) (st : msg_ns) : msg_ns := st <| stacks := S |>.

Lemma with_stacks_id st : with_stacks (stacks st) st = st.
Proof. by destruct st. Qed.

(** ** Removing a queue: all senders *)

Definition kill_frame (fr : frame) : frame :=
  match fr with
  | SndFrame q m n g s => SndFrame q m n g (s <| s_next := false |>)
  | _ => fr
  end.

Lemma wp_kill_loop q msq st todo : forall fuel pre wq,
  queues st !! q = Some msq -> q_senders msq = pre ++ todo ->
  senders_ok (pre ++ todo) st -> (length todo < fuel)%nat ->
  wp (ss_wakeup_loop fuel q true (head todo) None wq)
    (fun wq' st' => wq' = wq ++ todo /\
       st' = with_stacks (restack (pre ++ todo) kill_frame (stacks st)) st)
    (with_stacks (restack pre kill_frame (stacks st)) st).
Proof.
  induction todo as [|x todo IH]; intros fuel pre wq Hq Hl [Hnd Hok] Hfuel.
  { destruct fuel; apply wp_ret; by rewrite !app_nil_r. }
  destruct fuel as [|fuel]; simpl in Hfuel; [lia|].
  destruct (Hok x) as (s & Hs & Ht); [set_solver|]. unfold sender_of in Hs.
  destruct (stacks st !! x) as [[q' m n g s'| | |]|] eqn:Hx; simplify_eq.
  pose proof (proj1 (NoDup_app _ _) Hnd) as (_ & Hpre & _).
  assert (s_tsk s ∉ pre) as Hxp by (intros Hx'; apply (Hpre _ Hx'); set_solver).
  assert (stacks (with_stacks (restack pre kill_frame (stacks st)) st) !! s_tsk s =
    Some (SndFrame q' m n g s)) as Hx'.
  { unfold with_stacks. rec_simpl. rewrite lookup_restack, Hx. simpl.
    by rewrite decide_False. }
  simpl. apply wp_bind. eapply wp_get_msq; [done|].
  apply wp_bind. eapply wp_get_sender; [done|]. rewrite Hl, list_next_split by done.
  apply wp_bind. eapply wp_upd_sender; [done|].
  specialize (IH fuel (pre ++ [s_tsk s]) (wq ++ [s_tsk s])). rewrite <-!app_assoc in IH.
  rewrite <-(restack_snoc pre _ _ _ _ Hx) in IH. apply IH; [done|done|done|lia].
Qed.

Lemma wp_ss_kill q msq wq st :
  queues st !! q = Some msq -> senders_ok (q_senders msq) st ->
  wp (ss_wakeup q wq true) (fun wq' st' => wq' = wq ++ q_senders msq /\
    st' = with_stacks (restack (q_senders msq) kill_frame (stacks st)) st) st.
Proof.
  intros Hq Hok. apply wp_bind. eapply wp_get_msq; [done|].
  pose proof (wp_kill_loop q msq st (q_senders msq) (2 * length (q_senders msq) + 1) [] wq
    Hq eq_refl Hok ltac:(lia)) as Hwp.
  by rewrite restack_nil, with_stacks_id in Hwp.
Qed.

(** ** All receivers *)

Definition receiver_of (st : msg_ns) (t : task) : option msg_receiver :=
  stacks st !! t ≫= frame_receiver.

Definition receivers_ok (l : list task) (st : msg_ns) : Prop :=
  NoDup l /\ forall t, t ∈ l -> exists msr, receiver_of st t = Some msr /\ r_tsk msr = t.

Definition answer (m : msg_or_err) (fr : frame) : frame :=
  match frame_receiver fr with
  | Some msr => set_frame_receiver (msr <| r_msg := m |>) fr
  | None => fr
  end.

Lemma wp_answer x m msr (Q : unit -> msg_ns -> Prop) st l f st0 :
  st = with_stacks (restack l f (stacks st0)) st0 -> x ∉ l ->
  receiver_of st0 x = Some msr ->
  (forall fr, stacks st0 !! x = Some fr -> 
    Q tt (with_stacks (<[x := answer m fr]> (restack l f (stacks st0))) st0)) ->
  wp (upd_receiver x (fun msr => msr <| r_msg := m |>)) Q st.
Proof.
  intros -> Hx Hr HQ. unfold receiver_of in Hr.
  destruct (stacks st0 !! x) as [fr|] eqn:E; [|done]. simpl in Hr.
  eapply wp_upd_receiver; [|done|].
  - unfold with_stacks. rec_simpl. rewrite lookup_restack, E. simpl. by rewrite decide_False.
  - specialize (HQ fr eq_refl). unfold answer in HQ. rewrite Hr in HQ. done.
Qed.

Lemma wp_expunge_all q r msq wq st :
  queues st !! q = Some msq -> receivers_ok (q_receivers msq) st ->
  wp (expunge_all q r wq) (fun wq' st' => wq' = wq ++ q_receivers msq /\
    st' = with_stacks (restack (q_receivers msq) (answer (inl r)) (stacks st)) st) st.
Proof.
  intros Hq [Hnd Hok]. apply wp_bind. eapply wp_get_msq; [done|].
  apply (wp_for_each (fun pre wq' st' => wq' = wq ++ pre /\
    st' = with_stacks (restack pre (answer (inl r)) (stacks st)) st)); [| |done].
  - by rewrite app_nil_r, restack_nil, with_stacks_id.
  - intros pre x post wq' st' Hl [-> ->]. destruct (Hok x) as (msr & Hr & Ht);
      [rewrite Hl; set_solver|].
    assert (x ∉ pre) as Hx.
    { rewrite Hl in Hnd. apply NoDup_app in Hnd as (_ & Hd & _). intros Hx.
      apply (Hd x Hx). set_solver. }
    pose proof Hr as Hr'. unfold receiver_of in Hr'.
    destruct (stacks st !! x) as [fr|] eqn:E; [|done]. simpl in Hr'.
    apply wp_bind. eapply wp_get_receiver; [|done|].
    { unfold with_stacks. rec_simpl. rewrite lookup_restack, E. simpl. by rewrite decide_False. }
    apply wp_bind. eapply wp_answer; [done|done|done|]. intros fr' Hfr'.
    rewrite (restack_snoc pre _ _ _ _ Hfr'). apply wp_ret. by rewrite Ht, <-app_assoc.
Qed.

(** ** Handing a message to a receiver *)

Section pipeline.
Context (perm : kern_ipc_perm) (msg : msg_msg) (st : msg_ns).

Definition receiver_wants (t : task) : bool :=
  match receiver_of st t with
  | Some msr => wanted perm msg (r_tsk msr) (r_msgtype msr) (r_mode msr)
  | None => false
  end.
Definition receiver_small (t : task) : bool :=
  match receiver_of st t with Some msr => r_maxsize msr <? m_ts msg | None => false end.

(** The receivers before the first one that takes the message which want it but
    have too small a buffer, and the one that takes it. *)
Fixpoint pipeline (l : list task) : list task * option task :=
  match l with
  | [] => ([], None)
  | x :: l' =>
      if receiver_wants x then
        if receiver_small x then (x :: (pipeline l').1, (pipeline l').2) else ([], Some x)
      else pipeline l'
  end.

Lemma pipeline_app l1 l2 small :
  pipeline l1 = (small, None) ->
  pipeline (l1 ++ l2) = (small ++ (pipeline l2).1, (pipeline l2).2).
Proof.
  revert small. induction l1 as [|x l1 IH]; intros small; simpl.
  - intros [= <-]. by destruct (pipeline l2).
  - destruct (receiver_wants x); [destruct (receiver_small x)|]; [|done|by apply IH].
    destruct (pipeline l1) as [s o]. simpl. intros [= <- ->]. by rewrite (IH s eq_refl).
Qed.

Lemma pipeline_in l x : x ∈ (pipeline l).1 \/ (pipeline l).2 = Some x -> x ∈ l.
Proof.
  induction l as [|y l IH]; simpl; [intros [H|H]; [by apply not_elem_of_nil in H|done]|].
  destruct (receiver_wants y); [destruct (receiver_small y)|]; simpl.
  - intros [[->|H]%elem_of_cons|H]; [set_solver|right; auto..].
  - intros [H|[= ->]]; [by apply not_elem_of_nil in H|set_solver].
  - intros H. right. auto.
Qed.
End pipeline.

Definition list_dels (l r : list task) : list task := filter (fun x => x ∉ l) r.

Lemma list_dels_nil r : list_dels [] r = r.
Proof.
  unfold list_dels. induction r as [|x r IH]; [done|].
  rewrite filter_cons_True by apply not_elem_of_nil. by f_equal.
Qed.

Lemma list_del_dels x l r : list_del x (list_dels l r) = list_dels (l ++ [x]) r.
Proof.
  unfold list_del, list_dels. rewrite list_filter_filter. apply list_filter_iff.
  intros y. set_solver.
Qed.

Definition piped_queue (msq : msg_queue) (small : list task) (taker : option task) (now : Z)
    : msg_queue :=
  let msq' := msq <| q_receivers := list_dels (small ++ option_list taker) (q_receivers msq) |> in
  match taker with
  | None => msq'
  | Some x => msq' <| q_lrpid := Some (task_pid x) |> <| q_rtime := now |>
  end.

Definition piped (q : qptr) (msq : msg_queue) (msg : msg_msg) (now : Z)
    (small : list task) (taker : option task) (st : msg_ns) : msg_ns :=
  with_stacks
    (restack (option_list taker) (answer (inr msg))
       (restack small (answer (inl (- E2BIG))) (stacks st)))
    (st <| queues ::= <[q := piped_queue msq small taker now]> |>).

Lemma piped_lookup q msq msg now small taker st :
  queues (piped q msq msg now small taker st) !! q = Some (piped_queue msq small taker now).
Proof. unfold piped, with_stacks. rec_simpl. apply lookup_insert_eq. Qed.

Lemma piped_stack q msq msg now small st x :
  x ∉ small -> stacks (piped q msq msg now small None st) !! x = stacks st !! x.
Proof.
  intros Hx. unfold piped, with_stacks. rec_simpl. simpl. rewrite restack_nil, lookup_restack.
  destruct (stacks st !! x); [|done]. simpl. by rewrite decide_False.
Qed.

(** One more receiver with too small a buffer. *)
Lemma piped_small q msq msg now small st x fr :
  stacks st !! x = Some fr ->
  (piped q msq msg now small None st)
    <| queues ::= <[q := piped_queue msq small None now <| q_receivers ::= list_del x |>]> |>
    <| stacks ::= <[x := answer (inl (- E2BIG)) fr]> |> =
  piped q msq msg now (small ++ [x]) None st.
Proof.
  intros Hx. unfold piped, with_stacks, piped_queue. destruct st, msq. unfold upd_field.
  simpl in *. rewrite !restack_nil, (restack_snoc _ _ _ _ _ Hx), insert_insert_eq.
  by rewrite list_del_dels, !app_nil_r.
Qed.

(** The receiver that takes the message. *)
Lemma piped_taker q msq msg now small st x fr :
  stacks st !! x = Some fr -> x ∉ small ->
  (piped q msq msg now small None st)
    <| queues ::= <[q := piped_queue msq small None now <| q_receivers ::= list_del x |>]> |>
    <| queues ::= <[q := piped_queue msq small None now <| q_receivers ::= list_del x |>
                           <| q_lrpid := Some (task_pid x) |> <| q_rtime := now |>]> |>
    <| stacks ::= <[x := answer (inr msg) fr]> |> =
  piped q msq msg now small (Some x) st.
Proof.
  intros Hx Hs. unfold piped, with_stacks, piped_queue. destruct st, msq. unfold upd_field.
  simpl in *. rewrite !restack_nil, !insert_insert_eq, app_nil_r, list_del_dels.
  f_equal. rewrite <-(restack_snoc [] (answer (inr msg)) _ x fr); [by rewrite restack_nil|].
  rewrite lookup_restack, Hx. simpl. by rewrite decide_False.
Qed.

Lemma piped_nil q msq msg now st :
  queues st !! q = Some msq -> piped q msq msg now [] None st = st.
Proof.
  intros Hq. unfold piped, with_stacks, piped_queue. destruct st, msq. unfold upd_field.
  simpl in *. by rewrite !restack_nil, list_dels_nil, insert_id.
Qed.

Lemma receiver_frame st x msr :
  receiver_of st x = Some msr ->
  exists fr, stacks st !! x = Some fr /\ frame_receiver fr = Some msr /\
    forall m, answer m fr = set_frame_receiver (msr <| r_msg := m |>) fr.
Proof.
  unfold receiver_of, answer. destruct (stacks st !! x) as [fr|]; simpl; [|done].
  intros Hr. exists fr. split; [done|]. split; [done|]. intros m. by rewrite Hr.
Qed.

Lemma wp_pipelined_send q msq msg wq now st :
  queues st !! q = Some msq -> receivers_ok (q_receivers msq) st ->
  wp (pipelined_send q msg wq now) (fun r st' =>
    let p := pipeline (q_perm msq) msg st (q_receivers msq) in
    r = (bool_decide (is_Some p.2), wq ++ p.1 ++ option_list p.2) /\
    st' = piped q msq msg now p.1 p.2 st) st.
Proof.
  intros Hq [Hnd Hok]. apply wp_bind. eapply wp_get_msq; [done|].
  apply (wp_for_each (fun pre r st' => exists small,
    pipeline (q_perm msq) msg st pre = (small, None) /\ r = (false, wq ++ small) /\
    st' = piped q msq msg now small None st)).
  - exists []. by rewrite app_nil_r, piped_nil.
  - intros pre x post r st' Hl (small & Hp & -> & ->).
    destruct (Hok x) as (msr & Hr & Ht); [rewrite Hl; set_solver|].
    destruct (receiver_frame _ _ _ Hr) as (fr & Hfr & Hfr' & Hans).
    assert (x ∉ small) as Hx.
    { intros Hx. rewrite Hl in Hnd. apply NoDup_app in Hnd as (_ & Hd & _).
      apply (Hd x); [|set_solver]. apply (pipeline_in (q_perm msq) msg st). rewrite Hp. auto. }
    assert (receiver_wants (q_perm msq) msg st x =
      wanted (q_perm msq) msg (r_tsk msr) (r_msgtype msr) (r_mode msr)) as Hw
      by (unfold receiver_wants; by rewrite Hr).
    assert (receiver_small msg st x = (r_maxsize msr <? m_ts msg)) as Hs
      by (unfold receiver_small; by rewrite Hr).
    apply wp_bind. eapply wp_get_receiver; [by rewrite piped_stack|done|].
    rewrite <-Hw, <-Hs.
    pose proof (pipeline_app (q_perm msq) msg st pre [x] small Hp) as Hpx. simpl in Hpx.
    destruct (receiver_wants _ _ _ x) eqn:Ew.
    2:{ apply wp_ret. exists small. by rewrite Hpx, app_nil_r. }
    apply wp_bind. eapply wp_upd_msq; [apply piped_lookup|]. 
    destruct (receiver_small _ _ x) eqn:Es.
    + apply wp_bind. eapply wp_upd_receiver; [rec_simpl; by rewrite piped_stack|done|].
      rewrite <-Hans, piped_small by done. apply wp_ret. exists (small ++ [x]).
      by rewrite Hpx, Ht, <-app_assoc.
    + apply wp_bind. eapply wp_upd_msq; [rec_simpl; apply lookup_insert_eq|].
      apply wp_bind. eapply wp_upd_receiver; [rec_simpl; by rewrite piped_stack|done|].
      rewrite Ht, <-Hans, piped_taker by done. apply wp_ret. cbv zeta.
      assert (pipeline (q_perm msq) msg st (q_receivers msq) = (small, Some x)) as ->.
      { rewrite Hl, (pipeline_app _ _ _ _ _ small Hp). simpl. by rewrite Ew, Es, app_nil_r. }
      by rewrite <-app_assoc.
  - intros r st' (small & Hp & -> & ->). cbv zeta. rewrite Hp. simpl. by rewrite app_nil_r.
Qed.
End msg_loops.
