(* ===== verification/MsgInv.v ===== *)
(** * System V message queues: the invariant

    What holds of the namespace between the atomic steps of the tasks: the accounts
    of each queue, its lists of sleeping tasks, its references, and that no sleeping
    task has missed a wake-up. *)

From S2P Require Import Prelude.
From S2P Require Import MsgTypes.
From S2P Require Import MsgOps.
From S2P Require Import MsgLoops.

Section msg_inv.
Context `{I : Ipc}.

(** ** Frames *)

Definition frame_queue (fr : frame) : qptr :=
  match fr with SndFrame q _ _ _ _ | RcvFrame q _ _ | RcvRetry q _ _ | Locking q _ => q end.

Definition snd_on (q : qptr) (fr : frame) : bool :=
  match fr with SndFrame q' _ _ _ _ => bool_decide (q' = q) | _ => false end.

(** The receiver record of a frame on [q] that waits for a message. *)
Definition waits_on (q : qptr) (fr : frame) (msr : msg_receiver) : Prop :=
  frame_queue fr = q /\ frame_receiver fr = Some msr /\ r_msg msr = inl (- EAGAIN).

(** Frames whose task will still dereference the queue. *)
Definition needs_queue (fr : frame) : Prop :=
  match fr with
  | SndFrame _ _ _ _ _ | RcvRetry _ _ _ | Locking _ _ => True
  | RcvFrame _ _ msr => r_msg msr = inl (- EAGAIN)
  end.

(** What [do_msgrcv] passes on. *)
Definition args_ok (a : rcv_args) : Prop :=
  (has (ra_flg a) MSG_COPY = true -> is_Some (ra_copy a) /\ has (ra_flg a) IPC_NOWAIT = true) /\
  (has (ra_flg a) MSG_COPY = false -> ra_mode a <> SEARCH_NUMBER).

Definition frame_ok (t : task) (fr : frame) : Prop :=
  match fr with
  | SndFrame _ m n _ s => m_ts m = n /\ 0 <= n < 2 ^ 32 /\ s_tsk s = t /\ s_msgsz s = n
  | RcvFrame _ a msr | RcvRetry _ a msr =>
      r_tsk msr = t /\ r_mode msr = ra_mode a /\ r_msgtype msr = ra_msgtyp a /\
      ra_mode a <> SEARCH_NUMBER /\ has (ra_flg a) MSG_COPY = false
  | Locking _ (ForSnd m n _) => m_ts m = n /\ 0 <= n < 2 ^ 32
  | Locking _ (ForRcv a) => args_ok a
  end.

Definition snd_count (q : qptr) (S : gmap task frame) : Z :=
  Z.of_nat (size (filter (fun tf : task * frame => snd_on q tf.2 = true) S)).

(** ** Queues *)

Definition sum_ts (l : list msg_msg) : Z := foldr (fun m n => m_ts m + n) 0 l.

Definition deleted (msq : msg_queue) : bool := ipc_deleted (q_perm msq).

(** The lists and the wake-ups of a queue that is not deleted. *)
Record live_inv (q : qptr) (msq : msg_queue) (S : gmap task frame) (w : gset task) : Prop := {
  li_snd_nodup : NoDup (q_senders msq);
  li_rcv_nodup : NoDup (q_receivers msq);
  li_snd : forall t, t ∈ q_senders msq <-> exists fr, S !! t = Some fr /\ snd_on q fr = true;
  li_next : forall t m n g s, S !! t = Some (SndFrame q m n g s) -> s_next s = true;
  li_rcv : forall t, t ∈ q_receivers msq <->
    exists fr msr, S !! t = Some fr /\ waits_on q fr msr;
  li_wake_snd : forall t m n g s, S !! t = Some (SndFrame q m n g s) ->
    msg_fits_inqueue msq n = true -> t ∈ w;
  li_wake_rcv : forall t fr msr, S !! t = Some fr -> waits_on q fr msr -> t ∉ w ->
    forall m, m ∈ q_messages msq ->
      wanted (q_perm msq) m t (r_msgtype msr) (r_mode msr) = false }.

Record queue_inv (q : qptr) (msq : msg_queue) (st : msg_ns) : Prop := {
  qi_bytes : q_cbytes msq = sum_ts (q_messages msq);
  qi_num : q_qnum msq = Z.of_nat (length (q_messages msq));
  qi_sizes : Forall (fun m => 0 <= m_ts m < 2 ^ 32) (q_messages msq);
  qi_limit : 0 <= q_qbytes msq < 2 ^ 64;
  qi_refs : ipc_refcount (q_perm msq) =
    (if deleted msq then 0 else 1) + snd_count q (stacks st);
  qi_cb : is_Some (rcu_cbs st !! q) <-> ipc_refcount (q_perm msq) = 0;
  qi_readers : forall R t fr, rcu_cbs st !! q = Some R ->
    stacks st !! t = Some fr -> frame_queue fr = q -> in_rcu fr = true -> t ∈ R;
  qi_dead : deleted msq = true -> forall t fr msr, stacks st !! t = Some fr ->
    ~ waits_on q fr msr;
  qi_live : deleted msq = false -> live_inv q msq (stacks st) (woken st) }.

(** The sum of [f] over the queues that are not deleted. *)
Definition weight (f : msg_queue -> Z) (msq : msg_queue) : Z :=
  if deleted msq then 0 else f msq.
Definition total (f : msg_queue -> Z) (Q : gmap qptr msg_queue) : Z :=
  map_fold (fun _ msq n => weight f msq + n) 0 Q.

(** ** The namespace *)

Record msg_inv (st : msg_ns) : Prop := {
  mi_queue : forall q msq, queues st !! q = Some msq -> queue_inv q msq st;
  mi_frame : forall t fr, stacks st !! t = Some fr -> frame_ok t fr;
  mi_needs : forall t fr, stacks st !! t = Some fr -> needs_queue fr ->
    is_Some (queues st !! frame_queue fr);
  mi_ids : forall q, ids_mem (msg_ids st) q <->
    exists msq, queues st !! q = Some msq /\ deleted msq = false;
  mi_cbs : forall q R, rcu_cbs st !! q = Some R -> is_Some (queues st !! q);
  mi_bytes : percpu_counter_sum (percpu_msg_bytes st) = s64 (total q_cbytes (queues st));
  mi_hdrs : percpu_counter_sum (percpu_msg_hdrs st) = s64 (total q_qnum (queues st));
  mi_ctlmax : 0 <= msg_ctlmax st < 2 ^ 32;
  mi_ctlmnb : 0 <= msg_ctlmnb st < 2 ^ 32 }.

(** No queue holds 2^62 bytes or messages, and fewer than 2^30 tasks sleep. *)
Definition room (st : msg_ns) : Prop :=
  (forall q msq, queues st !! q = Some msq ->
     sum_ts (q_messages msq) < 2 ^ 62 /\ Z.of_nat (length (q_messages msq)) < 2 ^ 62) /\
  Z.of_nat (size (stacks st)) < 2 ^ 30.

(** ** Integers *)

Lemma s64_range z : - 2 ^ 63 <= s64 z < 2 ^ 63.
Proof.
  unfold s64, u64. cbv zeta. pose proof (Z.mod_pos_bound z (2 ^ 64) ltac:(lia)).
  destruct (Z.ltb_spec (z mod 2 ^ 64) (2 ^ 63)); lia.
Qed.

Lemma s64_id z : - 2 ^ 63 <= z < 2 ^ 63 -> s64 z = z.
Proof.
  intros Hz. unfold s64, u64. cbv zeta. destruct (Z.ltb_spec z 0).
  - rewrite <-(Z_mod_plus_full z 1), Z.mod_small by lia.
    destruct (Z.ltb_spec (z + 1 * 2 ^ 64) (2 ^ 63)); lia.
  - rewrite Z.mod_small by lia. destruct (Z.ltb_spec z (2 ^ 63)); lia.
Qed.

Lemma s64_mod z : exists k, s64 z = z + k * 2 ^ 64.
Proof.
  unfold s64, u64. cbv zeta. rewrite (Z.mod_eq z (2 ^ 64)) by lia. destruct (_ <? _).
  - exists (- (z / 2 ^ 64)). lia.
  - exists (- (z / 2 ^ 64) - 1). lia.
Qed.

Lemma s64_congr x y k : x = y + k * 2 ^ 64 -> s64 x = s64 y.
Proof. intros ->. unfold s64, u64. by rewrite Z_mod_plus_full. Qed.

Lemma s64_add_l x y : s64 (s64 x + y) = s64 (x + y).
Proof. destruct (s64_mod x) as [k ->]. apply (s64_congr _ _ k). lia. Qed.

Lemma s64_sub_l x y : s64 (s64 x - y) = s64 (x - y).
Proof. destruct (s64_mod x) as [k ->]. apply (s64_congr _ _ k). lia. Qed.

(** ** Totals *)

Lemma total_empty f : total f ∅ = 0.
Proof. apply map_fold_empty. Qed.

Lemma total_fresh f Q q msq :
  Q !! q = None -> total f (<[q := msq]> Q) = weight f msq + total f Q.
Proof. intros Hq. unfold total. rewrite map_fold_insert_L; [done| |done]. intros. lia. Qed.

Lemma total_delete f Q q msq :
  Q !! q = Some msq -> total f Q = weight f msq + total f (delete q Q).
Proof.
  intros Hq. rewrite <-(total_fresh f (delete q Q) q msq) by apply lookup_delete_eq.
  by rewrite insert_delete_id.
Qed.

Lemma total_update f Q q msq msq' :
  Q !! q = Some msq -> total f (<[q := msq']> Q) = total f Q - weight f msq + weight f msq'.
Proof.
  intros Hq. rewrite (total_delete f Q q msq Hq), <-insert_delete_eq.
  rewrite total_fresh by apply lookup_delete_eq. lia.
Qed.

Lemma total_same f Q q msq msq' :
  Q !! q = Some msq -> weight f msq' = weight f msq -> total f (<[q := msq']> Q) = total f Q.
Proof. intros Hq Hw. rewrite (total_update f Q q msq msq' Hq), Hw. lia. Qed.

(** ** Counting the senders asleep *)

Lemma snd_count_insert q S t fr :
  S !! t = None -> snd_count q (<[t := fr]> S) = snd_count q S + Z.b2z (snd_on q fr).
Proof.
  intros Ht. unfold snd_count. rewrite map_filter_insert. case_decide as E; simpl in E.
  - rewrite map_size_insert_None by (apply map_lookup_filter_None; by left). rewrite E. simpl. lia.
  - rewrite delete_id by done. destruct (snd_on q fr); [done|]. simpl. lia.
Qed.

Lemma snd_count_delete q S t fr :
  S !! t = Some fr -> snd_count q (delete t S) = snd_count q S - Z.b2z (snd_on q fr).
Proof.
  intros Ht. rewrite <-(insert_delete_id S t fr Ht) at 2.
  rewrite snd_count_insert by apply lookup_delete_eq. lia.
Qed.

Lemma snd_count_same q S S' :
  (forall t, snd_on q <$> S' !! t = snd_on q <$> S !! t) -> snd_count q S' = snd_count q S.
Proof.
  intros HS. unfold snd_count. rewrite <-!(size_dom (D := gset task)).
  do 2 f_equal. apply set_eq. intros t. specialize (HS t). rewrite !elem_of_dom. unfold is_Some.
  setoid_rewrite map_lookup_filter_Some. simpl.
  destruct (S !! t) as [fr|], (S' !! t) as [fr'|]; simplify_eq/=;
    [|by split; intros (x & ? & _)].
  split; intros (x & [= <-] & Hx); eexists; (split; [done|]); congruence.
Qed.

Lemma snd_count_other q q' S S' :
  q' <> q ->
  (forall t fr, frame_queue fr <> q -> S' !! t = Some fr <-> S !! t = Some fr) ->
  snd_count q' S' = snd_count q' S.
Proof.
  intros Hne HS. unfold snd_count. do 2 f_equal. apply map_eq. intros t. apply option_eq.
  intros fr. rewrite !map_lookup_filter_Some. simpl. split; intros [Hfr Hon]; (split; [|done]);
    (apply HS; [|done]); destruct fr; simpl in *; try done;
    apply bool_decide_eq_true in Hon; by subst.
Qed.

Lemma snd_count_pos q S t fr : S !! t = Some fr -> snd_on q fr = true -> 0 < snd_count q S.
Proof.
  intros Ht Hon. rewrite <-(insert_delete_id S t fr Ht), snd_count_insert, Hon
    by apply lookup_delete_eq. unfold snd_count. simpl. lia.
Qed.

Lemma snd_count_size q S : 0 <= snd_count q S <= Z.of_nat (size S).
Proof.
  unfold snd_count. split; [lia|]. apply inj_le. apply map_subseteq_size, map_filter_subseteq.
Qed.

(** ** Steps on one queue *)

(** [st'] differs from [st] only in what concerns queue [q]. *)
Record elsewhere (q : qptr) (st st' : msg_ns) : Prop := {
  el_queue : forall q', q' <> q -> queues st' !! q' = queues st !! q';
  el_frame : forall t fr, frame_queue fr <> q ->
    stacks st' !! t = Some fr <-> stacks st !! t = Some fr;
  el_woken : forall t fr, stacks st !! t = Some fr -> frame_queue fr <> q ->
    t ∈ woken st -> t ∈ woken st';
  el_cbs_some : forall q', q' <> q -> is_Some (rcu_cbs st' !! q') <-> is_Some (rcu_cbs st !! q');
  el_cbs : forall q' R R' t fr, q' <> q -> rcu_cbs st !! q' = Some R ->
    rcu_cbs st' !! q' = Some R' -> stacks st !! t = Some fr -> frame_queue fr <> q ->
    in_rcu fr = true -> t ∈ R -> t ∈ R' }.

Lemma elsewhere_refl q st : elsewhere q st st.
Proof. split; naive_solver. Qed.

Lemma elsewhere_trans q st1 st2 st3 :
  elsewhere q st1 st2 -> elsewhere q st2 st3 -> elsewhere q st1 st3.
Proof.
  intros [Q1 F1 W1 S1 C1] [Q2 F2 W2 S2 C2]. split.
  - intros q' Hq. by rewrite Q2, Q1.
  - intros t fr Hfr. by rewrite F2, F1.
  - intros t fr Ht Hfr Hw. apply (W2 t fr); [by apply F1|done|by eapply W1].
  - intros q' Hq. by rewrite S2, S1.
  - intros q' R R3 t fr Hq HR HR3 Ht Hfr Hrcu Hin.
    destruct (proj2 (S1 q' Hq) (ex_intro _ R HR)) as [R2 HR2].
    apply (C2 q' R2 R3 t fr); [done|done|done|by apply F1|done|done|by apply (C1 q' R R2 t fr)].
Qed.

Lemma waits_on_queue q q' fr msr : waits_on q' fr msr -> q' <> q -> frame_queue fr <> q.
Proof. intros [-> _]. done. Qed.

Lemma snd_on_queue q q' fr : snd_on q' fr = true -> q' <> q -> frame_queue fr <> q.
Proof. destruct fr; simpl; try done. intros H%bool_decide_eq_true. by subst. Qed.

Lemma live_inv_elsewhere q q' msq st st' :
  elsewhere q st st' -> q' <> q ->
  live_inv q' msq (stacks st) (woken st) -> live_inv q' msq (stacks st') (woken st').
Proof.
  intros [_ EF EW _ _] Hne [H1 H2 H3 H4 H5 H6 H7]. split; [done|done| | | | |].
  - intros t. rewrite H3. split; intros (fr & Ht & Hon); exists fr; (split; [|done]);
      (apply EF; [by eapply snd_on_queue|done]).
  - intros t m n g s Ht. eapply H4, EF; done.
  - intros t. rewrite H5. split; intros (fr & msr & Ht & Hw); exists fr, msr; (split; [|done]);
      (apply EF; [by eapply waits_on_queue|done]).
  - intros t m n g s Ht Hfit. apply EF in Ht; [|done]. eapply EW; [done|done|by eapply H6].
  - intros t fr msr Ht Hw Hnw m Hm. pose proof (waits_on_queue _ _ _ _ Hw Hne).
    apply EF in Ht; [|done]. eapply H7; [done|done| |done]. intros Hin. apply Hnw.
    by eapply EW.
Qed.

Lemma queue_inv_elsewhere q q' msq st st' :
  elsewhere q st st' -> q' <> q -> queue_inv q' msq st -> queue_inv q' msq st'.
Proof.
  intros He Hne [H1 H2 H3 H4 H5 H6 H7 H8 H9]. split; [done|done|done|done| | | | |].
  - rewrite H5. f_equal. symmetry. eapply snd_count_other; [done|apply He].
  - by rewrite (el_cbs_some _ _ _ He).
  - intros R t fr HR Ht Hfr Hrcu.
    assert (frame_queue fr <> q) by congruence. apply (el_frame _ _ _ He) in Ht; [|done].
    destruct (proj1 (el_cbs_some _ _ _ He q' Hne) (ex_intro _ R HR)) as [R0 HR0].
    by apply (el_cbs _ _ _ He q' R0 R t fr), (H7 R0 t fr).
  - intros Hd t fr msr Ht Hw. pose proof (waits_on_queue _ _ _ _ Hw Hne).
    apply (el_frame _ _ _ He) in Ht; [|done]. by eapply H8.
  - intros Hl. eapply live_inv_elsewhere; [done|done|auto].
Qed.

(** The frames on [q] are well formed. *)
Definition frames_ok (q : qptr) (st : msg_ns) : Prop :=
  forall t fr, stacks st !! t = Some fr -> frame_queue fr = q -> frame_ok t fr.

(** The identifiers, accounts and limits of the namespace do not change. *)
Record same_ns (st st' : msg_ns) : Prop := {
  sn_ids : msg_ids st' = msg_ids st;
  sn_bytes : percpu_msg_bytes st' = percpu_msg_bytes st;
  sn_hdrs : percpu_msg_hdrs st' = percpu_msg_hdrs st;
  sn_ctlmax : msg_ctlmax st' = msg_ctlmax st;
  sn_ctlmnb : msg_ctlmnb st' = msg_ctlmnb st }.

Lemma same_ns_trans st1 st2 st3 : same_ns st1 st2 -> same_ns st2 st3 -> same_ns st1 st3.
Proof. intros [] []. split; congruence. Qed.

(** A step on queue [q], which stays and keeps its [deleted] mark. *)
Lemma msg_inv_step q msq msq' st st' :
  msg_inv st -> queues st !! q = Some msq -> elsewhere q st st' ->
  queues st' !! q = Some msq' -> deleted msq' = deleted msq ->
  queue_inv q msq' st' -> frames_ok q st' ->
  msg_ids st' = msg_ids st ->
  percpu_counter_sum (percpu_msg_bytes st') = s64 (total q_cbytes (queues st')) ->
  percpu_counter_sum (percpu_msg_hdrs st') = s64 (total q_qnum (queues st')) ->
  msg_ctlmax st' = msg_ctlmax st -> msg_ctlmnb st' = msg_ctlmnb st ->
  msg_inv st'.
Proof.
  intros Hinv Hq He Hq' Hdel Hqi Hfr Hids Hb Hh H1 H2. split.
  - intros q0 msq0 Hq0. destruct (decide (q0 = q)) as [->|Hne]; [by simplify_eq|].
    rewrite (el_queue _ _ _ He) in Hq0 by done.
    eapply queue_inv_elsewhere; [done|done|by apply Hinv].
  - intros t fr Ht. destruct (decide (frame_queue fr = q)); [by apply Hfr|].
    apply (el_frame _ _ _ He) in Ht; [|done]. by apply Hinv.
  - intros t fr Ht Hn. destruct (decide (frame_queue fr = q)) as [->|Hne]; [eauto|].
    rewrite (el_queue _ _ _ He) by done. apply (el_frame _ _ _ He) in Ht; [|done].
    by eapply mi_needs.
  - intros q0. rewrite Hids, (mi_ids _ Hinv). destruct (decide (q0 = q)) as [->|Hne].
    + rewrite Hq, Hq'. naive_solver.
    + by rewrite (el_queue _ _ _ He).
  - intros q0 R HR. destruct (decide (q0 = q)) as [->|Hne]; [eauto|].
    rewrite (el_queue _ _ _ He) by done.
    destruct (proj1 (el_cbs_some _ _ _ He q0 Hne) (ex_intro _ R HR)) as [R0 HR0].
    by eapply mi_cbs.
  - done.
  - done.
  - rewrite H1. apply Hinv.
  - rewrite H2. apply Hinv.
Qed.

(** The same, with the accounts of the queue unchanged. *)
Lemma msg_inv_same q msq msq' st st' :
  msg_inv st -> queues st !! q = Some msq -> elsewhere q st st' ->
  queues st' = <[q := msq']> (queues st) -> deleted msq' = deleted msq ->
  q_cbytes msq' = q_cbytes msq -> q_qnum msq' = q_qnum msq ->
  queue_inv q msq' st' -> frames_ok q st' -> same_ns st st' ->
  msg_inv st'.
Proof.
  intros Hinv Hq He HQ Hdel Hcb Hqn Hqi Hfr [S1 S2 S3 S4 S5].
  eapply (msg_inv_step q msq msq'); try done.
  - by rewrite HQ, lookup_insert_eq.
  - rewrite HQ, S2, (total_same q_cbytes _ q msq msq'); [apply Hinv|done|].
    unfold weight. by rewrite Hdel, Hcb.
  - rewrite HQ, S3, (total_same q_qnum _ q msq msq'); [apply Hinv|done|].
    unfold weight. by rewrite Hdel, Hqn.
Qed.

(** ** What the invariant gives *)

Section inv_facts.
Context (st : msg_ns) (Hinv : msg_inv st).

Lemma ids_queue q :
  ids_mem (msg_ids st) q -> exists msq, queues st !! q = Some msq /\ deleted msq = false.
Proof. apply Hinv. Qed.

Lemma live_queue q msq :
  queues st !! q = Some msq -> deleted msq = false -> live_inv q msq (stacks st) (woken st).
Proof. intros Hq Hd. by apply (mi_queue _ Hinv q msq Hq). Qed.

Lemma live_senders_ok q msq :
  queues st !! q = Some msq -> deleted msq = false -> senders_ok (q_senders msq) st.
Proof.
  intros Hq Hd. pose proof (live_queue q msq Hq Hd) as Hl. split; [apply Hl|].
  intros t Ht. apply (li_snd _ _ _ _ Hl) in Ht as (fr & Ht & Hon).
  pose proof (mi_frame _ Hinv t fr Ht) as Hok. destruct fr as [q' m n g s| | |]; try done.
  exists s. unfold sender_of. rewrite Ht. split; [done|]. apply Hok.
Qed.

Lemma live_receivers_ok q msq :
  queues st !! q = Some msq -> deleted msq = false -> receivers_ok (q_receivers msq) st.
Proof.
  intros Hq Hd. pose proof (live_queue q msq Hq Hd) as Hl. split; [apply Hl|].
  intros t Ht. apply (li_rcv _ _ _ _ Hl) in Ht as (fr & msr & Ht & _ & Hr & _).
  exists msr. unfold receiver_of. rewrite Ht. split; [done|].
  pose proof (mi_frame _ Hinv t fr Ht) as Hok. destruct fr; simplify_eq/=; apply Hok.
Qed.

(** The reference count stays far from saturation. *)
Lemma refcount_range q msq :
  room st -> queues st !! q = Some msq -> 0 <= ipc_refcount (q_perm msq) < INT_MAX - 1.
Proof.
  intros [_ Hroom] Hq. rewrite (qi_refs _ _ _ (mi_queue _ Hinv q msq Hq)).
  pose proof (snd_count_size q (stacks st)). unfold INT_MAX. destruct (deleted msq); lia.
Qed.
End inv_facts.

(** ** Steps that change the frame of one task *)

Lemma elsewhere_task q t st st' :
  (forall q', q' <> q -> queues st' !! q' = queues st !! q') ->
  (forall u, u <> t -> stacks st' !! u = stacks st !! u) ->
  (forall fr, stacks st !! t = Some fr -> frame_queue fr = q) ->
  (forall fr, stacks st' !! t = Some fr -> frame_queue fr = q) ->
  (forall u, u <> t -> u ∈ woken st -> u ∈ woken st') ->
  (forall q', q' <> q -> rcu_cbs st' !! q' = rcu_cbs st !! q' \/
     rcu_cbs st' !! q' = (fun R => R ∖ {[t]}) <$> rcu_cbs st !! q') ->
  elsewhere q st st'.
Proof.
  intros HQ HS Ht Ht' HW HC. split; [done| | | |].
  - intros u fr Hfr. destruct (decide (u = t)) as [->|Hne]; [naive_solver|by rewrite HS].
  - intros u fr Hu Hfr. apply HW. intros ->. naive_solver.
  - intros q' Hne. destruct (HC q' Hne) as [->| ->]; [done|]. by rewrite fmap_is_Some.
  - intros q' R R' u fr Hne HR HR' Hu Hfr _ Hin.
    assert (u <> t) as Hut by (intros ->; naive_solver).
    destruct (HC q' Hne) as [E|E]; rewrite HR' in E; rewrite HR in E; simplify_eq/=; set_solver.
Qed.

(** Steps that change no frame. *)
Lemma elsewhere_queue q st st' :
  (forall q', q' <> q -> queues st' !! q' = queues st !! q') ->
  stacks st' = stacks st -> woken st ⊆ woken st' -> rcu_cbs st' = rcu_cbs st ->
  elsewhere q st st'.
Proof.
  intros HQ HS HW HC. split; rewrite ?HS, ?HC; [done|done|set_solver|done|].
  intros. by simplify_eq.
Qed.

(** The invariant does not depend on times and process numbers. *)
Definition core (msq : msg_queue) : msg_queue :=
  MsgQueue (q_perm msq) 0 0 0 (q_cbytes msq) (q_qnum msq) (q_qbytes msq) None None
    (q_messages msq) (q_receivers msq) (q_senders msq).

Lemma live_inv_core q msq msq' S w :
  core msq' = core msq -> live_inv q msq S w -> live_inv q msq' S w.
Proof.
  intros E [H1 H2 H3 H4 H5 H6 H7].
  assert (live_inv q (core msq) S w) as Hc by (by split).
  rewrite <-E in Hc. destruct Hc. by split.
Qed.

Lemma queue_inv_core q msq msq' st :
  core msq' = core msq -> queue_inv q msq st -> queue_inv q msq' st.
Proof.
  intros E [H1 H2 H3 H4 H5 H6 H7 H8 H9].
  assert (queue_inv q (core msq) st) as Hc.
  { split; try done. intros Hd. eapply live_inv_core; [|by apply H9]. done. }
  rewrite <-E in Hc. destruct Hc as [C1 C2 C3 C4 C5 C6 C7 C8 C9]. split; try done.
  intros Hd. eapply live_inv_core; [|by apply C9]. done.
Qed.

(** A step described by a function keeps the invariant when its result does. *)
Lemma wp_spec_inv {A} (m : M msg_ns A) (f : A * msg_ns) st :
  wp m (fun o st' => (o, st') = f) st -> msg_inv f.2 -> wp m (fun _ => msg_inv) st.
Proof. intros Hwp Hi. eapply wp_mono; [exact Hwp|]. intros o st' <-. exact Hi. Qed.
End msg_inv.

(** * System V message queues: the frames of single tasks

    A task enters the RCU section in which it looks up a queue, leaves it, or goes away
    with its frame. *)

Section msg_frames.
Context `{I : Ipc}.

(** A step that changes no queue, and frames only on [q], which may be gone. *)
Lemma msg_inv_keep q st st' :
  msg_inv st -> queues st' = queues st -> elsewhere q st st' ->
  (forall msq, queues st !! q = Some msq -> queue_inv q msq st') ->
  (forall t fr, stacks st' !! t = Some fr -> frame_queue fr = q ->
     frame_ok t fr /\ (needs_queue fr -> is_Some (queues st !! q))) ->
  (forall R, rcu_cbs st' !! q = Some R -> is_Some (queues st !! q)) ->
  same_ns st st' -> msg_inv st'.
Proof.
  intros Hinv EQ He Hqi Hfr Hcb [S1 S2 S3 S4 S5]. split; rewrite ?EQ, ?S1, ?S2, ?S3, ?S4, ?S5;
    try apply Hinv.
  - intros q0 msq0 Hq0. destruct (decide (q0 = q)) as [->|Hne]; [auto|].
    eapply queue_inv_elsewhere; [done|done|by apply Hinv].
  - intros t fr Ht. destruct (decide (frame_queue fr = q)); [by apply Hfr|].
    apply (el_frame _ _ _ He) in Ht; [|done]. by apply Hinv.
  - intros t fr Ht Hn. destruct (decide (frame_queue fr = q)) as [E|Hne].
    + rewrite E. by eapply Hfr.
    + apply (el_frame _ _ _ He) in Ht; [|done]. by eapply mi_needs.
  - intros q0 R HR. destruct (decide (q0 = q)) as [->|Hne]; [by eapply Hcb|].
    destruct (proj1 (el_cbs_some _ _ _ He q0 Hne) (ex_intro _ R HR)) as [R0 HR0].
    by eapply mi_cbs.
Qed.

(** A queue on which a receiver waits is there and is not deleted. *)
Lemma waiting_queue st t fr msr :
  msg_inv st -> stacks st !! t = Some fr -> frame_receiver fr = Some msr ->
  r_msg msr = inl (- EAGAIN) ->
  exists msq, queues st !! frame_queue fr = Some msq /\ deleted msq = false.
Proof.
  intros Hinv Ht Hr Hw. destruct (mi_needs _ Hinv t fr Ht) as [msq Hq].
  { destruct fr; simplify_eq/=; done. }
  exists msq. split; [done|]. destruct (deleted msq) eqn:Hd; [|done]. exfalso.
  by eapply (qi_dead _ _ _ (mi_queue _ Hinv _ msq Hq) Hd t fr msr).
Qed.

(** No call of [msg_rcu_free] is pending for a queue that is not deleted. *)
Lemma live_no_cb st q msq :
  msg_inv st -> queues st !! q = Some msq -> deleted msq = false -> rcu_cbs st !! q = None.
Proof.
  intros Hinv Hq Hd. destruct (rcu_cbs st !! q) eqn:E; [|done].
  destruct (mi_queue _ Hinv q msq Hq) as [_ _ _ _ H5 H6 _ _ _].
  pose proof (proj1 H6 ltac:(eauto)). rewrite Hd in H5.
  pose proof (snd_count_size q (stacks st)). lia.
Qed.

(** ** Going away *)

Definition popped (t : task) (st : msg_ns) : msg_ns := st <| stacks ::= delete t |>.

(** A frame that is on no list. *)
Definition quiet (fr : frame) : Prop :=
  (forall q, snd_on q fr = false) /\ forall q msr, ~ waits_on q fr msr.

Lemma quiet_answered fr msr :
  frame_receiver fr = Some msr -> r_msg msr <> inl (- EAGAIN) -> quiet fr.
Proof. intros Hr Ha. split; [by destruct fr|]. intros q msr' (_ & Hr' & Hw). congruence. Qed.

Lemma quiet_locking q c : quiet (Locking q c).
Proof. split; [done|]. by intros q' msr (_ & Hr & _). Qed.

Lemma live_popped q msq S w t fr :
  live_inv q msq S w -> S !! t = Some fr -> quiet fr -> live_inv q msq (delete t S) w.
Proof.
  intros [H1 H2 H3 H4 H5 H6 H7] Ht [Hs Hr]. split; [done|done| | | | |].
  - intros u. rewrite H3, lookup_delete. destruct (decide (t = u)) as [<-|]; [|done].
    rewrite Ht. split; [|naive_solver]. intros (fr' & [= <-] & Hon). by rewrite Hs in Hon.
  - intros u m n g s. rewrite lookup_delete. destruct (decide (t = u)); [done|]. apply H4.
  - intros u. rewrite H5, lookup_delete. destruct (decide (t = u)) as [<-|]; [|done].
    rewrite Ht. split; [|naive_solver]. intros (fr' & msr & [= <-] & Hw). by apply Hr in Hw.
  - intros u m n g s. rewrite lookup_delete. destruct (decide (t = u)); [done|]. apply H6.
  - intros u fr' msr. rewrite lookup_delete. destruct (decide (t = u)); [done|]. apply H7.
Qed.

Lemma popped_inv t fr st :
  msg_inv st -> stacks st !! t = Some fr -> quiet fr -> msg_inv (popped t st).
Proof.
  intros Hinv Ht Hq0. apply (msg_inv_keep (frame_queue fr) st); [done|done| | | | |by split].
  - apply (elsewhere_task _ t); unfold popped; rec_simpl; [done| | | |done|auto].
    + intros. by rewrite lookup_delete_ne.
    + intros fr'. rewrite Ht. by intros [= <-].
    + intros fr'. by rewrite lookup_delete_eq.
  - intros msq Hq. destruct (mi_queue _ Hinv _ msq Hq) as [H1 H2 H3 H4 H5 H6 H7 H8 H9].
    split; unfold popped; rec_simpl; try done.
    + rewrite (snd_count_delete _ _ _ _ Ht), (proj1 Hq0). simpl. lia.
    + intros R u fr' HR Hu. apply lookup_delete_Some in Hu as [_ Hu]. by eapply H7.
    + intros Hd u fr' msr' Hu. apply lookup_delete_Some in Hu as [_ Hu]. by eapply H8.
    + intros Hd. by eapply live_popped; [apply H9| |].
  - unfold popped. intros u fr'. rec_simpl. intros Hu Hq.
    apply lookup_delete_Some in Hu as [_ Hu]. split; [by apply Hinv|].
    intros Hn. rewrite <-Hq. by eapply mi_needs.
  - exact (mi_cbs _ Hinv _).
Qed.

Lemma popped_room t st : room st -> room (popped t st).
Proof.
  intros [Hm Hs]. split; [done|]. unfold popped. rec_simpl. rewrite map_size_delete.
  destruct (stacks st !! t); simpl; lia.
Qed.

(** ** Looking up a queue *)

Definition looking (t : task) (q : qptr) (c : locking) (st : msg_ns) : msg_ns :=
  st <| stacks ::= <[t := Locking q c]> |>.

Lemma live_looking q msq S w t c :
  live_inv q msq S w -> S !! t = None -> live_inv q msq (<[t := Locking q c]> S) w.
Proof.
  intros [H1 H2 H3 H4 H5 H6 H7] Ht. split; [done|done| | | | |].
  - intros u. rewrite H3, lookup_insert. destruct (decide (t = u)) as [<-|]; [|done].
    rewrite Ht. split; [naive_solver|]. by intros (fr & [= <-] & Hon).
  - intros u m n g s. rewrite lookup_insert. destruct (decide (t = u)); [done|]. apply H4.
  - intros u. rewrite H5, lookup_insert. destruct (decide (t = u)) as [<-|]; [|done].
    rewrite Ht. split; [naive_solver|]. by intros (fr & msr & [= <-] & _ & Hr & _).
  - intros u m n g s. rewrite lookup_insert. destruct (decide (t = u)); [done|]. apply H6.
  - intros u fr msr. rewrite lookup_insert. destruct (decide (t = u)) as [<-|]; [|apply H7].
    by intros [= <-] (_ & Hr & _).
Qed.

Lemma looking_inv t q c msq st :
  msg_inv st -> stacks st !! t = None -> queues st !! q = Some msq -> deleted msq = false ->
  frame_ok t (Locking q c) -> msg_inv (looking t q c st).
Proof.
  intros Hinv Ht Hq Hd Hok. apply (msg_inv_keep q st); [done|done| | | | |by split].
  - apply (elsewhere_task _ t); unfold looking; rec_simpl; [done| | | |done|auto].
    + intros. by rewrite lookup_insert_ne.
    + intros fr'. by rewrite Ht.
    + intros fr'. rewrite lookup_insert_eq. by intros [= <-].
  - intros msq' Hq'. rewrite Hq in Hq'. injection Hq' as <-.
    destruct (mi_queue _ Hinv _ msq Hq) as [H1 H2 H3 H4 H5 H6 H7 H8 H9].
    split; unfold looking; rec_simpl; try done.
    + rewrite H5, snd_count_insert by done. simpl. lia.
    + intros R u fr HR. by rewrite (live_no_cb st q msq) in HR.
    + congruence.
    + intros _. by apply live_looking; [apply H9|].
  - unfold looking. intros u fr'. rec_simpl. rewrite lookup_insert.
    destruct (decide (t = u)) as [<-|]; [|intros Hu _; split; [by apply Hinv|eauto]].
    intros [= <-] _. split; [done|eauto].
  - exact (mi_cbs _ Hinv _).
Qed.

(** ** Leaving the RCU section *)

Definition unlocked (t : task) (ev : list msg_event) (st : msg_ns) : msg_ns :=
  st <| rcu_cbs ::= fmap (fun R => R ∖ {[t]}) |> <| events := ev |>.

Lemma unlocked_inv t ev st :
  msg_inv st -> (forall fr, stacks st !! t = Some fr -> in_rcu fr = false) ->
  msg_inv (unlocked t ev st).
Proof.
  intros Hinv Ht.
  assert (forall q, elsewhere q st (unlocked t ev st)) as He.
  { intros q. split; unfold unlocked; rec_simpl; try done.
    - intros q' _. by rewrite lookup_fmap, fmap_is_Some.
    - intros q' R R' u fr _ HR HR' Hu _ Hrcu Hin. rewrite lookup_fmap, HR in HR'.
      injection HR' as <-. apply elem_of_difference. split; [done|].
      intros ->%elem_of_singleton. specialize (Ht fr Hu). congruence. }
  split; try apply Hinv.
  - intros q msq Hq. apply (queue_inv_elsewhere (S q) q msq st); [done|lia|by apply Hinv].
  - unfold unlocked. intros q R. rec_simpl. rewrite lookup_fmap. intros HR.
    destruct (rcu_cbs st !! q) as [R0|] eqn:E; [|done]. by eapply mi_cbs.
Qed.
End msg_frames.
