(* ===== verification/MsgSend.v ===== *)
(** * System V message queues: sending keeps the invariant *)

From S2P Require Import Prelude.
From S2P Require Import MsgTypes.
From S2P Require Import MsgOps.
From S2P Require Import MsgLoops.
From S2P Require Import MsgInv.

Section msg_send.
Context `{I : Ipc} (IL : IpcLaws I).

Abbreviation MN := (M msg_ns).

(** ** Going to sleep *)

(** The queue with sender [t] and one more reference. *)
Definition add_sender (t : task) (msq : msg_queue) : msg_queue :=
  msq <| q_senders ::= fun l => l ++ [t] |> <| q_perm ::= fun p => p <| ipc_refcount ::= Z.succ |> |>.

Definition snd_asleep (t : task) (q : qptr) (msg : msg_msg) (n g : Z) (msq : msg_queue)
    (st : msg_ns) : msg_ns :=
  st <| stacks ::= <[t := SndFrame q msg n g (MsgSender t n true)]> |>
     <| woken ::= fun w => w ∖ {[t]} |>
     <| queues ::= <[q := add_sender t msq]> |>.

Lemma live_add_sender q msq S w t m n g :
  live_inv q msq S w -> S !! t = None -> msg_fits_inqueue msq n = false ->
  live_inv q (add_sender t msq) (<[t := SndFrame q m n g (MsgSender t n true)]> S) (w ∖ {[t]}).
Proof.
  intros [H1 H2 H3 H4 H5 H6 H7] Ht Hfit. split; unfold add_sender; rec_simpl.
  - apply NoDup_app. split; [done|]. split; [|apply NoDup_singleton].
    intros u Hu ->%list_elem_of_singleton. apply H3 in Hu as (fr & Hfr & _). congruence.
  - done.
  - intros u. rewrite elem_of_app, H3, list_elem_of_singleton, lookup_insert.
    destruct (decide (t = u)) as [<-|Hne].
    + split; [|by right]. intros _. eexists. split; [done|]. simpl. by apply bool_decide_eq_true.
    + naive_solver.
  - intros u m' n' g' s'. rewrite lookup_insert. destruct (decide (t = u)) as [<-|Hne].
    + by intros [= <- <- <- <-].
    + apply H4.
  - intros u. rewrite H5, lookup_insert. destruct (decide (t = u)) as [<-|Hne]; [|done].
    rewrite Ht. split; [naive_solver|]. intros (fr & msr & [= <-] & _ & Hr & _). done.
  - intros u m' n' g' s'. rewrite lookup_insert. destruct (decide (t = u)) as [<-|Hne].
    + intros [= <- <- <- <-]. unfold msg_fits_inqueue in *. rec_simpl. congruence.
    + intros Hu Hf. rewrite elem_of_difference, elem_of_singleton. split; [|done].
      by eapply H6.
  - intros u fr msr. rewrite lookup_insert. destruct (decide (t = u)) as [<-|Hne].
    + intros [= <-] (_ & Hr & _). done.
    + intros Hu Hw Hnw m' Hm'. unfold wanted. rewrite msgrcv_hook_refcount.
      eapply H7; [done|done|set_solver|done].
Qed.

Lemma snd_asleep_inv t q msg n g msq st :
  msg_inv st -> queues st !! q = Some msq -> deleted msq = false -> stacks st !! t = None ->
  m_ts msg = n -> 0 <= n < 2 ^ 32 -> msg_fits_inqueue msq n = false ->
  msg_inv (snd_asleep t q msg n g msq st).
Proof.
  intros Hinv Hq Hd Ht Hm Hn Hfit. pose proof (mi_queue _ Hinv q msq Hq) as Hqi.
  eapply (msg_inv_same q msq (add_sender t msq) st); [done|done| | | | | | | |].
  - apply (elsewhere_task q t); unfold snd_asleep; rec_simpl.
    + intros. by rewrite lookup_insert_ne.
    + intros. by rewrite lookup_insert_ne.
    + intros fr. by rewrite Ht.
    + intros fr. rewrite lookup_insert_eq. by intros [= <-].
    + set_solver.
    + auto.
  - unfold snd_asleep. by rec_simpl.
  - unfold deleted, add_sender. by rec_simpl.
  - unfold add_sender. by rec_simpl.
  - unfold add_sender. by rec_simpl.
  - destruct Hqi as [H1 H2 H3 H4 H5 H6 H7 H8 H9].
    split; unfold snd_asleep, deleted, add_sender; rec_simpl; fold (deleted msq); try done.
    + rewrite H5, Hd, snd_count_insert by done. simpl. rewrite bool_decide_true by done.
      simpl. lia.
    + rewrite H6, H5, Hd. pose proof (snd_count_size q (stacks st)). lia.
    + intros R u fr HR Hu Hfr Hrcu. rewrite lookup_insert in Hu.
      destruct (decide (t = u)); [by injection Hu as <-|]. by eapply H7.
    + congruence.
    + intros _. by apply live_add_sender; [apply H9| |].
  - unfold snd_asleep. intros u fr. rec_simpl. rewrite lookup_insert.
    destruct (decide (t = u)) as [<-|Hne]; [by intros [= <-] _|]. intros Hu _. by apply Hinv.
  - by split.
Qed.

Lemma wp_snd_sleep t q msg n g msq st :
  msg_inv st -> room st -> queues st !! q = Some msq -> deleted msq = false ->
  wp (ss_add t q msg n g ;;;
      let* msq := get_msq q in
      match ipc_rcu_getref (q_perm msq) with
      | None => pop_frame t ;;; ret (Returned (- EIDRM))
      | Some p => upd_msq q (fun msq => msq <| q_perm := p |>) ;;; ret Slept
      end)
    (fun o st' => o = Slept /\ st' = snd_asleep t q msg n g msq st) st.
Proof.
  intros Hinv Hroom Hq Hd. apply wp_bind. unfold ss_add.
  apply wp_bind, wp_mod, wp_bind, wp_mod. eapply wp_upd_msq; [rec_simpl; done|].
  apply wp_bind. eapply wp_get_msq; [rec_simpl; apply lookup_insert_eq|]. rec_simpl.
  rewrite getref_live.
  2:{ pose proof (refcount_range st Hinv q msq Hroom Hq).
      rewrite (qi_refs _ _ _ (mi_queue _ Hinv q msq Hq)), Hd in *.
      pose proof (snd_count_size q (stacks st)). lia. }
  apply wp_bind. eapply wp_upd_msq; [rec_simpl; apply lookup_insert_eq|]. apply wp_ret.
  split; [done|]. unfold snd_asleep, add_sender. destruct st, msq. unfold upd_field. simpl.
  by rewrite insert_insert_eq.
Qed.

(** ** Answering receivers *)

Lemma answer_queue m fr : frame_queue (answer m fr) = frame_queue fr.
Proof. by destruct fr. Qed.

Lemma answer_receiver m fr :
  frame_receiver (answer m fr) = (fun msr => msr <| r_msg := m |>) <$> frame_receiver fr.
Proof. by destruct fr. Qed.

Lemma answer_snd_on q m fr : snd_on q (answer m fr) = snd_on q fr.
Proof. by destruct fr. Qed.

Lemma answer_ok t m fr : frame_ok t fr -> frame_ok t (answer m fr).
Proof. destruct fr; simpl; rec_simpl; done. Qed.

Lemma answer_rcu m fr : in_rcu (answer m fr) = in_rcu fr.
Proof. by destruct fr. Qed.

Lemma answer_snd m fr q msg n g s : answer m fr = SndFrame q msg n g s -> fr = SndFrame q msg n g s.
Proof. by destruct fr. Qed.

(** The receivers [l] got an answer that ends their wait. *)
Definition answered (l : list task) (S S' : gmap task frame) : Prop :=
  forall t, if decide (t ∈ l)
    then exists fr m, S !! t = Some fr /\ S' !! t = Some (answer m fr) /\ m <> inl (- EAGAIN)
    else S' !! t = S !! t.

Lemma answered_lookup l S S' t fr' :
  answered l S S' -> S' !! t = Some fr' ->
  exists fr, S !! t = Some fr /\ (fr' = fr /\ t ∉ l \/
    exists m, fr' = answer m fr /\ m <> inl (- EAGAIN) /\ t ∈ l).
Proof.
  intros Ha Ht. specialize (Ha t). destruct (decide (t ∈ l)).
  - destruct Ha as (fr & m & Hfr & Hfr' & Hm). simplify_eq. exists fr. eauto 10.
  - rewrite Ha in Ht. exists fr'. auto.
Qed.

Lemma answered_snd_on q l S S' t : answered l S S' -> snd_on q <$> S' !! t = snd_on q <$> S !! t.
Proof.
  intros Ha. specialize (Ha t). destruct (decide (t ∈ l)); [|by rewrite Ha].
  destruct Ha as (fr & m & -> & -> & _). simpl. by rewrite answer_snd_on.
Qed.

Lemma answered_snd l S S' t q m n g s :
  answered l S S' -> S' !! t = Some (SndFrame q m n g s) -> S !! t = Some (SndFrame q m n g s).
Proof.
  intros Ha Ht. destruct (answered_lookup _ _ _ _ _ Ha Ht) as (fr & Hfr & [[-> _]|(m' & E & _)]);
    [done|]. symmetry in E. apply answer_snd in E. by subst.
Qed.

Lemma answered_waits q l S S' t fr' msr :
  answered l S S' -> S' !! t = Some fr' -> waits_on q fr' msr ->
  S !! t = Some fr' /\ t ∉ l.
Proof.
  intros Ha Ht (Hq & Hr & Hw).
  destruct (answered_lookup _ _ _ _ _ Ha Ht) as (fr & Hfr & [[-> Hl]|(m & -> & Hm & _)]); [done|].
  rewrite answer_receiver in Hr. by destruct (frame_receiver fr); simplify_eq/=.
Qed.

Definition drop_receivers (l : list task) (msq : msg_queue) : msg_queue :=
  msq <| q_receivers ::= list_dels l |>.

Lemma live_answered q msq S S' w l :
  live_inv q msq S w -> answered l S S' ->
  live_inv q (drop_receivers l msq) S' (w ∪ list_to_set l).
Proof.
  intros [H1 H2 H3 H4 H5 H6 H7] Ha. split; unfold drop_receivers; rec_simpl.
  - done.
  - by apply NoDup_filter.
  - intros t. rewrite H3. pose proof (answered_snd_on q _ _ _ t Ha) as E.
    destruct (S !! t) as [fr|], (S' !! t) as [fr'|]; simplify_eq/=;
      [|by split; intros (x & ? & _)].
    split; intros (x & [= <-] & Hx); eexists; (split; [done|]); congruence.
  - intros t m n g s Ht. eapply H4, answered_snd; done.
  - intros t. unfold list_dels. rewrite list_elem_of_filter, H5. split.
    + intros [Hl (fr & msr & Hfr & Hw)]. exists fr, msr. split; [|done].
      pose proof (Ha t) as Ht. by rewrite decide_False in Ht by done; rewrite Ht.
    + intros (fr & msr & Hfr & Hw). destruct (answered_waits _ _ _ _ _ _ _ Ha Hfr Hw).
      split; [done|eauto].
  - intros t m n g s Ht Hf. apply elem_of_union_l. eapply H6; [by eapply answered_snd|].
    unfold msg_fits_inqueue in *. by rec_simpl_all.
  - intros t fr msr Ht Hw Hnw m Hm. destruct (answered_waits _ _ _ _ _ _ _ Ha Ht Hw) as [Ht' _].
    eapply H7; [done|done|set_solver|done].
Qed.

(** The rest of the invariant of a live queue whose receivers [l] were answered. *)
Lemma queue_answered q msq st st' l :
  queue_inv q msq st -> deleted msq = false -> answered l (stacks st) (stacks st') ->
  woken st' = woken st ∪ list_to_set l -> rcu_cbs st' = rcu_cbs st ->
  queue_inv q (drop_receivers l msq) st'.
Proof.
  intros [H1 H2 H3 H4 H5 H6 H7 H8 H9] Hd Ha Hw Hc.
  split; unfold drop_receivers, deleted; rec_simpl; fold (deleted msq); try done.
  - rewrite H5. f_equal. symmetry. apply snd_count_same. intros t. by apply (answered_snd_on _ l).
  - by rewrite Hc.
  - intros R t fr' HR Ht. rewrite Hc in HR.
    destruct (answered_lookup _ _ _ _ _ Ha Ht) as (fr & Hfr & [[-> _]|(m & -> & _)]);
      [by apply H7|]. rewrite answer_queue, answer_rcu. by apply H7.
  - congruence.
  - intros _. rewrite Hw. by apply (live_answered q msq (stacks st)); [apply H9|].
Qed.

Lemma elsewhere_answered q l st st' :
  (forall q', q' <> q -> queues st' !! q' = queues st !! q') ->
  answered l (stacks st) (stacks st') ->
  (forall t fr, t ∈ l -> stacks st !! t = Some fr -> frame_queue fr = q) ->
  woken st ⊆ woken st' -> rcu_cbs st' = rcu_cbs st -> elsewhere q st st'.
Proof.
  intros HQ Ha Hl HW HC. split; rewrite ?HC; [done| |set_solver|done|intros; by simplify_eq].
  intros t fr Hfr. split.
  - intros Ht. destruct (answered_lookup _ _ _ _ _ Ha Ht) as (fr0 & Ht0 & [[-> _]|(m & -> & _ & Hin)]);
      [done|]. rewrite answer_queue in Hfr. exfalso. by eapply Hfr, Hl.
  - intros Ht. pose proof (Ha t) as Hat. destruct (decide (t ∈ l)) as [Hin|Hin]; [|by rewrite Hat].
    exfalso. by eapply Hfr, Hl.
Qed.

Lemma frames_ok_answered q l st st' :
  frames_ok q st -> answered l (stacks st) (stacks st') -> frames_ok q st'.
Proof.
  intros Hf Ha t fr Ht Hq.
  destruct (answered_lookup _ _ _ _ _ Ha Ht) as (fr0 & Ht0 & [[-> _]|(m & -> & _ & _)]).
  - by apply Hf.
  - rewrite answer_queue in Hq. by apply answer_ok, Hf.
Qed.

(** ** Delivering a message *)

Lemma pipeline_none perm msg st l small t :
  pipeline perm msg st l = (small, None) -> t ∈ l -> t ∉ small ->
  receiver_wants perm msg st t = false.
Proof.
  revert small. induction l as [|x l IH]; intros small; simpl; [set_solver|].
  destruct (receiver_wants perm msg st x) eqn:E; [destruct (receiver_small msg st x)|].
  - destruct (pipeline perm msg st l) as [s o]. simpl. intros [= <- ->] Ht Hs.
    apply (IH s); [done|set_solver|set_solver].
  - done.
  - intros Hp Ht Hs. apply elem_of_cons in Ht as [->|Ht]; [done|by eapply IH].
Qed.

Lemma sum_ts_app l1 l2 : sum_ts (l1 ++ l2) = sum_ts l1 + sum_ts l2.
Proof. unfold sum_ts. induction l1 as [|m l1 IH]; simpl; lia. Qed.

Lemma sum_ts_nonneg l : Forall (fun m => 0 <= m_ts m < 2 ^ 32) l -> 0 <= sum_ts l.
Proof. unfold sum_ts. induction 1; simpl; lia. Qed.

(** The queue with one more message. *)
Definition enqueue (msg : msg_msg) (n : Z) (msq : msg_queue) : msg_queue :=
  msq <| q_messages ::= fun l => l ++ [msg] |> <| q_cbytes ::= fun c => u64 (c + n) |>
      <| q_qnum ::= fun c => u64 (c + 1) |>.

Lemma live_enqueue q msq S w msg n :
  live_inv q msq S w ->
  0 <= q_cbytes msq < 2 ^ 63 -> 0 <= q_qnum msq < 2 ^ 63 -> 0 <= n < 2 ^ 32 ->
  (forall t fr, S !! t = Some fr -> frame_ok t fr) ->
  (forall t fr msr, S !! t = Some fr -> waits_on q fr msr -> t ∉ w ->
     wanted (q_perm msq) msg t (r_msgtype msr) (r_mode msr) = false) ->
  live_inv q (enqueue msg n msq) S w.
Proof.
  intros [H1 H2 H3 H4 H5 H6 H7] Hb Hc Hn Hok Hno. split; unfold enqueue; rec_simpl; try done.
  - intros t m n' g s Ht Hf. eapply H6; [done|]. pose proof (Hok _ _ Ht) as (_ & Hn' & _).
    unfold msg_fits_inqueue in *. rec_simpl_all.
    rewrite !u64_id in * by (rewrite ?u64_id; lia). lia.
  - intros t fr msr Ht Hw Hnw m Hm. apply elem_of_app in Hm as [Hm|Hm]; [by eapply H7|].
    apply list_elem_of_singleton in Hm as ->. by eapply Hno.
Qed.

Lemma pipeline_taker perm msg st l small x :
  pipeline perm msg st l = (small, Some x) ->
  receiver_wants perm msg st x = true /\ receiver_small msg st x = false.
Proof.
  revert small. induction l as [|y l IH]; intros small; simpl; [done|].
  destruct (receiver_wants perm msg st y) eqn:E; [destruct (receiver_small msg st y) eqn:E'|].
  - destruct (pipeline perm msg st l) as [s o]. simpl. intros [= _ ->]. by eapply IH.
  - by intros [= _ <-].
  - apply IH.
Qed.

Lemma piped_answered q msq msg now small taker st :
  (forall t, t ∈ small ++ option_list taker -> is_Some (stacks st !! t)) ->
  (forall x, taker = Some x -> x ∉ small) ->
  answered (small ++ option_list taker) (stacks st) (stacks (piped q msq msg now small taker st)).
Proof.
  intros Hin Hx t. unfold piped, with_stacks. rec_simpl. rewrite !lookup_restack.
  destruct (decide (t ∈ small ++ option_list taker)) as [Ht|Ht].
  - destruct (Hin t Ht) as [fr Hfr]. rewrite Hfr. exists fr.
    apply elem_of_app in Ht as [Ht|Ht].
    + exists (inl (- E2BIG)). split; [done|]. simpl. rewrite (decide_True _ _ Ht).
      rewrite decide_False.
      * split; [done|]. pose proof EAGAIN_not_E2BIG. intros [= E]. lia.
      * intros Hx'. destruct taker; [|by apply not_elem_of_nil in Hx'].
        apply list_elem_of_singleton in Hx'. subst. by eapply Hx.
    + exists (inr msg). split; [done|]. simpl. rewrite (decide_True _ _ Ht). split; [|done].
      rewrite decide_False; [done|]. destruct taker as [x|]; [|by apply not_elem_of_nil in Ht].
      apply list_elem_of_singleton in Ht. subst. by apply Hx.
  - rewrite !not_elem_of_app in Ht. destruct Ht as [H1 H2].
    destruct (stacks st !! t); simpl; [|done]. by rewrite !decide_False.
Qed.

(** The queue with its sender's process number and time. *)
Definition stamp_send (t : task) (now : Z) (msq : msg_queue) : msg_queue :=
  msq <| q_lspid := Some (task_tgid t) |> <| q_stime := now |>.

(** The state after the receivers were served and woken. *)
Definition served (t : task) (q : qptr) (msg : msg_msg) (now : Z) (msq : msg_queue) (st : msg_ns)
    : msg_ns :=
  let p := pipeline (q_perm msq) msg st (q_receivers msq) in
  piped q (stamp_send t now msq) msg now p.1 p.2 st
    <| woken ::= fun w => w ∪ list_to_set (p.1 ++ option_list p.2) |>.

Definition queued (t : task) (q : qptr) (msg : msg_msg) (now : Z) (msq : msg_queue) (st : msg_ns)
    : msg_ns :=
  served t q msg now msq st
    <| queues ::= alter (enqueue msg (m_ts msg)) q |>
    <| percpu_msg_bytes ::= fun c => percpu_counter_add_local c (s64 (m_ts msg)) |>
    <| percpu_msg_hdrs ::= fun c => percpu_counter_add_local c 1 |>.

Lemma pipeline_nodup perm msg st l x :
  NoDup l -> (pipeline perm msg st l).2 = Some x -> x ∉ (pipeline perm msg st l).1.
Proof.
  induction l as [|y l IH]; simpl; [done|]. intros [Hy Hnd]%NoDup_cons.
  destruct (receiver_wants perm msg st y); [destruct (receiver_small msg st y)|]; simpl.
  - intros Hx [->|Hx']%elem_of_cons; [|by apply IH].
    apply Hy, (pipeline_in perm msg st). auto.
  - intros _. apply not_elem_of_nil.
  - auto.
Qed.

Lemma live_receiver_frame q msq st t :
  msg_inv st -> queues st !! q = Some msq -> deleted msq = false -> t ∈ q_receivers msq ->
  exists fr, stacks st !! t = Some fr /\ frame_queue fr = q.
Proof.
  intros Hinv Hq Hd Ht. pose proof (live_queue st Hinv q msq Hq Hd) as Hl.
  apply (li_rcv _ _ _ _ Hl) in Ht as (fr & msr & Hfr & Hw). exists fr. split; [done|apply Hw].
Qed.

Section deliver.
Context (t : task) (q : qptr) (msg : msg_msg) (now : Z) (msq : msg_queue) (st : msg_ns).
Context (Hinv : msg_inv st) (Hq : queues st !! q = Some msq) (Hd : deleted msq = false).

Abbreviation p := (pipeline (q_perm msq) msg st (q_receivers msq)).
Abbreviation ans := (p.1 ++ option_list p.2).

Lemma ans_in u : u ∈ ans -> u ∈ q_receivers msq.
Proof.
  intros [Hu|Hu]%elem_of_app; apply (pipeline_in (q_perm msq) msg st); [by left|].
  right. destruct p.2; [|by apply not_elem_of_nil in Hu].
  by apply list_elem_of_singleton in Hu as ->.
Qed.

Lemma served_answered : answered ans (stacks st) (stacks (served t q msg now msq st)).
Proof.
  apply piped_answered.
  - intros u Hu%ans_in.
    destruct (live_receiver_frame q msq st u Hinv Hq Hd Hu) as (fr & ? & _). eauto.
  - intros x Hx. apply pipeline_nodup; [|done].
    apply (live_queue st Hinv q msq Hq Hd).
Qed.

Lemma served_queue :
  queues (served t q msg now msq st) !! q = Some (piped_queue (stamp_send t now msq) p.1 p.2 now).
Proof. unfold served. rec_simpl. apply piped_lookup. Qed.

Lemma piped_core : core (piped_queue (stamp_send t now msq) p.1 p.2 now) = core (drop_receivers ans msq).
Proof. unfold piped_queue. by destruct p.2. Qed.

Lemma served_inv : msg_inv (served t q msg now msq st).
Proof.
  pose proof (mi_queue _ Hinv q msq Hq) as Hqi. pose proof served_answered as Ha.
  eapply (msg_inv_same q msq); [done|done| | | | | | | |].
  - eapply elsewhere_answered; [|exact Ha| |set_solver|done].
    + intros q' Hne. unfold served, piped, with_stacks. rec_simpl. by rewrite lookup_insert_ne.
    + intros u fr Hu%ans_in Hfr.
      destruct (live_receiver_frame q msq st u Hinv Hq Hd Hu) as (fr' & ? & ?). congruence.
  - unfold served, piped, with_stacks. by rec_simpl.
  - unfold piped_queue. by destruct p.2.
  - unfold piped_queue. by destruct p.2.
  - unfold piped_queue. by destruct p.2.
  - eapply queue_inv_core; [apply piped_core|].
    eapply queue_answered; [exact Hqi|done|exact Ha|done|done].
  - eapply frames_ok_answered; [|exact Ha]. intros u fr Hu _. by apply Hinv.
  - by split.
Qed.

Lemma queue_room : room st ->
  0 <= q_cbytes msq < 2 ^ 62 /\ 0 <= q_qnum msq < 2 ^ 62 /\
  q_cbytes msq = sum_ts (q_messages msq).
Proof.
  intros [Hroom _]. destruct (Hroom q msq Hq) as [H1 H2].
  pose proof (mi_queue _ Hinv q msq Hq) as Hqi.
  pose proof (sum_ts_nonneg _ (qi_sizes _ _ _ Hqi)).
  rewrite (qi_bytes _ _ _ Hqi), (qi_num _ _ _ Hqi). lia.
Qed.

(** Nobody who still waits for a message wants one that was not taken. *)
Lemma not_taken u fr msr :
  p.2 = None -> stacks (served t q msg now msq st) !! u = Some fr -> waits_on q fr msr ->
  wanted (q_perm msq) msg u (r_msgtype msr) (r_mode msr) = false.
Proof.
  intros Hp Hu Hw. destruct (answered_waits _ _ _ _ _ _ _ served_answered Hu Hw) as [Hu' Hn].
  assert (u ∈ q_receivers msq) as Hin.
  { apply (li_rcv _ _ _ _ (live_queue st Hinv q msq Hq Hd)). eauto. }
  rewrite not_elem_of_app in Hn. destruct Hn as [Hn _].
  pose proof (pipeline_none (q_perm msq) msg st (q_receivers msq) p.1 u
    ltac:(by rewrite <-Hp, <-surjective_pairing) Hin Hn) as Hr.
  destruct Hw as (_ & Hr' & _). unfold receiver_wants, receiver_of in Hr.
  rewrite Hu' in Hr. simpl in Hr. rewrite Hr' in Hr.
  pose proof (mi_frame _ Hinv u fr Hu') as Hok.
  assert (r_tsk msr = u) as <-; [|done]. destruct fr; simplify_eq/=; apply Hok.
Qed.

Lemma enqueue_inv n msq2 st2 st3 :
  queue_inv q msq2 st2 -> deleted msq2 = false ->
  0 <= q_cbytes msq2 < 2 ^ 62 -> 0 <= q_qnum msq2 < 2 ^ 62 ->
  m_ts msg = n -> 0 <= n < 2 ^ 32 ->
  (forall u fr, stacks st2 !! u = Some fr -> frame_ok u fr) ->
  (forall u fr msr, stacks st2 !! u = Some fr -> waits_on q fr msr ->
     wanted (q_perm msq2) msg u (r_msgtype msr) (r_mode msr) = false) ->
  stacks st3 = stacks st2 -> woken st3 = woken st2 -> rcu_cbs st3 = rcu_cbs st2 ->
  queue_inv q (enqueue msg n msq2) st3.
Proof.
  intros [H1 H2 H3 H4 H5 H6 H7 H8 H9] Hl Hb Hc Hm Hn Hok Hno ES EW EC.
  split; rewrite ?ES, ?EW, ?EC; unfold enqueue, deleted; rec_simpl; fold (deleted msq2); try done.
  - rewrite sum_ts_app, <-H1, u64_id by lia. unfold sum_ts. simpl. lia.
  - rewrite length_app, H2, u64_id by lia. simpl. lia.
  - apply Forall_app. split; [done|]. apply Forall_singleton. lia.
  - intros _. apply live_enqueue; [auto|lia|lia|done|done|]. intros. by eapply Hno.
Qed.

Lemma queued_inv :
  room st -> 0 <= m_ts msg < 2 ^ 32 -> p.2 = None -> msg_inv (queued t q msg now msq st).
Proof.
  intros Hroom Hn Hp. destruct (queue_room Hroom) as (Hb & Hc & _).
  pose proof served_inv as Hinv2. pose proof served_queue as Hq2.
  set (msq2 := piped_queue (stamp_send t now msq) p.1 p.2 now) in *.
  assert (core msq2 = core (drop_receivers ans msq)) as Ec by apply piped_core.
  assert (q_cbytes msq2 = q_cbytes msq) as Eb by by injection Ec.
  assert (q_qnum msq2 = q_qnum msq) as En by by injection Ec.
  assert (q_perm msq2 = q_perm msq) as Ep by by injection Ec.
  assert (deleted msq2 = false) as Hd2 by (unfold deleted; by rewrite Ep).
  assert (queues (queued t q msg now msq st) =
    <[q := enqueue msg (m_ts msg) msq2]> (queues (served t q msg now msq st))) as EQ.
  { unfold queued. rec_simpl. by apply alter_alt_Some. }
  eapply (msg_inv_step q msq2 (enqueue msg (m_ts msg) msq2)); [exact Hinv2|done| | | | | | | | |done|done].
  - apply elsewhere_queue; [|done|done|done]. intros. by rewrite EQ, lookup_insert_ne.
  - by rewrite EQ, lookup_insert_eq.
  - done.
  - eapply enqueue_inv; [by apply Hinv2|done|lia|lia|done|done|apply Hinv2| |done|done|done].
    intros u fr msr Hu Hw. rewrite Ep. by eapply not_taken.
  - intros u fr Hu _. by apply Hinv2.
  - done.
  - rewrite EQ, (total_update _ _ q msq2 _ Hq2). unfold queued. rec_simpl.
    rewrite percpu_add_sum, (mi_bytes _ Hinv2), s64_add_l, (s64_id (m_ts msg)) by lia.
    f_equal. unfold weight, enqueue, deleted. rec_simpl. fold (deleted msq2). rewrite Hd2.
    rewrite u64_id by lia. lia.
  - rewrite EQ, (total_update _ _ q msq2 _ Hq2). unfold queued. rec_simpl.
    rewrite percpu_add_sum, (mi_hdrs _ Hinv2), s64_add_l.
    f_equal. unfold weight, enqueue, deleted. rec_simpl. fold (deleted msq2). rewrite Hd2.
    rewrite u64_id by lia. lia.
Qed.

(** What [do_msgsnd] leaves once the message fits. *)
Definition delivered : msg_ns :=
  match p.2 with
  | Some _ => served t q msg now msq st
  | None => queued t q msg now msq st
  end.

Lemma wp_msgsnd_deliver :
  wp (msgsnd_deliver t q msg (m_ts msg) now) (fun o st' => o = Returned 0 /\ st' = delivered) st.
Proof.
  unfold msgsnd_deliver. apply wp_bind. eapply wp_upd_msq; [done|].
  match goal with |- wp ?m ?Q _ =>
    change (wp m Q (st <| queues ::= <[q := stamp_send t now msq]> |>)) end.
  apply wp_bind. eapply wp_mono.
  { apply (wp_pipelined_send q (stamp_send t now msq)).
    - rec_simpl. apply lookup_insert_eq.
    - apply (live_receivers_ok st Hinv q msq Hq Hd). }
  intros r st' [-> ->]. cbv beta zeta iota.
  change (pipeline (q_perm (stamp_send t now msq)) msg
    (st <| queues ::= <[q := stamp_send t now msq]> |>)
    (q_receivers (stamp_send t now msq))) with p.
  assert (forall small taker, piped q (stamp_send t now msq) msg now small taker
      (st <| queues ::= <[q := stamp_send t now msq]> |>) =
    piped q (stamp_send t now msq) msg now small taker st) as ->.
  { intros. unfold piped, with_stacks. generalize (piped_queue (stamp_send t now msq) small taker now).
    intros x. destruct st. unfold upd_field. simpl. by rewrite insert_insert_eq. }
  unfold delivered, served. destruct p.2 as [x|] eqn:E; simpl.
  - apply wp_bind, wp_ret, wp_bind, wp_mod, wp_ret. done.
  - apply wp_bind, wp_bind. eapply wp_upd_msq; [apply piped_lookup|].
    apply wp_mod, wp_bind, wp_mod, wp_ret. split; [done|]. unfold queued, served. rewrite E.
    apply msg_ns_ext; unfold piped, with_stacks; rec_simpl; try done.
    symmetry. erewrite (alter_alt_Some (enqueue msg (m_ts msg))); [done|apply lookup_insert_eq].
Qed.

Lemma delivered_inv : room st -> 0 <= m_ts msg < 2 ^ 32 -> msg_inv delivered.
Proof.
  intros Hroom Hn. unfold delivered. destruct p.2 eqn:E; [apply served_inv|by apply queued_inv].
Qed.
End deliver.
End msg_send.
