(* ===== verification/MsgSndCall.v ===== *)
(** * System V message queues: [do_msgsnd] from the call to its return

    [do_msgsnd] looks up the queue; when it has the lock it does what [snd_step] says: it
    reports an error, delivers the message, or goes to sleep on the queue; a sender that
    wakes up leaves the queue and tries again. *)

From S2P Require Import Prelude.
From S2P Require Import MsgTypes.
From S2P Require Import MsgOps.
From S2P Require Import MsgLoops.
From S2P Require Import MsgInv.
From S2P Require Import MsgSend.

Section msg_snd_call.
Context `{I : Ipc} (IL : IpcLaws I).

(** ** Trying to send *)

Definition snd_step (t : task) (q : qptr) (msq : msg_queue) (msg : msg_msg) (msgflg now : Z)
    (st : msg_ns) : outcome * msg_ns :=
  if ipcperms t (q_perm msq) S_IWUGO then (Returned (- EACCES), st)
  else if deleted msq then (Returned (- EIDRM), st)
  else if negb (security_msg_queue_msgsnd (q_perm msq) msg msgflg =? 0)
  then (Returned (security_msg_queue_msgsnd (q_perm msq) msg msgflg), st)
  else if msg_fits_inqueue msq (m_ts msg) then (Returned 0, delivered t q msg now msq st)
  else if has msgflg IPC_NOWAIT then (Returned (- EAGAIN), st)
  else (Slept, snd_asleep t q msg (m_ts msg) msgflg msq st).

Section try.
Context (t : task) (q : qptr) (msq : msg_queue) (msg : msg_msg) (msgflg now : Z) (st : msg_ns).
Context (Hinv : msg_inv st) (Hroom : room st) (Hq : queues st !! q = Some msq).

Lemma wp_msgsnd_try :
  wp (msgsnd_try t q msg (m_ts msg) msgflg now)
    (fun o st' => (o, st') = snd_step t q msq msg msgflg now st) st.
Proof.
  unfold msgsnd_try, snd_step. apply wp_bind. eapply wp_get_msq; [done|].
  destruct (ipcperms _ _ _); [by apply wp_ret|].
  rewrite valid_spec, negb_involutive. fold (deleted msq).
  destruct (deleted msq) eqn:Hd; [by apply wp_ret|].
  destruct (negb _); [by apply wp_ret|].
  destruct (msg_fits_inqueue _ _).
  { eapply wp_mono; [by apply wp_msgsnd_deliver|]. by intros o st' [-> ->]. }
  destruct (has _ _); [by apply wp_ret|].
  eapply wp_mono; [by apply wp_snd_sleep|]. by intros o st' [-> ->].
Qed.

Lemma snd_step_inv :
  stacks st !! t = None -> 0 <= m_ts msg < 2 ^ 32 ->
  msg_inv (snd_step t q msq msg msgflg now st).2.
Proof.
  intros Ht Hn. unfold snd_step.
  destruct (ipcperms _ _ _); [done|]. destruct (deleted msq) eqn:Hd; [done|].
  destruct (negb _); [done|]. destruct (msg_fits_inqueue _ _) eqn:Hf; [by apply delivered_inv|].
  destruct (has _ _); [done|]. by apply snd_asleep_inv.
Qed.
End try.

(** ** The call *)

(** What [do_msgsnd] does in the state [st] before it takes the lock. *)
Definition msgsnd_spec (t : task) (msqid mtype : Z) (mtext : ubuf) (msgsz msgflg : Z)
    (st : msg_ns) : outcome * msg_ns :=
  if bool_decide (msg_ctlmax st < msgsz) || (msqid <? 0) || (mtype <? 1)
  then (Returned (- EINVAL), st)
  else
    match load_msg mtext msgsz, ipc_obtain_object_check (msg_ids st) msqid with
    | inl e, _ => (Returned e, st)
    | inr _, inl e => (Returned e, st)
    | inr text, inr q =>
        (Running, looking t q (ForSnd (MsgMsg mtype msgsz text) msgsz msgflg) st)
    end.

(** What it does under the lock. *)
Definition snd_lock_spec (t : task) (q : qptr) (msq : msg_queue) (msg : msg_msg) (msgflg now : Z)
    (st : msg_ns) : outcome * msg_ns :=
  let r := snd_step t q msq msg msgflg now (popped t st) in
  (r.1, unlocked t (events r.2) r.2).

Section call.
Context (t : task) (msqid mtype : Z) (mtext : ubuf) (msgsz msgflg : Z) (st : msg_ns).
Context (Hinv : msg_inv st) (Hsz : 0 <= msgsz < 2 ^ 64).

Lemma wp_do_msgsnd :
  wp (do_msgsnd t msqid mtype mtext msgsz msgflg)
    (fun o st' => (o, st') = msgsnd_spec t msqid mtype mtext msgsz msgflg st) st.
Proof.
  unfold do_msgsnd, msgsnd_spec. apply wp_bind, wp_gets.
  pose proof (mi_ctlmax _ Hinv) as Hmax.
  destruct (Z.ltb_spec (msg_ctlmax st) msgsz).
  { rewrite bool_decide_true by done. by apply wp_ret. }
  rewrite bool_decide_false by lia. rewrite s64_id by lia.
  destruct (Z.ltb_spec msgsz 0); [lia|]. simpl.
  destruct (msqid <? 0); [by apply wp_ret|]. destruct (mtype <? 1); [by apply wp_ret|]. simpl.
  destruct (load_msg mtext msgsz) as [e|text]; [by apply wp_ret|].
  apply wp_bind, wp_gets. destruct (ipc_obtain_object_check _ _); [by apply wp_ret|].
  by apply wp_bind, wp_mod, wp_ret.
Qed.

Lemma msgsnd_spec_inv :
  stacks st !! t = None -> msg_inv (msgsnd_spec t msqid mtype mtext msgsz msgflg st).2.
Proof.
  intros Ht. unfold msgsnd_spec. pose proof (mi_ctlmax _ Hinv).
  case_bool_decide; [done|]. destruct (_ <? _); [done|]. destruct (mtype <? 1); [done|]. simpl.
  destruct (load_msg mtext msgsz) as [e|text]; [done|].
  destruct (ipc_obtain_object_check _ _) as [e|q] eqn:E; [done|].
  apply obtain_check_mem in E. destruct (ids_queue st Hinv q E) as (msq & Hq & Hd).
  eapply looking_inv; try done. simpl. lia.
Qed.

Lemma wp_do_msgsnd_inv :
  stacks st !! t = None ->
  wp (do_msgsnd t msqid mtype mtext msgsz msgflg) (fun _ => msg_inv) st.
Proof.
  intros Ht. eapply wp_spec_inv; [apply wp_do_msgsnd|by apply msgsnd_spec_inv].
Qed.
End call.

Section lock.
Context (t : task) (q : qptr) (msq : msg_queue) (msg : msg_msg) (n g now : Z) (st : msg_ns).
Context (Hinv : msg_inv st) (Hroom : room st) (Hq : queues st !! q = Some msq)
  (Ht : stacks st !! t = Some (Locking q (ForSnd msg n g))).

Lemma lock_popped : msg_inv (popped t st) /\ room (popped t st) /\ stacks (popped t st) !! t = None.
Proof.
  split; [by eapply popped_inv, quiet_locking|]. split; [by apply popped_room|].
  unfold popped. rec_simpl. apply lookup_delete_eq.
Qed.

Lemma wp_msgsnd_lock :
  wp (msgsnd_lock t now) (fun o st' => (o, st') = snd_lock_spec t q msq msg g now st) st.
Proof.
  destruct lock_popped as (Hi & Hr & _). destruct (mi_frame _ Hinv t _ Ht) as [<- _].
  apply wp_bind, wp_gets. rewrite Ht. apply wp_bind, wp_mod, wp_bind.
  eapply wp_mono; [by apply (wp_msgsnd_try t q msq msg g now (popped t st))|].
  intros o st' E. apply wp_bind, wp_mod, wp_ret. unfold snd_lock_spec. cbv zeta. rewrite <-E.
  done.
Qed.

(** The task sleeps or has returned. *)
Lemma snd_step_stack st0 fr :
  stacks st0 !! t = None -> stacks (snd_step t q msq msg g now st0).2 !! t = Some fr ->
  in_rcu fr = false.
Proof.
  intros H0. unfold snd_step.
  destruct (ipcperms _ _ _); [simpl; congruence|]. destruct (deleted msq); [simpl; congruence|].
  destruct (negb _); [simpl; congruence|]. destruct (msg_fits_inqueue _ _).
  - simpl. assert (stacks (delivered t q msg now msq st0) !! t = None) as ->; [|done].
    transitivity (stacks (served t q msg now msq st0) !! t); [unfold delivered; by case_match|].
    unfold served, piped, with_stacks. rec_simpl. by rewrite !lookup_restack, H0.
  - destruct (has _ _); [simpl; congruence|]. simpl. unfold snd_asleep. rec_simpl.
    rewrite lookup_insert_eq. by intros [= <-].
Qed.

Lemma snd_lock_inv : msg_inv (snd_lock_spec t q msq msg g now st).2.
Proof.
  destruct lock_popped as (Hi & Hr & Hn). destruct (mi_frame _ Hinv t _ Ht) as [Em Hlen].
  apply unlocked_inv.
  - apply snd_step_inv; try done. by rewrite Em.
  - intros fr. by apply snd_step_stack.
Qed.
End lock.

Lemma wp_msgsnd_lock_inv t now st q m n g :
  msg_inv st -> room st -> stacks st !! t = Some (Locking q (ForSnd m n g)) ->
  wp (msgsnd_lock t now) (fun _ => msg_inv) st.
Proof.
  intros Hinv Hroom Ht. destruct (mi_needs _ Hinv t _ Ht) as [msq Hq]; [done|]. simpl in Hq.
  eapply wp_spec_inv; [by eapply wp_msgsnd_lock|by eapply snd_lock_inv].
Qed.

(** ** Dropping a reference *)

Definition putref (q : qptr) (msq : msg_queue) (st : msg_ns) : msg_ns :=
  st <| queues ::= <[q := msq <| q_perm ::= fun p => p <| ipc_refcount ::= Z.pred |> |>]> |>
     <| rcu_cbs ::= if ipc_refcount (q_perm msq) =? 1 then <[q := rcu_readers st]> else id |>.

Lemma wp_msq_putref q msq st :
  queues st !! q = Some msq -> 0 < ipc_refcount (q_perm msq) < INT_MAX ->
  wp (msq_putref q) (fun _ st' => st' = putref q msq st) st.
Proof.
  intros Hq Hr. apply wp_bind. eapply wp_get_msq; [done|]. rewrite putref_spec by done.
  apply wp_bind. eapply wp_upd_msq; [done|]. unfold putref.
  destruct (_ =? _); [by apply wp_mod|]. by apply wp_ret, msg_ns_ext.
Qed.

(** ** Waking up *)

(** The queue without sender [t] and its reference. *)
Definition drop_sender (t : task) (msq : msg_queue) : msg_queue :=
  (if deleted msq then msq else msq <| q_senders ::= list_del t |>)
    <| q_perm ::= fun p => p <| ipc_refcount ::= Z.pred |> |>.

Definition snd_awake (t : task) (q : qptr) (msq : msg_queue) (st : msg_ns) : msg_ns :=
  st <| queues ::= <[q := drop_sender t msq]> |>
     <| rcu_cbs ::= if ipc_refcount (q_perm msq) =? 1 then <[q := rcu_readers st]> else id |>
     <| stacks ::= delete t |>.

Lemma drop_sender_perm t msq :
  q_perm (drop_sender t msq) = q_perm msq <| ipc_refcount ::= Z.pred |>.
Proof. unfold drop_sender. by destruct (deleted msq). Qed.

Lemma drop_sender_deleted t msq : deleted (drop_sender t msq) = deleted msq.
Proof. unfold deleted. by rewrite drop_sender_perm. Qed.

Lemma drop_sender_data t msq :
  q_messages (drop_sender t msq) = q_messages msq /\ q_cbytes (drop_sender t msq) = q_cbytes msq /\
  q_qnum (drop_sender t msq) = q_qnum msq /\ q_qbytes (drop_sender t msq) = q_qbytes msq.
Proof. unfold drop_sender. by destruct (deleted msq). Qed.

Lemma live_drop_sender q msq S w t fr :
  live_inv q msq S w -> deleted msq = false -> S !! t = Some fr -> snd_on q fr = true ->
  live_inv q (drop_sender t msq) (delete t S) w.
Proof.
  intros [H1 H2 H3 H4 H5 H6 H7] Hd Ht Hon. unfold drop_sender. rewrite Hd. split; rec_simpl.
  - by apply NoDup_list_del.
  - done.
  - intros u. rewrite elem_of_list_del, H3, lookup_delete. destruct (decide (t = u)); naive_solver.
  - intros u m n g s. rewrite lookup_delete. destruct (decide (t = u)); [done|]. apply H4.
  - intros u. rewrite H5, lookup_delete. destruct (decide (t = u)) as [<-|]; [|done].
    rewrite Ht. split; [|naive_solver]. intros (fr' & msr & [= <-] & _ & Hr & _). by destruct fr.
  - intros u m n g s. rewrite lookup_delete. destruct (decide (t = u)); [done|]. apply H6.
  - intros u fr' msr. rewrite lookup_delete. destruct (decide (t = u)); [done|].
    intros Hu Hw Hnw m Hm. unfold wanted. rewrite msgrcv_hook_refcount. by eapply H7.
Qed.

Lemma rcu_readers_in st t fr :
  stacks st !! t = Some fr -> in_rcu fr = true -> t ∈ rcu_readers st.
Proof. intros Ht Hrcu. apply elem_of_dom. exists fr. by apply map_lookup_filter_Some. Qed.

Section awake.
Context (t : task) (q : qptr) (m : msg_msg) (n g : Z) (s : msg_sender) (msq : msg_queue)
  (st : msg_ns).
Context (Hinv : msg_inv st) (Hq : queues st !! q = Some msq)
  (Ht : stacks st !! t = Some (SndFrame q m n g s)).

Lemma awake_count :
  ipc_refcount (q_perm msq) = (if deleted msq then 0 else 1) + snd_count q (stacks st) /\
  snd_count q (delete t (stacks st)) = snd_count q (stacks st) - 1 /\
  0 < snd_count q (stacks st).
Proof.
  assert (snd_on q (SndFrame q m n g s) = true) as Hon by by apply bool_decide_eq_true.
  rewrite (snd_count_delete _ _ _ _ Ht), Hon. split; [apply (mi_queue _ Hinv q msq Hq)|].
  split; [done|by eapply snd_count_pos].
Qed.

Lemma awake_queue_inv : queue_inv q (drop_sender t msq) (snd_awake t q msq st).
Proof.
  destruct awake_count as (Hr & Hc & Hpos).
  destruct (mi_queue _ Hinv q msq Hq) as [H1 H2 H3 H4 H5 H6 H7 H8 H9].
  destruct (drop_sender_data t msq) as (E1 & E2 & E3 & E4).
  split; rewrite ?drop_sender_deleted, ?drop_sender_perm, ?E1, ?E2, ?E3, ?E4; try done;
    unfold snd_awake; rec_simpl.
  - lia.
  - destruct (Z.eqb_spec (ipc_refcount (q_perm msq)) 1) as [E|E].
    + rewrite lookup_insert_eq. split; [lia|eauto].
    + unfold id. rewrite H6. destruct (deleted msq); lia.
  - intros R u fr HR Hu Hfr Hrcu. apply lookup_delete_Some in Hu as [_ Hu].
    destruct (_ =? _).
    + rewrite lookup_insert_eq in HR. injection HR as <-. by eapply rcu_readers_in.
    + by eapply H7.
  - intros Hd u fr msr Hu. apply lookup_delete_Some in Hu as [_ Hu]. by eapply H8.
  - intros Hd. eapply live_drop_sender; [by apply H9|done|done|]. by apply bool_decide_eq_true.
Qed.

Lemma snd_awake_inv : msg_inv (snd_awake t q msq st).
Proof.
  eapply (msg_inv_same q msq (drop_sender t msq) st); [done|done| | | | | | | |].
  - apply (elsewhere_task q t); unfold snd_awake; rec_simpl.
    + intros. by rewrite lookup_insert_ne.
    + intros. by rewrite lookup_delete_ne.
    + intros fr. rewrite Ht. by intros [= <-].
    + intros fr. by rewrite lookup_delete_eq.
    + done.
    + intros q' Hne. left. destruct (_ =? _); [by rewrite lookup_insert_ne|done].
  - done.
  - apply drop_sender_deleted.
  - apply drop_sender_data.
  - apply drop_sender_data.
  - apply awake_queue_inv.
  - intros u fr Hu _. unfold snd_awake in Hu. rec_simpl_all.
    apply lookup_delete_Some in Hu as [_ Hu]. by apply Hinv.
  - by split.
Qed.

Lemma snd_awake_room : room st -> room (snd_awake t q msq st).
Proof.
  intros [Hm Hs]. split.
  - intros q' msq' Hq'. unfold snd_awake in Hq'. rec_simpl_all. rewrite lookup_insert in Hq'.
    destruct (decide (q = q')) as [<-|]; [|by eapply Hm]. simplify_eq.
    destruct (drop_sender_data t msq) as (-> & _). by apply (Hm q msq).
  - unfold snd_awake. rec_simpl. rewrite map_size_delete, Ht. simpl. lia.
Qed.

(** What a sender does after [schedule()]. *)
Definition resume_spec (sig : bool) (now : Z) : outcome * msg_ns :=
  let st' := snd_awake t q msq st in
  if deleted msq then (Returned (- EIDRM), st')
  else if sig then (Returned (- ERESTARTNOHAND), st')
  else snd_step t q (drop_sender t msq) m g now st'.

Lemma wp_msgsnd_resume sig now :
  room st -> wp (msgsnd_resume t sig now) (fun o st' => (o, st') = resume_spec sig now) st.
Proof.
  intros Hroom. destruct awake_count as (Hr & Hc & Hpos).
  pose proof (refcount_range st Hinv q msq Hroom Hq) as Hrange.
  destruct (mi_frame _ Hinv t _ Ht) as (Em & _ & _).
  apply wp_bind, wp_gets. rewrite Ht. apply wp_bind. eapply wp_mono.
  { apply wp_msq_putref; [done|]. destruct (deleted msq); lia. }
  intros _ st' ->. apply wp_bind.
  eapply wp_get_msq; [unfold putref; rec_simpl; apply lookup_insert_eq|].
  rewrite valid_spec. rec_simpl. fold (deleted msq). unfold resume_spec.
  destruct (deleted msq) eqn:Hd; simpl.
  { apply wp_bind, wp_mod, wp_ret. f_equal. unfold snd_awake, putref, drop_sender.
    rewrite Hd. by apply msg_ns_ext. }
  assert (s_next s = true) as Hs.
  { eapply (li_next _ _ _ _ (live_queue st Hinv q msq Hq Hd)), Ht. }
  apply wp_bind, wp_bind. eapply wp_get_sender; [exact Ht|]. rewrite Hs.
  eapply wp_upd_msq; [unfold putref; rec_simpl; apply lookup_insert_eq|].
  apply wp_bind, wp_mod.
  match goal with |- wp ?k ?Q ?x => assert (x = snd_awake t q msq st) as -> end.
  { unfold snd_awake, putref, drop_sender. rewrite Hd. apply msg_ns_ext; rec_simpl; try done.
    by rewrite insert_insert_eq. }
  destruct sig; [by apply wp_ret|]. rewrite <-Em. apply wp_msgsnd_try.
  - apply snd_awake_inv.
  - by apply snd_awake_room.
  - unfold snd_awake. rec_simpl. apply lookup_insert_eq.
Qed.

Lemma resume_spec_inv sig now : room st -> msg_inv (resume_spec sig now).2.
Proof.
  intros Hroom. unfold resume_spec. pose proof snd_awake_inv as Hi. cbv zeta.
  destruct (deleted msq) eqn:Hd; [done|]. destruct sig; [done|].
  destruct (mi_frame _ Hinv t _ Ht) as (E & Hn & _). apply snd_step_inv; try done.
  - by apply snd_awake_room.
  - unfold snd_awake. rec_simpl. apply lookup_insert_eq.
  - unfold snd_awake. rec_simpl. apply lookup_delete_eq.
  - by rewrite E.
Qed.
End awake.

Lemma wp_msgsnd_resume_inv t sig now st q m n g s :
  msg_inv st -> room st -> stacks st !! t = Some (SndFrame q m n g s) ->
  wp (msgsnd_resume t sig now) (fun _ => msg_inv) st.
Proof.
  intros Hinv Hroom Ht. destruct (mi_needs _ Hinv t _ Ht) as [msq Hq]; [done|]. simpl in Hq.
  eapply wp_spec_inv; [by eapply wp_msgsnd_resume|by eapply resume_spec_inv].
Qed.
End msg_snd_call.
