(* ===== verification/MsgRecv.v ===== *)
(** * System V message queues: which message [find_msg] returns *)

From S2P Require Import Prelude.
From S2P Require Import MsgTypes.
From S2P Require Import MsgOps.

Section msg_find.
Context `{I : Ipc} (perm : kern_ipc_perm) (t : task).

Abbreviation loop mode := (find_msg_loop perm t mode).
Abbreviation wants mode ty := (fun m => wanted perm m t ty mode = true).

(** Once a message was found there is a result. *)
Lemma find_loop_is_some mode l : forall i ty j c, is_Some (loop mode l i ty (Some j) c).
Proof.
  induction l as [|m l IH]; intros i ty j c; simpl; [eauto|].
  destruct (wanted _ _ _ _ _); [|apply IH]. destruct (_ && _); [apply IH|].
  destruct (_ =? _); [|eauto]. destruct (_ =? _); [eauto|apply IH].
Qed.

(** -EAGAIN: nothing in the queue is wanted, when the mode is not a position. *)
Lemma find_loop_none mode l : forall i ty c,
  mode <> SEARCH_NUMBER -> loop mode l i ty None c = None ->
  forall m, m ∈ l -> wanted perm m t ty mode = false.
Proof.
  induction l as [|m0 l IH]; intros i ty c Hmode; simpl; [intros _ m Hm; by apply not_elem_of_nil in Hm|].
  destruct (wanted perm m0 t ty mode) eqn:E.
  - destruct (_ && _).
    + intros Hn. destruct (find_loop_is_some mode l (S i) (m_type m0 - 1) i (c + 1)). congruence.
    + by rewrite (proj2 (Z.eqb_neq _ _) Hmode).
  - intros Hn m [->|Hm]%elem_of_cons; [done|by eapply IH].
Qed.

(** A position that is found is one of the list. *)
Lemma find_loop_lookup mode l : forall i ty f c k,
  loop mode l i ty f c = Some k ->
  f = Some k \/ exists j m, k = (i + j)%nat /\ l !! j = Some m.
Proof.
  induction l as [|m l IH]; intros i ty f c k; simpl; [auto|].
  assert (forall f', (f' = Some k \/ (exists j m0, k = (S i + j)%nat /\ l !! j = Some m0)) ->
    f' = f \/ f' = Some i ->
    f = Some k \/ exists j m0, k = (i + j)%nat /\ (m :: l) !! j = Some m0) as Hstep.
  { intros f' [->|(j & m0 & -> & Hj)] Hf.
    - destruct Hf as [<-|[= ->]]; [by left|]. right. exists 0%nat, m. split; [lia|done].
    - right. exists (S j), m0. split; [lia|done]. }
  assert (Some i = Some k -> f = Some k \/ exists j m0, k = (i + j)%nat /\ (m :: l) !! j = Some m0)
    as Hhere by (intros [= ->]; right; exists 0%nat, m; split; [lia|done]).
  destruct (wanted _ _ _ _ _); [|intros H%IH; eapply Hstep; eauto].
  destruct (_ && _); [intros H%IH; eapply Hstep; eauto|].
  destruct (_ =? _); [|done]. destruct (_ =? _); [done|]. intros H%IH. eapply Hstep; eauto.
Qed.

(** ** The first message wanted *)

Lemma find_loop_first mode l : forall i ty c,
  mode <> SEARCH_NUMBER -> mode <> SEARCH_LESSEQUAL ->
  loop mode l i ty None c = (fun p => (i + p.1)%nat) <$> list_find (wants mode ty) l.
Proof.
  induction l as [|m l IH]; intros i ty c Hn Hl; [done|]. simpl.
  rewrite (proj2 (Z.eqb_neq _ _) Hn), (proj2 (Z.eqb_neq _ _) Hl). simpl.
  destruct (wanted perm m t ty mode) eqn:E.
  - rewrite decide_True by done. simpl. by rewrite Nat.add_0_r.
  - rewrite decide_False by done. rewrite IH by done.
    destruct (list_find _ l) as [[j x]|]; simpl; [|done]. f_equal. lia.
Qed.

(** ** The first message of the least type *)

Definition first_least (P : msg_msg -> bool) (l : list msg_msg) (k : nat) : Prop :=
  exists m, l !! k = Some m /\ P m = true /\
    forall k' m', l !! k' = Some m' -> P m' = true ->
      m_type m <= m_type m' /\ ((k' < k)%nat -> m_type m < m_type m').

Abbreviation below := (fun ty m => wanted perm m t ty SEARCH_LESSEQUAL).

(** The security modules do not look at the type asked for. *)
Definition hook_ignores_type : Prop := forall m ty ty' mode,
  security_msg_queue_msgrcv perm m t ty mode = security_msg_queue_msgrcv perm m t ty' mode.

Lemma below_mono ty ty' m : hook_ignores_type ->
  below ty m = true -> below ty' m = (m_type m <=? ty').
Proof.
  unfold wanted. intros Hh [_ H]%andb_true_iff. rewrite (Hh m ty' ty), H. simpl.
  by rewrite andb_true_r.
Qed.

Lemma below_type ty m : below ty m = true -> m_type m <= ty.
Proof. unfold wanted. intros [H _]%andb_true_iff. by apply Z.leb_le in H. Qed.

Lemma first_least_skip P m l k :
  P m = false -> first_least P l k -> first_least P (m :: l) (S k).
Proof.
  intros Hm (x & Hk & Hx & Hmin). exists x. split; [done|]. split; [done|].
  intros [|k'] m' Hk' Hm'; simpl in Hk'; [congruence|].
  destruct (Hmin k' m' Hk' Hm') as [? Hlt]. split; [done|]. intros. apply Hlt. lia.
Qed.

(** A head of type 1, or one such that nothing of a smaller type follows. *)
Lemma first_least_head ty m l :
  below ty m = true -> (forall m', m' ∈ l -> below ty m' = true -> m_type m <= m_type m') ->
  first_least (below ty) (m :: l) 0.
Proof.
  intros Hm Hl. exists m. split; [done|]. split; [done|].
  intros [|k'] m' Hk' Hm'; simpl in Hk'; [simplify_eq; lia|].
  apply list_elem_of_lookup_2 in Hk'. specialize (Hl m' Hk' Hm'). lia.
Qed.

(** A message of smaller type than the head. *)
Lemma first_least_tail ty m l k : hook_ignores_type ->
  below ty m = true -> first_least (below (m_type m - 1)) l k ->
  first_least (below ty) (m :: l) (S k).
Proof.
  intros Hh Hm (x & Hk & Hx & Hmin). pose proof (below_type _ _ Hx).
  pose proof (below_type _ _ Hm).
  exists x. split; [done|]. split; [rewrite (below_mono _ _ _ Hh Hx); lia|].
  intros [|k'] m' Hk' Hm'; simpl in Hk'; [simplify_eq; lia|].
  destruct (Z.leb_spec (m_type m') (m_type m - 1)) as [Hle|Hgt]; [|lia].
  destruct (Hmin k' m' Hk') as [? Hlt]; [rewrite (below_mono _ _ _ Hh Hm'); lia|].
  split; [done|]. intros. apply Hlt. lia.
Qed.

Lemma find_loop_least l : forall i ty f c,
  hook_ignores_type -> Forall (fun m => 1 <= m_type m) l ->
  (loop SEARCH_LESSEQUAL l i ty f c = f /\ forall m, m ∈ l -> below ty m = false) \/
  exists k, loop SEARCH_LESSEQUAL l i ty f c = Some (i + k)%nat /\ first_least (below ty) l k.
Proof.
  induction l as [|m l IH]; intros i ty f c Hh Hty; simpl.
  { left. split; [done|]. intros m Hm. by apply not_elem_of_nil in Hm. }
  apply Forall_cons in Hty as [Hm Hl]. destruct (wanted perm m t ty SEARCH_LESSEQUAL) eqn:E.
  - right. destruct (Z.eqb_spec (m_type m) 1) as [E1|E1]; simpl.
    + exists 0%nat. split; [f_equal; lia|]. apply first_least_head; [done|].
      intros m' Hm' _. rewrite Forall_forall in Hl. specialize (Hl m' Hm'). simpl in Hl. lia.
    + destruct (IH (S i) (m_type m - 1) (Some i) (c + 1) Hh Hl) as [[-> Hno]|(k & -> & Hk)].
      * exists 0%nat. split; [f_equal; lia|]. apply first_least_head; [done|].
        intros m' Hm' Hb. specialize (Hno m' Hm').
        rewrite (below_mono _ _ _ Hh Hb) in Hno. lia.
      * exists (S k). split; [f_equal; lia|]. by apply first_least_tail.
  - destruct (IH (S i) ty f c Hh Hl) as [[-> Hno]|(k & -> & Hk)]; [left|right].
    + split; [done|]. intros m' [->|Hm']%elem_of_cons; auto.
    + exists (S k). split; [f_equal; lia|]. by apply first_least_skip.
Qed.

(** ** The message at a position *)

Lemma find_loop_number l : forall i ty c, c <= ty ->
  (loop SEARCH_NUMBER l i ty None c = None /\
     Z.of_nat (length (filter (wants SEARCH_NUMBER ty) l)) <= ty - c) \/
  exists k m, loop SEARCH_NUMBER l i ty None c = Some (i + k)%nat /\ l !! k = Some m /\
    wanted perm m t ty SEARCH_NUMBER = true /\
    Z.of_nat (length (filter (wants SEARCH_NUMBER ty) (take k l))) = ty - c.
Proof.
  induction l as [|m l IH]; intros i ty c Hc; simpl; [left; split; [done|simpl; lia]|].
  destruct (wanted perm m t ty SEARCH_NUMBER) eqn:E.
  - rewrite filter_cons_True by done. simpl. destruct (Z.eqb_spec ty c) as [->|Hne].
    + right. exists 0%nat, m. simpl. split; [f_equal; lia|]. split; [done|]. split; [done|lia].
    + destruct (IH (S i) ty (c + 1) ltac:(lia)) as [[-> Hlen]|(k & x & -> & Hk & Hx & Hlen)].
      * left. split; [done|lia].
      * right. exists (S k), x. split; [f_equal; lia|]. split; [done|]. split; [done|].
        simpl. rewrite filter_cons_True by done. simpl. lia.
  - rewrite filter_cons_False by congruence.
    destruct (IH (S i) ty c Hc) as [[-> Hlen]|(k & x & -> & Hk & Hx & Hlen)]; [by left|].
    right. exists (S k), x. split; [f_equal; lia|]. split; [done|]. split; [done|].
    simpl. by rewrite filter_cons_False by congruence.
Qed.
End msg_find.

(** * System V message queues: receiving keeps the invariant *)

From S2P Require Import MsgLoops.
From S2P Require Import MsgInv.
From S2P Require Import MsgSend.

Section msg_recv.
Context `{I : Ipc} (IL : IpcLaws I).

(** ** A receiver that wakes up *)

(** A receiver that read -EAGAIN is about to take the lock. *)
Definition retrying (t : task) (q : qptr) (a : rcv_args) (msr : msg_receiver) (st : msg_ns)
    : msg_ns :=
  st <| stacks ::= <[t := RcvRetry q a msr]> |>.

Lemma live_retrying q msq S w t a msr :
  live_inv q msq S w -> S !! t = Some (RcvFrame q a msr) -> r_msg msr = inl (- EAGAIN) ->
  live_inv q msq (<[t := RcvRetry q a msr]> S) w.
Proof.
  intros [H1 H2 H3 H4 H5 H6 H7] Ht Hw. split; [done|done| | | | |].
  - intros u. rewrite H3, lookup_insert. destruct (decide (t = u)) as [<-|]; [|done].
    rewrite Ht. naive_solver.
  - intros u m n g s. rewrite lookup_insert. destruct (decide (t = u)); [done|]. apply H4.
  - intros u. rewrite H5, lookup_insert. destruct (decide (t = u)) as [<-|]; [|done].
    rewrite Ht. split; intros _.
    + by exists (RcvRetry q a msr), msr.
    + by exists (RcvFrame q a msr), msr.
  - intros u m n g s. rewrite lookup_insert. destruct (decide (t = u)); [done|]. apply H6.
  - intros u fr' msr'. rewrite lookup_insert. destruct (decide (t = u)) as [<-|]; [|apply H7].
    intros [= <-] (_ & Hr & _). simpl in Hr. injection Hr as <-. by apply (H7 t _ msr Ht).
Qed.

Lemma retrying_inv t q a msr st :
  msg_inv st -> stacks st !! t = Some (RcvFrame q a msr) -> r_msg msr = inl (- EAGAIN) ->
  msg_inv (retrying t q a msr st).
Proof.
  intros Hinv Ht Hw.
  destruct (waiting_queue st t _ msr Hinv Ht eq_refl Hw) as (msq & Hq & Hd). simpl in Hq.
  apply (msg_inv_keep q st); [done|done| | | | |by split].
  - apply (elsewhere_task _ t); unfold retrying; rec_simpl; [done| | | |done|auto].
    + intros. by rewrite lookup_insert_ne.
    + intros fr'. rewrite Ht. by intros [= <-].
    + intros fr'. rewrite lookup_insert_eq. by intros [= <-].
  - intros msq' Hq'. rewrite Hq in Hq'. injection Hq' as <-.
    destruct (mi_queue _ Hinv _ msq Hq) as [H1 H2 H3 H4 H5 H6 H7 H8 H9].
    split; unfold retrying; rec_simpl; try done.
    + rewrite H5. f_equal. symmetry. apply snd_count_same. intros u. rewrite lookup_insert.
      destruct (decide (t = u)) as [<-|]; [by rewrite Ht|done].
    + intros R u fr HR. by rewrite (live_no_cb st q msq) in HR.
    + congruence.
    + intros _. apply live_retrying; [by apply H9|done|done].
  - unfold retrying. intros u fr'. rec_simpl. rewrite lookup_insert.
    destruct (decide (t = u)) as [<-|]; [|intros Hu _; split; [by apply Hinv|eauto]].
    intros [= <-] _. split; [|eauto]. apply (mi_frame _ Hinv t _ Ht).
  - exact (mi_cbs _ Hinv _).
Qed.

(** ** Taking a message *)

(** A step that wakes the senders and receivers who can go on. *)
Lemma live_rewake q msq msq' S w w' :
  live_inv q msq S w -> q_senders msq' ≡ₚ q_senders msq -> q_receivers msq' = q_receivers msq ->
  (forall t m n g s, S !! t = Some (SndFrame q m n g s) -> msg_fits_inqueue msq' n = true ->
     t ∈ w') ->
  (forall t fr msr, S !! t = Some fr -> waits_on q fr msr -> t ∉ w' ->
     forall m, m ∈ q_messages msq' ->
       wanted (q_perm msq') m t (r_msgtype msr) (r_mode msr) = false) ->
  live_inv q msq' S w'.
Proof.
  intros [H1 H2 H3 H4 H5 H6 H7] Es Er Hs Hr. split; [by rewrite Es|by rewrite Er| |done| |done|done].
  - intros t. by rewrite Es.
  - intros t. by rewrite Er.
Qed.

Definition dequeue (t : task) (i : nat) (msg : msg_msg) (now : Z) (msq : msg_queue) : msg_queue :=
  msq <| q_messages ::= delete i |> <| q_qnum ::= fun n => u64 (n - 1) |> <| q_rtime := now |>
      <| q_lrpid := Some (task_tgid t) |> <| q_cbytes ::= fun n => u64 (n - m_ts msg) |>.

(** The senders with those whose message fits [msq] before the others. *)
Definition fitting (msq : msg_queue) (st : msg_ns) : list task :=
  filter (fun u => sender_fits msq st u = true) (q_senders msq).
Definition wake_order (msq : msg_queue) (st : msg_ns) : list task :=
  fitting msq st ++ filter (fun u => sender_fits msq st u = false) (q_senders msq).

Definition taken (t : task) (q : qptr) (i : nat) (msg : msg_msg) (now : Z) (msq : msg_queue)
    (st : msg_ns) : msg_ns :=
  let msq1 := dequeue t i msg now msq in
  st <| queues ::= <[q := with_senders msq1 (wake_order msq1 st)]> |>
     <| percpu_msg_bytes ::= fun c => percpu_counter_sub_local c (s64 (m_ts msg)) |>
     <| percpu_msg_hdrs ::= fun c => percpu_counter_sub_local c 1 |>
     <| woken ::= fun w => w ∪ list_to_set (fitting msq1 st) |>.

Lemma wake_order_perm msq st : wake_order msq st ≡ₚ q_senders msq.
Proof.
  unfold wake_order, fitting. induction (q_senders msq) as [|x l IH]; [done|].
  destruct (sender_fits msq st x) eqn:E.
  - rewrite filter_cons_True, filter_cons_False by congruence. simpl. by rewrite IH.
  - rewrite filter_cons_False, filter_cons_True by congruence.
    by rewrite <-Permutation_middle, IH.
Qed.

(** A sender asleep on [q] whose message fits is woken. *)
Lemma fitting_in q msq msq' st t m n g s :
  msg_inv st -> queues st !! q = Some msq -> deleted msq = false ->
  q_senders msq' = q_senders msq ->
  stacks st !! t = Some (SndFrame q m n g s) -> msg_fits_inqueue msq' n = true ->
  t ∈ fitting msq' st.
Proof.
  intros Hinv Hq Hd Es Ht Hf. destruct (mi_frame _ Hinv t _ Ht) as (_ & _ & _ & En).
  apply list_elem_of_filter. split.
  - unfold sender_fits, sender_of. by rewrite Ht, En.
  - rewrite Es. apply (li_snd _ _ _ _ (live_queue st Hinv q msq Hq Hd)).
    eexists. split; [done|]. by apply bool_decide_eq_true.
Qed.

Lemma sum_ts_delete l i m : l !! i = Some m -> sum_ts (delete i l) = sum_ts l - m_ts m.
Proof.
  unfold sum_ts. revert i. induction l as [|x l IH]; intros [|i] Hi; simplify_eq/=; [lia|].
  rewrite (IH i Hi). lia.
Qed.

Section take.
Context (t : task) (q : qptr) (i : nat) (msg : msg_msg) (now : Z) (msq : msg_queue) (st : msg_ns).
Context (Hinv : msg_inv st) (Hroom : room st) (Hq : queues st !! q = Some msq)
  (Hd : deleted msq = false) (Hi : q_messages msq !! i = Some msg).

Abbreviation msq1 := (dequeue t i msg now msq).

Lemma wp_msgrcv_take :
  wp (msgrcv_take t q i msg now) (fun _ st' => st' = taken t q i msg now msq st) st.
Proof.
  apply wp_bind. eapply wp_upd_msq; [done|]. apply wp_bind, wp_mod, wp_bind. eapply wp_mono.
  { apply (wp_ss_wakeup q msq1); [rec_simpl; apply lookup_insert_eq|].
    apply (live_senders_ok st Hinv q msq Hq Hd). }
  intros wq st' [-> ->]. apply wp_mod, msg_ns_ext; try done.
  unfold resend, taken. rec_simpl. apply insert_insert_eq.
Qed.

(** The message taken is accounted for. *)
Lemma take_bounds :
  0 <= m_ts msg < 2 ^ 32 /\ m_ts msg <= q_cbytes msq < 2 ^ 62 /\ 1 <= q_qnum msq < 2 ^ 62 /\
  sum_ts (delete i (q_messages msq)) = q_cbytes msq - m_ts msg /\
  Z.of_nat (length (delete i (q_messages msq))) = q_qnum msq - 1.
Proof.
  destruct (queue_room q msq st Hinv Hq Hroom) as (Hb & Hc & Hs).
  destruct (mi_queue _ Hinv q msq Hq) as [H1 H2 H3 _ _ _ _ _ _].
  pose proof (proj1 (Forall_lookup _ _) H3 i msg Hi) as Hts. simpl in Hts.
  pose proof (sum_ts_delete _ _ _ Hi) as Hsd.
  assert (0 <= sum_ts (delete i (q_messages msq))) by (by apply sum_ts_nonneg, Forall_delete).
  pose proof (length_delete (q_messages msq) i ltac:(eauto)).
  apply lookup_lt_Some in Hi. lia.
Qed.

Lemma live_taken :
  live_inv q (with_senders msq1 (wake_order msq1 st)) (stacks st)
    (woken st ∪ list_to_set (fitting msq1 st)).
Proof.
  pose proof (live_queue st Hinv q msq Hq Hd) as Hl.
  apply (live_rewake q msq _ _ (woken st)); [done|apply (wake_order_perm msq1)|done| |].
  - intros u m n g s Hu Hf. apply elem_of_union_r, elem_of_list_to_set.
    by apply (fitting_in q msq msq1 st u m n g s).
  - intros u fr msr Hu Hw Hnw m Hm. apply (li_wake_rcv _ _ _ _ Hl u fr); [done|done|set_solver|].
    unfold with_senders, dequeue in Hm. rec_simpl_all.
    by apply list_elem_of_delete_inv in Hm.
Qed.

Lemma taken_inv : msg_inv (taken t q i msg now msq st).
Proof.
  destruct take_bounds as (Hts & Hb & Hc & Esum & Elen).
  destruct (mi_queue _ Hinv q msq Hq) as [H1 H2 H3 H4 H5 H6 H7 H8 H9].
  eapply (msg_inv_step q msq); [done|done| | | | | |done| | |done|done].
  - apply elsewhere_queue; unfold taken; rec_simpl; [|done|set_solver|done].
    intros. by rewrite lookup_insert_ne.
  - unfold taken. rec_simpl. apply lookup_insert_eq.
  - done.
  - split; unfold with_senders, dequeue, deleted; rec_simpl; fold (deleted msq); try done.
    + rewrite u64_id by lia. lia.
    + rewrite u64_id by lia. lia.
    + by apply Forall_delete.
    + intros _. apply live_taken.
  - intros u fr Hu _. by apply Hinv.
  - unfold taken. rec_simpl. rewrite (total_update _ _ q msq _ Hq), percpu_sub_sum, (mi_bytes _ Hinv).
    rewrite s64_sub_l, (s64_id (m_ts msg)) by lia. f_equal.
    unfold weight, with_senders, dequeue, deleted. rec_simpl. fold (deleted msq). rewrite Hd.
    rewrite u64_id by lia. lia.
  - unfold taken. rec_simpl. rewrite (total_update _ _ q msq _ Hq), percpu_sub_sum, (mi_hdrs _ Hinv).
    rewrite s64_sub_l. f_equal.
    unfold weight, with_senders, dequeue, deleted. rec_simpl. fold (deleted msq). rewrite Hd.
    rewrite u64_id by lia. lia.
Qed.
End take.

(** ** Going to sleep, and leaving the list of receivers *)

Definition new_receiver (t : task) (a : rcv_args) : msg_receiver :=
  MsgReceiver t (ra_mode a) (ra_msgtyp a)
    (if has (ra_flg a) MSG_NOERROR then INT_MAX else ra_bufsz a) (inl (- EAGAIN)).

Definition rcv_asleep (t : task) (q : qptr) (a : rcv_args) (msq : msg_queue) (st : msg_ns)
    : msg_ns :=
  st <| queues ::= <[q := msq <| q_receivers ::= fun l => l ++ [t] |>]> |>
     <| stacks ::= <[t := RcvFrame q a (new_receiver t a)]> |>
     <| woken ::= fun w => w ∖ {[t]} |>
     <| rcu_cbs ::= fmap (fun R => R ∖ {[t]}) |>.

Lemma live_rcv_asleep q msq S w t a :
  live_inv q msq S w -> S !! t = None ->
  (forall m, m ∈ q_messages msq -> wanted (q_perm msq) m t (ra_msgtyp a) (ra_mode a) = false) ->
  live_inv q (msq <| q_receivers ::= fun l => l ++ [t] |>)
    (<[t := RcvFrame q a (new_receiver t a)]> S) (w ∖ {[t]}).
Proof.
  intros [H1 H2 H3 H4 H5 H6 H7] Ht Hno. split; rec_simpl.
  - done.
  - apply NoDup_app. split; [done|]. split; [|apply NoDup_singleton].
    intros u Hu ->%list_elem_of_singleton. apply H5 in Hu as (fr & msr & Hfr & _). congruence.
  - intros u. rewrite H3, lookup_insert. destruct (decide (t = u)) as [<-|Hne]; [|done].
    rewrite Ht. split; [naive_solver|]. by intros (fr & [= <-] & Hon).
  - intros u m n g s. rewrite lookup_insert. destruct (decide (t = u)); [done|]. apply H4.
  - intros u. rewrite elem_of_app, H5, list_elem_of_singleton, lookup_insert.
    destruct (decide (t = u)) as [<-|Hne].
    + split; [|by right]. intros _. by exists (RcvFrame q a (new_receiver t a)), (new_receiver t a).
    + naive_solver.
  - intros u m n g s. rewrite lookup_insert. destruct (decide (t = u)); [done|].
    intros Hu Hf. rewrite elem_of_difference, elem_of_singleton. split; [|done]. by eapply H6.
  - intros u fr msr. rewrite lookup_insert. destruct (decide (t = u)) as [<-|Hne].
    + intros [= <-] (_ & [= <-] & _) _ m Hm. by apply Hno.
    + intros Hu Hw Hnw. eapply H7; [done|done|set_solver].
Qed.

Lemma rcv_asleep_inv t q a msq st :
  msg_inv st -> queues st !! q = Some msq -> deleted msq = false -> stacks st !! t = None ->
  ra_mode a <> SEARCH_NUMBER -> has (ra_flg a) MSG_COPY = false ->
  (forall m, m ∈ q_messages msq -> wanted (q_perm msq) m t (ra_msgtyp a) (ra_mode a) = false) ->
  msg_inv (rcv_asleep t q a msq st).
Proof.
  intros Hinv Hq Hd Ht Hmode Hcopy Hno.
  destruct (mi_queue _ Hinv q msq Hq) as [H1 H2 H3 H4 H5 H6 H7 H8 H9].
  eapply (msg_inv_same q msq); [done|done| |done|done|done|done| | |by split].
  - apply (elsewhere_task q t); unfold rcv_asleep; rec_simpl.
    + intros. by rewrite lookup_insert_ne.
    + intros. by rewrite lookup_insert_ne.
    + intros fr. by rewrite Ht.
    + intros fr. rewrite lookup_insert_eq. by intros [= <-].
    + set_solver.
    + intros q' _. right. apply lookup_fmap.
  - split; unfold rcv_asleep, deleted; rec_simpl; fold (deleted msq); try done.
    + rewrite H5, snd_count_insert by done. simpl. lia.
    + by rewrite lookup_fmap, fmap_is_Some.
    + intros R u fr. by rewrite lookup_fmap, (live_no_cb st q msq).
    + congruence.
    + intros _. by apply live_rcv_asleep; [apply H9| |].
  - unfold rcv_asleep. intros u fr. rec_simpl. rewrite lookup_insert.
    destruct (decide (t = u)) as [<-|Hne]; [by intros [= <-] _|]. intros Hu _. by apply Hinv.
Qed.

(** A receiver leaves the list under the lock. *)
Definition rcv_gone (t : task) (q : qptr) (msq : msg_queue) (st : msg_ns) : msg_ns :=
  st <| queues ::= <[q := msq <| q_receivers ::= list_del t |>]> |> <| stacks ::= delete t |>.

Lemma live_rcv_gone q msq S w t fr msr :
  live_inv q msq S w -> S !! t = Some fr -> frame_receiver fr = Some msr ->
  live_inv q (msq <| q_receivers ::= list_del t |>) (delete t S) w.
Proof.
  intros [H1 H2 H3 H4 H5 H6 H7] Ht Hr. split; rec_simpl.
  - done.
  - by apply NoDup_list_del.
  - intros u. rewrite H3, lookup_delete. destruct (decide (t = u)) as [<-|]; [|done].
    rewrite Ht. split; [|naive_solver]. intros (fr' & [= <-] & Hon). by destruct fr.
  - intros u m n g s. rewrite lookup_delete. destruct (decide (t = u)); [done|]. apply H4.
  - intros u. rewrite elem_of_list_del, H5, lookup_delete. destruct (decide (t = u)); naive_solver.
  - intros u m n g s. rewrite lookup_delete. destruct (decide (t = u)); [done|]. apply H6.
  - intros u fr' msr'. rewrite lookup_delete. destruct (decide (t = u)); [done|]. apply H7.
Qed.

Lemma rcv_gone_inv t q a msr msq st :
  msg_inv st -> queues st !! q = Some msq -> deleted msq = false ->
  stacks st !! t = Some (RcvRetry q a msr) -> msg_inv (rcv_gone t q msq st).
Proof.
  intros Hinv Hq Hd Ht. destruct (mi_queue _ Hinv q msq Hq) as [H1 H2 H3 H4 H5 H6 H7 H8 H9].
  eapply (msg_inv_same q msq); [done|done| |done|done|done|done| | |by split].
  - apply (elsewhere_task q t); unfold rcv_gone; rec_simpl; [| | | |done|auto].
    + intros. by rewrite lookup_insert_ne.
    + intros. by rewrite lookup_delete_ne.
    + intros fr. rewrite Ht. by intros [= <-].
    + intros fr. by rewrite lookup_delete_eq.
  - split; unfold rcv_gone, deleted; rec_simpl; fold (deleted msq); try done.
    + rewrite (snd_count_delete _ _ _ _ Ht). simpl. lia.
    + intros R u fr HR Hu. apply lookup_delete_Some in Hu as [_ Hu]. by eapply H7.
    + congruence.
    + intros _. by eapply live_rcv_gone; [apply H9| |].
  - unfold rcv_gone. intros u fr. rec_simpl. intros Hu _.
    apply lookup_delete_Some in Hu as [_ Hu]. by apply Hinv.
Qed.
End msg_recv.
