(* ===== verification/MsgRcvCall.v ===== *)
(** * System V message queues: [do_msgrcv] from the call to its return

    [do_msgrcv] looks up the queue; when it has the lock it does what [rcv_step] says: it
    reports an error, takes or copies the message that [find_msg] chose, or goes to
    sleep; a receiver that wakes up takes the answer it was given, or leaves the list and
    tries again. *)

From S2P Require Import Prelude.
From S2P Require Import MsgTypes.
From S2P Require Import MsgOps.
From S2P Require Import MsgLoops.
From S2P Require Import MsgInv.
From S2P Require Import MsgSend.
From S2P Require Import MsgRecv.

Section msg_rcv_call.
Context `{I : Ipc} (IL : IpcLaws I).

(** ** The exit path *)

Definition rcv_exit (t : task) (a : rcv_args) (msg : msg_or_err) (st : msg_ns)
    : outcome * msg_ns :=
  match msg with
  | inl e => (Returned e, unlocked t (events st) st)
  | inr msg =>
      let len := Z.min (m_ts msg) (ra_bufsz a) in
      let mtype := if ra_compat a then s32 (m_type msg) else m_type msg in
      if put_user_fails (ra_buf a) then (Returned (- EFAULT), unlocked t (events st) st)
      else (Returned (if store_msg_fails (ra_buf a) msg len then - EFAULT else len),
            unlocked t (StoreMsg t (ra_buf a) mtype msg len :: events st) st)
  end.

Lemma wp_msgrcv_exit t a msg st :
  wp (msgrcv_exit t a msg) (fun o st' => (o, st') = rcv_exit t a msg st) st.
Proof.
  apply wp_bind, wp_mod. destruct msg as [e|m]; simpl.
  { by apply wp_ret. }
  apply wp_bind.
  assert (Z.min (m_ts m) (ra_bufsz a) = if m_ts m <? ra_bufsz a then m_ts m else ra_bufsz a) as ->
    by (destruct (Z.ltb_spec (m_ts m) (ra_bufsz a)); lia).
  unfold compat_do_msg_fill, do_msg_fill.
  destruct (ra_compat a); cbv zeta; (destruct (put_user_fails _); [by apply wp_ret, wp_ret|]);
    apply wp_bind, wp_mod; destruct (store_msg_fails _ _ _); by apply wp_ret, wp_ret.
Qed.

Lemma rcv_exit_inv t a msg st :
  msg_inv st -> stacks st !! t = None -> msg_inv (rcv_exit t a msg st).2.
Proof.
  intros Hinv Ht.
  assert (forall ev, msg_inv (unlocked t ev st)) as Hi
    by (intros ev; apply unlocked_inv; [done|by rewrite Ht]).
  destruct msg as [e|m]; simpl; [apply Hi|]. destruct (put_user_fails _); apply Hi.
Qed.

(** ** Trying to receive *)

Definition rcv_step (t : task) (q : qptr) (msq : msg_queue) (a : rcv_args) (now : Z) (st : msg_ns)
    : outcome * msg_ns :=
  if deleted msq then rcv_exit t a (inl (- EIDRM)) st
  else
    match find_msg msq t (ra_msgtyp a) (ra_mode a) with
    | Some i =>
        match q_messages msq !! i with
        | None => (Slept, st)
        | Some msg =>
            if (ra_bufsz a <? m_ts msg) && negb (has (ra_flg a) MSG_NOERROR)
            then rcv_exit t a (inl (- E2BIG)) st
            else if has (ra_flg a) MSG_COPY
            then rcv_exit t a (from_option (copy_msg msg) (inr msg) (ra_copy a)) st
            else rcv_exit t a (inr msg) (taken t q i msg now msq st)
        end
    | None =>
        if has (ra_flg a) IPC_NOWAIT then rcv_exit t a (inl (- ENOMSG)) st
        else (Slept, rcv_asleep t q a msq st)
    end.

Section try.
Context (t : task) (q : qptr) (msq : msg_queue) (a : rcv_args) (now : Z) (st : msg_ns).
Context (Hinv : msg_inv st) (Hq : queues st !! q = Some msq) (Ha : args_ok a).

Lemma found_lookup i :
  find_msg msq t (ra_msgtyp a) (ra_mode a) = Some i -> exists msg, q_messages msq !! i = Some msg.
Proof.
  intros Hf. apply find_loop_lookup in Hf as [?|(j & m & -> & Hj)]; [done|]. by exists m.
Qed.

Lemma wp_msgrcv_try :
  wp (msgrcv_try t q a now) (fun o st' => (o, st') = rcv_step t q msq a now st) st.
Proof.
  unfold msgrcv_try, rcv_step. apply wp_bind. eapply wp_get_msq; [done|].
  rewrite valid_spec, negb_involutive. fold (deleted msq).
  destruct (deleted msq) eqn:Hd; [apply wp_msgrcv_exit|].
  destruct (find_msg _ _ _ _) as [i|] eqn:Hf.
  - destruct (found_lookup i Hf) as [msg Hi]. rewrite Hi.
    destruct (_ && _); [apply wp_msgrcv_exit|].
    destruct (has (ra_flg a) MSG_COPY) eqn:Hc.
    + destruct Ha as [[[copy Hcopy] _] _]; [done|]. rewrite Hcopy. apply wp_msgrcv_exit.
    + apply wp_bind. eapply wp_mono; [by eapply wp_msgrcv_take|]. intros _ st' ->.
      apply wp_msgrcv_exit.
  - destruct (has _ _); [apply wp_msgrcv_exit|].
    apply wp_bind. eapply wp_upd_msq; [done|]. apply wp_bind, wp_mod, wp_bind, wp_mod.
    by apply wp_bind, wp_mod, wp_ret.
Qed.

Lemma rcv_step_inv :
  room st -> stacks st !! t = None -> msg_inv (rcv_step t q msq a now st).2.
Proof.
  intros Hroom Ht. unfold rcv_step. destruct (deleted msq) eqn:Hd; [by apply rcv_exit_inv|].
  destruct (find_msg _ _ _ _) as [i|] eqn:Hf.
  - destruct (found_lookup i Hf) as [msg Hi]. rewrite Hi.
    destruct (_ && _); [by apply rcv_exit_inv|].
    destruct (has _ _); [by apply rcv_exit_inv|].
    apply rcv_exit_inv; [by apply taken_inv|done].
  - destruct (has (ra_flg a) IPC_NOWAIT) eqn:Hn; [by apply rcv_exit_inv|].
    destruct Ha as [Hcopy Hnum].
    destruct (has (ra_flg a) MSG_COPY) eqn:Hc; [destruct Hcopy; [done|congruence]|].
    apply rcv_asleep_inv; auto. intros m. by eapply find_loop_none; [apply Hnum|].
Qed.
End try.

(** ** The call *)

(** The copy of a call with MSG_COPY. *)
Definition rcv_copy (buf : ubuf) (bufsz msgflg : Z) (st : msg_ns) : Z + option msg_msg :=
  if has msgflg MSG_COPY then
    if has msgflg MSG_EXCEPT || negb (has msgflg IPC_NOWAIT) then inl (- EINVAL)
    else
      match prepare_copy buf (Z.min bufsz (msg_ctlmax st)) with
      | inl e => inl e
      | inr m => inr (Some m)
      end
  else inr None.

(** What it does at the head of its loop before it takes the lock. *)
Definition enter_spec (t : task) (q : qptr) (msq : msg_queue) (a : rcv_args) (st : msg_ns)
    : outcome * msg_ns :=
  if ipcperms t (q_perm msq) S_IRUGO then rcv_exit t a (inl (- EACCES)) st
  else (Running, looking t q (ForRcv a) st).

Lemma wp_msgrcv_enter t q msq a st :
  queues st !! q = Some msq ->
  wp (msgrcv_enter t q a) (fun o st' => (o, st') = enter_spec t q msq a st) st.
Proof.
  intros Hq. apply wp_bind. eapply wp_get_msq; [done|]. unfold enter_spec.
  destruct (ipcperms _ _ _); [apply wp_msgrcv_exit|]. by apply wp_bind, wp_mod, wp_ret.
Qed.

Lemma enter_spec_inv t q msq a st :
  msg_inv st -> queues st !! q = Some msq -> deleted msq = false -> stacks st !! t = None ->
  args_ok a -> msg_inv (enter_spec t q msq a st).2.
Proof.
  intros Hinv Hq Hd Ht Ha. unfold enter_spec.
  destruct (ipcperms _ _ _); [by apply rcv_exit_inv|by eapply looking_inv].
Qed.

(** What [do_msgrcv] does in the state [st] before it takes the lock. *)
Definition msgrcv_spec (t : task) (msqid : Z) (buf : ubuf) (bufsz msgtyp msgflg : Z) (compat : bool)
    (st : msg_ns) : outcome * msg_ns :=
  if (msqid <? 0) || (2 ^ 63 <=? bufsz) then (Returned (- EINVAL), st)
  else
    match rcv_copy buf bufsz msgflg st, ipc_obtain_object_check (msg_ids st) msqid with
    | inl e, _ => (Returned e, st)
    | inr _, inl e => (Returned e, st)
    | inr copy, inr q =>
        match queues st !! q with
        | Some msq =>
            let '(mode, typ) := convert_mode msgtyp msgflg in
            enter_spec t q msq (RcvArgs buf bufsz typ mode msgflg copy compat) st
        | None => (Slept, st)
        end
    end.

Lemma convert_mode_number msgtyp msgflg mode typ :
  convert_mode msgtyp msgflg = (mode, typ) -> has msgflg MSG_COPY = false ->
  mode <> SEARCH_NUMBER.
Proof.
  unfold convert_mode. intros Hm Hc. rewrite Hc in Hm.
  destruct (_ =? _); [by simplify_eq|]. destruct (_ <? _); [by simplify_eq|].
  destruct (has _ _); by simplify_eq.
Qed.

Lemma rcv_copy_ok buf bufsz typ mode msgflg st copy msgtyp compat :
  rcv_copy buf bufsz msgflg st = inr copy -> convert_mode msgtyp msgflg = (mode, typ) ->
  args_ok (RcvArgs buf bufsz typ mode msgflg copy compat).
Proof.
  unfold rcv_copy. intros Hc Hm. split; simpl; intros Hf; [|by eapply convert_mode_number].
  rewrite Hf in Hc. destruct (has msgflg MSG_EXCEPT); [done|].
  destruct (has msgflg IPC_NOWAIT); [|done]. simpl in Hc.
  destruct (prepare_copy _ _); [done|]. simplify_eq. split; [eauto|done].
Qed.

Section call.
Context (t : task) (msqid : Z) (buf : ubuf) (bufsz msgtyp msgflg : Z) (compat : bool) (st : msg_ns).
Context (Hinv : msg_inv st) (Hsz : 0 <= bufsz < 2 ^ 64).

Lemma s64_negative : (s64 bufsz <? 0) = (2 ^ 63 <=? bufsz).
Proof.
  unfold s64. rewrite u64_id by lia. cbv zeta.
  destruct (Z.ltb_spec bufsz (2 ^ 63)), (Z.leb_spec (2 ^ 63) bufsz); lia.
Qed.

Lemma wp_do_msgrcv :
  wp (do_msgrcv t msqid buf bufsz msgtyp msgflg compat)
    (fun o st' => (o, st') = msgrcv_spec t msqid buf bufsz msgtyp msgflg compat st) st.
Proof.
  unfold do_msgrcv, msgrcv_spec. rewrite s64_negative.
  destruct (_ || _); [by apply wp_ret|]. apply wp_bind, wp_gets. cbv zeta.
  destruct (convert_mode msgtyp msgflg) as [mode typ] eqn:Hm.
  assert (forall copy,
    wp (let* ids := gets msg_ids in
        match ipc_obtain_object_check ids msqid with
        | inl e => ret (Returned e)
        | inr q => msgrcv_enter t q (RcvArgs buf bufsz typ mode msgflg copy compat)
        end)
      (fun o st' => (o, st') =
         match ipc_obtain_object_check (msg_ids st) msqid with
         | inl e => (Returned e, st)
         | inr q =>
             match queues st !! q with
             | Some msq => enter_spec t q msq (RcvArgs buf bufsz typ mode msgflg copy compat) st
             | None => (Slept, st)
             end
         end) st) as Hrest.
  { intros copy. apply wp_bind, wp_gets.
    destruct (ipc_obtain_object_check _ _) as [e|q] eqn:E; [by apply wp_ret|].
    apply obtain_check_mem in E. destruct (ids_queue st Hinv q E) as (msq & Hq & Hd).
    rewrite Hq. by apply wp_msgrcv_enter. }
  unfold rcv_copy. destruct (has msgflg MSG_COPY); [|by apply Hrest].
  destruct (_ || _); [by apply wp_ret|].
  destruct (prepare_copy _ _) as [e|m]; [by apply wp_ret|by apply Hrest].
Qed.

Lemma msgrcv_spec_inv :
  stacks st !! t = None -> msg_inv (msgrcv_spec t msqid buf bufsz msgtyp msgflg compat st).2.
Proof.
  intros Ht. unfold msgrcv_spec. destruct (_ || _); [done|].
  destruct (rcv_copy buf bufsz msgflg st) as [e|copy] eqn:Hc; [done|].
  destruct (ipc_obtain_object_check _ _) as [e|q] eqn:E; [done|].
  apply obtain_check_mem in E. destruct (ids_queue st Hinv q E) as (msq & Hq & Hd). rewrite Hq.
  destruct (convert_mode msgtyp msgflg) as [mode typ] eqn:Hm.
  apply enter_spec_inv; try done. by eapply rcv_copy_ok.
Qed.

Lemma wp_do_msgrcv_inv :
  stacks st !! t = None ->
  wp (do_msgrcv t msqid buf bufsz msgtyp msgflg compat) (fun _ => msg_inv) st.
Proof.
  intros Ht. eapply wp_spec_inv; [apply wp_do_msgrcv|by apply msgrcv_spec_inv].
Qed.
End call.

Section lock.
Context (t : task) (q : qptr) (msq : msg_queue) (a : rcv_args) (now : Z) (st : msg_ns).
Context (Hinv : msg_inv st) (Hq : queues st !! q = Some msq)
  (Ht : stacks st !! t = Some (Locking q (ForRcv a))).

Lemma rcv_popped : msg_inv (popped t st) /\ stacks (popped t st) !! t = None.
Proof.
  split; [by eapply popped_inv, quiet_locking|]. unfold popped. rec_simpl. apply lookup_delete_eq.
Qed.

Lemma wp_msgrcv_lock :
  wp (msgrcv_lock t now) (fun o st' => (o, st') = rcv_step t q msq a now (popped t st)) st.
Proof.
  destruct rcv_popped as [Hi _]. apply wp_bind, wp_gets. rewrite Ht. apply wp_bind, wp_mod.
  apply (wp_msgrcv_try t q msq a now (popped t st)); [done|done|]. apply (mi_frame _ Hinv t _ Ht).
Qed.

Lemma rcv_lock_inv : room st -> msg_inv (rcv_step t q msq a now (popped t st)).2.
Proof.
  intros Hroom. destruct rcv_popped as [Hi Hn].
  apply rcv_step_inv; try done; [apply (mi_frame _ Hinv t _ Ht)|by apply popped_room].
Qed.
End lock.

Lemma wp_msgrcv_lock_inv t now st q a :
  msg_inv st -> room st -> stacks st !! t = Some (Locking q (ForRcv a)) ->
  wp (msgrcv_lock t now) (fun _ => msg_inv) st.
Proof.
  intros Hinv Hroom Ht. destruct (mi_needs _ Hinv t _ Ht) as [msq Hq]; [done|]. simpl in Hq.
  eapply wp_spec_inv; [by eapply wp_msgrcv_lock|by apply rcv_lock_inv].
Qed.

(** ** Waking up *)

Definition wake_spec (t : task) (q : qptr) (a : rcv_args) (msr : msg_receiver) (st : msg_ns)
    : option outcome * msg_ns :=
  if bool_decide (r_msg msr = inl (- EAGAIN)) then (None, retrying t q a msr st)
  else let r := rcv_exit t a (r_msg msr) (popped t st) in (Some r.1, r.2).

Lemma wp_msgrcv_wake t q a msr st :
  stacks st !! t = Some (RcvFrame q a msr) ->
  wp (msgrcv_wake t) (fun o st' => (o, st') = wake_spec t q a msr st) st.
Proof.
  intros Ht. apply wp_bind, wp_gets. rewrite Ht. unfold wake_spec. case_decide as E.
  - rewrite bool_decide_true by done. by apply wp_bind, wp_mod, wp_ret.
  - rewrite bool_decide_false by done. apply wp_bind, wp_mod, wp_bind.
    eapply wp_mono; [apply wp_msgrcv_exit|]. intros o st' E'. apply wp_ret.
    cbv zeta. unfold popped. by rewrite <-E'.
Qed.

Lemma wp_msgrcv_wake_inv t q a msr st :
  msg_inv st -> stacks st !! t = Some (RcvFrame q a msr) ->
  wp (msgrcv_wake t) (fun _ => msg_inv) st.
Proof.
  intros Hinv Ht. eapply wp_spec_inv; [by apply wp_msgrcv_wake|].
  unfold wake_spec. case_bool_decide; [by apply retrying_inv|]. simpl.
  apply rcv_exit_inv; [by eapply popped_inv, quiet_answered|].
  unfold popped. rec_simpl. apply lookup_delete_eq.
Qed.

(** The turn under the lock. *)
Definition locked_spec (t : task) (q : qptr) (a : rcv_args) (msr : msg_receiver) (sig : bool)
    (msq : msg_queue) (st : msg_ns) : outcome * msg_ns :=
  if bool_decide (r_msg msr = inl (- EAGAIN)) then
    let st' := rcv_gone t q msq st in
    if sig then rcv_exit t a (inl (- ERESTARTNOHAND)) st'
    else enter_spec t q (msq <| q_receivers ::= list_del t |>) a st'
  else rcv_exit t a (r_msg msr) (popped t st).

Section locked.
Context (t : task) (q : qptr) (a : rcv_args) (msr : msg_receiver) (sig : bool)
  (msq : msg_queue) (st : msg_ns).
Context (Hinv : msg_inv st) (Ht : stacks st !! t = Some (RcvRetry q a msr))
  (Hq : queues st !! q = Some msq).

Lemma retry_live : r_msg msr = inl (- EAGAIN) -> deleted msq = false.
Proof.
  intros Hw. destruct (waiting_queue st t _ msr Hinv Ht eq_refl Hw) as (msq' & Hq' & Hd).
  simpl in Hq'. congruence.
Qed.

Lemma retry_args : args_ok a.
Proof. destruct (mi_frame _ Hinv t _ Ht) as (_ & _ & _ & Hm & Hc). split; congruence. Qed.

Lemma gone_queue :
  queues (rcv_gone t q msq st) !! q = Some (msq <| q_receivers ::= list_del t |>).
Proof. unfold rcv_gone. rec_simpl. apply lookup_insert_eq. Qed.

Lemma wp_msgrcv_locked :
  wp (msgrcv_locked t sig) (fun o st' => (o, st') = locked_spec t q a msr sig msq st) st.
Proof.
  apply wp_bind, wp_gets. rewrite Ht. apply wp_bind. eapply wp_get_msq; [done|].
  unfold locked_spec. case_decide as E.
  - rewrite bool_decide_true by done. apply wp_bind. eapply wp_upd_msq; [done|].
    apply wp_bind, wp_mod. cbv zeta. destruct sig; [apply wp_msgrcv_exit|].
    apply (wp_msgrcv_enter _ _ (msq <| q_receivers ::= list_del t |>) _ (rcv_gone t q msq st)).
    apply gone_queue.
  - rewrite bool_decide_false by done. apply wp_bind, wp_mod, wp_msgrcv_exit.
Qed.

Lemma locked_spec_inv : msg_inv (locked_spec t q a msr sig msq st).2.
Proof.
  unfold locked_spec. case_bool_decide as E.
  - pose proof (retry_live E) as Hd.
    assert (msg_inv (rcv_gone t q msq st)) by by eapply rcv_gone_inv.
    assert (stacks (rcv_gone t q msq st) !! t = None)
      by (unfold rcv_gone; rec_simpl; apply lookup_delete_eq).
    destruct sig; [by apply rcv_exit_inv|].
    apply enter_spec_inv; [done|apply gone_queue|done|done|apply retry_args].
  - apply rcv_exit_inv; [by eapply popped_inv, quiet_answered|]. unfold popped. rec_simpl.
    apply lookup_delete_eq.
Qed.
End locked.

Lemma wp_msgrcv_locked_inv t q a msr sig st :
  msg_inv st -> stacks st !! t = Some (RcvRetry q a msr) ->
  wp (msgrcv_locked t sig) (fun _ => msg_inv) st.
Proof.
  intros Hinv Ht. destruct (mi_needs _ Hinv t _ Ht) as [msq Hq]; [done|]. simpl in Hq.
  eapply wp_spec_inv; [by eapply wp_msgrcv_locked|by apply locked_spec_inv].
Qed.
End msg_rcv_call.
