(* ===== verification/MsgRemove.v ===== *)
(** * System V message queues: removing a queue keeps the invariant *)

From S2P Require Import Prelude.
From S2P Require Import MsgTypes.
From S2P Require Import MsgOps.
From S2P Require Import MsgLoops.
From S2P Require Import MsgInv.
From S2P Require Import MsgSend.
From S2P Require Import MsgSndCall.
From S2P Require Import MsgRecv.

Section msg_remove.
Context `{I : Ipc} (IL : IpcLaws I).

(** ** The frames of the tasks asleep on the queue *)

Definition shut_frame (msq : msg_queue) (u : task) (fr : frame) : frame :=
  let fr := if decide (u ∈ q_receivers msq) then answer (inl (- EIDRM)) fr else fr in
  if decide (u ∈ q_senders msq) then kill_frame fr else fr.

Definition shut (msq : msg_queue) (S : gmap task frame) : gmap task frame :=
  restack (q_senders msq) kill_frame (restack (q_receivers msq) (answer (inl (- EIDRM))) S).

Lemma lookup_shut msq S u : shut msq S !! u = shut_frame msq u <$> S !! u.
Proof. unfold shut. rewrite !lookup_restack. by destruct (S !! u). Qed.

Lemma shut_queue msq u fr : frame_queue (shut_frame msq u fr) = frame_queue fr.
Proof. unfold shut_frame. by repeat case_decide; destruct fr. Qed.

Lemma shut_snd_on msq u fr q : snd_on q (shut_frame msq u fr) = snd_on q fr.
Proof. unfold shut_frame. by repeat case_decide; destruct fr. Qed.

Lemma shut_ok msq u fr : frame_ok u fr -> frame_ok u (shut_frame msq u fr).
Proof. unfold shut_frame. repeat case_decide; destruct fr; simpl; rec_simpl; done. Qed.

Lemma shut_rcu msq u fr : in_rcu (shut_frame msq u fr) = in_rcu fr.
Proof. unfold shut_frame. by repeat case_decide; destruct fr. Qed.

(** Nobody waits for a message once the queue is removed. *)
Lemma shut_waits q msq u fr msr :
  (forall msr, waits_on q fr msr -> u ∈ q_receivers msq) ->
  ~ waits_on q (shut_frame msq u fr) msr.
Proof.
  intros Hrcv (Eq & Er & Hw). rewrite shut_queue in Eq. pose proof EAGAIN_not_EIDRM as Hne.
  unfold shut_frame in Er. destruct (decide (u ∈ q_receivers msq)) as [Hin|Hin].
  - assert (r_msg msr = inl (- EIDRM)) by (case_decide; destruct fr; by simplify_eq/=).
    assert (- EAGAIN = - EIDRM) by congruence. lia.
  - apply Hin, (Hrcv msr). split; [done|]. split; [|done].
    case_decide; destruct fr; by simplify_eq/=.
Qed.

(** ** The state after [freeque] *)

Definition sub_hdrs (n : nat) (c : percpu_counter) : percpu_counter :=
  Nat.iter n (fun c => percpu_counter_sub_local c 1) c.

Lemma sub_hdrs_sum n c x :
  percpu_counter_sum c = s64 x -> percpu_counter_sum (sub_hdrs n c) = s64 (x - Z.of_nat n).
Proof.
  intros Hc. induction n as [|n IH]; [by rewrite Z.sub_0_r|].
  change (sub_hdrs (S n) c) with (percpu_counter_sub_local (sub_hdrs n c) 1).
  rewrite percpu_sub_sum, IH, s64_sub_l. f_equal. lia.
Qed.

(** The queue once it is removed and the reference of the identifier is dropped. *)
Definition dead_queue (msq : msg_queue) (perm : kern_ipc_perm) : msg_queue :=
  msq <| q_perm := perm <| ipc_refcount ::= Z.pred |> |> <| q_lspid := None |> <| q_lrpid := None |>.

Definition freed (q : qptr) (msq : msg_queue) (st : msg_ns) : msg_ns :=
  let '(ids, perm) := ipc_rmid (msg_ids st) q (q_perm msq) in
  st <| msg_ids := ids |>
     <| queues ::= <[q := dead_queue msq perm]> |>
     <| stacks ::= shut msq |>
     <| woken ::= fun w => w ∪ list_to_set (q_receivers msq ++ q_senders msq) |>
     <| percpu_msg_hdrs ::= sub_hdrs (length (q_messages msq)) |>
     <| percpu_msg_bytes ::= fun c => percpu_counter_sub_local c (s64 (q_cbytes msq)) |>
     <| rcu_cbs ::= if ipc_refcount (q_perm msq) =? 1 then <[q := rcu_readers st]> else id |>.

Lemma rcu_readers_shut msq st st' :
  stacks st' = shut msq (stacks st) -> rcu_readers st' = rcu_readers st.
Proof.
  intros E. unfold rcu_readers. rewrite E. apply set_eq. intros u. rewrite !elem_of_dom.
  unfold is_Some. setoid_rewrite map_lookup_filter_Some. rewrite lookup_shut. simpl.
  destruct (stacks st !! u) as [fr|]; simpl; [|done].
  split; intros (x & [= <-] & Hx); eexists; (split; [done|]); simpl in *;
    by rewrite shut_rcu in *.
Qed.

Section free.
Context (q : qptr) (msq : msg_queue) (st : msg_ns).
Context (Hinv : msg_inv st) (Hroom : room st) (Hq : queues st !! q = Some msq)
  (Hd : deleted msq = false).

Lemma shut_queues u fr :
  stacks st !! u = Some fr -> frame_queue fr <> q -> shut_frame msq u fr = fr.
Proof.
  intros Hu Hne. pose proof (live_queue st Hinv q msq Hq Hd) as Hl. unfold shut_frame.
  rewrite !decide_False; [done| |].
  - intros Hin. apply (li_rcv _ _ _ _ Hl) in Hin as (fr' & msr & Hfr & Hw & _). by simplify_eq.
  - intros Hin. apply (li_snd _ _ _ _ Hl) in Hin as (fr' & Hfr & Hon).
    destruct fr' as [q' m n g s| | |]; try done. apply bool_decide_eq_true in Hon. by simplify_eq.
Qed.

Lemma elsewhere_freed : elsewhere q st (freed q msq st).
Proof.
  unfold freed. destruct (ipc_rmid _ _ _) as [ids perm]. split; rec_simpl.
  - intros. by rewrite lookup_insert_ne.
  - intros u fr Hfr. rewrite lookup_shut. destruct (stacks st !! u) as [fr0|] eqn:E; [|done].
    simpl. split.
    + intros [= <-]. rewrite shut_queue in Hfr. f_equal. symmetry. by apply shut_queues.
    + intros [= <-]. f_equal. by apply shut_queues.
  - set_solver.
  - intros q' Hne. destruct (_ =? _); [by rewrite lookup_insert_ne|done].
  - intros q' R R' u fr Hne HR HR'. destruct (_ =? _); [rewrite lookup_insert_ne in HR' by done|];
      unfold id in *; by simplify_eq.
Qed.

Lemma freed_refs :
  0 < ipc_refcount (q_perm msq) < INT_MAX /\
  ipc_refcount (q_perm msq) = 1 + snd_count q (shut msq (stacks st)).
Proof.
  pose proof (refcount_range st Hinv q msq Hroom Hq).
  pose proof (qi_refs _ _ _ (mi_queue _ Hinv q msq Hq)) as Hr. rewrite Hd in Hr.
  pose proof (snd_count_size q (stacks st)). split; [lia|]. rewrite Hr. f_equal. symmetry.
  apply snd_count_same. intros u. rewrite lookup_shut. destruct (stacks st !! u); [|done].
  simpl. by rewrite shut_snd_on.
Qed.

Lemma freed_queue_inv ids perm :
  ipc_rmid (msg_ids st) q (q_perm msq) = (ids, perm) ->
  queue_inv q (dead_queue msq perm) (freed q msq st).
Proof.
  intros E. destruct (rmid_spec _ _ _ _ _ E) as (Hdel & Href & _).
  destruct freed_refs as [Hrange Hcount].
  destruct (mi_queue _ Hinv q msq Hq) as [H1 H2 H3 H4 H5 H6 H7 H8 H9].
  pose proof (live_no_cb st q msq Hinv Hq Hd) as Hcb.
  unfold freed. rewrite E. split; unfold dead_queue, deleted; rec_simpl; rewrite ?Hdel; try done.
  - lia.
  - rewrite Href. destruct (Z.eqb_spec (ipc_refcount (q_perm msq)) 1).
    + rewrite lookup_insert_eq. split; [lia|eauto].
    + unfold id. rewrite Hcb. split; [by intros [? ?]|lia].
  - intros R u fr HR Hu _ Hrcu. destruct (_ =? _); [|unfold id in HR; congruence].
    rewrite lookup_insert_eq in HR. injection HR as <-. rewrite lookup_shut in Hu.
    destruct (stacks st !! u) as [fr0|] eqn:Hfr; [|done]. injection Hu as <-.
    rewrite shut_rcu in Hrcu. by eapply rcu_readers_in.
  - intros _ u fr msr Hu. rewrite lookup_shut in Hu.
    destruct (stacks st !! u) as [fr0|] eqn:Hfr; [|done]. injection Hu as <-.
    apply shut_waits. intros msr' Hw. apply (H9 Hd). eauto.
Qed.

Lemma freed_inv : msg_inv (freed q msq st).
Proof.
  destruct (ipc_rmid (msg_ids st) q (q_perm msq)) as [ids perm] eqn:E.
  destruct (rmid_spec _ _ _ _ _ E) as (Hdel & _ & Hids).
  pose proof elsewhere_freed as He. pose proof (freed_queue_inv ids perm E) as Hqi.
  destruct (queue_room q msq st Hinv Hq Hroom) as (Hb & Hn & _).
  assert (queues (freed q msq st) = <[q := dead_queue msq perm]> (queues st)) as EQ
    by (unfold freed; by rewrite E).
  assert (weight q_cbytes (dead_queue msq perm) = 0 /\ weight q_qnum (dead_queue msq perm) = 0)
    as [Wb Wn] by (unfold weight, dead_queue, deleted; rec_simpl; by rewrite Hdel).
  split.
  - intros q0 msq0 Hq0. rewrite EQ, lookup_insert in Hq0.
    destruct (decide (q = q0)) as [<-|]; [by simplify_eq|].
    eapply queue_inv_elsewhere; [done|done|by apply Hinv].
  - unfold freed. rewrite E. intros u fr. rec_simpl. rewrite lookup_shut.
    destruct (stacks st !! u) eqn:Hu; [|done]. intros [= <-]. by apply shut_ok, Hinv.
  - rewrite EQ. intros u fr Hu Hneed. destruct (decide (frame_queue fr = q)) as [->|Hne].
    { rewrite lookup_insert_eq. eauto. }
    rewrite lookup_insert_ne by done. apply (el_frame _ _ _ He) in Hu; [|done].
    by eapply mi_needs.
  - intros x. rewrite EQ. unfold freed. rewrite E. rec_simpl. rewrite Hids, (mi_ids _ Hinv).
    rewrite lookup_insert. destruct (decide (q = x)) as [<-|]; [|naive_solver].
    split; [naive_solver|]. intros (m & [= <-] & Hm). unfold deleted, dead_queue in Hm.
    rec_simpl_all. congruence.
  - intros x R HR. rewrite EQ, lookup_insert. destruct (decide (q = x)) as [<-|]; [eauto|].
    destruct (proj1 (el_cbs_some _ _ _ He x ltac:(done)) (ex_intro _ R HR)) as [R0 HR0].
    by eapply mi_cbs.
  - rewrite EQ, (total_update _ _ _ _ _ Hq), Wb. unfold freed. rewrite E. rec_simpl.
    rewrite percpu_sub_sum, (mi_bytes _ Hinv), s64_sub_l, (s64_id (q_cbytes msq)) by lia.
    f_equal. unfold weight. rewrite Hd. lia.
  - rewrite EQ, (total_update _ _ _ _ _ Hq), Wn. unfold freed. rewrite E. rec_simpl.
    rewrite (sub_hdrs_sum _ _ _ (mi_hdrs _ Hinv)), <-(qi_num _ _ _ (mi_queue _ Hinv q msq Hq)).
    f_equal. unfold weight. rewrite Hd. lia.
  - unfold freed. rewrite E. apply Hinv.
  - unfold freed. rewrite E. apply Hinv.
Qed.

Lemma answered_senders_ok l m :
  senders_ok (q_senders msq) (with_stacks (restack l (answer m) (stacks st)) st).
Proof.
  destruct (live_senders_ok st Hinv q msq Hq Hd) as [Hnd Hok]. split; [done|].
  intros u Hu. destruct (Hok u Hu) as (s & Hs & Ht). exists s. split; [|done].
  unfold sender_of, with_stacks in *. rec_simpl. rewrite lookup_restack.
  destruct (stacks st !! u) as [[]|]; simplify_eq/=. by case_decide.
Qed.

Lemma wp_sub_hdrs (l : list msg_msg) st0 :
  wp (for_each l tt (fun _ _ =>
        modify (fun st => st <| percpu_msg_hdrs ::= fun c => percpu_counter_sub_local c 1 |>) ;;;
        ret (Continue tt)))
    (fun _ st' => st' = st0 <| percpu_msg_hdrs ::= sub_hdrs (length l) |>) st0.
Proof.
  apply (wp_for_each (fun pre _ st' =>
    st' = st0 <| percpu_msg_hdrs ::= sub_hdrs (length pre) |>)); [by destruct st0| |done].
  intros pre x post [] st' _ ->. apply wp_bind, wp_mod, wp_ret. rewrite length_app. simpl.
  by rewrite Nat.add_1_r.
Qed.

Lemma wp_freeque : wp (freeque q) (fun _ st' => st' = freed q msq st) st.
Proof.
  destruct freed_refs as [Hrange _]. unfold freed.
  destruct (ipc_rmid (msg_ids st) q (q_perm msq)) as [ids perm] eqn:E.
  destruct (rmid_spec _ _ _ _ _ E) as (_ & Href & _).
  apply wp_bind. eapply wp_mono; [apply (wp_expunge_all q _ msq); [done|by apply (live_receivers_ok st Hinv q)]|].
  intros wq st' [-> ->]. apply wp_bind. eapply wp_mono.
  { apply (wp_ss_kill q msq); [done|apply answered_senders_ok]. }
  intros wq st' [-> ->]. apply wp_bind, wp_bind. eapply wp_get_msq; [done|].
  apply wp_bind, wp_gets.
  match goal with |- context [ipc_rmid ?x] => change x with (msg_ids st) end. rewrite E.
  apply wp_bind, wp_mod. eapply wp_upd_msq; [done|]. apply wp_bind, wp_mod, wp_bind.
  eapply wp_get_msq; [rec_simpl; apply lookup_insert_eq|].
  apply wp_bind. eapply wp_mono; [apply wp_sub_hdrs|]. intros [] st' ->.
  apply wp_bind, wp_mod, wp_bind. eapply wp_upd_msq; [rec_simpl; apply lookup_insert_eq|].
  eapply wp_mono.
  { apply wp_msq_putref; [done|rec_simpl; apply lookup_insert_eq|]. rec_simpl. lia. }
  intros _ st' ->. unfold putref. rec_simpl. rewrite Href.
  apply msg_ns_ext; rec_simpl; try done.
  - by rewrite !insert_insert_eq.
  - f_equal. destruct (_ =? _); [|done]. f_equal. by apply (rcu_readers_shut msq).
Qed.
End free.
End msg_remove.
