(* ===== verification/MsgReach.v ===== *)
(** * System V message queues: the other operations keep the invariant

    IPC_SET, IPC_RMID and the reports of [msgctl], creating a queue, freeing its
    memory after the grace period, setting up and leaving a namespace. *)

From S2P Require Import Prelude.
From S2P Require Import MsgTypes.
From S2P Require Import MsgOps.
From S2P Require Import MsgCtl.
From S2P Require Import MsgLoops.
From S2P Require Import MsgInv.
From S2P Require Import MsgSend.
From S2P Require Import MsgSndCall.
From S2P Require Import MsgRecv.
From S2P Require Import MsgRemove.

Section msg_ctl_inv.
Context `{I : Ipc} {U : IpcUser} (IL : IpcLaws I).

(** ** IPC_SET *)

Definition with_limit (p : kern_ipc_perm) (qbytes now : Z) (msq : msg_queue) : msg_queue :=
  msq <| q_perm := p |> <| q_qbytes := u64 qbytes |> <| q_ctime := now |>.

Definition limit_set (q : qptr) (p : kern_ipc_perm) (qbytes now : Z) (msq : msg_queue) (st : msg_ns)
    : msg_ns :=
  let msq1 := with_limit p qbytes now msq in
  st <| queues ::= <[q := with_senders msq1 (wake_order msq1 st)]> |>
     <| woken ::= fun w => w ∪ list_to_set (q_receivers msq ++ fitting msq1 st) |>.

Section set.
Context (q : qptr) (msq : msg_queue) (st : msg_ns) (perm : ipc64_perm) (p : kern_ipc_perm)
  (qbytes now : Z).
Context (Hinv : msg_inv st) (Hq : queues st !! q = Some msq) (Hd : deleted msq = false)
  (Hp : ipc_update_perm perm (q_perm msq) = inr p).

Abbreviation msq1 := (with_limit p qbytes now msq).

(** The receivers hold -EAGAIN already. *)
Lemma expunge_again :
  restack (q_receivers msq) (answer (inl (- EAGAIN))) (stacks st) = stacks st.
Proof.
  apply map_eq. intros u. rewrite lookup_restack. destruct (stacks st !! u) as [fr|] eqn:Hu; [|done].
  simpl. f_equal. case_decide as Hin; [|done].
  apply (li_rcv _ _ _ _ (live_queue st Hinv q msq Hq Hd)) in Hin as (fr' & msr & Hfr & _ & Hr & Hw).
  rewrite Hu in Hfr. injection Hfr as <-. unfold answer. rewrite Hr.
  destruct fr as [|q0 a0 msr0|q0 a0 msr0|]; [done| | |done]; simpl in *; injection Hr as ->;
    destruct msr; simpl in *; by subst.
Qed.

Lemma wp_set_limit :
  wp (upd_msq q (fun msq =>
        msq <| q_perm := p |> <| q_qbytes := u64 qbytes |> <| q_ctime := now |>) ;;;
      let* wake_q := expunge_all q (- EAGAIN) [] in
      let* wake_q := ss_wakeup q wake_q false in
      wake_up_q wake_q ;;;
      ret 0)
    (fun o st' => (o, st') = (0, limit_set q p qbytes now msq st)) st.
Proof.
  apply wp_bind. eapply wp_upd_msq; [done|]. apply wp_bind. eapply wp_mono.
  { apply (wp_expunge_all q _ msq1); [rec_simpl; apply lookup_insert_eq|].
    apply (live_receivers_ok st Hinv q msq Hq Hd). }
  intros wq st' [-> ->].
  match goal with |- wp _ _ ?x =>
    assert (x = st <| queues ::= <[q := msq1]> |>) as -> end.
  { apply msg_ns_ext; try done. apply expunge_again. }
  apply wp_bind. eapply wp_mono.
  { apply (wp_ss_wakeup q msq1); [rec_simpl; apply lookup_insert_eq|].
    apply (live_senders_ok st Hinv q msq Hq Hd). }
  intros wq st' [-> ->]. apply wp_bind, wp_mod, wp_ret. f_equal. apply msg_ns_ext; try done.
  unfold resend, limit_set. rec_simpl. apply insert_insert_eq.
Qed.

Lemma live_limit_set :
  live_inv q (with_senders msq1 (wake_order msq1 st)) (stacks st)
    (woken st ∪ list_to_set (q_receivers msq ++ fitting msq1 st)).
Proof.
  pose proof (live_queue st Hinv q msq Hq Hd) as Hl.
  apply (live_rewake q msq _ _ (woken st)); [done|apply (wake_order_perm msq1)|done| |].
  - intros u m n g s Hu Hf. apply elem_of_union_r, elem_of_list_to_set, elem_of_app. right.
    by apply (fitting_in q msq msq1 st u m n g s).
  - intros u fr msr Hu Hw Hnw. exfalso. apply Hnw.
    apply elem_of_union_r, elem_of_list_to_set, elem_of_app. left.
    apply (li_rcv _ _ _ _ Hl). eauto.
Qed.

Lemma limit_set_inv : msg_inv (limit_set q p qbytes now msq st).
Proof.
  destruct (update_perm_spec _ _ _ Hp) as [Ed Er].
  destruct (mi_queue _ Hinv q msq Hq) as [H1 H2 H3 H4 H5 H6 H7 H8 H9].
  eapply (msg_inv_same q msq); [done|done| |done|exact Ed|done|done| | |by split].
  - apply elsewhere_queue; unfold limit_set; rec_simpl; [|done|set_solver|done].
    intros. by rewrite lookup_insert_ne.
  - split; unfold with_senders, with_limit, deleted; rec_simpl; rewrite ?Ed, ?Er;
      fold (deleted msq); try done.
    + apply Z.mod_pos_bound. lia.
    + intros _. apply live_limit_set.
  - intros u fr Hu _. by apply Hinv.
Qed.
End set.

(** ** msgctl_down *)

(** What [msgctl_down] does in the state [st]. *)
Definition down_spec (msqid cmd : Z) (perm : option ipc64_perm) (qbytes : Z) (cap : bool)
    (now : Z) (st : msg_ns) : Z * msg_ns :=
  match ipcctl_obtain_check (msg_ids st) msqid cmd perm qbytes with
  | inl err => (err, st)
  | inr q =>
      match queues st !! q with
      | None => (0, st)
      | Some msq =>
          let err := security_msg_queue_msgctl (Some (q_perm msq)) cmd in
          if negb (err =? 0) then (err, st)
          else if cmd =? IPC_RMID then (0, freed q msq st)
          else if cmd =? IPC_SET then
            if (msg_ctlmnb st <? u32 qbytes) && negb cap then (- EPERM, st)
            else
              match (fun perm => ipc_update_perm perm (q_perm msq)) <$> perm with
              | Some (inr p) => (0, limit_set q p qbytes now msq st)
              | Some (inl err) => (err, st)
              | None => (0, st)
              end
          else (- EINVAL, st)
      end
  end.

Section down.
Context (msqid cmd : Z) (perm : option ipc64_perm) (qbytes : Z) (cap : bool) (now : Z)
  (st : msg_ns).
Context (Hinv : msg_inv st) (Hroom : room st) (Hset : cmd = IPC_SET -> is_Some perm).

Lemma wp_msgctl_down :
  wp (msgctl_down msqid cmd perm qbytes cap now)
    (fun r st' => (r, st') = down_spec msqid cmd perm qbytes cap now st) st.
Proof.
  unfold msgctl_down, down_spec. apply wp_bind, wp_gets.
  destruct (ipcctl_obtain_check _ _ _ _ _) as [e|q] eqn:E; [by apply wp_ret|].
  apply ctl_obtain_mem in E. destruct (ids_queue st Hinv q E) as (msq & Hq & Hd).
  apply wp_bind. eapply wp_get_msq; [done|]. rewrite Hq. cbv zeta.
  destruct (negb _); [by apply wp_ret|]. destruct (cmd =? IPC_RMID).
  { apply wp_bind. eapply wp_mono; [by apply (wp_freeque IL q msq)|]. intros _ st' ->.
    by apply wp_ret. }
  destruct (Z.eqb_spec cmd IPC_SET) as [Ec|]; [|by apply wp_ret].
  destruct (Hset Ec) as [perm' ->]. simpl. apply wp_bind, wp_gets.
  destruct (_ && _); [by apply wp_ret|]. apply wp_bind. eapply wp_get_msq; [done|].
  destruct (ipc_update_perm perm' (q_perm msq)) as [e|p]; [by apply wp_ret|].
  by apply wp_set_limit.
Qed.

Lemma down_spec_inv : msg_inv (down_spec msqid cmd perm qbytes cap now st).2.
Proof.
  unfold down_spec. destruct (ipcctl_obtain_check _ _ _ _ _) as [e|q] eqn:E; [done|].
  apply ctl_obtain_mem in E. destruct (ids_queue st Hinv q E) as (msq & Hq & Hd).
  rewrite Hq. cbv zeta. destruct (negb _); [done|].
  destruct (cmd =? IPC_RMID); [by apply freed_inv|].
  destruct (Z.eqb_spec cmd IPC_SET) as [Ec|]; [|done].
  destruct (Hset Ec) as [perm' ->]. simpl. destruct (_ && _); [done|].
  destruct (ipc_update_perm perm' (q_perm msq)) as [e|p] eqn:Hp; [done|].
  by eapply limit_set_inv.
Qed.

Lemma wp_msgctl_down_inv : wp (msgctl_down msqid cmd perm qbytes cap now) (fun _ => msg_inv) st.
Proof. eapply wp_spec_inv; [apply wp_msgctl_down|apply down_spec_inv]. Qed.
End down.

(** ** msgctl *)

Lemma wp_msgctl_info cmd st : wp (msgctl_info cmd) (fun _ st' => st' = st) st.
Proof.
  unfold msgctl_info. destruct (negb _); [by apply wp_ret|]. apply wp_bind.
  by apply (wp_run _ _ _ st st), wp_ret.
Qed.

(** A report reads a queue that exists, and changes nothing. *)
Lemma wp_msgctl_stat t msqid cmd st :
  msg_inv st -> wp (msgctl_stat t msqid cmd) (fun _ st' => st' = st) st.
Proof.
  intros Hinv. unfold msgctl_stat. apply wp_bind, wp_gets.
  set (r := if (cmd =? MSG_STAT) || (cmd =? MSG_STAT_ANY) then _ else _).
  assert (forall q, r = inr q -> ids_mem (msg_ids st) q) as Hr.
  { intros q. unfold r. destruct (_ || _); [apply obtain_idr_mem|apply obtain_check_mem]. }
  destruct r as [e|q]; [by apply wp_ret|].
  destruct (ids_queue st Hinv q (Hr q eq_refl)) as (msq & Hq & _).
  apply wp_bind. eapply wp_get_msq; [done|].
  destruct (_ && _); [by apply wp_ret|]. destruct (negb _); [by apply wp_ret|].
  destruct (negb _); by apply wp_ret.
Qed.

Lemma wp_ret_inv {A B} (m : M msg_ns A) (f : A -> B) st :
  wp m (fun _ => msg_inv) st -> wp (let* r := m in ret (f r)) (fun _ => msg_inv) st.
Proof. intros Hwp. apply wp_bind. eapply wp_mono; [exact Hwp|]. intros. by apply wp_ret. Qed.

Lemma wp_report_inv {A B} (m : M msg_ns (Z * A)) (f : Z -> A -> B) st :
  msg_inv st -> wp m (fun _ st' => st' = st) st ->
  wp (let* '(err, i) := m in ret (f err i)) (fun _ => msg_inv) st.
Proof.
  intros Hinv Hwp. apply wp_bind. eapply wp_mono; [exact Hwp|]. intros [e i] st' ->.
  by apply wp_ret.
Qed.

Lemma wp_ksys_msgctl_inv t msqid cmd buf version cap now st :
  msg_inv st -> room st ->
  wp (ksys_msgctl t msqid cmd buf version cap now) (fun _ => msg_inv) st.
Proof.
  intros Hinv Hroom. unfold ksys_msgctl. destruct (_ || _); [by apply wp_ret|].
  destruct (_ || _); [apply wp_report_inv, wp_msgctl_info; done|].
  destruct (_ || _); [apply wp_report_inv, wp_msgctl_stat; done|].
  destruct (Z.eqb_spec cmd IPC_SET).
  - destruct (copy_msqid_from_user _ _); [by apply wp_ret|].
    apply (wp_ret_inv _ (fun r => (r, None))), wp_msgctl_down_inv; [done|done|eauto].
  - destruct (_ =? _); [|by apply wp_ret].
    by apply (wp_ret_inv _ (fun r => (r, None))), wp_msgctl_down_inv.
Qed.

Lemma wp_compat_ksys_msgctl_inv t msqid cmd buf version cap now st :
  msg_inv st -> room st ->
  wp (compat_ksys_msgctl t msqid cmd buf version cap now) (fun _ => msg_inv) st.
Proof.
  intros Hinv Hroom. unfold compat_ksys_msgctl. cbv zeta. destruct (_ || _); [by apply wp_ret|].
  destruct (_ || _); [apply wp_report_inv, wp_msgctl_info; done|].
  destruct (_ || _); [apply wp_report_inv, wp_msgctl_stat; done|].
  destruct (_ =? _).
  - destruct (copy_compat_msqid_from_user _ _); [by apply wp_ret|].
    apply (wp_ret_inv _ (fun r => (r, None))), wp_msgctl_down_inv; [done|done|eauto].
  - destruct (Z.eqb_spec (clrf cmd IPC_64) IPC_RMID) as [E|]; [|by apply wp_ret].
    apply (wp_ret_inv _ (fun r => (r, None))), wp_msgctl_down_inv; [done|done|].
    intros ->. by destruct rmid_not_set.
Qed.

(** ** Creating a queue *)

Lemma snd_count_zero q S :
  (forall t fr, S !! t = Some fr -> snd_on q fr = false) -> snd_count q S = 0.
Proof.
  intros HS. unfold snd_count. rewrite (proj2 (map_size_empty_iff _)); [done|].
  apply map_empty. intros t. apply map_lookup_filter_None. right. intros fr Ht. simpl.
  rewrite (HS t fr Ht). done.
Qed.

(** No task will use a queue that is not there. *)
Lemma absent_frames st q t fr :
  msg_inv st -> queues st !! q = None -> stacks st !! t = Some fr ->
  snd_on q fr = false /\ forall msr, ~ waits_on q fr msr.
Proof.
  intros Hinv Hq Ht. pose proof (mi_needs _ Hinv t fr Ht) as Hn. split.
  - destruct fr as [q' m n g s| | |]; try done. apply bool_decide_eq_false. intros ->.
    destruct Hn as [? ?]; [done|]. simpl in *. congruence.
  - intros msr (Eq & Er & Hw). rewrite Eq in Hn. destruct Hn as [? ?]; [|congruence].
    destruct fr; simplify_eq/=; done.
Qed.

Definition new_queue (perm : kern_ipc_perm) (now mnb : Z) : msg_queue :=
  MsgQueue perm 0 0 now 0 0 mnb None None [] [] [].

Definition added (q : qptr) (ids : ipc_ids) (perm : kern_ipc_perm) (now : Z) (st : msg_ns) : msg_ns :=
  st <| msg_ids := ids |> <| queues ::= <[q := new_queue perm now (msg_ctlmnb st)]> |>.

Lemma added_queue_inv st q ids perm now :
  msg_inv st -> queues st !! q = None -> ipc_deleted perm = false -> ipc_refcount perm = 1 ->
  queue_inv q (new_queue perm now (msg_ctlmnb st)) (added q ids perm now st).
Proof.
  intros Hinv Hq Hd Hr. pose proof (mi_ctlmnb _ Hinv).
  pose proof (fun t fr => absent_frames st q t fr Hinv Hq) as Ha.
  assert (rcu_cbs st !! q = None) as Hcb.
  { destruct (rcu_cbs st !! q) eqn:E; [|done].
    apply (mi_cbs _ Hinv) in E as [? ?]. congruence. }
  split; unfold new_queue, added, deleted; rec_simpl; simpl; try done; try lia.
  - rewrite Hd, Hr, snd_count_zero; [done|]. intros t fr Ht. by apply (Ha t fr).
  - rewrite Hcb, Hr. split; [by intros [? ?]|done].
  - congruence.
  - congruence.
  - intros _. split; simpl; try done.
    + constructor.
    + constructor.
    + intros t. split; [intros Ht; by apply not_elem_of_nil in Ht|]. intros (fr & Ht & Hon).
      destruct (Ha t fr Ht). congruence.
    + intros t m n g s Ht. destruct (Ha t _ Ht) as [Hon _]. by apply bool_decide_eq_false in Hon.
    + intros t. split; [intros Ht; by apply not_elem_of_nil in Ht|]. intros (fr & msr & Ht & Hw).
      by destruct (proj2 (Ha t fr Ht) msr).
    + intros t m n g s Ht. destruct (Ha t _ Ht) as [Hon _]. by apply bool_decide_eq_false in Hon.
    + intros t fr msr _ _ _ m Hm. by apply not_elem_of_nil in Hm.
Qed.

Lemma added_inv st q ids perm now mni p id :
  msg_inv st -> queues st !! q = None ->
  ipc_addid (msg_ids st) q p mni = inr (id, ids, perm) -> msg_inv (added q ids perm now st).
Proof.
  intros Hinv Hq E. destruct (addid_spec _ _ _ _ _ _ _ E) as (_ & _ & Hd & Hr & _ & Hids).
  assert (elsewhere q st (added q ids perm now st)) as He.
  { apply elsewhere_queue; unfold added; rec_simpl; [|done|done|done].
    intros. by rewrite lookup_insert_ne. }
  split; try apply Hinv.
  - intros q0 msq0. unfold added at 1. rec_simpl. rewrite lookup_insert.
    destruct (decide (q = q0)) as [<-|]; [intros [= <-]; by apply added_queue_inv|].
    intros Hq0. eapply queue_inv_elsewhere; [done|done|by apply Hinv].
  - unfold added. rec_simpl. intros t fr Ht Hn. rewrite lookup_insert.
    destruct (decide (q = _)); [eauto|]. by eapply mi_needs.
  - unfold added. rec_simpl. intros x. rewrite Hids, (mi_ids _ Hinv), lookup_insert.
    destruct (decide (q = x)) as [<-|]; [|naive_solver].
    split; [|by left]. intros _. eexists. split; [done|]. exact Hd.
  - unfold added. rec_simpl. intros x R HR. rewrite lookup_insert.
    destruct (decide (q = x)); [eauto|]. by eapply mi_cbs.
  - unfold added. rec_simpl. rewrite total_fresh by done.
    unfold weight, deleted, new_queue. simpl. rewrite Hd. apply Hinv.
  - unfold added. rec_simpl. rewrite total_fresh by done.
    unfold weight, deleted, new_queue. simpl. rewrite Hd. apply Hinv.
Qed.

(** [mem] is memory that no queue of the namespace uses. *)
Lemma wp_ksys_msgget_inv key msgflg mem now st :
  msg_inv st -> (forall q, mem = Some q -> queues st !! q = None) ->
  wp (ksys_msgget key msgflg mem now) (fun _ => msg_inv) st.
Proof.
  intros Hinv Hmem. apply wp_bind, wp_gets. destruct (ipcget_found _ _ _); [by apply wp_ret|].
  unfold newque. destruct mem as [q|]; [|by apply wp_ret]. cbv zeta.
  destruct (negb _); [by apply wp_ret|].
  apply wp_bind, wp_gets, wp_bind, wp_gets, wp_bind, wp_gets.
  destruct (ipc_addid _ _ _ _) as [e|[[id ids] perm]] eqn:E; [by apply wp_ret|].
  apply wp_bind, wp_mod, wp_ret. eapply added_inv; [done|by apply Hmem|done].
Qed.

(** ** Freeing a queue *)

Definition released (q : qptr) (st : msg_ns) : msg_ns :=
  st <| queues ::= delete q |> <| rcu_cbs ::= delete q |>.

(** When no reader is left, no task will use the queue. *)
Lemma grace_frames st q msq t fr :
  msg_inv st -> queues st !! q = Some msq -> rcu_cbs st !! q = Some ∅ ->
  stacks st !! t = Some fr -> needs_queue fr -> frame_queue fr <> q.
Proof.
  intros Hinv Hq Hcb Ht Hn E. destruct (mi_queue _ Hinv q msq Hq) as [_ _ _ _ H5 H6 H7 H8 _].
  pose proof (proj1 H6 ltac:(eauto)) as Hr. pose proof (snd_count_size q (stacks st)).
  assert (deleted msq = true) as Hd by (destruct (deleted msq); [done|lia]).
  destruct fr as [q' m n g s|q' a msr|q' a msr|q' c]; simpl in E, Hn; subst q'.
  - assert (0 < snd_count q (stacks st)) by (eapply snd_count_pos; [done|by apply bool_decide_eq_true]).
    rewrite Hd in H5. lia.
  - by eapply (H8 Hd t _ msr Ht).
  - pose proof (H7 _ _ _ Hcb Ht eq_refl eq_refl). set_solver.
  - pose proof (H7 _ _ _ Hcb Ht eq_refl eq_refl). set_solver.
Qed.

Lemma released_inv st q :
  msg_inv st -> rcu_cbs st !! q = Some ∅ -> msg_inv (released q st).
Proof.
  intros Hinv Hcb. destruct (mi_cbs _ Hinv q ∅ Hcb) as [msq Hq].
  destruct (mi_queue _ Hinv q msq Hq) as [_ _ _ _ H5 H6 _ _ _].
  pose proof (proj1 H6 ltac:(eauto)) as Hr. pose proof (snd_count_size q (stacks st)).
  assert (deleted msq = true) as Hd by (destruct (deleted msq); [done|lia]).
  assert (elsewhere q st (released q st)) as He.
  { split; unfold released; rec_simpl; try done.
    - intros. by rewrite lookup_delete_ne.
    - intros. by rewrite lookup_delete_ne.
    - intros q' R R' t fr Hne HR HR'. rewrite lookup_delete_ne in HR' by done. by simplify_eq. }
  split; try apply Hinv.
  - intros q0 msq0. unfold released at 1. rec_simpl. intros [Hne Hq0]%lookup_delete_Some.
    eapply queue_inv_elsewhere; [done|done|by apply Hinv].
  - unfold released. rec_simpl. intros t fr Ht Hn. rewrite lookup_delete_ne; [by eapply mi_needs|].
    intros E. by eapply (grace_frames st q msq t fr).
  - unfold released. rec_simpl. intros x. rewrite (mi_ids _ Hinv), lookup_delete.
    destruct (decide (q = x)) as [<-|]; [|done]. rewrite Hq. split; [|naive_solver].
    intros (m & [= <-] & ?). congruence.
  - unfold released. rec_simpl. intros x R [Hne HR]%lookup_delete_Some.
    rewrite lookup_delete_ne by done. by eapply mi_cbs.
  - unfold released. rec_simpl. rewrite (mi_bytes _ Hinv), (total_delete _ _ _ _ Hq).
    unfold weight. by rewrite Hd.
  - unfold released. rec_simpl. rewrite (mi_hdrs _ Hinv), (total_delete _ _ _ _ Hq).
    unfold weight. by rewrite Hd.
Qed.

(** ** Namespaces *)

Lemma room_freed q msq st : queues st !! q = Some msq -> room st -> room (freed q msq st).
Proof.
  intros Hq [Hm Hs]. unfold freed. destruct (ipc_rmid _ _ _) as [ids perm]. split; rec_simpl.
  - intros q' msq'. rewrite lookup_insert. destruct (decide (q = q')) as [<-|]; [|apply Hm].
    intros [= <-]. by apply (Hm q msq).
  - rewrite <-(size_dom (D := gset task)). replace (dom (shut msq (stacks st))) with
      (dom (stacks st)); [by rewrite size_dom|]. apply set_eq. intros u.
    by rewrite !elem_of_dom, lookup_shut, fmap_is_Some.
Qed.

(** [msg_exit_ns] removes every queue. *)
Lemma wp_msg_exit_ns st :
  msg_inv st -> room st ->
  wp msg_exit_ns (fun _ st' => msg_inv st' /\ forall q, ~ ids_mem (msg_ids st') q) st.
Proof.
  intros Hinv Hroom. apply wp_bind, wp_gets. destruct (free_ipcs_spec (msg_ids st)) as [Hnd Hmem].
  apply (wp_for_each (fun pre _ st' => msg_inv st' /\ room st' /\
    forall q, ids_mem (msg_ids st') q <-> (q ∉ pre) /\ ids_mem (msg_ids st) q)).
  - split; [done|]. split; [done|]. intros q. split; [|naive_solver].
    intros Hq. split; [apply not_elem_of_nil|done].
  - intros pre q post [] st' Hl (Hi & Hr & Hids).
    assert (ids_mem (msg_ids st') q) as Hq.
    { apply Hids. rewrite Hl in Hnd. apply NoDup_app in Hnd as (_ & Hd & _). split.
      - intros Hin. apply (Hd q Hin). set_solver.
      - apply Hmem. rewrite Hl. set_solver. }
    destruct (ids_queue st' Hi q Hq) as (msq & Hmsq & Hd).
    apply wp_bind. eapply wp_mono; [by apply (wp_freeque IL q msq)|]. intros _ st2 ->.
    apply wp_ret. split; [by apply freed_inv|]. split; [by apply room_freed|].
    intros x. unfold freed. destruct (ipc_rmid _ _ _) as [ids perm] eqn:E. rec_simpl.
    destruct (rmid_spec _ _ _ _ _ E) as (_ & _ & Hx). rewrite Hx, Hids. set_solver.
  - intros [] st' (Hi & _ & Hids). split; [done|]. intros q Hq. apply Hids in Hq as [Hn Hq].
    by apply Hn, Hmem.
Qed.

(** A namespace before [msg_init_ns]: nothing is there. *)
Definition empty_ns (st : msg_ns) : Prop :=
  queues st = ∅ /\ stacks st = ∅ /\ rcu_cbs st = ∅.

Lemma wp_msg_init_ns st :
  empty_ns st ->
  wp (msg_init_ns 0 0) (fun r st' => r = 0 /\ msg_inv st' /\ room st' /\ empty_ns st') st.
Proof.
  intros (EQ & ES & EC). destruct msg_limits as [Hmax Hmnb].
  apply wp_bind, wp_mod, wp_bind, wp_mod, wp_bind, wp_mod, wp_ret. split; [done|]. split.
  - split; rec_simpl; rewrite ?EQ, ?ES, ?EC; try done.
    + intros q. rewrite lookup_empty. split; [intros Hq; by apply init_ids_empty in Hq|naive_solver].
    + by rewrite total_empty, percpu_init_sum.
    + by rewrite total_empty, percpu_init_sum.
  - split; [|done]. split; rec_simpl; rewrite ?EQ, ?ES; [|done].
    intros q msq. by rewrite lookup_empty.
Qed.

(** A namespace whose identifiers are all gone counts no bytes and no messages. *)
Lemma no_ids_total f st :
  msg_inv st -> (forall q, ~ ids_mem (msg_ids st) q) -> total f (queues st) = 0.
Proof.
  intros Hinv Hids.
  assert (forall q msq, queues st !! q = Some msq -> deleted msq = true) as Hdel.
  { intros q msq Hq. destruct (deleted msq) eqn:E; [done|]. exfalso. apply (Hids q).
    apply (mi_ids _ Hinv). eauto. }
  revert Hdel. unfold total. clear Hinv Hids. generalize (queues st). intros Q.
  induction Q as [|q msq Q Hq Hfst IH] using map_first_key_ind; intros Hdel.
  { by rewrite map_fold_empty. }
  rewrite map_fold_insert_L; [|intros; lia|done]. rewrite IH.
  - unfold weight. by rewrite (Hdel q) by apply lookup_insert_eq.
  - intros q' msq' Hq'. apply (Hdel q'). rewrite lookup_insert_ne; [done|]. naive_solver.
Qed.
End msg_ctl_inv.

(** * System V message queues: the reachable states of a namespace

    Tasks call [msgget], [msgsnd], [msgrcv] and [msgctl], natively or as 32-bit
    programs; tasks that have found a queue take its lock, possibly after it was removed;
    sleeping tasks wake up, for whatever reason; queues are freed when the
    grace period has passed; the limits are changed by sysctl.  The steps may come in
    any order. *)

From S2P Require Import MsgRcvCall.

Section msg_reach.
Context `{I : Ipc} {U : IpcUser}.

Inductive msg_op :=
  | OpMsgget (key msgflg : Z) (mem : option qptr) (now : Z)
  | OpMsgsnd (compat : bool) (t : task) (msqid : Z) (msgp : ubuf) (msgsz msgflg : Z)
  | OpSndLock (t : task) (now : Z)
  | OpSndWake (t : task) (sig : bool) (now : Z)
  | OpMsgrcv (compat : bool) (t : task) (msqid : Z) (msgp : ubuf) (msgsz msgtyp msgflg : Z)
  | OpRcvLock (t : task) (now : Z)
  | OpRcvWake (t : task)
  | OpRcvRetry (t : task) (sig : bool)
  | OpMsgctl (compat : bool) (t : task) (msqid cmd : Z) (buf : ubuf) (version : Z) (cap : bool)
      (now : Z)
  | OpRcuFree (q : qptr)
  | OpSysctl (ctlmax ctlmnb ctlmni : Z).

Definition ignore {A} (m : M msg_ns A) : M msg_ns unit := let* _ := m in ret tt.

Definition msg_run (op : msg_op) : M msg_ns unit :=
  match op with
  | OpMsgget key msgflg mem now => ignore (ksys_msgget key msgflg mem now)
  | OpMsgsnd compat t msqid msgp msgsz msgflg =>
      ignore ((if compat then compat_ksys_msgsnd else ksys_msgsnd) t msqid msgp msgsz msgflg)
  | OpSndLock t now => ignore (msgsnd_lock t now)
  | OpSndWake t sig now => ignore (msgsnd_resume t sig now)
  | OpMsgrcv compat t msqid msgp msgsz msgtyp msgflg =>
      ignore ((if compat then compat_ksys_msgrcv else ksys_msgrcv)
        t msqid msgp msgsz msgtyp msgflg)
  | OpRcvLock t now => ignore (msgrcv_lock t now)
  | OpRcvWake t => ignore (msgrcv_wake t)
  | OpRcvRetry t sig => ignore (msgrcv_locked t sig)
  | OpMsgctl compat t msqid cmd buf version cap now =>
      ignore ((if compat then compat_ksys_msgctl else ksys_msgctl)
        t msqid cmd buf version cap now)
  | OpRcuFree q => msg_rcu_free q
  | OpSysctl ctlmax ctlmnb ctlmni =>
      modify (fun st => st <| msg_ctlmax := ctlmax |> <| msg_ctlmnb := ctlmnb |>
                           <| msg_ctlmni := ctlmni |>)
  end.

(** The steps that can be taken.  A task inside a call makes no other; memory that is
    handed out is not in use; [msg_rcu_free] runs when no reader is left. *)
Definition msg_allowed (st : msg_ns) (op : msg_op) : Prop :=
  match op with
  | OpMsgget _ _ mem _ => forall q, mem = Some q -> queues st !! q = None
  | OpMsgsnd _ t _ _ msgsz _ => stacks st !! t = None /\ 0 <= msgsz < 2 ^ 64
  | OpSndLock t _ => exists q m n g, stacks st !! t = Some (Locking q (ForSnd m n g))
  | OpSndWake t _ _ => exists q m n g s, stacks st !! t = Some (SndFrame q m n g s)
  | OpMsgrcv _ t _ _ msgsz _ _ => stacks st !! t = None /\ 0 <= msgsz < 2 ^ 64
  | OpRcvLock t _ => exists q a, stacks st !! t = Some (Locking q (ForRcv a))
  | OpRcvWake t => exists q a msr, stacks st !! t = Some (RcvFrame q a msr)
  | OpRcvRetry t _ => exists q a msr, stacks st !! t = Some (RcvRetry q a msr)
  | OpMsgctl _ _ _ _ _ _ _ _ => True
  | OpRcuFree q => rcu_cbs st !! q = Some ∅
  | OpSysctl ctlmax ctlmnb _ => 0 <= ctlmax < 2 ^ 31 /\ 0 <= ctlmnb < 2 ^ 31
  end.

Inductive msg_reachable : msg_ns -> Prop :=
  | msg_reach_init st r st' :
      empty_ns st -> msg_init_ns 0 0 st = Ok (r, st') -> msg_reachable st'
  | msg_reach_step st op r st' :
      msg_reachable st -> room st -> msg_allowed st op -> msg_run op st = Ok (r, st') ->
      msg_reachable st'.

Context (IL : IpcLaws I).

Lemma wp_ignore {A} (m : M msg_ns A) Q st :
  wp m (fun _ => Q) st -> wp (ignore m) (fun _ => Q) st.
Proof. intros Hwp. apply wp_bind. eapply wp_mono; [exact Hwp|]. intros. by apply wp_ret. Qed.

Lemma wp_msgsnd_entry compat t msqid msgp msgsz msgflg st :
  msg_inv st -> stacks st !! t = None -> 0 <= msgsz < 2 ^ 64 ->
  wp ((if compat : bool then compat_ksys_msgsnd else ksys_msgsnd) t msqid msgp msgsz msgflg)
    (fun _ => msg_inv) st.
Proof.
  intros Hinv Ht Hsz. destruct compat.
  - unfold compat_ksys_msgsnd. destruct (user_compat_mtype msgp); [|by apply wp_ret].
    apply wp_do_msgsnd_inv; try done. apply u64_range.
  - unfold ksys_msgsnd. destruct (user_mtype msgp); [|by apply wp_ret].
    by apply wp_do_msgsnd_inv.
Qed.

Lemma wp_msgrcv_entry compat t msqid msgp msgsz msgtyp msgflg st :
  msg_inv st -> stacks st !! t = None -> 0 <= msgsz < 2 ^ 64 ->
  wp ((if compat : bool then compat_ksys_msgrcv else ksys_msgrcv)
        t msqid msgp msgsz msgtyp msgflg) (fun _ => msg_inv) st.
Proof.
  intros Hinv Ht Hsz. destruct compat.
  - apply wp_do_msgrcv_inv; try done. apply u64_range.
  - by apply wp_do_msgrcv_inv.
Qed.

(** Every step runs to its end and keeps the invariant. *)
Lemma wp_msg_run st op :
  msg_inv st -> room st -> msg_allowed st op -> wp (msg_run op) (fun _ => msg_inv) st.
Proof.
  intros Hinv Hroom. destruct op; simpl.
  - intros Hmem. by apply wp_ignore, wp_ksys_msgget_inv.
  - intros [Ht Hsz]. by apply wp_ignore, wp_msgsnd_entry.
  - intros (q & m & n & g & Ht). by eapply wp_ignore, wp_msgsnd_lock_inv.
  - intros (q & m & n & g & s & Ht). by eapply wp_ignore, wp_msgsnd_resume_inv.
  - intros [Ht Hsz]. by apply wp_ignore, wp_msgrcv_entry.
  - intros (q & a & Ht). by eapply wp_ignore, wp_msgrcv_lock_inv.
  - intros (q & a & msr & Ht). by eapply wp_ignore, wp_msgrcv_wake_inv.
  - intros (q & a & msr & Ht). by eapply wp_ignore, wp_msgrcv_locked_inv.
  - intros _. apply wp_ignore. destruct compat;
      [by apply wp_compat_ksys_msgctl_inv|by apply wp_ksys_msgctl_inv].
  - intros Hcb. apply wp_mod. by apply released_inv.
  - intros [H1 H2]. apply wp_mod. destruct Hinv as [? ? ? ? ? ? ? ? ?].
    split; rec_simpl; try done; try lia. intros q msq Hq. destruct (mi_queue q msq Hq). by split.
Qed.

Lemma msg_reachable_inv st : msg_reachable st -> msg_inv st.
Proof.
  induction 1 as [st r st' He Hrun|st op r st' Hreach IH Hroom Hal Hrun].
  - destruct (wp_inv _ _ _ (wp_msg_init_ns IL st He)) as (r' & st2 & E & _ & Hi & _). congruence.
  - destruct (wp_inv _ _ _ (wp_msg_run st op IH Hroom Hal)) as (r' & st2 & E & Hi). congruence.
Qed.
End msg_reach.
