(* ===== verification/MsgSample.v ===== *)
(** * System V message queues: an instance of the IPC core, and runs of it

    [LinuxIpc] gives the services of [Ipc] and [IpcUser] in the simplest way that has
    the documented behaviour, with the constants of Linux.  It shows that the laws can
    hold, and lets concrete runs be evaluated. *)

From S2P Require Import Prelude.
From S2P Require Import MsgTypes.
From S2P Require Import MsgOps.
From S2P Require Import MsgCtl.
From S2P Require Import MsgLoops.
From S2P Require Import MsgInv.
From S2P Require Import MsgSndCall.
From S2P Require Import MsgReach.

(** ** Identifiers: the next one, and the entries (identifier, key, queue) *)

Record id_table := IdTable { next_id : Z; entries : list (Z * Z * qptr) }.

Definition entry_id (e : Z * Z * qptr) : Z := e.1.1.
Definition entry_key (e : Z * Z * qptr) : Z := e.1.2.
Definition entry_queue (e : Z * Z * qptr) : qptr := e.2.

Definition find_id (ids : id_table) (id : Z) : Z + qptr :=
  match list_find (fun e => entry_id e = id) (entries ids) with
  | Some (_, e) => inr (entry_queue e)
  | None => inl (- 22)
  end.
Definition add_entry (ids : id_table) (q : qptr) (p : kern_ipc_perm) (n : Z)
    : Z + (Z * id_table * kern_ipc_perm) :=
  if n <=? Z.of_nat (length (entries ids)) then inl (- 28)
  else
    let id := Z.max 0 (next_id ids) in
    inr (id, IdTable (id + 1) ((id, ipc_key p, q) :: entries ids),
         p <| ipc_id := id |> <| ipc_refcount := 1 |> <| ipc_deleted := false |>).
Definition remove_entry (ids : id_table) (q : qptr) (p : kern_ipc_perm)
    : id_table * kern_ipc_perm :=
  (IdTable (next_id ids) (filter (fun e => entry_queue e <> q) (entries ids)),
   p <| ipc_deleted := true |>).
(** [ipcget]: 0 is IPC_PRIVATE and 512 is IPC_CREAT. *)
Definition find_key (ids : id_table) (key flg : Z) : option Z :=
  if key =? 0 then None
  else
    match list_find (fun e => entry_key e = key) (entries ids) with
    | Some (_, e) => Some (entry_id e)
    | None => if has flg 512 then None else Some (- 2)
    end.

#[export] Instance LinuxIpc : Ipc := {|
  EPERM := 1; EACCES := 13; EAGAIN := 11; EFAULT := 14; EINVAL := 22; ENOMEM := 12;
  E2BIG := 7; ENOMSG := 42; EIDRM := 43; ENOSYS := 38; ERESTARTNOHAND := 514;
  IPC_NOWAIT := 2048; MSG_NOERROR := 4096; MSG_EXCEPT := 8192; MSG_COPY := 16384;
  IPC_RMID := 0; IPC_SET := 1; IPC_STAT := 2; IPC_INFO := 3;
  MSG_STAT := 11; MSG_INFO := 12; MSG_STAT_ANY := 13;
  IPC_OLD := 0; IPC_64 := 256;
  S_IRWXUGO := 511; S_IRUGO := 292; S_IWUGO := 146;
  MSGMNI := 32000; MSGMAX := 8192; MSGMNB := 16384;
  MSGPOOL := 512000; MSGTQL := 16384; MSGMAP := 16384; MSGSSZ := 16; MSGSEG := 65535;
  CONFIG_CHECKPOINT_RESTORE := true;
  ubuf := list Z;
  load_msg := fun buf n =>
    if n <=? Z.of_nat (length buf) then inr (take (Z.to_nat n) buf) else inl (- 14);
  store_msg_fails := fun _ _ _ => false;
  put_user_fails := fun _ => false;
  copy_msg := fun src dst =>
    if m_ts dst <? m_ts src then inl (- 22) else inr src;
  ipcperms := fun _ _ _ => false;
  security_msg_queue_alloc := fun _ => 0;
  security_msg_queue_msgsnd := fun _ _ _ => 0;
  security_msg_queue_msgrcv := fun _ _ _ _ _ => 0;
  security_msg_queue_msgctl := fun _ _ => 0;
  ipc_update_perm := fun perm p =>
    inr (p <| ipc_uid := perm_uid perm |> <| ipc_gid := perm_gid perm |>
           <| ipc_mode := Z.land (perm_mode perm) 511 |>);
  kernel_to_ipc64_perm := fun p =>
    Ipc64Perm (ipc_key p) (ipc_uid p) (ipc_gid p) (ipc_cuid p) (ipc_cgid p) (ipc_mode p) 0;
  ipc_ids := id_table;
  ipc_init_ids := IdTable 0 [];
  ipc_addid := add_entry;
  ipc_rmid := remove_entry;
  ipc_obtain_object_idr := find_id;
  ipc_obtain_object_check := find_id;
  ipcctl_obtain_check := fun ids id _ _ _ => find_id ids id;
  ipcget_found := find_key;
  ipc_get_maxidx := fun ids => Z.of_nat (length (entries ids)) - 1;
  ipc_in_use := fun ids => Z.of_nat (length (entries ids));
  free_ipcs_order := fun ids => remove_dups (entry_queue <$> entries ids);
  ids_mem := fun ids q => q ∈ entry_queue <$> entries ids;
  ipc_rcu_getref := fun p =>
    if ipc_refcount p =? 0 then None else Some (p <| ipc_refcount ::= Z.succ |>);
  ipc_rcu_putref := fun p => (p <| ipc_refcount ::= Z.pred |>, ipc_refcount p =? 1);
  ipc_valid_object := fun p => negb (ipc_deleted p);
  percpu_counter := Z;
  percpu_counter_init := 0;
  percpu_counter_add_local := fun c x => s64 (c + x);
  percpu_counter_sub_local := fun c x => s64 (c - x);
  percpu_counter_sum := fun c => c;
  task_pid := Z.of_nat;
  task_tgid := Z.of_nat;
  pid_vnr := fun p => default 0 p
|}.

Lemma find_id_mem ids id q : find_id ids id = inr q -> q ∈ entry_queue <$> entries ids.
Proof.
  unfold find_id. destruct (list_find _ _) as [[i e]|] eqn:E; [|done]. intros [= <-].
  apply list_find_Some in E as (Hi & _ & _). apply list_elem_of_fmap_2.
  by eapply list_elem_of_lookup_2.
Qed.

#[export] Instance LinuxIpcLaws : IpcLaws LinuxIpc.
Proof.
  split; try done.
  - by repeat constructor.
  - intros p Hp. simpl. by rewrite Hp.
  - intros p Hp. simpl. destruct (Z.eqb_spec (ipc_refcount p) 0); [lia|done].
  - intros q Hq. by apply not_elem_of_nil in Hq.
  - intros ids q p n id ids' p' E. simpl in *. unfold add_entry in E.
    destruct (_ <=? _); [done|]. injection E as <- <- <-. split; [lia|].
    split; [done|]. split; [done|]. split; [done|]. split.
    + unfold find_id. simpl. by rewrite decide_True.
    + intros x. simpl. by rewrite elem_of_cons.
  - intros ids q p ids' p' [= <- <-]. split; [done|]. split; [done|]. intros x. simpl.
    rewrite !list_elem_of_fmap. split.
    + intros (e & -> & [He1 He2]%list_elem_of_filter). eauto.
    + intros (Hx & e & -> & He). exists e. split; [done|]. by apply list_elem_of_filter.
  - apply find_id_mem.
  - apply find_id_mem.
  - intros ids id cmd perm n q. apply find_id_mem.
  - intros ids. split; [apply NoDup_remove_dups|]. intros q. apply elem_of_remove_dups.
  - by intros perm p p' [= <-].
Qed.

(** ** User memory: a message is its type and its bytes, the argument of IPC_SET the
    user, the group, the mode and the limit (for old layouts also [msg_lqbytes]) *)

Definition user_perm (buf : list Z) : option ipc64_perm :=
  match buf with
  | uid :: gid :: mode :: _ => Some (Ipc64Perm 0 uid gid 0 0 mode 0)
  | _ => None
  end.

#[export] Instance LinuxIpcUser : @IpcUser LinuxIpc := {|
  copy_to_user_fails := fun _ => false;
  user_msqid64 := fun buf =>
    match user_perm buf, buf !! 3%nat with
    | Some p, Some n => Some (Msqid64Ds p 0 0 0 0 0 n 0 0)
    | _, _ => None
    end;
  user_msqid := fun buf =>
    match user_perm buf, buf !! 3%nat, buf !! 4%nat with
    | Some p, Some n, Some l => Some (MsqidDs p 0 0 0 0 l 0 0 n 0 0)
    | _, _, _ => None
    end;
  user_compat_ipc64_perm := user_perm;
  user_compat_ipc_perm := user_perm;
  user_compat_qbytes64 := fun buf => buf !! 3%nat;
  user_compat_qbytes := fun buf => buf !! 3%nat;
  user_mtype := head;
  user_compat_mtype := head;
  mtext_of := @tail Z;
  compat_mtext_of := @tail Z;
  ipc64_perm_to_ipc_perm := id;
  SET_UID := fun x => if 65535 <? x then 65534 else x;
  SET_GID := fun x => if 65535 <? x then 65534 else x
|}.

(** ** Runs *)

Definition linux_ns0 : msg_ns := MsgNs 0 0 0 0 0 (IdTable 0 []) ∅ ∅ ∅ ∅ [].
Definition linux_ns : msg_ns :=
  match msg_init_ns 0 0 linux_ns0 with Ok (_, st) => st | Err _ => linux_ns0 end.

Definition room_b (st : msg_ns) : bool :=
  bool_decide (map_Forall (fun (_ : qptr) msq => sum_ts (q_messages msq) < 2 ^ 62 /\
    Z.of_nat (length (q_messages msq)) < 2 ^ 62) (queues st)) &&
  (Z.of_nat (size (stacks st)) <? 2 ^ 30).

Definition allowed_b (st : msg_ns) (op : msg_op) : bool :=
  match op with
  | OpMsgget _ _ mem _ =>
      match mem ≫= fun q => queues st !! q with None => true | Some _ => false end
  | OpMsgsnd _ t _ _ n _ | OpMsgrcv _ t _ _ n _ _ =>
      match stacks st !! t with None => (0 <=? n) && (n <? 2 ^ 64) | Some _ => false end
  | OpSndLock t _ =>
      match stacks st !! t with Some (Locking _ (ForSnd _ _ _)) => true | _ => false end
  | OpRcvLock t _ =>
      match stacks st !! t with Some (Locking _ (ForRcv _)) => true | _ => false end
  | OpSndWake t _ _ =>
      match stacks st !! t with Some (SndFrame _ _ _ _ _) => true | _ => false end
  | OpRcvWake t => match stacks st !! t with Some (RcvFrame _ _ _) => true | _ => false end
  | OpRcvRetry t _ => match stacks st !! t with Some (RcvRetry _ _ _) => true | _ => false end
  | OpMsgctl _ _ _ _ _ _ _ _ => true
  | OpRcuFree q => bool_decide (rcu_cbs st !! q = Some ∅)
  | OpSysctl a b _ => (0 <=? a) && (a <? 2 ^ 31) && (0 <=? b) && (b <? 2 ^ 31)
  end.

(** The state after a list of steps, [None] if one of them cannot be taken. *)
Fixpoint msg_play (ops : list msg_op) (st : msg_ns) : option msg_ns :=
  match ops with
  | [] => Some st
  | op :: ops =>
      if room_b st && allowed_b st op then
        match msg_run op st with Ok (_, st') => msg_play ops st' | Err _ => None end
      else None
  end.

Lemma room_b_true st : room_b st = true -> room st.
Proof.
  unfold room_b. intros [H1%bool_decide_eq_true H2%Z.ltb_lt]%andb_true_iff. by split.
Qed.

Lemma allowed_b_true st op : allowed_b st op = true -> msg_allowed st op.
Proof.
  destruct op; simpl; intros H.
  - intros q ->. simpl in H. by destruct (queues st !! q).
  - destruct (stacks st !! t); [done|]. apply andb_true_iff in H. split; [done|lia].
  - destruct (stacks st !! t) as [[| | |q []]|]; try done. eauto 10.
  - destruct (stacks st !! t) as [[]|]; try done. eauto 10.
  - destruct (stacks st !! t); [done|]. apply andb_true_iff in H. split; [done|lia].
  - destruct (stacks st !! t) as [[| | |q []]|]; try done. eauto 10.
  - destruct (stacks st !! t) as [[]|]; try done. eauto.
  - destruct (stacks st !! t) as [[]|]; try done. eauto.
  - done.
  - by apply bool_decide_eq_true in H.
  - rewrite !andb_true_iff in H. lia.
Qed.

Lemma msg_play_reachable ops st st' :
  msg_reachable st -> msg_play ops st = Some st' -> msg_reachable st'.
Proof.
  revert st. induction ops as [|op ops IH]; intros st Hst; simpl; [by intros [= <-]|].
  destruct (room_b st) eqn:Hr; [|done]. destruct (allowed_b st op) eqn:Ha; [|done]. simpl.
  destruct (msg_run op st) as [[r st2]|] eqn:E; [|done]. apply IH.
  eapply msg_reach_step; [done|by apply room_b_true|by apply allowed_b_true|done].
Qed.

Lemma linux_ns_reachable : msg_reachable linux_ns.
Proof. by apply (msg_reach_init linux_ns0 0). Qed.

Definition sample_state (ops : list msg_op) : msg_ns := default linux_ns (msg_play ops linux_ns).

Lemma sample_reachable ops :
  bool_decide (is_Some (msg_play ops linux_ns)) = true -> msg_reachable (sample_state ops).
Proof.
  intros [st Hst]%bool_decide_eq_true. unfold sample_state. rewrite Hst. simpl.
  by apply (msg_play_reachable ops linux_ns), Hst; apply linux_ns_reachable.
Qed.
