(* ===== verification/MsgProps.v ===== *)
(** * System V message queues: the properties *)

From S2P Require Import Prelude.
From S2P Require Import MsgTypes.
From S2P Require Import MsgOps.
From S2P Require Import MsgCtl.
From S2P Require Import MsgLoops.
From S2P Require Import MsgInv.
From S2P Require Import MsgSend.
From S2P Require Import MsgSndCall.
From S2P Require Import MsgRecv.
From S2P Require Import MsgRcvCall.
From S2P Require Import MsgRemove.
From S2P Require Import MsgReach.
From S2P Require Import MsgSample.

(** Queue 1, limited to six bytes, holds a message of type 7 and four bytes; task 5
    sleeps to send four bytes more, task 3 sleeps for a message of type 9; tasks 7 and 8
    have looked up the queue, to send a byte and to receive a message of type 7. *)
Definition busy_ops : list (@msg_op LinuxIpc) :=
  [OpMsgget 0 438 (Some 1%nat) 10;
   OpMsgctl false 2%nat 0 1 [0; 0; 438; 6] 256 false 11;
   OpMsgsnd false 6%nat 0 [7; 1; 2; 3; 4] 4 0; OpSndLock 6%nat 12;
   OpMsgsnd false 5%nat 0 [8; 1; 2; 3; 4] 4 0; OpSndLock 5%nat 13;
   OpMsgrcv false 3%nat 0 [] 100 9 0; OpRcvLock 3%nat 14;
   OpMsgsnd false 7%nat 0 [9; 5] 1 0;
   OpMsgrcv false 8%nat 0 [] 100 7 0].
Definition busy : @msg_ns LinuxIpc := sample_state busy_ops.
Definition busy_queue : msg_queue := default (new_queue (KernIpcPerm false 0 0 0 0 0 0 0 0) 0 0) (queues busy !! 1%nat).

Lemma busy_reachable : msg_reachable busy.
Proof. apply sample_reachable. by vm_compute. Qed.

Lemma busy_room : room busy.
Proof. apply room_b_true. by vm_compute. Qed.

Lemma busy_inv : msg_inv busy.
Proof. exact (msg_reachable_inv LinuxIpcLaws busy busy_reachable). Qed.

Definition frame5 : @frame LinuxIpc :=
  SndFrame 1%nat (MsgMsg 8 4 [1; 2; 3; 4]) 4 0 (MsgSender 5%nat 4 true).
Definition args3 : @rcv_args LinuxIpc := @RcvArgs LinuxIpc [] 100 9 SEARCH_EQUAL 0 None false.
Definition frame3 : @frame LinuxIpc :=
  RcvFrame 1%nat args3 (MsgReceiver 3%nat SEARCH_EQUAL 9 100 (inl (- 11))).

Lemma busy_frame5 : stacks busy !! 5%nat = Some frame5.
Proof. vm_cast_no_check (eq_refl (Some frame5)). Qed.

Lemma busy_frame3 : stacks busy !! 3%nat = Some frame3.
Proof. vm_cast_no_check (eq_refl (Some frame3)). Qed.

Definition args8 : @rcv_args LinuxIpc := @RcvArgs LinuxIpc [] 100 7 SEARCH_EQUAL 0 None false.
Definition frame7 : @frame LinuxIpc := Locking 1%nat (ForSnd (MsgMsg 9 1 [5]) 1 0).
Definition frame8 : @frame LinuxIpc := Locking 1%nat (ForRcv args8).

Lemma busy_frame7 : stacks busy !! 7%nat = Some frame7.
Proof. vm_cast_no_check (eq_refl (Some frame7)). Qed.

Lemma busy_frame8 : stacks busy !! 8%nat = Some frame8.
Proof. vm_cast_no_check (eq_refl (Some frame8)). Qed.

Lemma busy_live : deleted busy_queue = false.
Proof. by vm_compute. Qed.

Lemma busy_lookup : queues busy !! 1%nat = Some busy_queue.
Proof. by vm_compute. Qed.

(** ** Reachable states *)

Section reachable.
Context `{I : Ipc} {U : IpcUser}.

(** C12. In every state that a namespace reaches, by any interleaving of the calls of its
    tasks, every step that can be taken ends normally: no queue is used after it was
    freed, no stack frame after its task has returned, no loop over senders, receivers
    or messages runs on; and the invariant of the namespace holds again. *)
Theorem msg_no_fault (IL : IpcLaws I) (st : msg_ns) (op : msg_op) :
  msg_reachable st -> room st -> msg_allowed st op ->
  exists st', msg_run op st = Ok (tt, st') /\ msg_inv st'.
Proof.
  intros Hreach Hroom Hal. pose proof (msg_reachable_inv IL st Hreach) as Hinv.
  destruct (wp_inv _ _ _ (wp_msg_run IL st op Hinv Hroom Hal)) as ([] & st' & E & Hi). eauto.
Qed.

(** C19. In every reachable state each queue accounts exactly for its messages, in bytes
    and in number, and the counters of the namespace hold the totals over the queues that
    are not removed, modulo the width of the counters. *)
Theorem msg_accounting (IL : IpcLaws I) (st : msg_ns) :
  msg_reachable st ->
  (forall q msq, queues st !! q = Some msq ->
     q_cbytes msq = sum_ts (q_messages msq) /\ q_qnum msq = Z.of_nat (length (q_messages msq))) /\
  percpu_counter_sum (percpu_msg_bytes st) = s64 (total q_cbytes (queues st)) /\
  percpu_counter_sum (percpu_msg_hdrs st) = s64 (total q_qnum (queues st)).
Proof.
  intros Hreach. pose proof (msg_reachable_inv IL st Hreach) as Hinv.
  split; [|split; apply Hinv]. intros q msq Hq. split; by apply (mi_queue _ Hinv q msq Hq).
Qed.

(** C13. No wake-up is lost.  A task asleep in [msgsnd] on a queue that is not removed is
    on its list of senders, and if its message fits it has been made runnable.  A task
    asleep in [msgrcv] without an answer is on the list of receivers, and if it has not
    been made runnable no message of the queue is one it wants. *)
Theorem msg_no_lost_wakeup (IL : IpcLaws I) (st : msg_ns) (q : qptr) (msq : msg_queue) (t : task) :
  msg_reachable st -> queues st !! q = Some msq -> deleted msq = false ->
  (forall m n g s, stacks st !! t = Some (SndFrame q m n g s) ->
     t ∈ q_senders msq /\ (msg_fits_inqueue msq n = true -> t ∈ woken st)) /\
  (forall a msr, stacks st !! t = Some (RcvFrame q a msr) -> r_msg msr = inl (- EAGAIN) ->
     t ∈ q_receivers msq /\
     (t ∉ woken st -> forall m, m ∈ q_messages msq ->
        wanted (q_perm msq) m t (ra_msgtyp a) (ra_mode a) = false)).
Proof.
  intros Hreach Hq Hd. pose proof (msg_reachable_inv IL st Hreach) as Hinv.
  pose proof (live_queue st Hinv q msq Hq Hd) as Hl. split.
  - intros m n g s Ht. split; [|by eapply Hl]. apply Hl. eexists. split; [done|].
    by apply bool_decide_eq_true.
  - intros a msr Ht Hw. destruct (mi_frame _ Hinv t _ Ht) as (_ & Em & Ety & _). split.
    + apply Hl. by exists (RcvFrame q a msr), msr.
    + rewrite <-Em, <-Ety. by apply (li_wake_rcv _ _ _ _ Hl t _ msr Ht).
Qed.

(** C15. A queue outlives its users.  When a task inside a call will still touch its queue,
    the queue is in memory, its reference count is the number of sleeping senders plus
    one while it is not removed, its memory cannot be freed yet, and it is not removed
    if the task waits for a message without an answer. *)
Theorem msg_queue_lifetime (IL : IpcLaws I) (st : msg_ns) (t : task) (fr : frame) :
  msg_reachable st -> stacks st !! t = Some fr -> needs_queue fr ->
  exists msq, queues st !! frame_queue fr = Some msq /\
    ipc_refcount (q_perm msq) =
      (if deleted msq then 0 else 1) + snd_count (frame_queue fr) (stacks st) /\
    ~ msg_allowed st (OpRcuFree (frame_queue fr)) /\
    (forall msr, frame_receiver fr = Some msr -> r_msg msr = inl (- EAGAIN) ->
       deleted msq = false).
Proof.
  intros Hreach Ht Hn. pose proof (msg_reachable_inv IL st Hreach) as Hinv.
  destruct (mi_needs _ Hinv t fr Ht Hn) as [msq Hq]. exists msq. split; [done|].
  split; [by apply (mi_queue _ Hinv _ msq Hq)|]. split.
  - simpl. intros Hcb. by eapply (grace_frames IL st _ msq t fr).
  - intros msr Hr Hw. destruct (waiting_queue st t fr msr Hinv Ht Hr Hw) as (msq' & Hq' & Hd).
    congruence.
Qed.

(** Leaving a namespace removes every queue, and the counters of bytes and messages
    are back at zero. *)
Theorem exit_ns_clean (IL : IpcLaws I) (st : msg_ns) :
  msg_reachable st -> room st ->
  exists st', msg_exit_ns st = Ok (tt, st') /\ (forall q, ~ ids_mem (msg_ids st') q) /\
    percpu_counter_sum (percpu_msg_bytes st') = 0 /\
    percpu_counter_sum (percpu_msg_hdrs st') = 0.
Proof.
  intros Hreach Hroom. pose proof (msg_reachable_inv IL st Hreach) as Hinv.
  destruct (wp_inv _ _ _ (wp_msg_exit_ns IL st Hinv Hroom)) as ([] & st' & E & Hi & Hids).
  exists st'. split; [done|]. split; [done|].
  by rewrite (mi_bytes _ Hi), (mi_hdrs _ Hi), !(no_ids_total _ st' Hi Hids).
Qed.
End reachable.

Lemma msg_no_fault_witness :
  exists st', msg_run (OpMsgctl false 2%nat 0 0 [] 256 true 20) busy = Ok (tt, st') /\ msg_inv st'.
Proof. apply (msg_no_fault LinuxIpcLaws busy); [apply busy_reachable|apply busy_room|done]. Defined.

Lemma msg_accounting_witness :
  percpu_counter_sum (percpu_msg_bytes busy) = s64 (total q_cbytes (queues busy)).
Proof. apply (msg_accounting LinuxIpcLaws busy), busy_reachable. Defined.

Lemma msg_no_lost_wakeup_witness :
  (5%nat ∈ q_senders busy_queue) /\
  (3%nat ∈ q_receivers busy_queue).
Proof.
  pose proof (fun t => msg_no_lost_wakeup LinuxIpcLaws busy 1%nat busy_queue t busy_reachable
    busy_lookup busy_live) as H.
  split; [apply (proj1 (H 5%nat) _ _ _ _ busy_frame5)|].
  by apply (proj2 (H 3%nat) _ _ busy_frame3).
Defined.

Lemma msg_queue_lifetime_witness :
  exists msq, queues busy !! 1%nat = Some msq.
Proof.
  destruct (msg_queue_lifetime LinuxIpcLaws busy 5%nat frame5 busy_reachable busy_frame5)
    as (msq & Hq & _); [done|]. by exists msq.
Defined.

Lemma exit_ns_clean_witness : exists st', msg_exit_ns busy = Ok (tt, st').
Proof.
  destruct (exit_ns_clean LinuxIpcLaws busy busy_reachable busy_room) as (st' & E & _).
  by exists st'.
Defined.

(** ** Sending and receiving *)

Section calls.
Context `{I : Ipc} {U : IpcUser}.

Lemma wp_run_eq {A} (m : M msg_ns A) (f : A * msg_ns) st :
  wp m (fun o st' => (o, st') = f) st -> m st = Ok f.
Proof. intros (o & st' & -> & <-)%wp_inv. done. Qed.

(** C20. [do_msgsnd] refines its specification in every reachable state.  Up to the lock
    it checks size, identifier and type, copies the text and finds the queue
    ([msgsnd_spec]); under the lock, with its loops, its lists and its reference counts,
    it fails, also if the queue was removed meanwhile, delivers the message, or puts the
    caller to sleep ([snd_lock_spec]). *)
Theorem msgsnd_refines (IL : IpcLaws I) (st : msg_ns) (t : task) (now : Z) :
  msg_reachable st -> room st ->
  (forall msqid mtype mtext msgsz msgflg, 0 <= msgsz < 2 ^ 64 ->
     do_msgsnd t msqid mtype mtext msgsz msgflg st =
     Ok (msgsnd_spec t msqid mtype mtext msgsz msgflg st)) /\
  (forall q msg n g, stacks st !! t = Some (Locking q (ForSnd msg n g)) ->
     exists msq, queues st !! q = Some msq /\
       msgsnd_lock t now st = Ok (snd_lock_spec t q msq msg g now st)).
Proof.
  intros Hreach Hroom. pose proof (msg_reachable_inv IL st Hreach) as Hinv. split.
  - intros. by apply wp_run_eq, wp_do_msgsnd.
  - intros q msg n g Ht. destruct (mi_needs _ Hinv t _ Ht) as [msq Hq]; [done|].
    exists msq. split; [done|]. by eapply wp_run_eq, wp_msgsnd_lock.
Qed.

(** C21. [do_msgrcv] refines its specification in every reachable state.  Up to the lock
    it checks its arguments, prepares a copy, finds the queue and checks the permission
    ([msgrcv_spec]); under the lock it fails, also if the queue was removed meanwhile,
    takes or copies the message that [find_msg] chose and wakes the senders that now fit,
    or puts the caller to sleep ([rcv_step]). *)
Theorem msgrcv_refines (IL : IpcLaws I) (st : msg_ns) (t : task) (now : Z) :
  msg_reachable st ->
  (forall msqid buf bufsz msgtyp msgflg compat, 0 <= bufsz < 2 ^ 64 ->
     do_msgrcv t msqid buf bufsz msgtyp msgflg compat st =
     Ok (msgrcv_spec t msqid buf bufsz msgtyp msgflg compat st)) /\
  (forall q a, stacks st !! t = Some (Locking q (ForRcv a)) ->
     exists msq, queues st !! q = Some msq /\
       msgrcv_lock t now st = Ok (rcv_step t q msq a now (popped t st))).
Proof.
  intros Hreach. pose proof (msg_reachable_inv IL st Hreach) as Hinv. split.
  - intros. by apply wp_run_eq, wp_do_msgrcv.
  - intros q a Ht. destruct (mi_needs _ Hinv t _ Ht) as [msq Hq]; [done|].
    exists msq. split; [done|]. by eapply wp_run_eq, wp_msgrcv_lock.
Qed.

(** A receiver that wants the message, and one whose buffer is too small for it. *)
Abbreviation wants_it msq msg st u := (receiver_wants (q_perm msq) msg st u = true).
Abbreviation too_small msg st u := (receiver_small msg st u = true).

Lemma pipeline_split perm msg st l small taker :
  pipeline perm msg st l = (small, taker) ->
  exists l1 l2, l = l1 ++ option_list taker ++ l2 /\ (taker = None -> l2 = []) /\
    small = filter (fun u => receiver_wants perm msg st u = true) l1 /\
    (forall u, u ∈ small -> receiver_small msg st u = true) /\
    (forall u, taker = Some u ->
       receiver_wants perm msg st u = true /\ receiver_small msg st u = false).
Proof.
  revert small. induction l as [|x l IH]; intros small; simpl.
  { intros [= <- <-]. exists [], []. split; [done|]. split; [done|]. split; [done|].
    split; [|done]. intros u Hu. by apply not_elem_of_nil in Hu. }
  destruct (receiver_wants perm msg st x) eqn:Ew; [destruct (receiver_small msg st x) eqn:Es|].
  - destruct (pipeline perm msg st l) as [sm tk]. simpl. intros [= <- <-].
    destruct (IH sm eq_refl) as (l1 & l2 & -> & Hn & -> & Hs & Ht). exists (x :: l1), l2.
    split; [done|]. split; [done|]. rewrite filter_cons_True by done. split; [done|].
    split; [|done]. intros u [->|Hu]%elem_of_cons; auto.
  - intros [= <- <-]. exists [], l. split; [done|]. split; [done|]. split; [done|]. split.
    + intros u Hu. by apply not_elem_of_nil in Hu.
    + by intros u [= <-].
  - intros Hp. destruct (IH small Hp) as (l1 & l2 & -> & Hn & -> & Hs & Ht). exists (x :: l1), l2.
    split; [done|]. split; [done|]. by rewrite filter_cons_False by congruence.
Qed.

(** The answers that [delivered] has given. *)
Lemma delivered_answers st t q msg now msq u :
  msg_inv st -> queues st !! q = Some msq -> deleted msq = false ->
  let p := pipeline (q_perm msq) msg st (q_receivers msq) in
  (u ∈ p.1 -> r_msg <$> receiver_of (delivered t q msg now msq st) u = Some (inl (- E2BIG))) /\
  (p.2 = Some u -> r_msg <$> receiver_of (delivered t q msg now msq st) u = Some (inr msg)) /\
  (u ∈ p.1 ++ option_list p.2 -> u ∈ woken (delivered t q msg now msq st)).
Proof.
  intros Hinv Hq Hd p.
  assert (stacks (delivered t q msg now msq st) =
    restack (option_list p.2) (answer (inr msg)) (restack p.1 (answer (inl (- E2BIG))) (stacks st)))
    as ES by (transitivity (stacks (served t q msg now msq st)); [unfold delivered; by case_match|done]).
  assert (woken (delivered t q msg now msq st) = woken st ∪ list_to_set (p.1 ++ option_list p.2))
    as EW by (transitivity (woken (served t q msg now msq st)); [unfold delivered; by case_match|done]).
  assert (forall v, v ∈ p.1 \/ p.2 = Some v -> is_Some (receiver_of st v)) as Hr.
  { intros v Hv%pipeline_in. destruct (live_receivers_ok st Hinv q msq Hq Hd) as [_ Hok].
    destruct (Hok v Hv) as (msr & ? & _). eauto. }
  pose proof (pipeline_nodup (q_perm msq) msg st (q_receivers msq)) as Hnd. fold p in Hnd.
  pose proof (li_rcv_nodup _ _ _ _ (live_queue st Hinv q msq Hq Hd)) as Hnd0.
  unfold receiver_of. rewrite EW, ES, !lookup_restack. split; [|split].
  - intros Hu. destruct (Hr u) as [msr Hmsr]; [by left|]. unfold receiver_of in Hmsr.
    destruct (stacks st !! u) as [fr|]; [|done]. simpl in *. rewrite (decide_True _ _ Hu).
    rewrite decide_False; [by rewrite answer_receiver, Hmsr|].
    intros Hx. destruct p.2 as [x|] eqn:Ep; [|by apply not_elem_of_nil in Hx].
    apply list_elem_of_singleton in Hx as ->. by apply (Hnd x Hnd0).
  - intros Hu. destruct (Hr u) as [msr Hmsr]; [by right|]. unfold receiver_of in Hmsr.
    destruct (stacks st !! u) as [fr|]; [|done]. simpl in *.
    rewrite (decide_False (P := u ∈ p.1)) by by apply Hnd.
    rewrite decide_True by (rewrite Hu; by apply list_elem_of_singleton).
    by rewrite answer_receiver, Hmsr.
  - intros Hu. apply elem_of_union_r. by apply elem_of_list_to_set.
Qed.

Lemma delivered_messages st t q msg now msq :
  q_messages <$> queues (delivered t q msg now msq st) !! q =
  Some (q_messages msq ++
        match (pipeline (q_perm msq) msg st (q_receivers msq)).2 with
        | Some _ => []
        | None => [msg]
        end).
Proof.
  unfold delivered. destruct (pipeline _ _ _ _).2 as [x|] eqn:E.
  - rewrite served_queue. unfold piped_queue. rewrite E. simpl. by rewrite app_nil_r.
  - unfold queued. rec_simpl. rewrite lookup_alter_eq, served_queue. unfold piped_queue.
    by rewrite E.
Qed.

(** A message that fits goes to exactly one place.  The receivers are tried in the
    order of their list: those that want the message but have too small a buffer are
    woken with -E2BIG, the first that wants it and has room is woken with the message;
    if there is none the message goes to the end of the queue. *)
Theorem send_hands_over (IL : IpcLaws I) (st : msg_ns) (t : task) (q : qptr) (msq : msg_queue)
    (msg : msg_msg) (now : Z) :
  msg_reachable st -> queues st !! q = Some msq -> deleted msq = false ->
  exists st' l1 taker l2,
    msgsnd_deliver t q msg (m_ts msg) now st = Ok (Returned 0, st') /\
    q_receivers msq = l1 ++ option_list taker ++ l2 /\
    (forall u, u ∈ l1 -> wants_it msq msg st u -> too_small msg st u /\ (u ∈ woken st') /\
       r_msg <$> receiver_of st' u = Some (inl (- E2BIG))) /\
    match taker with
    | Some u =>
        wants_it msq msg st u /\ ~ too_small msg st u /\ (u ∈ woken st') /\
        r_msg <$> receiver_of st' u = Some (inr msg) /\
        q_messages <$> queues st' !! q = Some (q_messages msq)
    | None => l2 = [] /\ q_messages <$> queues st' !! q = Some (q_messages msq ++ [msg])
    end.
Proof.
  intros Hreach Hq Hd. pose proof (msg_reachable_inv IL st Hreach) as Hinv.
  pose proof (wp_msgsnd_deliver t q msg now msq st Hinv Hq Hd) as (o & st' & Hrun & -> & ->)%wp_inv.
  pose proof (fun u => delivered_answers st t q msg now msq u Hinv Hq Hd) as Ha.
  pose proof (delivered_messages st t q msg now msq) as Hm. cbv zeta in Ha.
  destruct (pipeline _ msg st (q_receivers msq)) as [small taker] eqn:Ep. simpl in Ha, Hm.
  destruct (pipeline_split _ _ _ _ _ _ Ep) as (l1 & l2 & El & Hn & -> & Hs & Ht).
  exists (delivered t q msg now msq st), l1, taker, l2. split; [done|]. split; [done|]. split.
  - intros u Hu Hw.
    assert (u ∈ filter (fun u => receiver_wants (q_perm msq) msg st u = true) l1) as Hin
      by by apply list_elem_of_filter.
    destruct (Ha u) as (H1 & _ & H3). split; [by apply Hs|]. split; [|by apply H1].
    apply H3. set_solver.
  - destruct taker as [u|]; [|split; [by apply Hn|done]].
    destruct (Ha u) as (_ & H2 & H3). destruct (Ht u eq_refl) as [Hw Hsm].
    split; [done|]. split; [congruence|]. split; [apply H3; set_solver|]. split; [by apply H2|].
    by rewrite Hm, app_nil_r.
Qed.

(** [find_msg] returns the first message wanted; for a bound on the type the first
    of the least type; for a position the message at it, counting those allowed; and
    nothing only if there is none. *)
Theorem find_msg_chooses (msq : msg_queue) (t : task) (ty : Z) :
  hook_ignores_type (q_perm msq) t -> Forall (fun m => 1 <= m_type m) (q_messages msq) ->
  (forall mode, mode <> SEARCH_NUMBER -> mode <> SEARCH_LESSEQUAL ->
     find_msg msq t ty mode =
     fst <$> list_find (fun m => wanted (q_perm msq) m t ty mode = true) (q_messages msq)) /\
  match find_msg msq t ty SEARCH_LESSEQUAL with
  | Some k =>
      first_least (fun m => wanted (q_perm msq) m t ty SEARCH_LESSEQUAL) (q_messages msq) k
  | None =>
      forall m, m ∈ q_messages msq -> wanted (q_perm msq) m t ty SEARCH_LESSEQUAL = false
  end /\
  (0 <= ty ->
   let ok m := wanted (q_perm msq) m t ty SEARCH_NUMBER = true in
   match find_msg msq t ty SEARCH_NUMBER with
   | Some k => exists m, q_messages msq !! k = Some m /\ ok m /\
       Z.of_nat (length (filter ok (take k (q_messages msq)))) = ty
   | None => Z.of_nat (length (filter ok (q_messages msq))) <= ty
   end).
Proof.
  intros Hh Hty. unfold find_msg. split; [|split].
  - intros mode Hn Hl. by rewrite find_loop_first.
  - destruct (find_loop_least (q_perm msq) t (q_messages msq) 0 ty None 0 Hh Hty)
      as [[-> Hno]|(k & -> & Hk)]; done.
  - intros H0.
    destruct (find_loop_number (q_perm msq) t (q_messages msq) 0 ty 0 H0)
      as [[-> Hlen]|(k & m & -> & Hk & Hm & Hlen)]; [lia|].
    exists m. split; [done|]. split; [done|]. simpl. lia.
Qed.

(** C40. [ss_wakeup] ends: it wakes, in order, exactly the senders whose message fits,
    and puts the others after them in the list without changing their order. *)
Theorem ss_wakeup_order (IL : IpcLaws I) (st : msg_ns) (q : qptr) (msq : msg_queue) :
  msg_reachable st -> queues st !! q = Some msq -> deleted msq = false ->
  let fits := filter (fun t => sender_fits msq st t = true) (q_senders msq) in
  let waits := filter (fun t => sender_fits msq st t = false) (q_senders msq) in
  ss_wakeup q [] false st =
  Ok (fits, st <| queues ::= <[q := msq <| q_senders := fits ++ waits |>]> |>).
Proof.
  intros Hreach Hq Hd. pose proof (msg_reachable_inv IL st Hreach) as Hinv.
  apply wp_run_eq. eapply wp_mono; [by eapply wp_ss_wakeup, live_senders_ok|].
  by intros wq st' [-> ->].
Qed.
End calls.

(** ** Removing a queue *)

Section remove.
Context `{I : Ipc} {U : IpcUser}.

Section freed_facts.
Context (IL : IpcLaws I) (st : msg_ns) (q : qptr) (msq : msg_queue).
Context (Hinv : msg_inv st) (Hroom : room st) (Hq : queues st !! q = Some msq)
  (Hd : deleted msq = false).

Lemma freed_stack t : stacks (freed q msq st) !! t = shut_frame msq t <$> stacks st !! t.
Proof. unfold freed. destruct (ipc_rmid _ _ _). apply lookup_shut. Qed.

Lemma freed_woken t : t ∈ q_receivers msq ++ q_senders msq -> t ∈ woken (freed q msq st).
Proof.
  intros Ht. unfold freed. destruct (ipc_rmid _ _ _). rec_simpl. apply elem_of_union_r.
  by apply elem_of_list_to_set.
Qed.

Lemma freed_deleted :
  exists msq', queues (freed q msq st) !! q = Some msq' /\ deleted msq' = true.
Proof.
  unfold freed. destruct (ipc_rmid _ _ _) as [ids perm] eqn:E. rec_simpl.
  exists (dead_queue msq perm). split; [apply lookup_insert_eq|].
  by destruct (rmid_spec _ _ _ _ _ E) as (? & _).
Qed.

Lemma removed_receiver t fr msr :
  stacks st !! t = Some fr -> frame_queue fr = q -> frame_receiver fr = Some msr ->
  r_msg msr = inl (- EAGAIN) ->
  t ∈ q_receivers msq /\ shut_frame msq t fr =
    set_frame_receiver (msr <| r_msg := inl (- EIDRM) |>) fr.
Proof.
  intros Ht Eq Hr Hw. pose proof (live_queue st Hinv q msq Hq Hd) as Hl.
  assert (t ∈ q_receivers msq) as Hin by (apply (li_rcv _ _ _ _ Hl); exists fr, msr; split; [done|by split]).
  split; [done|]. unfold shut_frame. rewrite (decide_True _ _ Hin). unfold answer. rewrite Hr.
  case_decide; [|done]. by destruct fr.
Qed.

Lemma removed_sender t m n g s sig now :
  stacks st !! t = Some (SndFrame q m n g s) ->
  (t ∈ q_senders msq) /\ exists st2,
    msgsnd_resume t sig now (freed q msq st) = Ok (Returned (- EIDRM), st2).
Proof.
  intros Ht. pose proof (live_queue st Hinv q msq Hq Hd) as Hl.
  assert (t ∈ q_senders msq) as Hin.
  { apply (li_snd _ _ _ _ Hl). eexists. split; [done|]. by apply bool_decide_eq_true. }
  split; [done|]. destruct freed_deleted as (msq' & Hq' & Hd').
  assert (exists s', stacks (freed q msq st) !! t = Some (SndFrame q m n g s')) as [s' Ht'].
  { rewrite freed_stack, Ht. simpl. unfold shut_frame. rewrite (decide_True _ _ Hin).
    case_decide; simpl; eauto. }
  pose proof (wp_msgsnd_resume IL t q m n g s' msq' _ (freed_inv IL q msq st Hinv Hroom Hq Hd)
    Hq' Ht' sig now (room_freed q msq st Hq Hroom)) as Hwp%wp_run_eq.
  rewrite Hwp. unfold resume_spec. rewrite Hd'. eauto.
Qed.
End freed_facts.

Lemma removed_locking_rcv (IL : IpcLaws I) st q msq msq' t a now :
  msg_inv (freed q msq st) -> queues (freed q msq st) !! q = Some msq' -> deleted msq' = true ->
  stacks st !! t = Some (Locking q (ForRcv a)) ->
  exists st2, msgrcv_lock t now (freed q msq st) = Ok (Returned (- EIDRM), st2).
Proof.
  intros Hi Hq' Hd' Ht. eexists. erewrite wp_run_eq; [|eapply (wp_msgrcv_lock IL); [done..|]].
  2:{ rewrite freed_stack, Ht. simpl. unfold shut_frame. by repeat case_decide. }
  unfold rcv_step. by rewrite Hd'.
Qed.

(** Removing a queue ends every call on it.  Every task asleep on it in [msgsnd] or
    [msgrcv] is made runnable, and its call returns -EIDRM when it runs, whether a
    receiver reads its answer before or after taking the lock; a receiver that has found
    the queue but not locked it returns -EIDRM too; the identifier is gone. *)
Theorem rmid_wakes_all (IL : IpcLaws I) (st : msg_ns) (q : qptr) (msq : msg_queue) :
  msg_reachable st -> room st -> queues st !! q = Some msq -> deleted msq = false ->
  exists st', freeque q st = Ok (tt, st') /\ ~ ids_mem (msg_ids st') q /\
    (forall t m n g s sig now, stacks st !! t = Some (SndFrame q m n g s) ->
       (t ∈ woken st') /\ exists st2,
         msgsnd_resume t sig now st' = Ok (Returned (- EIDRM), st2)) /\
    (forall t a msr, stacks st !! t = Some (RcvFrame q a msr) -> r_msg msr = inl (- EAGAIN) ->
       (t ∈ woken st') /\ exists st2, msgrcv_wake t st' = Ok (Some (Returned (- EIDRM)), st2)) /\
    (forall t a msr sig, stacks st !! t = Some (RcvRetry q a msr) ->
       r_msg msr = inl (- EAGAIN) ->
       exists st2, msgrcv_locked t sig st' = Ok (Returned (- EIDRM), st2)) /\
    (forall t a now, stacks st !! t = Some (Locking q (ForRcv a)) ->
       exists st2, msgrcv_lock t now st' = Ok (Returned (- EIDRM), st2)).
Proof.
  intros Hreach Hroom Hq Hd. pose proof (msg_reachable_inv IL st Hreach) as Hinv.
  destruct (wp_inv _ _ _ (wp_freeque IL q msq st Hinv Hroom Hq Hd)) as ([] & st' & E & ->).
  pose proof (freed_inv IL q msq st Hinv Hroom Hq Hd) as Hi.
  destruct (freed_deleted IL st q msq) as (msq' & Hq' & Hd').
  assert (inl (- EIDRM) <> (inl (- EAGAIN) : msg_or_err)) as Hne.
  { intros [= Ee]. pose proof EAGAIN_not_EIDRM. lia. }
  exists (freed q msq st). split; [done|]. split.
  { rewrite (mi_ids _ Hi). intros (m & Hm & Hdm). congruence. }
  split; [|split; [|split]].
  - intros t m n g s sig now Ht.
    destruct (removed_sender IL st q msq Hinv Hroom Hq Hd t m n g s sig now Ht) as [Hin Hres].
    split; [|done]. apply freed_woken. set_solver.
  - intros t a msr Ht Hw.
    destruct (removed_receiver st q msq Hinv Hq Hd t _ msr Ht eq_refl eq_refl Hw) as [Hin Es].
    split; [apply freed_woken; set_solver|]. eexists.
    erewrite wp_run_eq; [|eapply wp_msgrcv_wake; by rewrite freed_stack, Ht; simpl; rewrite Es].
    unfold wake_spec. by rewrite bool_decide_false.
  - intros t a msr sig Ht Hw.
    destruct (removed_receiver st q msq Hinv Hq Hd t _ msr Ht eq_refl eq_refl Hw) as [_ Es].
    eexists. erewrite wp_run_eq; [|eapply wp_msgrcv_locked; [|exact Hq']].
    2:{ by rewrite freed_stack, Ht; simpl; rewrite Es. }
    unfold locked_spec. by rewrite bool_decide_false.
  - intros t a now Ht. by eapply removed_locking_rcv.
Qed.
End remove.

(** ** Limits and layouts *)

Section limits.
Context `{I : Ipc} {U : IpcUser}.

(** The test that a message fits is exact: for a message that [do_msgsnd] lets
    through, the sums of [msg_fits_inqueue] do not wrap around, so it holds exactly if
    the bytes and the number of messages stay within the limit of the queue. *)
Theorem fits_exact (IL : IpcLaws I) (st : msg_ns) (q : qptr) (msq : msg_queue) (n : Z) :
  msg_reachable st -> room st -> queues st !! q = Some msq -> 0 <= n <= msg_ctlmax st ->
  msg_fits_inqueue msq n = true <->
  n + sum_ts (q_messages msq) <= q_qbytes msq /\
  1 + Z.of_nat (length (q_messages msq)) <= q_qbytes msq.
Proof.
  intros Hreach Hroom Hq Hn. pose proof (msg_reachable_inv IL st Hreach) as Hinv.
  destruct (queue_room q msq st Hinv Hq Hroom) as (Hb & Hc & <-).
  pose proof (mi_ctlmax _ Hinv). rewrite <-(qi_num _ _ _ (mi_queue _ Hinv q msq Hq)).
  unfold msg_fits_inqueue. rewrite !u64_id, andb_true_iff, !Z.leb_le by lia. done.
Qed.

(** A successful IPC_SET stores the 32-bit signed value of the limit, extended to
    64 bits, makes runnable every waiting receiver and every sender whose message now
    fits, and leaves the messages alone. *)
Theorem ipc_set_limit (IL : IpcLaws I) (st st' : msg_ns) (msqid : Z) (perm : ipc64_perm)
    (n : Z) (cap : bool) (now : Z) (q : qptr) (msq : msg_queue) :
  msg_reachable st -> room st ->
  ipcctl_obtain_check (msg_ids st) msqid IPC_SET (Some perm) (s32 n) = inr q ->
  queues st !! q = Some msq ->
  msgctl_down msqid IPC_SET (Some perm) (s32 n) cap now st = Ok (0, st') ->
  exists msq', queues st' !! q = Some msq' /\ q_qbytes msq' = u64 (s32 n) /\
    q_messages msq' = q_messages msq /\
    (forall t, t ∈ q_receivers msq -> t ∈ woken st') /\
    (forall t, t ∈ q_senders msq -> sender_fits msq' st t = true -> t ∈ woken st').
Proof.
  intros Hreach Hroom Hid Hq Hrun. pose proof (msg_reachable_inv IL st Hreach) as Hinv.
  pose proof (wp_msgctl_down IL msqid IPC_SET (Some perm) (s32 n) cap now st Hinv Hroom
    ltac:(eauto)) as Hwp%wp_run_eq.
  rewrite Hrun in Hwp. injection Hwp as E. unfold down_spec in E. rewrite Hid, Hq in E.
  cbv zeta in E. destruct (Z.eqb_spec (security_msg_queue_msgctl (Some (q_perm msq)) IPC_SET) 0);
    simpl in E; [|congruence].
  rewrite Z.eqb_refl in E. destruct rmid_not_set as [Hrs _].
  destruct (Z.eqb_spec IPC_SET IPC_RMID); [congruence|].
  pose proof errno_positive as Hpos. apply Forall_cons in Hpos as [Hperm _].
  destruct (_ && _); [injection E; lia|].
  destruct (ipc_update_perm perm (q_perm msq)) as [err|p] eqn:Hp.
  { pose proof (update_perm_error _ _ _ Hp). injection E; lia. }
  injection E as ->. unfold limit_set. rec_simpl. eexists. split; [apply lookup_insert_eq|].
  split; [done|]. split; [done|]. split.
  - intros t Ht. apply elem_of_union_r, elem_of_list_to_set. set_solver.
  - intros t Ht Hf. apply elem_of_union_r, elem_of_list_to_set, elem_of_app. right.
    by apply list_elem_of_filter.
Qed.

(** A limit reported in the old layout and given back in it is the limit cut off at
    65535. *)
Theorem old_layout_saturates (IL : IpcLaws I) (buf : ubuf) (d : msqid64_ds) :
  copy_to_user_fails buf = false -> 0 <= msg_qbytes d ->
  user_msqid buf = Some (msqid_to_old d) ->
  copy_msqid_to_user buf d IPC_OLD = (0, Some (CopiedOld (msqid_to_old d))) /\
  exists d', copy_msqid_from_user buf IPC_OLD = inr d' /\
    msg_qbytes d' = Z.min (msg_qbytes d) USHRT_MAX.
Proof.
  intros Hc Hn Hu. unfold copy_msqid_to_user, copy_msqid_from_user.
  rewrite (proj2 (Z.eqb_neq _ _) ipc_versions), Z.eqb_refl, Hc, Hu. split; [done|].
  eexists. split; [done|]. simpl. unfold cap_ushort, USHRT_MAX.
  destruct (Z.ltb_spec 65535 (msg_qbytes d)); [simpl; lia|].
  destruct (Z.eqb_spec (msg_qbytes d) 0); lia.
Qed.
End limits.

(** A limit of 2^32 bytes that an unprivileged user asks for is stored as 0. *)
Theorem set_limit_truncated :
  match ksys_msgctl 2%nat 0 1 [0; 0; 438; 2 ^ 32] 256 false 11 busy with
  | Ok ((r, _), st') => r = 0 /\ q_qbytes <$> queues st' !! 1%nat = Some 0
  | Err _ => False
  end.
Proof. by vm_compute. Qed.

(** A count of 2^31 messages is reported as -2^31, not as INT_MAX. *)
Theorem info_not_capped : min_t_int (2 ^ 31) = - 2 ^ 31.
Proof. done. Qed.

(** 65536 bytes are reported as 65535 to an old native program, and as 0 to an old
    32-bit one. *)
Theorem compat_truncates (d : msqid64_ds) :
  msg_cbytes d = 65536 -> old_cbytes (msqid_to_old d) = 65535 /\ c_cbytes (compat_of d) = 0.
Proof. unfold msqid_to_old, compat_of. simpl. by intros ->. Qed.

(** ** Witnesses *)

Lemma msgsnd_refines_witness :
  exists msq, queues busy !! 1%nat = Some msq /\
    msgsnd_lock 7%nat 30 busy = Ok (snd_lock_spec 7%nat 1%nat msq (MsgMsg 9 1 [5]) 0 30 busy).
Proof.
  exact (proj2 (msgsnd_refines LinuxIpcLaws busy 7%nat 30 busy_reachable busy_room)
    1%nat (MsgMsg 9 1 [5]) 1 0 busy_frame7).
Defined.

Lemma msgrcv_refines_witness :
  exists msq, queues busy !! 1%nat = Some msq /\
    msgrcv_lock 8%nat 30 busy = Ok (rcv_step 8%nat 1%nat msq args8 30 (popped 8%nat busy)).
Proof.
  exact (proj2 (msgrcv_refines LinuxIpcLaws busy 8%nat 30 busy_reachable) 1%nat args8 busy_frame8).
Defined.

Lemma send_hands_over_witness :
  exists st', msgsnd_deliver 8%nat 1%nat (MsgMsg 9 1 [5]) 1 30 busy = Ok (Returned 0, st').
Proof.
  destruct (send_hands_over LinuxIpcLaws busy 8%nat 1%nat busy_queue (MsgMsg 9 1 [5]) 30
    busy_reachable busy_lookup busy_live) as (st' & _ & _ & _ & E & _). by exists st'.
Defined.

Lemma find_msg_chooses_witness :
  find_msg busy_queue 8%nat 7 SEARCH_EQUAL =
  fst <$> list_find (fun m => wanted (q_perm busy_queue) m 8%nat 7 SEARCH_EQUAL = true)
    (q_messages busy_queue).
Proof.
  apply (find_msg_chooses busy_queue 8%nat 7); [done| |done|done].
  vm_compute. by repeat constructor.
Defined.

Lemma ss_wakeup_order_witness :
  exists st', ss_wakeup 1%nat [] false busy =
    Ok (filter (fun t => sender_fits busy_queue busy t = true) (q_senders busy_queue), st').
Proof.
  eexists. exact (ss_wakeup_order LinuxIpcLaws busy 1%nat busy_queue busy_reachable busy_lookup
    busy_live).
Defined.

Lemma rmid_wakes_all_witness : exists st', freeque 1%nat busy = Ok (tt, st') /\ (5%nat ∈ woken st').
Proof.
  destruct (rmid_wakes_all LinuxIpcLaws busy 1%nat busy_queue busy_reachable busy_room busy_lookup
    busy_live) as (st' & E & _ & Hs & _). exists st'. split; [done|].
  by apply (Hs 5%nat _ _ _ _ false 0 busy_frame5).
Defined.

Lemma fits_exact_witness : ~ (4 + sum_ts (q_messages busy_queue) <= q_qbytes busy_queue /\
  1 + Z.of_nat (length (q_messages busy_queue)) <= q_qbytes busy_queue).
Proof.
  rewrite <-(fits_exact LinuxIpcLaws busy 1%nat busy_queue 4 busy_reachable busy_room busy_lookup).
  - by vm_compute.
  - by vm_compute.
Defined.

Lemma ipc_set_limit_witness :
  exists st', msgctl_down 0 1 (Some zero_perm) (s32 100) false 40 busy = Ok (0, st') /\
    q_qbytes <$> queues st' !! 1%nat = Some 100.
Proof.
  destruct (msgctl_down 0 1 (Some zero_perm) (s32 100) false 40 busy) as [[r st']|] eqn:E.
  - assert (r = 0) as ->.
    { assert (match msgctl_down 0 1 (Some zero_perm) (s32 100) false 40 busy with
              | Ok (r, _) => r =? 0 | Err _ => false end = true) as Hr by by vm_compute.
      rewrite E in Hr. by apply Z.eqb_eq. }
    destruct (ipc_set_limit LinuxIpcLaws busy st' 0 zero_perm 100 false 40 1%nat busy_queue
      busy_reachable busy_room) as (msq' & Hq & Hn & _); [by vm_compute|apply busy_lookup|done|].
    exists st'. split; [done|]. by rewrite Hq; simpl; rewrite Hn.
  - exfalso. assert (match msgctl_down 0 1 (Some zero_perm) (s32 100) false 40 busy with
      | Ok _ => true | Err _ => false end = true) as Hr by by vm_compute.
    by rewrite E in Hr.
Defined.

Lemma old_layout_saturates_witness :
  exists d', copy_msqid_from_user [0; 0; 0; 65535; 70000] IPC_OLD = inr d' /\
    msg_qbytes d' = 65535.
Proof.
  apply (old_layout_saturates LinuxIpcLaws [0; 0; 0; 65535; 70000]
    (Msqid64Ds zero_perm 0 0 0 0 0 70000 0 0)); [done|done|done].
Defined.
