(* ===== verification/Math64.v ===== *)
(** * 64-bit arithmetic: [io_uring/math64.h] and [io_uring/math.h]

    The build is a 64-bit one.  Unsigned and signed integers are in [Z], at their width;
    a division by zero, or of the least number by -1, has no result.  Multiplication
    with a shift is there in two versions, one on 128-bit integers and one on 32-bit
    halves for machines without them.  The macros of [math.h], which work on any integer
    type, are at [u64]. *)

From S2P Require Import Prelude.

Definition u128 (z : Z) : Z := z mod 2 ^ 128.
Definition s64_of (z : Z) : Z := let m := u64 z in if m <? 2 ^ 63 then m else m - 2 ^ 64.

(** ** Division *)

Definition div_u64_rem (dividend divisor : Z) : option (Z * Z) :=
  if divisor =? 0 then None else Some (dividend / divisor, u32 (dividend mod divisor)).

(** C division rounds towards zero. *)
Definition div_s64_rem (dividend divisor : Z) : option (Z * Z) :=
  if (divisor =? 0) || ((dividend =? - 2 ^ 63) && (divisor =? -1)) then None
  else Some (Z.quot dividend divisor, Z.rem dividend divisor).

Definition div64_u64_rem (dividend divisor : Z) : option (Z * Z) :=
  if divisor =? 0 then None else Some (dividend / divisor, dividend mod divisor).

Definition div64_u64 (dividend divisor : Z) : option Z :=
  if divisor =? 0 then None else Some (dividend / divisor).

Definition div64_s64 (dividend divisor : Z) : option Z :=
  if (divisor =? 0) || ((dividend =? - 2 ^ 63) && (divisor =? -1)) then None
  else Some (Z.quot dividend divisor).

Definition div_u64 (dividend divisor : Z) : option Z := fst <$> div_u64_rem dividend divisor.
Definition div_s64 (dividend divisor : Z) : option Z := fst <$> div_s64_rem dividend divisor.

(** ** Multiplication *)

Definition mul_u32_u32 (a b : Z) : Z := u64 (a * b).
Definition add_u64_u32 (a b : Z) : Z := u64 (a + b).

(** With [unsigned __int128]. *)
Definition mul_u64_u32_shr_128 (a mul shift : Z) : Z := u64 (Z.shiftr (u128 (a * mul)) shift).
Definition mul_u64_u64_shr_128 (a mul shift : Z) : Z := u64 (Z.shiftr (u128 (a * mul)) shift).

(** Without. *)
Definition mul_u64_u32_shr (a mul shift : Z) : Z :=
  let ah := u32 (Z.shiftr a 32) in
  let al := u32 a in
  let ret := Z.shiftr (mul_u32_u32 al mul) shift in
  if ah =? 0 then ret else u64 (ret + u64 (Z.shiftl (mul_u32_u32 ah mul) (32 - shift))).

(** The union of a 64-bit integer and its halves. *)
Definition low (ll : Z) : Z := u32 ll.
Definition high (ll : Z) : Z := u32 (Z.shiftr ll 32).
Definition halves (high low : Z) : Z := Z.lor (Z.shiftl (u32 high) 32) (u32 low).

(** The 128-bit product, as its halves. *)
Definition mul_u64_u64 (a b : Z) : Z * Z :=
  let rl := mul_u32_u32 (low a) (low b) in
  let rm := mul_u32_u32 (low a) (high b) in
  let rn := mul_u32_u32 (high a) (low b) in
  let rh := mul_u32_u32 (high a) (high b) in
  let c := u64 (high rl + low rm + low rn) in
  let rl := halves c rl in
  let c := u64 (Z.shiftr c 32 + high rm + high rn + low rh) in
  let rh := halves (Z.shiftr c 32 + high rh) c in
  (rh, rl).

Definition mul_u64_u64_shr (a b shift : Z) : Z :=
  let '(rh, rl) := mul_u64_u64 a b in
  if shift =? 0 then rl
  else if shift <? 64 then Z.lor (Z.shiftr rl shift) (u64 (Z.shiftl rh (64 - shift)))
  else Z.shiftr rh (Z.land shift 63).

#[global] Arguments mul_u64_u64_shr : simpl never.

(** The least number has no absolute value and no negative. *)
Definition neg_s64 (x : Z) : option Z := if x =? - 2 ^ 63 then None else Some (- x).
Definition abs_s64 (x : Z) : option Z := if x <? 0 then neg_s64 x else Some x.

Definition mul_s64_u64_shr (a b shift : Z) : option Z :=
  a' ← abs_s64 a;
  let ret := mul_u64_u64_shr (u64 a') b shift in
  if a <? 0 then u64 <$> neg_s64 (s64_of ret) else Some ret.

(** [do_div] is the architecture's division: the quotient is left in its first argument,
    the remainder is its value.  [mul_u64_add_u64_div_u64] is compiled elsewhere. *)
Section Division.
Variable do_div : Z -> Z -> Z * Z.
Variable mul_u64_add_u64_div_u64 : Z -> Z -> Z -> Z -> Z.

Definition mul_u64_u32_div (a mul divisor : Z) : Z :=
  let rl := mul_u32_u32 (low a) mul in
  let rh := u64 (mul_u32_u32 (high a) mul + high rl) in
  let '(rh, rem) := do_div rh divisor in
  let rl := halves rem rl in
  let '(rl, _) := do_div rl divisor in
  halves rh rl.

Definition mul_u64_u64_div_u64 (a b d : Z) : Z := mul_u64_add_u64_div_u64 a b 0 d.
Definition mul_u64_u64_div_u64_roundup (a b d : Z) : Z :=
  mul_u64_add_u64_div_u64 a b (u64 (d - 1)) d.
End Division.

(** What [do_div] is documented to compute. *)
Definition do_div_law (do_div : Z -> Z -> Z * Z) : Prop :=
  forall n base, 0 <= n < 2 ^ 64 -> 0 < base < 2 ^ 32 -> do_div n base = (n / base, n mod base).

(** ** Rounding *)

Definition DIV64_U64_ROUND_UP (ll d : Z) : option Z := div64_u64 (u64 (u64 (ll + d) - 1)) d.
Definition DIV_U64_ROUND_UP (ll d : Z) : option Z := div_u64 (u64 (u64 (ll + d) - 1)) d.
Definition DIV64_U64_ROUND_CLOSEST (dividend divisor : Z) : option Z :=
  div64_u64 (u64 (dividend + divisor / 2)) divisor.
Definition DIV_U64_ROUND_CLOSEST (dividend divisor : Z) : option Z :=
  div_u64 (u64 (dividend + divisor / 2)) divisor.
Definition DIV_S64_ROUND_CLOSEST (dividend divisor : Z) : option Z :=
  if Bool.eqb (0 <? dividend) (0 <? divisor)
  then div_s64 (s64_of (dividend + Z.quot divisor 2)) divisor
  else div_s64 (s64_of (dividend - Z.quot divisor 2)) divisor.
Definition roundup_u64 (x y : Z) : option Z := (fun q => u64 (q * y)) <$> DIV_U64_ROUND_UP x y.

(** ** [math.h] *)

Definition round_mask (y : Z) : Z := u64 (y - 1).
Definition round_up (x y : Z) : Z := u64 (Z.lor (u64 (x - 1)) (round_mask y) + 1).
Definition round_down (x y : Z) : Z := Z.land x (u64 (Z.lnot (round_mask y))).
Definition DIV_ROUND_UP_POW2 (n d : Z) : option Z :=
  if d =? 0 then None else Some (u64 (n / d + Z.b2z (negb (Z.land n (d - 1) =? 0)))).
Definition roundup (x y : Z) : option Z :=
  if y =? 0 then None else Some (u64 (u64 (x + u64 (y - 1)) / y * y)).
Definition rounddown (x y : Z) : option Z := if y =? 0 then None else Some (u64 (x - x mod y)).
Definition mult_frac (x n d : Z) : option Z :=
  if d =? 0 then None
  else
    let q := x / d in
    let r := x mod d in
    Some (u64 (u64 (q * n) + u64 (r * n) / d)).
Definition abs_diff (a b : Z) : Z := if b <? a then u64 (a - b) else u64 (b - a).
Definition reciprocal_scale (val ep_ro : Z) : Z := u32 (Z.shiftr (u64 (val * ep_ro)) 32).

(** ** Halves *)

Lemma low_range z : 0 <= low z < 2 ^ 32.
Proof. apply Z.mod_pos_bound. lia. Qed.

Lemma high_range z : 0 <= high z < 2 ^ 32.
Proof. apply Z.mod_pos_bound. lia. Qed.

Lemma halves_join z : 0 <= z < 2 ^ 64 -> z = high z * 2 ^ 32 + low z.
Proof.
  intros Hz. unfold high, low, u32. rewrite Z.shiftr_div_pow2 by lia.
  rewrite (Z.mod_small (z / 2 ^ 32)); [|split; [apply Z.div_pos; lia|apply Z.div_lt_upper_bound; lia]].
  rewrite (Z.div_mod z (2 ^ 32)) at 1 by lia. lia.
Qed.

Lemma lor_disjoint h l n : 0 <= n -> 0 <= l < 2 ^ n -> Z.lor (Z.shiftl h n) l = h * 2 ^ n + l.
Proof.
  intros Hn Hl. rewrite <-Z.add_lor_land, Z.shiftl_mul_pow2 by done.
  assert (Z.land (h * 2 ^ n) l = 0) as ->; [|lia].
  apply Z.bits_inj'. intros i Hi. rewrite Z.land_spec, Z.bits_0.
  destruct (Z.lt_ge_cases i n).
  - by rewrite Z.mul_pow2_bits_low.
  - rewrite andb_comm. destruct (decide (l = 0)) as [->|]; [by rewrite Z.bits_0|].
    rewrite (Z.bits_above_log2 l i); [done|lia|].
    enough (Z.log2 l < n) by lia. apply Z.log2_lt_pow2; lia.
Qed.

Lemma halves_low h z : halves h z = u32 h * 2 ^ 32 + low z.
Proof. unfold halves, low. apply lor_disjoint; [lia|]. apply u32_range. Qed.

Lemma shiftr_high z : 0 <= z < 2 ^ 64 -> Z.shiftr z 32 = high z.
Proof.
  intros Hz. unfold high. rewrite u32_id; [done|]. rewrite Z.shiftr_div_pow2 by lia.
  split; [apply Z.div_pos; lia|apply Z.div_lt_upper_bound; lia].
Qed.

Lemma mul_u32_u32_value a b :
  0 <= a < 2 ^ 32 -> 0 <= b < 2 ^ 32 ->
  mul_u32_u32 a b = a * b /\ 0 <= a * b <= (2 ^ 32 - 1) * (2 ^ 32 - 1).
Proof.
  intros Ha Hb. assert (0 <= a * b <= (2 ^ 32 - 1) * (2 ^ 32 - 1)) by nia.
  split; [|done]. apply u64_id. lia.
Qed.

(** The halves of a number below [2 ^ 64], named. *)
Ltac split_halves z :=
  let h := fresh "h" in let l := fresh "l" in
  let Hh := fresh "Hh" in let Hl := fresh "Hl" in let Hz := fresh "Hz" in
  assert (Hz : z = high z * 2 ^ 32 + low z) by (apply halves_join; lia);
  pose proof (high_range z) as Hh; pose proof (low_range z) as Hl;
  set (high z) as h in *; set (low z) as l in *; clearbody h l.

(** A sum [z] of halves, its low half the digit and its high half the carry. *)
Ltac carry z c :=
  let Hc := fresh "Hc" in
  rewrite (shiftr_high z) by lia;
  fold (low z); remember z as c eqn:Hc;
  split_halves c.

Lemma mul_u64_u64_product a b :
  0 <= a < 2 ^ 64 -> 0 <= b < 2 ^ 64 ->
  let '(rh, rl) := mul_u64_u64 a b in
  0 <= rh < 2 ^ 64 /\ 0 <= rl < 2 ^ 64 /\ rh * 2 ^ 64 + rl = a * b.
Proof.
  intros Ha Hb. unfold mul_u64_u64. rewrite !halves_low.
  assert (0 <= a * b < 2 ^ 128) as Hab by nia.
  split_halves a. split_halves b.
  destruct (mul_u32_u32_value l l0) as [-> ?]; [done..|].
  destruct (mul_u32_u32_value l h0) as [-> ?]; [done..|].
  destruct (mul_u32_u32_value h l0) as [-> ?]; [done..|].
  destruct (mul_u32_u32_value h h0) as [-> ?]; [done..|].
  assert (a * b = h * h0 * 2 ^ 64 + (h * l0 + l * h0) * 2 ^ 32 + l * l0) as Hprod by (subst; ring).
  set (l * l0) as p in *. set (l * h0) as q in *. set (h * l0) as r in *. set (h * h0) as s in *.
  clearbody p q r s.
  split_halves p. split_halves q. split_halves r. split_halves s.
  rewrite (u64_id (h1 + l2 + l3)) by lia.
  carry (h1 + l2 + l3) c.
  rewrite (u64_id (h5 + h2 + h3 + l4)) by lia.
  carry (h5 + h2 + h3 + l4) c'.
  set (a * b) as ab in *. clearbody ab. clear a b Ha Hb Hz Hz0.
  assert (h6 + h4 < 2 ^ 32) by lia. rewrite (u32_id (h6 + h4)) by lia. lia.
Qed.

Lemma u128_product a b : 0 <= a < 2 ^ 64 -> 0 <= b < 2 ^ 64 -> u128 (a * b) = a * b.
Proof. intros. unfold u128. apply Z.mod_small. nia. Qed.

(** Shifting a 128-bit number given by its halves. *)
Lemma shift_words h l n :
  0 <= h < 2 ^ 64 -> 0 <= l < 2 ^ 64 -> 0 < n < 64 ->
  u64 (Z.shiftr (h * 2 ^ 64 + l) n) = Z.lor (Z.shiftr l n) (u64 (Z.shiftl h (64 - n))).
Proof.
  intros Hh Hl Hn. rewrite <-(lor_disjoint h l 64) by lia. unfold u64.
  apply Z.bits_inj'. intros i Hi. rewrite Z.lor_spec, Z.shiftr_spec by done.
  destruct (Z.lt_ge_cases i 64).
  - rewrite !Z.mod_pow2_bits_low, Z.shiftr_spec, Z.lor_spec, !Z.shiftl_spec by lia.
    rewrite orb_comm. do 2 f_equal. lia.
  - rewrite !Z.mod_pow2_bits_high by lia. rewrite orb_false_r. symmetry.
    destruct (decide (l = 0)) as [->|]; [apply Z.bits_0|].
    apply Z.bits_above_log2; [lia|]. enough (Z.log2 l < 64) by lia. apply Z.log2_lt_pow2; lia.
Qed.

Lemma mul_shr_limbs a b shift :
  0 <= a < 2 ^ 64 -> 0 <= b < 2 ^ 64 -> 0 <= shift < 128 ->
  mul_u64_u64_shr a b shift = mul_u64_u64_shr_128 a b shift.
Proof.
  intros Ha Hb Hs. unfold mul_u64_u64_shr, mul_u64_u64_shr_128. rewrite u128_product by done.
  pose proof (mul_u64_u64_product a b Ha Hb) as Hp.
  destruct (mul_u64_u64 a b) as [rh rl]. destruct Hp as (Hh & Hl & <-).
  repeat case_match; [..|].
  - assert (shift = 0) as -> by lia. rewrite Z.shiftr_0_r. unfold u64.
    rewrite Z.add_comm, Z.mod_add, Z.mod_small by lia. done.
  - rewrite shift_words by lia. done.
  - assert (Z.land shift 63 = shift - 64) as ->.
    { change 63 with (Z.ones 6). rewrite Z.land_ones by lia. change (2 ^ 6) with 64.
      rewrite <-(Z.mod_add _ (-1)) by lia. apply Z.mod_small. lia. }
    rewrite !Z.shiftr_div_pow2 by lia.
    replace (2 ^ shift) with (2 ^ 64 * 2 ^ (shift - 64)) by (rewrite <-Z.pow_add_r by lia; f_equal; lia).
    rewrite <-Z.div_div, Z.add_comm, Z.div_add, (Z.div_small rl) by lia. rewrite Z.add_0_l.
    symmetry. apply u64_id. split; [apply Z.div_pos; lia|].
    apply Z.div_lt_upper_bound; nia.
Qed.

(** For shifts up to 32. *)
Lemma mul_u32_shr_limbs a mul shift :
  0 <= a < 2 ^ 64 -> 0 <= mul < 2 ^ 32 -> 0 <= shift <= 32 ->
  mul_u64_u32_shr a mul shift = mul_u64_u32_shr_128 a mul shift.
Proof.
  intros Ha Hm Hs. unfold mul_u64_u32_shr, mul_u64_u32_shr_128. rewrite u128_product by lia.
  fold (high a) (low a). pose proof (halves_join a Ha) as Hj.
  pose proof (high_range a) as Hh. pose proof (low_range a) as Hl.
  set (high a) as h in *. set (low a) as l in *. clearbody h l.
  destruct (mul_u32_u32_value l mul) as [-> Hlm]; [done..|].
  destruct (mul_u32_u32_value h mul) as [-> Hhm]; [done..|].
  rewrite Z.shiftl_mul_pow2, !Z.shiftr_div_pow2 by lia.
  assert (0 < 2 ^ shift) by lia.
  assert (a * mul = l * mul + h * mul * 2 ^ (32 - shift) * 2 ^ shift) as ->.
  { rewrite <-Z.mul_assoc, <-Z.pow_add_r by lia. replace (32 - shift + shift) with 32 by lia. lia. }
  rewrite Z.div_add by lia. case_match.
  - assert (h = 0) as -> by lia. rewrite !Z.mul_0_l, Z.add_0_r. symmetry. apply u64_id.
    split; [apply Z.div_pos; lia|]. apply Z.div_lt_upper_bound; nia.
  - unfold u64. by rewrite Z.add_mod_idemp_r.
Qed.

Lemma s64_of_cong z : u64 (s64_of z) = u64 z.
Proof.
  unfold s64_of. case_match; unfold u64 at 1 2; [apply Z.mod_mod; lia|].
  rewrite <-(Z.mod_add _ 1) by lia. rewrite Z.mul_1_l, Z.sub_add. apply Z.mod_mod. lia.
Qed.

Lemma s64_of_id z : - 2 ^ 63 <= z < 2 ^ 63 -> s64_of z = z.
Proof.
  intros Hz. unfold s64_of, u64. destruct (Z.lt_ge_cases z 0).
  - rewrite <-(Z.mod_add _ 1), Z.mod_small by lia. case_match; lia.
  - rewrite Z.mod_small by lia. case_match; lia.
Qed.

(** The sign is taken off and put back, so the product is rounded towards zero. *)
Lemma mul_s64_quot a b shift :
  - 2 ^ 63 < a < 2 ^ 63 -> 0 <= b < 2 ^ 64 -> 0 <= shift < 128 ->
  Z.abs (Z.quot (a * b) (2 ^ shift)) < 2 ^ 63 ->
  mul_s64_u64_shr a b shift = Some (u64 (Z.quot (a * b) (2 ^ shift))).
Proof.
  intros Ha Hb Hs Hq. unfold mul_s64_u64_shr, abs_s64, neg_s64. assert (0 < 2 ^ shift) by lia.
  assert (forall x, 0 <= x < 2 ^ 63 -> mul_u64_u64_shr (u64 x) b shift = u64 (Z.quot (x * b) (2 ^ shift))) as Hmul.
  { intros x Hx. rewrite (u64_id x), mul_shr_limbs by lia. unfold mul_u64_u64_shr_128.
    by rewrite u128_product, Z.shiftr_div_pow2, <-Z.quot_div_nonneg by nia. }
  case_match; [|cbn; by rewrite Hmul by lia].
  rewrite (proj2 (Z.eqb_neq _ _)) by lia. cbn. rewrite Hmul, Z.mul_opp_l, Z.quot_opp_l by lia.
  assert (Z.quot (a * b) (2 ^ shift) <= 0).
  { rewrite <-(Z.opp_involutive (a * b)), Z.quot_opp_l by lia.
    assert (0 <= Z.quot (- (a * b)) (2 ^ shift)) by (apply Z.quot_pos; nia). lia. }
  set (z := Z.quot _ _) in *. rewrite u64_id by lia. rewrite s64_of_id by lia.
  rewrite (proj2 (Z.eqb_neq _ _)) by lia. cbn. do 2 f_equal. lia.
Qed.

(** ** Rounding *)

Lemma ceil_bounds n d : 0 < d -> n <= (n + d - 1) / d * d < n + d.
Proof.
  intros Hd. pose proof (Z.div_mod (n + d - 1) d). pose proof (Z.mod_pos_bound (n + d - 1) d). lia.
Qed.

Lemma wrapped_sum n d :
  0 <= n < 2 ^ 64 -> 0 < d < 2 ^ 64 -> u64 (u64 (n + d) - 1) = u64 (n + d - 1).
Proof. intros. unfold u64. by rewrite Zminus_mod_idemp_l. Qed.

(** The quotient rounded up, as long as the sum does not wrap. *)
Lemma round_up_ceil n d :
  0 <= n -> 0 < d < 2 ^ 64 -> n + d <= 2 ^ 64 ->
  exists q, DIV64_U64_ROUND_UP n d = Some q /\ n <= q * d < n + d.
Proof.
  intros Hn Hd Hs. exists ((n + d - 1) / d). split; [|apply ceil_bounds; lia].
  unfold DIV64_U64_ROUND_UP, div64_u64. rewrite wrapped_sum, u64_id by lia.
  by rewrite (proj2 (Z.eqb_neq _ _)) by lia.
Qed.

Lemma div_u64_agrees n d : div_u64 n d = div64_u64 n d.
Proof. unfold div_u64, div_u64_rem, div64_u64. by destruct (d =? 0). Qed.

(** [roundup_u64] gives the least multiple of [y] that is not below [x]. *)
Lemma roundup_least x y :
  0 <= x -> 0 < y < 2 ^ 32 -> x + y <= 2 ^ 64 ->
  exists r, roundup_u64 x y = Some r /\ (y | r) /\ x <= r < x + y /\
    forall r', (y | r') -> x <= r' -> r <= r'.
Proof.
  intros Hx Hy Hs. destruct (round_up_ceil x y) as (q & Hq & Hb); [lia..|].
  exists (q * y). unfold roundup_u64, DIV_U64_ROUND_UP. rewrite div_u64_agrees.
  change (div64_u64 _ _) with (DIV64_U64_ROUND_UP x y). rewrite Hq. cbn. rewrite u64_id by lia.
  split; [done|]. split; [by exists q|]. split; [done|].
  intros r' [k ->] Hk. assert (q <= k); nia.
Qed.

(** The sum wraps for a dividend near the top, and the result is far too small. *)
Lemma round_up_wraps n d :
  0 <= n < 2 ^ 64 -> 0 < d < 2 ^ 64 -> 2 ^ 64 < n + d ->
  exists q, DIV64_U64_ROUND_UP n d = Some q /\ q * d < n.
Proof.
  intros Hn Hd Hs. exists ((n + d - 1 - 2 ^ 64) / d).
  unfold DIV64_U64_ROUND_UP, div64_u64. rewrite wrapped_sum by done.
  rewrite (proj2 (Z.eqb_neq _ _)) by lia. unfold u64.
  rewrite <-(Z.mod_add _ (-1)) by lia. rewrite Z.mod_small by lia.
  split; [do 2 f_equal; lia|].
  pose proof (Z.mul_div_le (n + d - 1 - 2 ^ 64) d). lia.
Qed.

(** Within half a divisor of the dividend, whatever the signs. *)
Lemma half_quot n d r :
  d <> 0 -> (0 <= n /\ 0 < d \/ n <= 0 /\ d < 0) -> r = Z.quot (n + Z.quot d 2) d ->
  2 * Z.abs (r * d - n) <= Z.abs d.
Proof.
  intros Hd Hs ->. pose proof (Z.quot_rem' (n + Z.quot d 2) d). pose proof (Z.quot_rem' d 2).
  destruct Hs as [[? ?]|[? ?]].
  - pose proof (Z.rem_bound_pos (n + Z.quot d 2) d). pose proof (Z.rem_bound_pos d 2).
    assert (0 <= Z.quot d 2) by (apply Z.quot_pos; lia). lia.
  - destruct (Z.rem_bound_pos_neg d 2); [lia..|]. assert (Z.quot d 2 <= 0) by lia.
    destruct (Z.rem_bound_neg_neg (n + Z.quot d 2) d); lia.
Qed.

Lemma round_closest x d :
  d <> 0 -> Z.abs x + Z.abs d < 2 ^ 63 ->
  exists r, DIV_S64_ROUND_CLOSEST x d = Some r /\ 2 * Z.abs (r * d - x) <= Z.abs d.
Proof.
  intros Hd Hs. unfold DIV_S64_ROUND_CLOSEST, div_s64, div_s64_rem.
  assert (Z.abs (Z.quot d 2) <= Z.abs d) by (pose proof (Z.quot_rem' d 2); pose proof (Z.rem_bound_abs d 2); lia).
  case_match eqn:Hsame; rewrite s64_of_id by lia;
    (rewrite (proj2 (orb_false_iff _ _)); [|split; [|apply andb_false_iff]; lia]);
    eexists; (split; [done|]); cbn.
  - apply (half_quot x d); [done| |done]. apply eqb_prop in Hsame. lia.
  - rewrite <-(Z.abs_opp d). apply eqb_false_iff in Hsame.
    replace (x - Z.quot d 2) with (x + Z.quot (- d) 2) by (rewrite Z.quot_opp_l; lia).
    set (Z.quot (x + Z.quot (- d) 2) (- d)) as r.
    replace (Z.quot (x + Z.quot (- d) 2) d * d - x) with (r * (- d) - x); [|subst r; rewrite Z.quot_opp_r; lia].
    apply half_quot; [lia| |done]. lia.
Qed.

(** ** Powers of two *)

Lemma land_mask n k : 0 <= k -> Z.land n (2 ^ k - 1) = n mod 2 ^ k.
Proof. intros. rewrite <-Z.land_ones by done. f_equal. rewrite Z.ones_equiv. lia. Qed.

Lemma testbit_ones k i : 0 <= k -> 0 <= i -> Z.testbit (2 ^ k - 1) i = (i <? k).
Proof.
  intros Hk Hi. replace (2 ^ k - 1) with (Z.ones k) by (rewrite Z.ones_equiv; lia).
  by apply Z.testbit_ones_nonneg.
Qed.

Lemma testbit_u64 z i : 0 <= i -> Z.testbit (u64 z) i = Z.testbit z i && (i <? 64).
Proof.
  intros Hi. unfold u64. destruct (Z.ltb_spec i 64).
  - by rewrite Z.mod_pow2_bits_low, andb_true_r by lia.
  - by rewrite Z.mod_pow2_bits_high, andb_false_r by lia.
Qed.

Lemma round_down_pow2 x k : 0 <= x < 2 ^ 64 -> 0 <= k < 64 -> round_down x (2 ^ k) = x / 2 ^ k * 2 ^ k.
Proof.
  intros Hx Hk. rewrite <-Z.shiftr_div_pow2, <-Z.shiftl_mul_pow2 by lia.
  unfold round_down, round_mask.
  assert (0 < 2 ^ k < 2 ^ 64) by (split; [lia|apply Z.pow_lt_mono_r; lia]).
  rewrite (u64_id (2 ^ k - 1)) by lia.
  apply Z.bits_inj'. intros i Hi. assert (Z.testbit x i = Z.testbit x i && (i <? 64)) as Hbit
    by (rewrite <-testbit_u64, u64_id by lia; done).
  rewrite Z.land_spec, testbit_u64, Z.lnot_spec, testbit_ones by lia.
  rewrite Z.shiftl_spec by lia. destruct (Z.ltb_spec i k); cbn [negb].
  - rewrite (Z.testbit_neg_r _ (i - k)) by lia. by rewrite !andb_false_r.
  - by rewrite Z.shiftr_spec, Z.sub_add by lia.
Qed.

Lemma lor_mask a k : 0 <= k -> Z.lor a (2 ^ k - 1) = a / 2 ^ k * 2 ^ k + (2 ^ k - 1).
Proof.
  intros Hk. assert (0 < 2 ^ k) by lia. rewrite <-lor_disjoint by lia.
  rewrite <-Z.shiftr_div_pow2 by lia. apply Z.bits_inj'. intros i Hi.
  rewrite !Z.lor_spec, testbit_ones by lia. destruct (Z.ltb_spec i k); [by rewrite !orb_true_r|].
  by rewrite Z.shiftl_spec, Z.shiftr_spec, Z.sub_add by lia.
Qed.

Lemma round_up_pow2 x k :
  0 <= x -> 0 <= k < 64 -> x + 2 ^ k <= 2 ^ 64 -> round_up x (2 ^ k) = (x + 2 ^ k - 1) / 2 ^ k * 2 ^ k.
Proof.
  intros Hx Hk Hs. unfold round_up, round_mask. assert (0 < 2 ^ k) by lia.
  rewrite (u64_id (2 ^ k - 1)), lor_mask by lia.
  destruct (decide (x = 0)) as [->|].
  - rewrite (Z.div_small (0 + 2 ^ k - 1)) by lia. change (u64 (0 - 1)) with (2 ^ 64 - 1).
    assert (2 ^ (64 - k) * 2 ^ k = 2 ^ 64) as Hp by (rewrite <-Z.pow_add_r by lia; f_equal; lia).
    replace (2 ^ 64 - 1) with (2 ^ k - 1 + (2 ^ (64 - k) - 1) * 2 ^ k) by (rewrite <-Hp; ring).
    rewrite Z.div_add, (Z.div_small (2 ^ k - 1)), Z.add_0_l, Z.mul_sub_distr_r, Hp by lia.
    unfold u64. apply Z.mod_divide; [lia|]. exists 1. lia.
  - rewrite (u64_id (x - 1)) by lia. replace (x + 2 ^ k - 1) with (x - 1 + 1 * 2 ^ k) by lia.
    rewrite Z.div_add by lia. pose proof (Z.mul_div_le (x - 1) (2 ^ k)).
    assert (0 <= (x - 1) / 2 ^ k) by (apply Z.div_pos; lia). rewrite u64_id by nia. lia.
Qed.

(** Rounding up without the sum that could overflow. *)
Lemma round_up_pow2_ceil n k :
  0 <= n < 2 ^ 64 -> 0 <= k < 64 ->
  exists q, DIV_ROUND_UP_POW2 n (2 ^ k) = Some q /\ n <= q * 2 ^ k < n + 2 ^ k.
Proof.
  intros Hn Hk. unfold DIV_ROUND_UP_POW2. assert (0 < 2 ^ k) by lia.
  rewrite (proj2 (Z.eqb_neq _ _)), land_mask by lia.
  pose proof (Z.div_mod n (2 ^ k)). pose proof (Z.mod_pos_bound n (2 ^ k)).
  assert (0 <= n / 2 ^ k <= n) by (split; [apply Z.div_pos; lia|apply Z.div_le_upper_bound; nia]).
  eexists. split; [done|]. destruct (Z.eqb_spec (n mod 2 ^ k) 0); cbn [negb Z.b2z].
  - rewrite u64_id by lia. lia.
  - assert (n / 2 ^ k < n \/ 2 ^ k = 1) as [|Hone] by nia.
    + rewrite u64_id by lia. lia.
    + rewrite Hone, Z.mod_1_r in *. lia.
Qed.

(** The fraction of a number without the product of the number and the numerator. *)
Lemma mult_frac_exact x n d :
  0 <= x -> 0 <= n -> 0 < d -> x mod d * n < 2 ^ 64 -> mult_frac x n d = Some (u64 (x * n / d)).
Proof.
  intros Hx Hn Hd Hr. unfold mult_frac. rewrite (proj2 (Z.eqb_neq _ _)) by lia.
  pose proof (Z.mod_pos_bound x d Hd). rewrite (u64_id (x mod d * n)) by nia.
  assert (x * n = x / d * n * d + x mod d * n) as -> by (pose proof (Z.div_mod x d); nia).
  rewrite Z.div_add_l by lia. unfold u64. by rewrite Z.add_mod_idemp_l.
Qed.

(** A value is scaled into the range, in order. *)
Lemma reciprocal_scale_range val ep_ro :
  0 <= val < 2 ^ 32 -> 0 < ep_ro < 2 ^ 32 ->
  reciprocal_scale val ep_ro = val * ep_ro / 2 ^ 32 /\ 0 <= val * ep_ro / 2 ^ 32 < ep_ro.
Proof.
  intros Hv He. unfold reciprocal_scale. rewrite u64_id by nia. rewrite Z.shiftr_div_pow2 by lia.
  assert (0 <= val * ep_ro / 2 ^ 32 < ep_ro); [|rewrite u32_id by lia; lia].
  split; [apply Z.div_pos; nia|apply Z.div_lt_upper_bound; nia].
Qed.

(** ** Claims *)

(** Rounding to powers of two: [round_down] and [round_up] give the multiples next to a
    number, as long as there is one above it, and [DIV_ROUND_UP_POW2] rounds the quotient
    up for every number, also where [DIV64_U64_ROUND_UP] would wrap around. *)
Theorem pow2_rounding x k :
  0 <= x < 2 ^ 64 -> 0 <= k < 64 ->
  round_down x (2 ^ k) = x / 2 ^ k * 2 ^ k /\
  (x + 2 ^ k <= 2 ^ 64 -> round_up x (2 ^ k) = (x + 2 ^ k - 1) / 2 ^ k * 2 ^ k) /\
  exists q, DIV_ROUND_UP_POW2 x (2 ^ k) = Some q /\ x <= q * 2 ^ k < x + 2 ^ k.
Proof.
  intros Hx Hk. split_and!; [by apply round_down_pow2|intros; apply round_up_pow2; lia|by apply round_up_pow2_ceil].
Qed.

Lemma pow2_rounding_witness :
  round_down (2 ^ 64 - 1) (2 ^ 12) = (2 ^ 64 - 1) / 2 ^ 12 * 2 ^ 12 /\
  (2 ^ 64 - 1 + 2 ^ 12 <= 2 ^ 64 ->
    round_up (2 ^ 64 - 1) (2 ^ 12) = (2 ^ 64 - 1 + 2 ^ 12 - 1) / 2 ^ 12 * 2 ^ 12) /\
  exists q, DIV_ROUND_UP_POW2 (2 ^ 64 - 1) (2 ^ 12) = Some q /\
    2 ^ 64 - 1 <= q * 2 ^ 12 < 2 ^ 64 - 1 + 2 ^ 12.
Proof. apply (pow2_rounding (2 ^ 64 - 1) 12); lia. Defined.

(** C39. Multiplication with a shift gives the 64 low bits of the shifted 128-bit product, in
    the version on 32-bit halves as in the one on 128-bit integers: no carry is lost. *)
Theorem mul_shr_exact a b shift :
  0 <= a < 2 ^ 64 -> 0 <= b < 2 ^ 64 -> 0 <= shift < 128 ->
  mul_u64_u64_shr a b shift = u64 (a * b / 2 ^ shift) /\
  mul_u64_u64_shr_128 a b shift = u64 (a * b / 2 ^ shift).
Proof.
  intros Ha Hb Hs. rewrite mul_shr_limbs by done. unfold mul_u64_u64_shr_128.
  rewrite u128_product, Z.shiftr_div_pow2 by (done || lia). done.
Qed.

Lemma mul_shr_exact_witness :
  mul_u64_u64_shr (2 ^ 64 - 1) (2 ^ 64 - 3) 70 = u64 ((2 ^ 64 - 1) * (2 ^ 64 - 3) / 2 ^ 70) /\
  mul_u64_u64_shr_128 (2 ^ 64 - 1) (2 ^ 64 - 3) 70 = u64 ((2 ^ 64 - 1) * (2 ^ 64 - 3) / 2 ^ 70).
Proof. apply (mul_shr_exact (2 ^ 64 - 1) (2 ^ 64 - 3) 70); lia. Defined.

(** [mul_u64_u32_div] divides the full 96-bit product, so nothing is lost to an overflow
    of the product, and gives the 64 low bits of the quotient. *)
Theorem mul_div_exact do_div a mul divisor :
  do_div_law do_div ->
  0 <= a < 2 ^ 64 -> 0 <= mul < 2 ^ 32 -> 0 < divisor < 2 ^ 32 ->
  mul_u64_u32_div do_div a mul divisor = u64 (a * mul / divisor).
Proof.
  intros Hdo Ha Hm Hd. unfold mul_u64_u32_div. split_halves a.
  destruct (mul_u32_u32_value l mul) as [-> Hlm]; [done..|].
  destruct (mul_u32_u32_value h mul) as [-> Hhm]; [done..|].
  assert (a * mul = h * mul * 2 ^ 32 + l * mul) as -> by (subst; ring).
  set (l * mul) as p in *. set (h * mul) as q in *. clearbody p q.
  pose proof (fun m => halves_low m p) as Hjoin. split_halves p.
  rewrite (u64_id (q + h0)) by lia. set (q + h0) as r.
  rewrite (Hdo r divisor) by lia. rewrite Hjoin.
  pose proof (Z.mod_pos_bound r divisor). pose proof (Z.div_mod r divisor).
  assert (0 <= r / divisor) by (apply Z.div_pos; lia).
  set (r / divisor) as d1 in *. set (r mod divisor) as m1 in *.
  rewrite (u32_id m1) by lia.
  rewrite Hdo by lia. set (m1 * 2 ^ 32 + l0) as r2.
  assert (q * 2 ^ 32 + p = d1 * 2 ^ 32 * divisor + r2) as -> by lia.
  rewrite Z.div_add_l by lia.
  assert (0 <= r2 / divisor < 2 ^ 32).
  { split; [apply Z.div_pos; lia|]. apply Z.div_lt_upper_bound; nia. }
  rewrite halves_low. unfold low. rewrite (u32_id (r2 / divisor)) by lia. unfold u64, u32.
  pose proof (Z.mod_pos_bound d1 (2 ^ 32)). pose proof (Z.div_mod d1 (2 ^ 32)).
  apply (Z.mod_unique _ _ (d1 / 2 ^ 32)); lia.
Qed.

Lemma mul_div_exact_witness :
  do_div_law (fun n base => (n / base, n mod base)) /\
  mul_u64_u32_div (fun n base => (n / base, n mod base)) (2 ^ 64 - 1) 1000 4096 =
    u64 ((2 ^ 64 - 1) * 1000 / 4096).
Proof. split; [by intros n base|]. apply mul_div_exact; [by intros n base|lia..]. Defined.

(** [DIV64_U64_ROUND_UP] rounds the quotient up for exactly those operands whose sum is
    at most [2 ^ 64]; beyond them the sum wraps around and the result is too small. *)
Theorem round_up_exact n d :
  0 <= n < 2 ^ 64 -> 0 < d < 2 ^ 64 ->
  exists q, DIV64_U64_ROUND_UP n d = Some q /\ (n <= q * d < n + d <-> n + d <= 2 ^ 64).
Proof.
  intros Hn Hd. destruct (Z.le_gt_cases (n + d) (2 ^ 64)) as [Hs|Hs].
  - destruct (round_up_ceil n d) as (q & Hq & Hb); [lia..|]. by exists q.
  - destruct (round_up_wraps n d) as (q & Hq & Hb); [lia..|]. exists q. split; [done|lia].
Qed.

Lemma round_up_exact_witness :
  exists q, DIV64_U64_ROUND_UP (2 ^ 64 - 1) 2 = Some q /\
    (2 ^ 64 - 1 <= q * 2 < 2 ^ 64 - 1 + 2 <-> 2 ^ 64 - 1 + 2 <= 2 ^ 64).
Proof. apply (round_up_exact (2 ^ 64 - 1) 2); lia. Defined.
