(* ===== verification/Stdio.v ===== *)
(** * Formatted output of the boot loaders: [rust/arch/boot/stdio.c]

    The loaders are linked for a 64-bit Alpha: [long] and pointers have 64 bits.  The
    state of [vsprintf] is the text written to [buf] so far, the variable arguments that
    are left and what was stored through the pointers of [%n].  The format and strings
    are the characters before the terminating NUL.  A signed overflow and an access
    outside [tmp] are faults. *)

From S2P Require Import Prelude.
From S2P Require Import Math64.
From Stdlib Require Import Ascii String.
From stdpp Require Import strings.

Local Open Scope char_scope.
Local Open Scope Z_scope.

Abbreviation chars := (list ascii).
Definition NUL : ascii := "000".
Definition code (c : ascii) : Z := Z.of_N (N_of_ascii c).
Definition is_digit (c : ascii) : bool := (code "0" <=? code c) && (code c <=? code "9").
Definition is_char (c d : ascii) : bool := bool_decide (c = d).

(** A variable argument: an [int], a [long] or [size_t], a [long long], each as its bits,
    a pointer, a string at an address, a pointer to an integer. *)
Inductive arg :=
  | VInt (bits : Z) | VLong (bits : Z) | VLLong (bits : Z)
  | VPtr (addr : Z) | VStr (addr : Z) (s : chars)
  | VIntp (p : positive) | VLongp (p : positive) | VSizep (p : positive).

Record out := Out { text : chars; args : list arg; stored : list (positive * Z) }.
#[export] Instance eta_out : Eta out := fun o => Out (text o) (args o) (stored o).

Abbreviation W := (M out).

(** An operation on [int] or [long long] whose value must fit. *)
Definition int (z : Z) : W Z :=
  if (- 2 ^ 31 <=? z) && (z <? 2 ^ 31) then ret z else fail_with Overflow.
Definition llong (z : Z) : W Z :=
  if (- 2 ^ 63 <=? z) && (z <? 2 ^ 63) then ret z else fail_with Overflow.
Definition s32_of (z : Z) : Z := let m := u32 z in if m <? 2 ^ 31 then m else m - 2 ^ 32.
Definition s16_of (z : Z) : Z := let m := u16 z in if m <? 2 ^ 15 then m else m - 2 ^ 16.

(** [*str++ = c] *)
Definition put (c : ascii) : W unit := modify (fun o => o <| text ::= fun t => t ++ [c] |>).

(** ** Strings *)

Fixpoint strnlen (s : chars) (count : Z) : Z :=
  match s with
  | [] => 0
  | c :: s' => if (count =? 0) || is_char c NUL then 0 else 1 + strnlen s' (count - 1)
  end.

Definition peek (fmt : chars) : ascii := match fmt with [] => NUL | c :: _ => c end.

Fixpoint skip_digits (s : chars) (i : Z) : W (Z * chars) :=
  match s with
  | c :: s' =>
      if is_digit c then
        let* i := int (i * 10) in
        let* i := int (i + code c) in
        let* i := int (i - code "0") in
        skip_digits s' i
      else ret (i, s)
  | [] => ret (i, s)
  end.
Definition skip_atoi (s : chars) : W (Z * chars) := skip_digits s 0.

(** ** Numbers *)

Definition ZEROPAD := 1.
Definition SIGN := 2.
Definition PLUS := 4.
Definition SPACE := 8.
Definition LEFT := 16.
Definition SPECIAL := 32.
Definition LARGE := 64.

Definition lower : chars := list_ascii_of_string "0123456789abcdefghijklmnopqrstuvwxyz".
Definition upper : chars := list_ascii_of_string "0123456789ABCDEFGHIJKLMNOPQRSTUVWXYZ".

(** A read of a constant array; a store to [tmp]. *)
Definition char_at (l : chars) (n : Z) : W ascii :=
  match l !! Z.to_nat n with
  | Some c => if n <? 0 then fail_with Overrun else ret c
  | None => fail_with Overrun
  end.
Definition push (tmp : chars) (c : ascii) : W chars :=
  if (length tmp <? 66)%nat then ret (tmp ++ [c]) else fail_with Overrun.

(** [while (num != 0) tmp[i++] = digits[do_div(num, base)];] *)
Fixpoint div_loop (fuel : nat) (digits : chars) (num base : Z) (tmp : chars) : W chars :=
  if num =? 0 then ret tmp
  else
    match fuel with
    | O => fail_with OutOfFuel
    | S fuel =>
        let* c := char_at digits (num mod base) in
        let* tmp := push tmp c in
        div_loop fuel digits (num / base) base tmp
    end.

(** [while (lim < x--) *str++ = c;], the last value of [x]. *)
Fixpoint fill_loop (fuel : nat) (lim x : Z) (c : ascii) : W Z :=
  let* x' := int (x - 1) in
  if lim <? x then
    match fuel with
    | O => fail_with OutOfFuel
    | S fuel => put c ;;; fill_loop fuel lim x' c
    end
  else ret x'.
Definition fill (lim x : Z) (c : ascii) : W Z := fill_loop (Z.to_nat (x - lim)) lim x c.

(** [while (i-- > 0) *str++ = tmp[i];] for [i] the number of characters in [tmp]. *)
Fixpoint put_reversed (i : nat) (tmp : chars) : W unit :=
  match i with
  | O => ret tt
  | S i =>
      let* c := char_at tmp (Z.of_nat i) in
      put c ;;; put_reversed i tmp
  end.

Definition put_sign (sign : option ascii) : W unit :=
  match sign with Some c => put c | None => ret tt end.

Definition number_sign (num size type : Z) : W (option ascii * Z * Z) :=
  if has type SIGN then
    if s64_of num <? 0 then
      let* num := llong (- s64_of num) in
      let* size := int (size - 1) in
      ret (Some "-", u64 num, size)
    else if has type PLUS then
      let* size := int (size - 1) in
      ret (Some "+", num, size)
    else if has type SPACE then
      let* size := int (size - 1) in
      ret (Some " ", num, size)
    else ret (None, num, size)
  else ret (None, num, size).

(** For a base that is not supported the pointer returned is null; the caller stores
    through it. *)
Definition number (num base size precision type : Z) : W unit :=
  let digits := if has type LARGE then upper else lower in
  let type := if has type LEFT then clrf type ZEROPAD else type in
  if (base <? 2) || (36 <? base) then fail_with NullDeref
  else
    let c := if has type ZEROPAD then "0" else " " in
    let* '(sign, num, size) := number_sign num size type in
    let* size :=
      if has type SPECIAL then
        if base =? 16 then int (size - 2) else if base =? 8 then int (size - 1) else ret size
      else ret size in
    let* tmp := if num =? 0 then push [] "0" else div_loop 66 digits num base [] in
    let i := Z.of_nat (length tmp) in
    let precision := if precision <? i then i else precision in
    let* size := int (size - precision) in
    let* size := if has type (ZEROPAD + LEFT) then ret size else fill 0 size " " in
    put_sign sign ;;;
    when_ (has type SPECIAL)
      (if base =? 8 then put "0"
       else when_ (base =? 16) (put "0" ;;; let* x := char_at digits 33 in put x)) ;;;
    let* size := if has type LEFT then ret size else fill 0 size c in
    let* _ := fill i precision "0" in
    put_reversed (length tmp) tmp ;;;
    let* _ := fill 0 size " " in
    ret tt.

(** ** Formats *)

Definition va_int : W Z :=
  let* l := gets args in
  match l with
  | VInt z :: l' => modify (fun o => o <| args := l' |>) ;;; ret (u32 z)
  | _ => fail_with BadVarArg
  end.
Definition va_long : W Z :=
  let* l := gets args in
  match l with
  | VLong z :: l' => modify (fun o => o <| args := l' |>) ;;; ret (u64 z)
  | _ => fail_with BadVarArg
  end.
Definition va_llong : W Z :=
  let* l := gets args in
  match l with
  | VLLong z :: l' => modify (fun o => o <| args := l' |>) ;;; ret (u64 z)
  | _ => fail_with BadVarArg
  end.
Definition va_ptr : W Z :=
  let* l := gets args in
  match l with
  | VPtr a :: l' | VStr a _ :: l' => modify (fun o => o <| args := l' |>) ;;; ret (u64 a)
  | _ => fail_with BadVarArg
  end.
Definition va_str : W (Z * chars) :=
  let* l := gets args in
  match l with
  | VStr a s :: l' => modify (fun o => o <| args := l' |>) ;;; ret (u64 a, s)
  | _ => fail_with BadVarArg
  end.

(** [%n]: the pointer is of the type the qualifier says. *)
Definition va_store (qualifier : ascii) (v : Z) : W unit :=
  let* l := gets args in
  let store p l' v := modify (fun o => o <| args := l' |> <| stored ::= cons (p, v) |>) in
  match l with
  | VLongp p :: l' => if is_char qualifier "l" then store p l' v else fail_with BadVarArg
  | VSizep p :: l' => if is_char qualifier "Z" then store p l' v else fail_with BadVarArg
  | VIntp p :: l' =>
      if is_char qualifier "l" || is_char qualifier "Z" then fail_with BadVarArg
      else store p l' (s32_of v)
  | _ => fail_with BadVarArg
  end.

(** The characters after [%]: flags, *)
Fixpoint get_flags (fmt : chars) (flags : Z) : chars * Z :=
  match fmt with
  | c :: fmt' =>
      if is_char c "-" then get_flags fmt' (setf flags LEFT)
      else if is_char c "+" then get_flags fmt' (setf flags PLUS)
      else if is_char c " " then get_flags fmt' (setf flags SPACE)
      else if is_char c "#" then get_flags fmt' (setf flags SPECIAL)
      else if is_char c "0" then get_flags fmt' (setf flags ZEROPAD)
      else (fmt, flags)
  | [] => (fmt, flags)
  end.

(** field width, *)
Definition get_width (fmt : chars) (flags : Z) : W (Z * Z * chars) :=
  if is_digit (peek fmt) then
    let* '(w, fmt) := skip_atoi fmt in
    ret (w, flags, fmt)
  else if is_char (peek fmt) "*" then
    let* v := va_int in
    let w := s32_of v in
    if w <? 0 then
      let* w := int (- w) in
      ret (w, setf flags LEFT, tail fmt)
    else ret (w, flags, tail fmt)
  else ret (-1, flags, fmt).

(** precision, *)
Definition get_precision (fmt : chars) : W (Z * chars) :=
  if is_char (peek fmt) "." then
    let fmt := tail fmt in
    let* '(p, fmt) :=
      if is_digit (peek fmt) then skip_atoi fmt
      else if is_char (peek fmt) "*" then
        let* v := va_int in
        ret (s32_of v, tail fmt)
      else ret (-1, fmt) in
    ret (if p <? 0 then 0 else p, fmt)
  else ret (-1, fmt).

(** and qualifier; NUL stands for none, ["q"] for [ll]. *)
Definition get_qualifier (fmt : chars) : ascii * chars :=
  let c := peek fmt in
  if is_char c "l" && is_char (peek (tail fmt)) "l" then ("q", tail (tail fmt))
  else if is_char c "h" || is_char c "l" || is_char c "L" || is_char c "Z" then (c, tail fmt)
  else (NUL, fmt).

(** The integer argument of a conversion, extended to 64 bits. *)
Definition get_num (qualifier : ascii) (flags : Z) : W Z :=
  if is_char qualifier "l" then
    let* num := va_long in ret (if has flags SIGN then u64 (s64_of num) else num)
  else if is_char qualifier "q" then
    let* num := va_llong in ret (if has flags SIGN then u64 (s64_of num) else num)
  else if is_char qualifier "Z" then va_long
  else if is_char qualifier "h" then
    let* v := va_int in
    let num := u16 v in
    ret (if has flags SIGN then u64 (s16_of num) else num)
  else
    let* num := va_int in ret (if has flags SIGN then u64 (s32_of num) else num).

(** [while (--x > 0) *str++ = ' ';] *)
Fixpoint spaces_loop (fuel : nat) (x : Z) : W Z :=
  let* x := int (x - 1) in
  if 0 <? x then
    match fuel with
    | O => fail_with OutOfFuel
    | S fuel => put " " ;;; spaces_loop fuel x
    end
  else ret x.
Definition spaces (x : Z) : W Z := spaces_loop (Z.to_nat x) x.

(** [for (i = 0; i < len; ++i) *str++ = *s++;] *)
Fixpoint put_string (len : nat) (s : chars) : W unit :=
  match len, s with
  | O, _ => ret tt
  | S len, c :: s => put c ;;; put_string len s
  | S _, [] => fail_with Overrun
  end.

Definition convert_char (flags field_width : Z) : W unit :=
  let* field_width := if has flags LEFT then ret field_width else spaces field_width in
  let* v := va_int in
  put (ascii_of_N (Z.to_N (u8 v))) ;;;
  let* _ := spaces field_width in
  ret tt.

Definition convert_string (flags field_width precision : Z) : W unit :=
  let* '(addr, s) := va_str in
  let s := if addr =? 0 then list_ascii_of_string "<NULL>" else s in
  let len := s32_of (strnlen s (u64 precision)) in
  let* field_width := if has flags LEFT then ret field_width else fill len field_width " " in
  put_string (Z.to_nat len) s ;;;
  let* _ := fill len field_width " " in
  ret tt.

Definition convert_pointer (flags field_width precision : Z) : W unit :=
  let '(field_width, flags) :=
    if field_width =? -1 then (16, setf flags ZEROPAD) else (field_width, flags) in
  let* num := va_ptr in
  number num 16 field_width precision flags.

Definition convert_integer (qualifier : ascii) (base flags field_width precision : Z) : W unit :=
  let* num := get_num qualifier flags in
  number num base field_width precision flags.

(** The conversion at the head of [fmt]; the rest of the format. *)
Definition convert (fmt : chars) (qualifier : ascii) (flags field_width precision : Z) : W chars :=
  let c := peek fmt in
  let integer base flags := convert_integer qualifier base flags field_width precision in
  if is_char c "c" then convert_char flags field_width ;;; ret (tail fmt)
  else if is_char c "s" then convert_string flags field_width precision ;;; ret (tail fmt)
  else if is_char c "p" then convert_pointer flags field_width precision ;;; ret (tail fmt)
  else if is_char c "n" then
    let* n := gets (fun o => Z.of_nat (length (text o))) in
    va_store qualifier n ;;; ret (tail fmt)
  else if is_char c "%" then put "%" ;;; ret (tail fmt)
  else if is_char c "o" then integer 8 flags ;;; ret (tail fmt)
  else if is_char c "X" then integer 16 (setf flags LARGE) ;;; ret (tail fmt)
  else if is_char c "x" then integer 16 flags ;;; ret (tail fmt)
  else if is_char c "d" || is_char c "i" then integer 10 (setf flags SIGN) ;;; ret (tail fmt)
  else if is_char c "u" then integer 10 flags ;;; ret (tail fmt)
  else
    put "%" ;;;
    if is_char c NUL then ret fmt else put c ;;; ret (tail fmt).

(** What follows a [%]. *)
Definition directive (fmt : chars) : W chars :=
  let '(fmt, flags) := get_flags fmt 0 in
  let* '(field_width, flags, fmt) := get_width fmt flags in
  let* '(precision, fmt) := get_precision fmt in
  let '(qualifier, fmt) := get_qualifier fmt in
  convert fmt qualifier flags field_width precision.

Fixpoint format_loop (fuel : nat) (fmt : chars) : W unit :=
  match fmt with
  | [] => ret tt
  | c :: fmt' =>
      if is_char c NUL then ret tt
      else
        match fuel with
        | O => fail_with OutOfFuel
        | S fuel =>
            if is_char c "%" then
              let* fmt := directive fmt' in
              format_loop fuel fmt
            else put c ;;; format_loop fuel fmt'
        end
  end.

(** The length of the text is returned; the NUL written after it is not in [text]. *)
Definition vsprintf (fmt : chars) : W Z :=
  format_loop (length fmt) fmt ;;;
  gets (fun o => s32_of (Z.of_nat (length (text o)))).

Definition sprintf (fmt : chars) (l : list arg) : res (Z * out) := vsprintf fmt (Out [] l []).
