(* ===== verification/StdioNumber.v ===== *)
(** * What the loops of the formatted output write *)

From S2P Require Import Prelude.
From S2P Require Import Math64.
From S2P Require Import Stdio.
From Stdlib Require Import Ascii String.
From stdpp Require Import strings.

Local Open Scope char_scope.
Local Open Scope Z_scope.

(** [emits m used a t]: [m] takes the arguments [used], returns [a] and writes [t]. *)
Definition emits {A} (m : W A) (used : list arg) (a : A) (t : chars) : Prop :=
  forall w l st, m (Out w (used ++ l) st) = Ok (a, Out (w ++ t) l st).

Lemma emits_ret {A} (a : A) : emits (ret a) [] a [].
Proof. intros w l st. by rewrite app_nil_r. Qed.

Lemma emits_put c : emits (put c) [] tt [c].
Proof. done. Qed.

Lemma emits_bind {A B} (m : W A) (k : A -> W B) u1 u2 a b t1 t2 :
  emits m u1 a t1 -> emits (k a) u2 b t2 -> emits (bind m k) (u1 ++ u2) b (t1 ++ t2).
Proof. intros H1 H2 w l st. unfold bind. by rewrite <-app_assoc, H1, H2, app_assoc. Qed.

(** For a step that takes no argument, and for one that writes nothing either. *)
Lemma emits_step {A B} (m : W A) (k : A -> W B) u a b t1 t2 :
  emits m [] a t1 -> emits (k a) u b t2 -> emits (bind m k) u b (t1 ++ t2).
Proof. apply (emits_bind m k [] u). Qed.

Lemma emits_pure {A B} (m : W A) (k : A -> W B) u a b t :
  emits m [] a [] -> emits (k a) u b t -> emits (bind m k) u b t.
Proof. apply (emits_step m k u a b []). Qed.

(** For one that reads arguments. *)
Lemma emits_take {A B} (m : W A) (k : A -> W B) u1 u2 a b t :
  emits m u1 a [] -> emits (k a) u2 b t -> emits (bind m k) (u1 ++ u2) b t.
Proof. apply (emits_bind m k u1 u2 a b []). Qed.

Lemma emits_take_all {A B} (m : W A) (k : A -> W B) u a b t :
  emits m u a [] -> emits (k a) [] b t -> emits (bind m k) u b t.
Proof. rewrite <-(app_nil_r u) at 2. apply emits_take. Qed.

Lemma emits_eq {A} (m : W A) u u' a a' t t' :
  emits m u a t -> u = u' -> a = a' -> t = t' -> emits m u' a' t'.
Proof. by intros ? <- <- <-. Qed.

Lemma emits_int z : - 2 ^ 31 <= z < 2 ^ 31 -> emits (int z) [] z [].
Proof.
  intros Hz. unfold int. rewrite (proj2 (Z.leb_le _ _)), (proj2 (Z.ltb_lt _ _)) by lia.
  apply emits_ret.
Qed.

Lemma emits_llong z : - 2 ^ 63 <= z < 2 ^ 63 -> emits (llong z) [] z [].
Proof.
  intros Hz. unfold llong. rewrite (proj2 (Z.leb_le _ _)), (proj2 (Z.ltb_lt _ _)) by lia.
  apply emits_ret.
Qed.

Definition rep (n : Z) (c : ascii) : chars := replicate (Z.to_nat n) c.

Lemma rep_cons n c : 0 < n -> rep n c = c :: rep (n - 1) c.
Proof. intros Hn. unfold rep. by replace (Z.to_nat n) with (S (Z.to_nat (n - 1))) by lia. Qed.

Lemma rep_none n c : n <= 0 -> rep n c = [].
Proof. intros Hn. unfold rep. by replace (Z.to_nat n) with O by lia. Qed.

Lemma emits_fill_loop n lim x c :
  - 2 ^ 31 < x < 2 ^ 31 -> - 2 ^ 31 < lim -> x - lim <= Z.of_nat n ->
  emits (fill_loop n lim x c) [] (Z.min x lim - 1) (rep (x - lim) c).
Proof.
  revert x. induction n as [|n IH]; intros x Hx Hl Hn; cbn [fill_loop].
  all: apply (emits_pure _ _ _ (x - 1)); [apply emits_int; lia|].
  all: case_match; [|rewrite rep_none by lia; eapply emits_eq; [apply emits_ret|done|lia|done]].
  - lia.
  - rewrite rep_cons by lia. apply (emits_step _ _ _ tt _ [c]); [apply emits_put|].
    eapply emits_eq; [apply (IH (x - 1)); lia|done|lia|]. f_equal. lia.
Qed.

Lemma emits_fill lim x c :
  - 2 ^ 31 < x < 2 ^ 31 -> - 2 ^ 31 < lim ->
  emits (fill lim x c) [] (Z.min x lim - 1) (rep (x - lim) c).
Proof. intros. apply emits_fill_loop; lia. Qed.

Lemma emits_spaces_loop n x :
  - 2 ^ 31 < x < 2 ^ 31 -> x <= Z.of_nat n ->
  emits (spaces_loop n x) [] (Z.min 0 (x - 1)) (rep (x - 1) " ").
Proof.
  revert x. induction n as [|n IH]; intros x Hx Hn; cbn [spaces_loop].
  all: apply (emits_pure _ _ _ (x - 1)); [apply emits_int; lia|].
  all: case_match; [|rewrite rep_none by lia; eapply emits_eq; [apply emits_ret|done|lia|done]].
  - lia.
  - rewrite rep_cons by lia. apply (emits_step _ _ _ tt _ [" "]); [apply emits_put|].
    eapply emits_eq; [apply (IH (x - 1)); lia|done|lia|done].
Qed.

Lemma emits_spaces x :
  - 2 ^ 31 < x < 2 ^ 31 -> emits (spaces x) [] (Z.min 0 (x - 1)) (rep (x - 1) " ").
Proof. intros. apply emits_spaces_loop; lia. Qed.

Lemma emits_char_at l n c : 0 <= n -> l !! Z.to_nat n = Some c -> emits (char_at l n) [] c [].
Proof.
  intros Hn Hl. unfold char_at. rewrite Hl, (proj2 (Z.ltb_ge _ _)) by done. apply emits_ret.
Qed.

Lemma emits_reversed n tmp : (n <= length tmp)%nat -> emits (put_reversed n tmp) [] tt (reverse (take n tmp)).
Proof.
  induction n as [|n IH]; intros Hn; cbn [put_reversed]; [apply emits_ret|].
  destruct (lookup_lt_is_Some_2 tmp n) as [c Hc]; [lia|].
  apply (emits_pure _ _ _ c); [apply emits_char_at; [lia|by rewrite Nat2Z.id]|].
  erewrite take_S_r by done. rewrite reverse_app.
  apply (emits_step _ _ _ tt _ [c]); [apply emits_put|]. apply IH. lia.
Qed.

Lemma emits_string n s : (n <= length s)%nat -> emits (put_string n s) [] tt (take n s).
Proof.
  revert s. induction n as [|n IH]; intros [|c s] Hn; cbn in *; try apply emits_ret; [lia|].
  apply (emits_step _ _ _ tt _ [c]); [apply emits_put|]. apply IH. lia.
Qed.

(** * Numbers of the formatted output: numerals, their value and their layout *)

From Stdlib Require Import Ascii String.
From stdpp Require Import strings.

Local Open Scope char_scope.
Local Open Scope Z_scope.

(** ** Specification *)

Definition alphabet (large : bool) : chars := if large then upper else lower.
Definition digit (large : bool) (n : Z) : ascii := default NUL (alphabet large !! Z.to_nat n).

(** The numeral of a number below [2 ^ fuel], most significant digit first. *)
Fixpoint numeral (fuel : nat) (large : bool) (base num : Z) : chars :=
  match fuel with
  | O => []
  | S fuel =>
      (if num <? base then [] else numeral fuel large base (num / base)) ++
      [digit large (num mod base)]
  end.

(** The number that a numeral denotes. *)
Definition digit_value (c : ascii) : Z :=
  if is_digit c then code c - code "0"
  else if code "a" <=? code c then code c - code "a" + 10 else code c - code "A" + 10.
Definition value (base : Z) (l : chars) : Z := foldl (fun v c => v * base + digit_value c) 0 l.

(** A field of width [size]: [head] is a sign and a prefix, [body] the digits. *)
Definition layout (left zero : bool) (size : Z) (head body : chars) : chars :=
  let pad := size - Z.of_nat (length head) - Z.of_nat (length body) in
  if left then head ++ body ++ rep pad " "
  else if zero then head ++ rep pad "0" ++ body
  else rep pad " " ++ head ++ body.

Definition signed (type num : Z) : Z := if has type SIGN then s64_of num else num.
Definition sign_of (type num : Z) : chars :=
  if has type SIGN then
    if s64_of num <? 0 then ["-"] else if has type PLUS then ["+"] else if has type SPACE then [" "] else []
  else [].
Definition prefix_of (type base : Z) : chars :=
  if has type SPECIAL then
    if base =? 8 then ["0"] else if base =? 16 then ["0"; if has type LARGE then "X" else "x"] else []
  else [].

Definition number_spec (num base size precision type : Z) : chars :=
  let ds := numeral 64 (has type LARGE) base (Z.abs (signed type num)) in
  layout (has type LEFT) (has type ZEROPAD) size
    (sign_of type num ++ prefix_of type base)
    (rep (precision - Z.of_nat (length ds)) "0" ++ ds).

(** ** Numerals *)

Lemma alphabet_digit large n : 0 <= n < 36 -> alphabet large !! Z.to_nat n = Some (digit large n).
Proof.
  intros Hn. unfold digit. destruct (lookup_lt_is_Some_2 (alphabet large) (Z.to_nat n)) as [c ->]; [|done].
  destruct large; cbn; lia.
Qed.

Lemma digit_value_digit large n : 0 <= n < 36 -> digit_value (digit large n) = n.
Proof.
  intros Hn.
  assert (forallb (fun k => digit_value (digit large (Z.of_nat k)) =? Z.of_nat k) (seq 0 36) = true) as H
    by (by destruct large).
  rewrite forallb_forall in H. specialize (H (Z.to_nat n)). rewrite Z2Nat.id in H by lia.
  apply Z.eqb_eq, H, in_seq. lia.
Qed.

Lemma value_snoc base l c : value base (l ++ [c]) = value base l * base + digit_value c.
Proof. unfold value. by rewrite foldl_app. Qed.

Section numerals.
Context (large : bool) (base : Z).
Hypothesis base_ok : 2 <= base <= 36.

Lemma div_base k num : 0 <= num < 2 ^ Z.of_nat (S k) -> 0 <= num / base < 2 ^ Z.of_nat k.
Proof.
  intros Hn. split; [apply Z.div_pos; lia|]. apply Z.div_lt_upper_bound; [lia|].
  rewrite Nat2Z.inj_succ, Z.pow_succ_r in Hn by lia. nia.
Qed.

Lemma mod_base num : 0 <= num mod base < 36.
Proof. pose proof (Z.mod_pos_bound num base). lia. Qed.

Lemma value_numeral k num : 0 <= num < 2 ^ Z.of_nat k -> value base (numeral k large base num) = num.
Proof.
  revert num. induction k as [|k IH]; intros num Hn; [cbn in *; lia|].
  cbn [numeral]. rewrite value_snoc, digit_value_digit by apply mod_base. case_match.
  - cbn. rewrite Z.mod_small; lia.
  - rewrite IH by (by apply div_base). pose proof (Z.div_mod num base). lia.
Qed.

Lemma numeral_length k num : (length (numeral k large base num) <= k)%nat.
Proof.
  revert num. induction k as [|k IH]; intros num; cbn [numeral]; [done|].
  rewrite length_app. cbn. case_match; cbn; [lia|]. specialize (IH (num / base)). lia.
Qed.

(** No numeral but that of zero begins with a zero. *)
Lemma numeral_head k num c :
  0 < num < 2 ^ Z.of_nat k -> head (numeral k large base num) = Some c -> 0 < digit_value c.
Proof.
  revert num. induction k as [|k IH]; intros num Hn; [cbn in *; lia|].
  cbn [numeral]. case_match.
  - cbn. intros [= <-]. rewrite digit_value_digit by apply mod_base. rewrite Z.mod_small; lia.
  - pose proof (div_base k num). assert (0 < num / base) by (apply Z.div_str_pos; lia).
    intros Hc. apply (IH (num / base)); [lia|].
    destruct k as [|k]; [cbn in *; lia|].
    destruct (numeral (S k) large base (num / base)) eqn:E; [|done].
    cbn [numeral] in E. by destruct (app_cons_not_nil _ _ _ (eq_sym E)).
Qed.

(** The loop computes the numeral, the other way round, within [tmp]. *)
Lemma emits_push tmp c : (length tmp < 66)%nat -> emits (push tmp c) [] (tmp ++ [c]) [].
Proof.
  intros Ht. unfold push. rewrite (proj2 (Nat.ltb_lt _ _)) by done. apply emits_ret.
Qed.

Lemma emits_div_loop fuel k num tmp :
  0 < num < 2 ^ Z.of_nat k -> (k <= fuel)%nat -> (length tmp + k <= 66)%nat ->
  emits (div_loop fuel (alphabet large) num base tmp) []
    (tmp ++ reverse (numeral k large base num)) [].
Proof.
  revert fuel num tmp. induction k as [|k IH]; intros fuel num tmp Hn Hf Ht; [cbn in *; lia|].
  destruct fuel as [|fuel]; [lia|]. cbn [div_loop numeral].
  rewrite (proj2 (Z.eqb_neq _ _)), reverse_app by lia.
  eapply emits_pure; [apply emits_char_at; [|apply alphabet_digit]; apply mod_base|].
  eapply emits_pure; [apply emits_push; lia|]. rewrite app_assoc.
  case_match.
  - rewrite Z.div_small, app_nil_r by lia. destruct fuel; apply emits_ret.
  - assert (0 < num / base) by (apply Z.div_str_pos; lia). pose proof (div_base k num).
    apply IH; [lia..|]. rewrite length_app. cbn. lia.
Qed.
End numerals.

(** ** [number] *)

Lemma has_lor v f g : has v (Z.lor f g) = has v f || has v g.
Proof.
  unfold has. rewrite Z.land_lor_distr_r.
  destruct (Z.eqb_spec (Z.lor (Z.land v f) (Z.land v g)) 0) as [E|E].
  - by apply Z.lor_eq_0_iff in E as [-> ->].
  - destruct (Z.eqb_spec (Z.land v f) 0) as [Hf|]; [|done].
    destruct (Z.eqb_spec (Z.land v g) 0) as [Hg|]; [|done]. by rewrite Hf, Hg in E.
Qed.

Definition sign_char (type num : Z) : option ascii := head (sign_of type num).

Lemma emits_sign num size type :
  0 <= num < 2 ^ 64 -> - 2 ^ 31 < size < 2 ^ 31 -> (has type SIGN = true -> s64_of num <> - 2 ^ 63) ->
  emits (number_sign num size type) []
    (sign_char type num, Z.abs (signed type num), size - Z.of_nat (length (sign_of type num))) [].
Proof.
  intros Hn Hs Hmin. unfold number_sign, sign_char, sign_of, signed.
  assert (Hr : - 2 ^ 63 <= s64_of num < 2 ^ 63 /\ (0 <= s64_of num -> s64_of num = num)).
  { unfold s64_of. rewrite u64_id by lia. case_match; lia. }
  destruct (has type SIGN); [specialize (Hmin eq_refl)|].
  - case_match; cbn.
    + apply (emits_pure _ _ _ (- s64_of num)); [apply emits_llong; lia|].
      apply (emits_pure _ _ _ (size - 1)); [apply emits_int; lia|].
      eapply emits_eq; [apply emits_ret|done| |done]. rewrite u64_id by lia. do 3 f_equal. lia.
    + rewrite Z.abs_eq, (proj2 Hr) by lia. destruct (has type PLUS); [|destruct (has type SPACE)]; cbn.
      1, 2: apply (emits_pure _ _ _ (size - 1)); [apply emits_int; lia|apply emits_ret].
      rewrite Z.sub_0_r. apply emits_ret.
  - cbn. rewrite Z.sub_0_r, Z.abs_eq by lia. apply emits_ret.
Qed.

Lemma emits_put_sign type num : emits (put_sign (sign_char type num)) [] tt (sign_of type num).
Proof.
  unfold sign_char, sign_of. repeat case_match; first [apply emits_put|apply emits_ret].
Qed.

Lemma emits_prefix type base :
  emits (when_ (has type SPECIAL)
    (if base =? 8 then put "0"
     else when_ (base =? 16)
       (put "0" ;;; let* x := char_at (if has type LARGE then upper else lower) 33 in put x)))
    [] tt (prefix_of type base).
Proof.
  unfold prefix_of, when_. destruct (has type SPECIAL); [|apply emits_ret].
  case_match; [apply emits_put|]. case_match; [|apply emits_ret].
  apply (emits_step _ _ _ tt _ ["0"]); [apply emits_put|].
  eapply emits_pure; [|apply emits_put]. by apply emits_char_at; destruct (has type LARGE).
Qed.

Lemma emits_prefix_size type base size :
  - 2 ^ 31 + 2 <= size < 2 ^ 31 ->
  emits (if has type SPECIAL then
           if base =? 16 then int (size - 2) else if base =? 8 then int (size - 1) else ret size
         else ret size) [] (size - Z.of_nat (length (prefix_of type base))) [].
Proof.
  intros Hs. unfold prefix_of. destruct (has type SPECIAL); [|cbn; rewrite Z.sub_0_r; apply emits_ret].
  destruct (Z.eqb_spec base 16) as [->|]; [apply emits_int; cbn; lia|].
  destruct (Z.eqb_spec base 8) as [->|]; [apply emits_int; cbn; lia|].
  cbn. rewrite Z.sub_0_r. apply emits_ret.
Qed.

Lemma emits_digits type base num :
  2 <= base <= 36 -> 0 <= num < 2 ^ 64 ->
  emits (if num =? 0 then push [] "0"
         else div_loop 66 (if has type LARGE then upper else lower) num base []) []
    (reverse (numeral 64 (has type LARGE) base num)) [].
Proof.
  intros Hb Hn. destruct (Z.eqb_spec num 0) as [->|].
  - eapply emits_eq; [apply emits_push; cbn; lia|done| |done].
    cbn [numeral]. rewrite (proj2 (Z.ltb_lt _ _)), Z.mod_0_l by lia. by destruct (has type LARGE).
  - apply (emits_div_loop (has type LARGE) base Hb 66 64 num []); cbn; lia.
Qed.

(** The digits, with zeros up to the precision and the spaces of a left-justified field. *)
Lemma emits_body precision ds size :
  Z.of_nat (length ds) <= precision < 2 ^ 31 -> - 2 ^ 31 < size < 2 ^ 31 ->
  emits
    (let* _ := fill (Z.of_nat (length ds)) precision "0" in
     put_reversed (length ds) (reverse ds) ;;; let* _ := fill 0 size " " in ret tt) [] tt
    (rep (precision - Z.of_nat (length ds)) "0" ++ ds ++ rep size " ").
Proof.
  intros Hp Hs. eapply emits_step; [apply emits_fill; lia|]. eapply emits_step.
  - eapply emits_eq; [apply emits_reversed; by rewrite length_reverse|done|done|].
    by rewrite firstn_all2, reverse_involutive by (rewrite length_reverse; lia).
  - rewrite <-(app_nil_r (rep size " ")). eapply emits_step; [|apply emits_ret].
    eapply emits_eq; [apply emits_fill; lia|done..|]. f_equal. lia.
Qed.

(** The three places where a field is padded: of these only one has an effect. *)
Lemma emits_padded (left zero : bool) size precision sign (pre : W unit) t1 t2 ds :
  Z.of_nat (length ds) <= precision < 2 ^ 31 -> - 2 ^ 31 + 2 < size < 2 ^ 31 ->
  emits (put_sign sign) [] tt t1 -> emits pre [] tt t2 ->
  emits
    (let* size := if zero || left then ret size else fill 0 size " " in
     put_sign sign ;;;
     pre ;;;
     let* size := if left then ret size else fill 0 size (if zero then "0" else " ") in
     let* _ := fill (Z.of_nat (length ds)) precision "0" in
     put_reversed (length ds) (reverse ds) ;;;
     let* _ := fill 0 size " " in
     ret tt) [] tt
    (layout left zero (size + Z.of_nat (length (t1 ++ t2)) + precision) (t1 ++ t2)
       (rep (precision - Z.of_nat (length ds)) "0" ++ ds)).
Proof.
  intros Hp Hs Hsign Hpre. unfold layout.
  set (body := rep _ "0" ++ ds).
  assert (Z.of_nat (length body) = precision) as ->
    by (unfold body, rep; rewrite length_app, length_replicate; lia).
  replace (_ - _ - precision) with size by lia.
  assert (Hneg : forall size, size <= 0 -> body = body ++ rep size " ")
    by (intros; rewrite rep_none by done; by rewrite app_nil_r).
  unfold body in Hneg.
  destruct left; [|destruct zero]; cbn [orb].
  - rewrite orb_true_r. eapply emits_pure; [apply emits_ret|]. rewrite <-app_assoc.
    do 2 (eapply emits_step; [done|]). eapply emits_pure; [apply emits_ret|]. unfold body. rewrite <-app_assoc. apply emits_body; lia.
  - eapply emits_pure; [apply emits_ret|]. rewrite <-app_assoc. do 2 (eapply emits_step; [done|]).
    eapply emits_step; [eapply emits_eq; [apply emits_fill; lia|done..|f_equal; lia]|].
    unfold body. rewrite (Hneg (Z.min size 0 - 1)), <-app_assoc by lia. apply emits_body; lia.
  - eapply emits_step; [eapply emits_eq; [apply emits_fill; lia|done..|f_equal; lia]|].
    rewrite <-app_assoc. do 2 (eapply emits_step; [done|]).
    eapply emits_pure; [eapply emits_eq; [apply emits_fill; lia|done..|apply rep_none; lia]|].
    unfold body. erewrite Hneg, <-app_assoc by shelve. apply emits_body; lia.
    Unshelve. lia.
Qed.

Lemma emits_number num base size precision type :
  0 <= num < 2 ^ 64 -> 2 <= base <= 36 -> -1 <= size < 2 ^ 31 -> -1 <= precision < 2 ^ 31 - 8 ->
  (has type SIGN = true -> s64_of num <> - 2 ^ 63) ->
  emits (number num base size precision type) [] tt (number_spec num base size precision type).
Proof.
  intros Hn Hb Hs Hp Hmin. unfold number, number_spec.
  rewrite (proj2 (Z.ltb_ge _ _)), (proj2 (Z.ltb_ge 36 _)) by lia. cbn [orb].
  set (type' := if has type LEFT then _ else type).
  assert (Hf : forall f, Z.land ZEROPAD f = 0 -> has type' f = has type f)
    by (intros; unfold type'; destruct (has type LEFT); [by apply has_clrf_other|done]).
  assert (Hz : has type' ZEROPAD = has type ZEROPAD && negb (has type LEFT)).
  { unfold type'. destruct (has type LEFT); cbn; [by rewrite has_clrf_same, andb_false_r|by rewrite andb_true_r]. }
  assert (sign_of type num = sign_of type' num) as -> by (unfold sign_of; by rewrite !Hf).
  assert (prefix_of type base = prefix_of type' base) as -> by (unfold prefix_of; by rewrite !Hf).
  assert (signed type num = signed type' num) as -> by (unfold signed; by rewrite !Hf).
  rewrite <-(Hf LARGE), <-(Hf LEFT) in * by done. rewrite <-(Hf SIGN) in Hmin by done.
  clearbody type'. clear Hf.
  change (ZEROPAD + LEFT) with (Z.lor ZEROPAD LEFT). rewrite has_lor.
  assert (0 <= Z.abs (signed type' num) < 2 ^ 64) as Hm.
  { unfold signed, s64_of in *. rewrite u64_id in * by lia. repeat case_match; lia. }
  eapply emits_pure; [apply emits_sign; [done|lia|done]|]. cbn beta iota.
  assert (length (sign_of type' num) <= 1)%nat by (unfold sign_of; repeat case_match; cbn; lia).
  assert (length (prefix_of type' base) <= 2)%nat by (unfold prefix_of; repeat case_match; cbn; lia).
  eapply emits_pure; [apply emits_prefix_size; lia|].
  eapply emits_pure; [by apply emits_digits|].
  set (ds := numeral 64 _ _ _). rewrite length_reverse.
  assert (length ds <= 64)%nat by apply numeral_length.
  set (prec := if precision <? _ then _ else _).
  assert (prec = Z.max precision (Z.of_nat (length ds))) as Hprec by (unfold prec; case_match; lia).
  eapply emits_pure; [apply emits_int; lia|].
  eapply emits_eq; [apply emits_padded;
    [lia..|apply emits_put_sign|apply emits_prefix]|done|done|].
  replace (rep (precision - _) "0") with (rep (prec - Z.of_nat (length ds)) "0")
    by (unfold rep; f_equal; lia).
  rewrite length_app.
  replace (_ + _ + prec) with size by lia.
  unfold layout. rewrite Hz. by destruct (has type' LEFT), (has type ZEROPAD).
Qed.
