(* ===== verification/StdioFormat.v ===== *)
(** * The language of formats and what [vsprintf] writes for it *)

From S2P Require Import Prelude.
From S2P Require Import Math64.
From S2P Require Import Stdio.
From S2P Require Import StdioNumber.
From Stdlib Require Import Ascii String.
From stdpp Require Import strings.

Local Open Scope char_scope.
Local Open Scope Z_scope.

(** ** Abstract syntax, each star and conversion with its argument *)

Inductive width := NoWidth | Width (ds : chars) | StarWidth (z : Z).
Inductive prec := NoPrec | Digits (ds : chars) | StarPrec (z : Z).
Inductive conv :=
  | Char (z : Z) | Str (addr : Z) (s : chars) | Pointer (addr : Z) | Percent
  | Integer (c : ascii) (bits : Z).
Inductive piece :=
  | Text (c : ascii)
  | Conv (flags : chars) (w : width) (p : prec) (q : ascii) (v : conv).

(** ** Concrete syntax and arguments *)

Definition conv_char (v : conv) : ascii :=
  match v with
  | Char _ => "c" | Str _ _ => "s" | Pointer _ => "p" | Percent => "%" | Integer c _ => c
  end.
Definition show_width (w : width) : chars :=
  match w with NoWidth => [] | Width ds => ds | StarWidth _ => ["*"] end.
Definition show_prec (p : prec) : chars :=
  match p with NoPrec => [] | Digits ds => "." :: ds | StarPrec _ => ["."; "*"] end.
Definition show_qualifier (q : ascii) : chars :=
  if is_char q NUL then [] else if is_char q "q" then ["l"; "l"] else [q].
Definition show (x : piece) : chars :=
  match x with
  | Text c => [c]
  | Conv flags w p q v =>
      "%" :: flags ++ show_width w ++ show_prec p ++ show_qualifier q ++ [conv_char v]
  end.

Definition integer_arg (q : ascii) (bits : Z) : arg :=
  if is_char q "l" || is_char q "Z" then VLong bits
  else if is_char q "q" then VLLong bits else VInt bits.
Definition conv_args (q : ascii) (v : conv) : list arg :=
  match v with
  | Char z => [VInt z] | Str a s => [VStr a s] | Pointer a => [VPtr a] | Percent => []
  | Integer _ bits => [integer_arg q bits]
  end.
Definition width_args (w : width) : list arg :=
  match w with StarWidth z => [VInt z] | _ => [] end.
Definition prec_args (p : prec) : list arg :=
  match p with StarPrec z => [VInt z] | _ => [] end.
Definition args_of (x : piece) : list arg :=
  match x with
  | Text _ => []
  | Conv _ w p q v => width_args w ++ prec_args p ++ conv_args q v
  end.

(** ** Meaning *)

Definition flag_bit (c : ascii) : Z :=
  if is_char c "-" then LEFT else if is_char c "+" then PLUS else if is_char c " " then SPACE
  else if is_char c "#" then SPECIAL else ZEROPAD.
Definition is_flag (c : ascii) : bool :=
  is_char c "-" || is_char c "+" || is_char c " " || is_char c "#" || is_char c "0".
Definition flags_of (flags : chars) (w : width) : Z :=
  let f := foldl (fun f c => setf f (flag_bit c)) 0 flags in
  match w with StarWidth z => if s32_of z <? 0 then setf f LEFT else f | _ => f end.
Definition width_of (w : width) : Z :=
  match w with NoWidth => -1 | Width ds => value 10 ds | StarWidth z => Z.abs (s32_of z) end.
Definition prec_of (p : prec) : Z :=
  match p with NoPrec => -1 | Digits ds => value 10 ds | StarPrec z => Z.max 0 (s32_of z) end.

Definition base_of (c : ascii) : Z :=
  if is_char c "o" then 8 else if is_char c "x" || is_char c "X" then 16 else 10.
Definition is_signed (c : ascii) : bool := is_char c "d" || is_char c "i".

(** The integer an argument is read as. *)
Definition integer (c q : ascii) (bits : Z) : Z :=
  if is_char q "l" || is_char q "q" || is_char q "Z" then
    if is_signed c then s64_of bits else u64 bits
  else if is_char q "h" then if is_signed c then s16_of bits else u16 bits
  else if is_signed c then s32_of bits else u32 bits.
Definition integer_flags (c : ascii) (flags : Z) : Z :=
  if is_char c "X" then setf flags LARGE else if is_signed c then setf flags SIGN else flags.

Definition justify (left : bool) (w : Z) (t : chars) : chars :=
  let pad := rep (w - Z.of_nat (length t)) " " in if left then t ++ pad else pad ++ t.

Definition string_text (addr : Z) (s : chars) (precision : Z) : chars :=
  let s := if u64 addr =? 0 then list_ascii_of_string "<NULL>" else s in
  if precision <? 0 then s else take (Z.to_nat precision) s.

Definition conv_text (f w p : Z) (q : ascii) (v : conv) : chars :=
  match v with
  | Char z => justify (has f LEFT) w [ascii_of_N (Z.to_N (u8 z))]
  | Str a s => justify (has f LEFT) w (string_text a s p)
  | Pointer a =>
      if w =? -1 then number_spec (u64 a) 16 16 p (setf f ZEROPAD) else number_spec (u64 a) 16 w p f
  | Percent => ["%"]
  | Integer c bits =>
      number_spec (u64 (integer c q bits)) (base_of c) w p (integer_flags c f)
  end.

Definition render (x : piece) : chars :=
  match x with
  | Text c => [c]
  | Conv flags w p q v => conv_text (flags_of flags w) (width_of w) (prec_of p) q v
  end.

(** ** Well-formed formats *)

Definition elem (c : ascii) (s : string) : bool := existsb (is_char c) (list_ascii_of_string s).
Definition width_ok (w : width) : bool :=
  match w with
  | NoWidth => true
  | Width ds => forallb is_digit ds && (0 <? length ds)%nat && negb (is_char (peek ds) "0") &&
                (value 10 ds <? 2 ^ 31 - 48)
  | StarWidth z => negb (s32_of z =? - 2 ^ 31)
  end.
Definition prec_ok (p : prec) : bool :=
  match p with
  | NoPrec => true
  | Digits ds => forallb is_digit ds && (value 10 ds <? 2 ^ 31 - 48)
  | StarPrec z => s32_of z <? 2 ^ 31 - 8
  end.
Definition conv_ok (q : ascii) (v : conv) : bool :=
  match v with
  | Str _ s => forallb (fun c => negb (is_char c NUL)) s && (Z.of_nat (length s) <? 2 ^ 31)
  | Integer c bits => elem c "oXxdiu" && negb (integer c q bits =? - 2 ^ 63)
  | _ => true
  end.
Definition piece_ok (x : piece) : bool :=
  match x with
  | Text c => negb (is_char c NUL) && negb (is_char c "%")
  | Conv flags w p q v =>
      forallb is_flag flags && width_ok w && prec_ok p &&
      (is_char q NUL || elem q "hlqLZ") && conv_ok q v
  end.

(** ** Reading a directive *)

Lemma is_char_eq c d : is_char c d = true <-> c = d.
Proof. unfold is_char. apply bool_decide_eq_true. Qed.

(** Case analysis on the characters of a set. *)
Ltac elem_cases H :=
  apply existsb_exists in H as (? & H & ?%is_char_eq); subst; cbn in H;
  repeat destruct H as [<-|H]; [..|done].

Definition is_stop (c : ascii) : bool := negb (is_flag c || is_digit c || is_char c "*").

Lemma get_flags_app flags rest f :
  forallb is_flag flags = true -> is_flag (peek rest) = false ->
  get_flags (flags ++ rest) f = (rest, foldl (fun f c => setf f (flag_bit c)) f flags).
Proof.
  revert f. induction flags as [|c flags IH]; intros f Hf Hr; cbn in *.
  - destruct rest as [|c rest]; [done|]. cbn in *. unfold is_flag in Hr.
    repeat (apply orb_false_iff in Hr as [Hr ->]). by rewrite Hr.
  - apply andb_true_iff in Hf as [Hc Hf]. rewrite <-IH by done. unfold flag_bit, is_flag in *.
    repeat case_match; try done. 
Qed.

Lemma digit_bounds c : is_digit c = true -> digit_value c = code c - 48 /\ 48 <= code c <= 57.
Proof.
  intros Hc. unfold digit_value. rewrite Hc. split; [done|].
  unfold is_digit in Hc. change (code "0") with 48 in Hc. change (code "9") with 57 in Hc.
  apply andb_true_iff in Hc. lia.
Qed.

Lemma value_from_ge i ds :
  0 <= i -> forallb is_digit ds = true -> i <= foldl (fun v c => v * 10 + digit_value c) i ds.
Proof.
  revert i. induction ds as [|c ds IH]; intros i Hi Hd; cbn in *; [done|].
  apply andb_true_iff in Hd as [Hc Hd]. destruct (digit_bounds c Hc).
  etrans; [|apply IH; [lia|done]]. lia.
Qed.

Lemma emits_skip_digits ds rest i :
  forallb is_digit ds = true -> is_digit (peek rest) = false -> 0 <= i ->
  foldl (fun v c => v * 10 + digit_value c) i ds < 2 ^ 31 - 48 ->
  emits (skip_digits (ds ++ rest) i) []
    (foldl (fun v c => v * 10 + digit_value c) i ds, rest) [].
Proof.
  revert i. induction ds as [|c ds IH]; intros i Hd Hr Hi Hv; cbn in *.
  - destruct rest as [|c rest]; cbn in *; [apply emits_ret|]. rewrite Hr. apply emits_ret.
  - apply andb_true_iff in Hd as [Hc Hd]. destruct (digit_bounds c Hc) as [Hv' Hb]. rewrite Hc, Hv' in *.
    pose proof (value_from_ge (i * 10 + (code c - 48)) ds ltac:(lia) Hd).
    do 3 (eapply emits_pure; [apply emits_int; change (code "0") with 48; lia|]).
    change (code "0") with 48. rewrite <-Z.add_sub_assoc. apply IH; done || lia.
Qed.

Lemma emits_skip_atoi ds rest :
  forallb is_digit ds = true -> is_digit (peek rest) = false -> value 10 ds < 2 ^ 31 - 48 ->
  emits (skip_atoi (ds ++ rest)) [] (value 10 ds, rest) [].
Proof. intros. by apply emits_skip_digits. Qed.

Lemma s32_of_u32 z : s32_of (u32 z) = s32_of z.
Proof. unfold s32_of, u32. by rewrite Z.mod_mod. Qed.

Lemma s32_of_range z : - 2 ^ 31 <= s32_of z < 2 ^ 31.
Proof. unfold s32_of. pose proof (u32_range z). case_match; lia. Qed.

Lemma emits_va_int z : emits va_int [VInt z] (u32 z) [].
Proof. intros w l st. by rewrite app_nil_r. Qed.

Lemma stop_facts c : is_stop c = true -> is_flag c = false /\ is_digit c = false /\ is_char c "*" = false.
Proof. unfold is_stop. rewrite negb_true_iff, !orb_false_iff. tauto. Qed.

Lemma emits_get_width w rest flags f :
  width_ok w = true -> is_stop (peek rest) = true ->
  f = foldl (fun f c => setf f (flag_bit c)) 0 flags ->
  emits (get_width (show_width w ++ rest) f) (width_args w) (width_of w, flags_of flags w, rest) [].
Proof.
  intros Hw (Hf & Hd & Hs)%stop_facts ->. unfold get_width, flags_of. destruct w as [|ds|z]; cbn.
  - rewrite Hd, Hs. apply emits_ret.
  - cbn in Hw. rewrite !andb_true_iff in Hw. destruct Hw as [[[Hds Hn] _] Hv].
    assert (is_digit (peek (ds ++ rest)) = true) as ->.
    { destruct ds; [done|]. cbn in *. by apply andb_true_iff in Hds as [-> _]. }
    eapply emits_pure; [apply emits_skip_atoi; done || lia|]. apply emits_ret.
  - change (is_digit "*") with false. change (is_char "*" "*") with true. cbn match.
    eapply emits_take_all; [apply emits_va_int|]. rewrite s32_of_u32. cbn in Hw.
    pose proof (s32_of_range z). case_match.
    + eapply emits_pure; [apply emits_int; lia|].
      eapply emits_eq; [apply emits_ret|done| |done]. do 2 f_equal. lia.
    + rewrite Z.abs_eq by lia. apply emits_ret.
Qed.

Lemma emits_get_precision p rest :
  prec_ok p = true -> is_stop (peek rest) = true -> is_char (peek rest) "." = false ->
  emits (get_precision (show_prec p ++ rest)) (prec_args p) (prec_of p, rest) [].
Proof.
  intros Hp (Hf & Hd & Hs)%stop_facts Hdot. unfold get_precision. destruct p as [|ds|z]; cbn.
  - rewrite Hdot. apply emits_ret.
  - cbn in Hp. apply andb_true_iff in Hp as [Hds Hv].
    pose proof (value_from_ge 0 ds ltac:(done) Hds). fold (value 10 ds) in *.
    destruct ds as [|c ds].
    + cbn. rewrite Hd, Hs. eapply emits_pure; apply emits_ret.
    + pose proof Hds as Hds'. cbn in Hds'. apply andb_true_iff in Hds' as [Hc _]. cbn [peek app]. rewrite Hc.
      eapply emits_pure; [apply (emits_skip_atoi (c :: ds)); done || lia|].
      cbn beta iota. rewrite (proj2 (Z.ltb_ge _ _)) by lia. apply emits_ret.
  - change (is_digit "*") with false. change (is_char "*" "*") with true. cbn match.
    eapply emits_take_all; [|cbn beta iota].
    + eapply emits_take_all; [apply emits_va_int|apply emits_ret].
    + rewrite s32_of_u32. eapply emits_eq; [apply emits_ret|done| |done]. f_equal. case_match; lia.
Qed.

Lemma is_char_ne c d : c <> d -> is_char c d = false.
Proof. unfold is_char. apply bool_decide_eq_false_2. Qed.

Lemma get_qualifier_show q v rest :
  is_char q NUL || elem q "hlqLZ" = true -> conv_ok q v = true ->
  get_qualifier (show_qualifier q ++ conv_char v :: rest) = (q, conv_char v :: rest).
Proof.
  intros Hq Hv.
  assert (conv_char v <> "l" /\ conv_char v <> "h" /\ conv_char v <> "L" /\ conv_char v <> "Z")
    as (Hl & Hh & HL & HZ).
  { destruct v as [| | | |c bits]; try done. cbn [conv_ok] in Hv. apply andb_true_iff in Hv as [Hc _]. elem_cases Hc; done. }
  apply orb_true_iff in Hq as [->%is_char_eq|Hq].
  - unfold get_qualifier. change (show_qualifier NUL) with (@nil ascii). cbn [app peek tail].
    by rewrite (is_char_ne _ _ Hl), (is_char_ne _ _ Hh), (is_char_ne _ _ HL), (is_char_ne _ _ HZ).
  - elem_cases Hq; try done. unfold get_qualifier. change (show_qualifier "l") with ["l"].
    cbn [app peek tail]. by rewrite (is_char_ne _ _ Hl).
Qed.

(** What follows the width, and the precision. *)
Lemma stop_after p q v rest :
  is_char q NUL || elem q "hlqLZ" = true -> conv_ok q v = true ->
  is_stop (peek (show_prec p ++ show_qualifier q ++ conv_char v :: rest)) = true /\
  is_char (peek (show_qualifier q ++ conv_char v :: rest)) "." = false.
Proof.
  intros Hq Hv.
  assert (is_stop (conv_char v) = true /\ is_char (conv_char v) "." = false) as [Hstop Hdot].
  { destruct v as [| | | |c bits]; try done. cbn [conv_ok] in Hv. apply andb_true_iff in Hv as [Hc _]. elem_cases Hc; done. }
  apply orb_true_iff in Hq as [->%is_char_eq|Hq]; [|elem_cases Hq]; (split; [by destruct p|done]).
Qed.

(** ** Conversions *)

Lemma strnlen_min s n :
  forallb (fun c => negb (is_char c NUL)) s = true -> 0 <= n ->
  strnlen s n = Z.min n (Z.of_nat (length s)).
Proof.
  revert n. induction s as [|c s IH]; intros n Hs Hn; cbn in *; [lia|].
  apply andb_true_iff in Hs as [Hc%negb_true_iff Hs]. rewrite Hc.
  destruct (Z.eqb_spec n 0); cbn; [lia|]. rewrite IH by (done || lia). lia.
Qed.

Lemma s32_of_id z : - 2 ^ 31 <= z < 2 ^ 31 -> s32_of z = z.
Proof.
  intros Hz. unfold s32_of, u32. destruct (Z.lt_ge_cases z 0).
  - rewrite <-(Z.mod_add _ 1), Z.mod_small by lia. case_match; lia.
  - rewrite Z.mod_small by lia. case_match; lia.
Qed.

Lemma emits_convert_char f w z :
  -1 <= w < 2 ^ 31 ->
  emits (convert_char f w) [VInt z] tt (justify (has f LEFT) w [ascii_of_N (Z.to_N (u8 z))]).
Proof.
  intros Hw. unfold convert_char, justify. assert (u8 (u32 z) = u8 z) as Hu.
  { unfold u8, u32. apply Z.mod_mod_divide. by exists (2 ^ 24). }
  cbn [length]. destruct (has f LEFT).
  - eapply emits_pure; [apply emits_ret|]. eapply emits_take_all; [apply emits_va_int|]. rewrite Hu.
    eapply (emits_step _ _ _ tt _ [_]); [apply emits_put|].
    rewrite <-(app_nil_r (rep _ _)). eapply emits_step; [apply emits_spaces; lia|apply emits_ret].
  - eapply emits_step; [apply emits_spaces; lia|]. eapply emits_take_all; [apply emits_va_int|]. rewrite Hu.
    eapply emits_eq; [eapply emits_step; [apply emits_put|]|done|done|].
    + eapply emits_step; [apply emits_spaces; lia|apply emits_ret].
    + by rewrite rep_none by lia.
Qed.

Lemma emits_va_str a s : emits va_str [VStr a s] (u64 a, s) [].
Proof. intros w l st. by rewrite app_nil_r. Qed.

Lemma emits_convert_string f w p a s :
  -1 <= w < 2 ^ 31 -> -1 <= p < 2 ^ 31 ->
  forallb (fun c => negb (is_char c NUL)) s = true -> Z.of_nat (length s) < 2 ^ 31 ->
  emits (convert_string f w p) [VStr a s] tt (justify (has f LEFT) w (string_text a s p)).
Proof.
  intros Hw Hp Hs Hl. unfold convert_string, string_text, justify.
  eapply emits_take_all; [apply emits_va_str|]. cbn beta iota.
  set (s' := if u64 a =? 0 then _ else s).
  assert (forallb (fun c => negb (is_char c NUL)) s' = true /\ Z.of_nat (length s') < 2 ^ 31) as [Hs' Hl']
    by (unfold s'; by case_match).
  clearbody s'. clear Hs Hl s. set (t := if p <? 0 then s' else _).
  assert (strnlen s' (u64 p) = Z.of_nat (length t) /\ take (length t) s' = t) as [-> Ht].
  { rewrite strnlen_min by (done || apply Z.mod_pos_bound; lia). unfold t. case_match.
    - assert (p = -1) as -> by lia. split; [|apply take_ge; lia]. change (u64 (-1)) with (2 ^ 64 - 1). lia.
    - rewrite u64_id, length_take by lia. split; [lia|]. by rewrite <-take_take, firstn_all. }
  assert (length t <= length s')%nat by (rewrite <-Ht, length_take; lia).
  rewrite s32_of_id, Nat2Z.id by lia.
  assert (Hput : emits (put_string (length t) s') [] tt t) by (rewrite <-Ht at 2; apply emits_string; lia).
  destruct (has f LEFT).
  - eapply emits_pure; [apply emits_ret|]. eapply emits_step; [done|].
    rewrite <-(app_nil_r (rep _ _)). eapply emits_step; [apply emits_fill; lia|apply emits_ret].
  - eapply emits_step; [apply emits_fill; lia|].
    eapply emits_eq; [eapply emits_step; [done|]|done|done|apply app_nil_r].
    eapply emits_pure; [|apply emits_ret].
    eapply emits_eq; [apply emits_fill; lia|done..|apply rep_none; lia].
Qed.

Lemma s64_of_u64 z : s64_of (u64 z) = s64_of z.
Proof. unfold s64_of, u64. by rewrite Z.mod_mod. Qed.

Lemma s16_of_u16 z : s16_of (u16 z) = s16_of z.
Proof. unfold s16_of, u16. by rewrite Z.mod_mod. Qed.

Lemma u16_u32 z : u16 (u32 z) = u16 z.
Proof. unfold u16, u32. apply Z.mod_mod_divide. by exists (2 ^ 16). Qed.

Lemma integer_range c q bits : - 2 ^ 63 <= integer c q bits < 2 ^ 64 /\
  (is_signed c = true -> integer c q bits < 2 ^ 63).
Proof.
  unfold integer, s64_of, s32_of, s16_of. pose proof (u16_range bits). pose proof (u32_range bits).
  assert (0 <= u64 bits < 2 ^ 64) by (apply Z.mod_pos_bound; lia).
  destruct (is_signed c); repeat case_match; lia.
Qed.

(** Flags of a directive do not include those that the conversion sets. *)
Lemma flag_bit_other c f : f = SIGN \/ f = LARGE -> Z.land (flag_bit c) f = 0.
Proof. unfold flag_bit. intros [->| ->]; by repeat case_match. Qed.

Lemma flags_of_other flags w f : f = SIGN \/ f = LARGE -> has (flags_of flags w) f = false.
Proof.
  intros Hf. unfold flags_of.
  assert (has (foldl (fun f c => setf f (flag_bit c)) 0 flags) f = false) as Hfold.
  { induction flags as [|c flags IH] using rev_ind; [apply has_0|]. rewrite foldl_app. cbn.
    by rewrite has_setf_other by (by apply flag_bit_other). }
  destruct w; try done. case_match; [|done]. rewrite has_setf_other; [done|]. by destruct Hf as [->| ->].
Qed.

Lemma emits_va_long z : emits va_long [VLong z] (u64 z) [].
Proof. intros w l st. by rewrite app_nil_r. Qed.

Lemma emits_va_llong z : emits va_llong [VLLong z] (u64 z) [].
Proof. intros w l st. by rewrite app_nil_r. Qed.

Lemma emits_va_ptr a : emits va_ptr [VPtr a] (u64 a) [].
Proof. intros w l st. by rewrite app_nil_r. Qed.

(** Evaluate comparisons of given characters. *)
Ltac char_simpl :=
  repeat match goal with
  | |- context [is_char ?c ?d] =>
      let b := eval vm_compute in (is_char c d) in
      lazymatch b with true => idtac | false => idtac end;
      change (is_char c d) with b
  end; cbn [orb andb negb]; cbn match.

Lemma emits_get_num c q bits f :
  is_char q NUL || elem q "hlqLZ" = true -> has f SIGN = is_signed c ->
  emits (get_num q f) [integer_arg q bits] (u64 (integer c q bits)) [].
Proof.
  intros Hq Hf. unfold get_num, integer. rewrite Hf.
  apply orb_true_iff in Hq as [->%is_char_eq|Hq]; [|elem_cases Hq].
  all: unfold integer_arg; char_simpl; eapply emits_eq; [first
    [ eapply emits_take_all;
        [first [apply emits_va_int|apply emits_va_long|apply emits_va_llong]|apply emits_ret]
    | apply emits_va_long ]|done| |done].
  all: destruct (is_signed c); rewrite ?s32_of_u32, ?u16_u32, ?s16_of_u16, ?s64_of_u64, ?s64_of_cong;
    try done; symmetry; apply u64_id; pose proof (u32_range bits); pose proof (u16_range bits); try lia.
  all: apply Z.mod_pos_bound; lia.
Qed.

Lemma width_bounds w : width_ok w = true -> -1 <= width_of w < 2 ^ 31.
Proof.
  destruct w as [|ds|z]; cbn [width_ok width_of]; intros Hw; [lia| |].
  - rewrite !andb_true_iff in Hw. destruct Hw as [[[Hds _] _] Hv].
    pose proof (value_from_ge 0 ds ltac:(done) Hds). unfold value in *. lia.
  - pose proof (s32_of_range z). lia.
Qed.

Lemma prec_bounds p : prec_ok p = true -> -1 <= prec_of p < 2 ^ 31 - 8.
Proof.
  destruct p as [|ds|z]; cbn [prec_ok prec_of]; intros Hp; [lia| |lia].
  apply andb_true_iff in Hp as [Hds Hv].
  pose proof (value_from_ge 0 ds ltac:(done) Hds). unfold value in *. lia.
Qed.

Lemma emits_convert_integer c q bits f w p :
  is_char q NUL || elem q "hlqLZ" = true -> has f SIGN = is_signed c ->
  integer c q bits <> - 2 ^ 63 -> -1 <= w < 2 ^ 31 -> -1 <= p < 2 ^ 31 - 8 ->
  emits (convert_integer q (base_of c) f w p) [integer_arg q bits] tt
    (number_spec (u64 (integer c q bits)) (base_of c) w p f).
Proof.
  intros Hq Hf Hmin Hw Hp. eapply emits_take_all; [by apply emits_get_num|].
  apply emits_number; [apply Z.mod_pos_bound; lia| |lia..|].
  - unfold base_of. repeat case_match; lia.
  - intros Hs. rewrite Hf in Hs. destruct (integer_range c q bits) as [Hr Hs'].
    rewrite s64_of_u64, s64_of_id by (specialize (Hs' Hs); lia). done.
Qed.

Lemma emits_convert_pointer a f w p :
  has f SIGN = false -> -1 <= w < 2 ^ 31 -> -1 <= p < 2 ^ 31 - 8 ->
  emits (convert_pointer f w p) [VPtr a] tt
    (if w =? -1 then number_spec (u64 a) 16 16 p (setf f ZEROPAD) else number_spec (u64 a) 16 w p f).
Proof.
  intros Hf Hw Hp. unfold convert_pointer.
  assert (0 <= u64 a < 2 ^ 64) by (apply Z.mod_pos_bound; lia).
  destruct (w =? -1); (eapply emits_take_all; [apply emits_va_ptr|apply emits_number; [done|lia..|]]).
  - rewrite has_setf_other by done. by rewrite Hf.
  - by rewrite Hf.
Qed.

Lemma emits_then {A} (m : W unit) u t (a : A) : emits m u tt t -> emits (m ;;; ret a) u a t.
Proof.
  intros Hm. rewrite <-(app_nil_r u), <-(app_nil_r t).
  by eapply emits_bind; [|apply emits_ret].
Qed.

Lemma emits_convert v q f w p rest :
  is_char q NUL || elem q "hlqLZ" = true -> conv_ok q v = true ->
  has f SIGN = false -> -1 <= w < 2 ^ 31 -> -1 <= p < 2 ^ 31 - 8 ->
  emits (convert (conv_char v :: rest) q f w p) (conv_args q v) rest (conv_text f w p q v).
Proof.
  intros Hq Hv Hf Hw Hp. unfold convert. cbn [peek tail].
  destruct v as [z|a s|a| |c bits]; cbn [conv_char conv_args conv_text].
  1-4: char_simpl; apply emits_then.
  - by apply emits_convert_char.
  - cbn [conv_ok] in Hv. apply andb_true_iff in Hv. apply emits_convert_string; [lia..|naive_solver|lia].
  - by apply emits_convert_pointer.
  - apply emits_put.
  - cbn [conv_ok] in Hv. apply andb_true_iff in Hv as [Hc Hmin].
    assert (integer c q bits <> - 2 ^ 63) by lia. clear Hmin.
    assert (has (integer_flags c f) SIGN = is_signed c).
    { unfold integer_flags, is_signed. elem_cases Hc; char_simpl; by rewrite ?has_setf_same, ?has_setf_other. }
    pose proof (emits_convert_integer c q bits (integer_flags c f) w p) as Hint.
    elem_cases Hc; char_simpl; apply emits_then; apply Hint; done.
Qed.

(** ** Directives and formats *)

Lemma digit_not_flag c : is_digit c = true -> is_char c "0" = false -> is_flag c = false.
Proof.
  intros Hd H0. unfold is_flag. rewrite H0, orb_false_r.
  apply not_true_iff_false. rewrite !orb_true_iff, !is_char_eq. by intros [[[->| ->]| ->]| ->].
Qed.

Lemma emits_directive flags w p q v rest :
  piece_ok (Conv flags w p q v) = true ->
  emits (directive (flags ++ show_width w ++ show_prec p ++ show_qualifier q ++ conv_char v :: rest))
    (args_of (Conv flags w p q v)) rest (render (Conv flags w p q v)).
Proof.
  cbn [piece_ok]. rewrite !andb_true_iff. intros [[[[Hfl Hw] Hp] Hq] Hv].
  destruct (stop_after p q v rest Hq Hv) as [Hstop Hdot].
  destruct (stop_after NoPrec q v rest Hq Hv) as [Hstop' _]. cbn [show_prec app] in Hstop'.
  unfold directive. rewrite get_flags_app; [|done|].
  2: { destruct w as [|[|c ds]|z]; [by apply stop_facts in Hstop as [? _]|done| |done].
       cbn [width_ok] in Hw. rewrite !andb_true_iff in Hw. destruct Hw as [[[Hds _] H0] _].
       cbn in Hds, H0. apply andb_true_iff in Hds as [Hc _].
       apply digit_not_flag; [done|by apply negb_true_iff]. }
  cbn [args_of]. eapply emits_take; [by apply emits_get_width|]. cbn beta iota.
  eapply emits_take; [by apply emits_get_precision|]. cbn beta iota.
  rewrite get_qualifier_show by done.
  apply emits_convert; [done..|by apply flags_of_other; left|by apply width_bounds|by apply prec_bounds].
Qed.

Lemma format_loop_show ps fuel :
  Forall (fun x => piece_ok x = true) ps -> (length (concat (map show ps)) <= fuel)%nat ->
  emits (format_loop fuel (concat (map show ps))) (concat (map args_of ps)) tt (concat (map render ps)).
Proof.
  intros Hps. revert fuel. induction Hps as [|x ps Hx Hps IH]; intros fuel Hf; cbn [map concat].
  { destruct fuel; apply emits_ret. }
  cbn [map concat] in Hf. rewrite length_app in Hf. destruct x as [c|flags w p q v]; cbn [show app length] in *.
  - destruct fuel as [|fuel]; [lia|]. cbn [format_loop]. cbn [piece_ok] in Hx.
    apply andb_true_iff in Hx as [->%negb_true_iff ->%negb_true_iff].
    apply (emits_step _ _ _ tt _ [c]); [apply emits_put|apply IH; lia].
  - destruct fuel as [|fuel]; [lia|]. cbn [format_loop]. char_simpl.
    eapply emits_bind; [|apply IH; rewrite !length_app in Hf; cbn in Hf; lia].
    rewrite <-!app_assoc. cbn [app]. by apply emits_directive.
Qed.
