(* ===== verification/StdioProps.v ===== *)
(** * What the formatted output of the boot loaders promises *)

From S2P Require Import Prelude.
From S2P Require Import Math64.
From S2P Require Import Stdio.
From S2P Require Import StdioNumber.
From S2P Require Import StdioFormat.
From Stdlib Require Import Ascii String.
From stdpp Require Import strings.

Local Open Scope char_scope.
Local Open Scope Z_scope.

(** ** Any format and any arguments *)

(** [m] ends with a result that satisfies [Q], or in an overflow of [int] or at an
    argument of the wrong type. *)
Definition mild (f : fault) : Prop := f = Overflow \/ f = BadVarArg.
Definition tame {A} (m : W A) (Q : A -> Prop) : Prop :=
  forall o, match m o with Ok (a, _) => Q a | Err f => mild f end.

Lemma tame_bind {A B} (m : W A) (k : A -> W B) Q R :
  tame m Q -> (forall a, Q a -> tame (k a) R) -> tame (bind m k) R.
Proof.
  intros Hm Hk o. unfold bind. specialize (Hm o).
  destruct (m o) as [[a o']|f]; [by apply Hk|done].
Qed.

Lemma tame_ret {A} (a : A) (Q : A -> Prop) : Q a -> tame (ret a) Q.
Proof. by intros ? o. Qed.

Lemma tame_put c : tame (put c) (fun _ => True).
Proof. done. Qed.

Lemma tame_gets {A} (f : out -> A) : tame (gets f) (fun _ => True).
Proof. done. Qed.

Lemma tame_int z : tame (int z) (fun a => a = z).
Proof. intros o. unfold int. destruct (_ && _); [done|by left]. Qed.

Lemma tame_emits {A} (m : W A) a t : emits m [] a t -> tame m (fun b => b = a).
Proof. intros Hm [w l st]. specialize (Hm w l st). cbn in Hm. by rewrite Hm. Qed.

Create HintDb tame.
#[local] Hint Resolve tame_put tame_gets tame_int : tame.

(** One step of a sequence, with what is known of its result. *)
Ltac tame_step :=
  eapply tame_bind; [eauto with tame|let H := fresh in intros ? H; cbn beta in H; cbn beta iota].

Lemma tame_mono {A} (m : W A) (Q R : A -> Prop) : tame m Q -> (forall a, Q a -> R a) -> tame m R.
Proof. intros Hm HQ o. specialize (Hm o). destruct (m o) as [[a o']|f]; [by apply HQ|done]. Qed.

Lemma tame_fill_loop n lim x c :
  x - lim <= Z.of_nat n -> tame (fill_loop n lim x c) (fun _ => True).
Proof.
  revert x. induction n as [|n IH]; intros x Hn; cbn [fill_loop]; tame_step; case_match; try done; [lia|].
  tame_step. subst. apply IH. lia.
Qed.

Lemma tame_fill lim x c : tame (fill lim x c) (fun _ => True).
Proof. apply tame_fill_loop. lia. Qed.

Lemma tame_spaces_loop n x : x - 1 <= Z.of_nat n -> tame (spaces_loop n x) (fun _ => True).
Proof.
  revert x. induction n as [|n IH]; intros x Hn; cbn [spaces_loop]; tame_step; case_match; try done; [lia|].
  tame_step. subst. apply IH. lia.
Qed.

Lemma tame_spaces x : tame (spaces x) (fun _ => True).
Proof. apply tame_spaces_loop. lia. Qed.

Lemma tame_unless (b : bool) size m :
  tame m (fun _ => True) -> tame (if b then ret size else m) (fun _ : Z => True).
Proof. by destruct b. Qed.
#[local] Hint Resolve tame_fill tame_spaces tame_unless : tame.

Lemma tame_sign num size type : 0 <= num < 2 ^ 64 ->
  tame (number_sign num size type) (fun r => 0 <= r.1.2 < 2 ^ 64).
Proof.
  intros Hn. unfold number_sign. repeat case_match; try by apply tame_ret.
  2, 3: by tame_step; apply tame_ret.
  eapply (tame_bind _ _ (fun _ => True)).
  - intros o. unfold llong. destruct (_ && _); [done|by left].
  - intros ? _. tame_step. apply tame_ret. cbn. apply Z.mod_pos_bound. lia.
Qed.

Lemma tame_number num base size precision type :
  0 <= num < 2 ^ 64 -> 2 <= base <= 36 -> tame (number num base size precision type) (fun _ => True).
Proof.
  intros Hn Hb. unfold number. rewrite (proj2 (Z.ltb_ge _ _)), (proj2 (Z.ltb_ge 36 _)) by lia. cbn [orb].
  assert (has (if has type LEFT then clrf type ZEROPAD else type) LARGE = has type LARGE) as <-
    by (case_match; [by rewrite has_clrf_other|done]).
  set (type' := if has type LEFT then _ else _). clearbody type'.
  eapply tame_bind; [by apply tame_sign|]. intros [[sign num'] size'] Hn'. cbn in Hn'.
  eapply (tame_bind _ _ (fun _ => True)).
  { repeat case_match; try by apply tame_ret. all: by eapply tame_mono; [apply tame_int|]. }
  intros size2 _. eapply tame_bind; [by eapply tame_emits, emits_digits|]. intros tmp ->.
  tame_step. tame_step. eapply (tame_bind _ _ (fun _ => True)); [by destruct sign; [apply tame_put|apply tame_ret]|]. intros _ _.
  eapply tame_bind; [by eapply tame_emits, emits_prefix|]. intros _ _.
  do 2 tame_step. eapply tame_bind; [by eapply tame_emits, emits_reversed|]. intros _ _.
  tame_step. by apply tame_ret.
Qed.

Ltac tame_va := intros [w [|[] l] st]; cbn; first [by right|apply u32_range|apply u64_range|done].

Lemma tame_va_int : tame va_int (fun v => 0 <= v < 2 ^ 32).
Proof. tame_va. Qed.
Lemma tame_va_long : tame va_long (fun v => 0 <= v < 2 ^ 64).
Proof. tame_va. Qed.
Lemma tame_va_llong : tame va_llong (fun v => 0 <= v < 2 ^ 64).
Proof. tame_va. Qed.
Lemma tame_va_ptr : tame va_ptr (fun v => 0 <= v < 2 ^ 64).
Proof. tame_va. Qed.
Lemma tame_va_str : tame va_str (fun _ => True).
Proof. tame_va. Qed.
Lemma tame_va_store q v : tame (va_store q v) (fun _ => True).
Proof.
  intros [w [|[] l] st]; unfold va_store; cbn; destruct (is_char q "l"), (is_char q "Z");
    first [by right|done].
Qed.
#[local] Hint Resolve tame_va_int tame_va_long tame_va_llong tame_va_ptr tame_va_str tame_va_store : tame.

Lemma get_flags_length fmt f : (length (get_flags fmt f).1 <= length fmt)%nat.
Proof.
  revert f. induction fmt as [|c fmt IH]; intros f; cbn; [done|].
  repeat case_match; cbn; try done; by (etrans; [apply IH|lia]).
Qed.

Lemma tame_skip_atoi s : tame (skip_atoi s) (fun r => (length r.2 <= length s)%nat).
Proof.
  unfold skip_atoi. generalize 0. induction s as [|c s IH]; intros i; cbn [skip_digits]; [by apply tame_ret|].
  case_match; [|by apply tame_ret]. do 3 tame_step.
  eapply tame_mono; [apply IH|]. cbn. intros; lia.
Qed.

Lemma tail_length {A} (l : list A) : (length (tail l) <= length l)%nat.
Proof. destruct l; cbn; lia. Qed.

Lemma tame_get_width fmt f : tame (get_width fmt f) (fun r => (length r.2 <= length fmt)%nat).
Proof.
  unfold get_width. repeat case_match.
  - eapply tame_bind; [apply tame_skip_atoi|]. intros [v fmt'] Hl. by apply tame_ret.
  - tame_step. pose proof (tail_length fmt). case_match; [tame_step|]; by apply tame_ret.
  - by apply tame_ret.
Qed.

Lemma tame_get_precision fmt : tame (get_precision fmt) (fun r => (length r.2 <= length fmt)%nat).
Proof.
  unfold get_precision. case_match; [|by apply tame_ret]. pose proof (tail_length fmt) as Ht.
  eapply (tame_bind _ _ (fun r => (length r.2 <= length fmt)%nat)).
  - repeat case_match.
    + eapply tame_mono; [apply tame_skip_atoi|]. cbn. intros; lia.
    + tame_step. apply tame_ret. pose proof (tail_length (tail fmt)). cbn. lia.
    + by apply tame_ret.
  - intros [p fmt'] Hl. by apply tame_ret.
Qed.

Lemma get_qualifier_length fmt : (length (get_qualifier fmt).2 <= length fmt)%nat.
Proof.
  unfold get_qualifier. pose proof (tail_length fmt). pose proof (tail_length (tail fmt)).
  repeat case_match; cbn; lia.
Qed.

Lemma tame_get_num q f : tame (get_num q f) (fun v => 0 <= v < 2 ^ 64).
Proof.
  unfold get_num. repeat case_match; try by auto with tame.
  all: tame_step; apply tame_ret; pose proof (u16_range a); repeat case_match; first [apply u64_range|lia].
Qed.

Lemma strnlen_bounds s n : 0 <= strnlen s n <= Z.of_nat (length s).
Proof.
  revert n. induction s as [|c s IH]; intros n; cbn [strnlen length]; [lia|].
  case_match; [lia|]. specialize (IH (n - 1)). lia.
Qed.

Lemma s32_of_le z : 0 <= z -> s32_of z <= z.
Proof.
  intros Hz. unfold s32_of, u32. pose proof (Z.mod_le z (2 ^ 32)). case_match; lia.
Qed.

Lemma tame_convert_string f w p : tame (convert_string f w p) (fun _ => True).
Proof.
  eapply tame_bind; [apply tame_va_str|]. intros [addr s] _. cbn beta iota.
  set (s' := if addr =? 0 then _ else s).
  tame_step. eapply tame_bind; [eapply tame_emits, emits_string|].
  - pose proof (strnlen_bounds s' (u64 p)) as Hs. pose proof (s32_of_le (strnlen s' (u64 p))). lia.
  - intros _ _. tame_step. by apply tame_ret.
Qed.

Lemma tame_convert_char f w : tame (convert_char f w) (fun _ => True).
Proof. do 4 tame_step. by apply tame_ret. Qed.

Lemma tame_convert_pointer f w p : tame (convert_pointer f w p) (fun _ => True).
Proof. unfold convert_pointer. destruct (w =? -1); tame_step; apply tame_number; lia. Qed.

Lemma tame_convert_integer q base f w p :
  2 <= base <= 36 -> tame (convert_integer q base f w p) (fun _ => True).
Proof. intros. eapply tame_bind; [apply tame_get_num|]. intros num Hn. by apply tame_number. Qed.
#[local] Hint Resolve tame_convert_string tame_convert_char tame_convert_pointer : tame.
#[local] Hint Extern 1 (tame (convert_integer _ _ _ _ _) _) => apply tame_convert_integer; lia : tame.

Lemma tame_convert fmt q f w p :
  tame (convert fmt q f w p) (fun rest => (length rest <= length fmt)%nat).
Proof.
  unfold convert. pose proof (tail_length fmt).
  repeat case_match; repeat tame_step; by apply tame_ret.
Qed.

Lemma tame_directive fmt : tame (directive fmt) (fun rest => (length rest <= length fmt)%nat).
Proof.
  unfold directive. pose proof (get_flags_length fmt 0). destruct (get_flags fmt 0) as [fmt1 f].
  eapply tame_bind; [apply tame_get_width|]. intros [[w f'] fmt2] ?.
  eapply tame_bind; [apply tame_get_precision|]. intros [p fmt3] ?.
  pose proof (get_qualifier_length fmt3). destruct (get_qualifier fmt3) as [q fmt4].
  eapply tame_mono; [apply tame_convert|]. cbn in *. intros; lia.
Qed.

Lemma tame_format_loop fuel fmt : (length fmt <= fuel)%nat -> tame (format_loop fuel fmt) (fun _ => True).
Proof.
  revert fmt. induction fuel as [|fuel IH]; intros [|c fmt] Hf; cbn [format_loop length] in *;
    [by apply tame_ret|lia|by apply tame_ret|].
  destruct (is_char c NUL); [by apply tame_ret|]. destruct (is_char c "%").
  - eapply tame_bind; [apply tame_directive|]. intros rest Hr. cbn beta in Hr.
    apply IH. lia.
  - tame_step. apply IH. lia.
Qed.

(** ** Claims *)

(** C32. On every format and whatever the arguments, [vsprintf] returns: its loops end, it
    reads no character past the end of the format or of a string, it stays within [tmp] and
    [number] never returns a null pointer.  It goes wrong only where the format asks for
    it: with a width, precision or number that overflows, or an argument of another type. *)
Theorem vsprintf_safe fmt o :
  match vsprintf fmt o with
  | Ok _ => True
  | Err f => f = Overflow \/ f = BadVarArg
  end.
Proof.
  assert (tame (vsprintf fmt) (fun _ => True)) as H; [|specialize (H o); by destruct (vsprintf fmt o) as [[]|]].
  eapply tame_bind; [by apply tame_format_loop|]. intros _ _. by apply tame_gets.
Qed.

(** C31. A format that is built from characters and conversions, with the arguments that the
    conversions ask for, makes [vsprintf] write what the conversions denote, one after the
    other, take exactly these arguments and return the length of the text. *)
Theorem vsprintf_renders ps w l st :
  Forall (fun x => piece_ok x = true) ps ->
  vsprintf (concat (map show ps)) (Out w (concat (map args_of ps) ++ l) st) =
    Ok (s32_of (Z.of_nat (length (w ++ concat (map render ps)))),
        Out (w ++ concat (map render ps)) l st).
Proof. intros Hps. unfold vsprintf, bind. by rewrite (format_loop_show ps) by done. Qed.

(** The integer that a text denotes. *)
Definition read_integer (base : Z) (t : chars) : Z :=
  match t with
  | c :: ds => if is_char c "-" then - value base ds else value base t
  | [] => 0
  end.

Lemma value_zeros base n ds : value base (rep n "0" ++ ds) = value base ds.
Proof.
  unfold value, rep. rewrite foldl_app. f_equal. induction (Z.to_nat n) as [|k IH]; [done|exact IH].
Qed.

Lemma numeral_first k large base num :
  2 <= base <= 36 -> (0 < k)%nat ->
  exists c ds, numeral k large base num = c :: ds /\ is_char c "-" = false.
Proof.
  intros Hb Hk. assert (Hd : forall n, is_char (digit large (n mod base)) "-" = false).
  { intros n. apply is_char_ne. intros Heq. pose proof (digit_value_digit large (n mod base)) as Hv.
    pose proof (mod_base base Hb n). rewrite Heq in Hv. change (digit_value "-") with (-10) in Hv. lia. }
  revert num. induction k as [|k IH]; intros num; [lia|]. cbn [numeral]. case_match; [by eauto|].
  destruct k as [|k]; [by cbn; eauto|].
  destruct (IH ltac:(lia) (num / base)) as (c & ds & -> & Hc). cbn. eauto.
Qed.

Lemma read_digits k base n large num :
  2 <= base <= 36 -> 0 <= num < 2 ^ Z.of_nat k -> (0 < k)%nat ->
  read_integer base (rep n "0" ++ numeral k large base num) = num.
Proof.
  intros Hb Hn Hk. rewrite <-(value_numeral large base Hb k num Hn) at 2.
  rewrite <-(value_zeros base n). set (t := rep n "0" ++ _).
  assert (exists c ds, t = c :: ds /\ is_char c "-" = false) as (c & ds & -> & Hc).
  { unfold t. destruct (Z.le_gt_cases n 0).
    - rewrite rep_none by done. by apply numeral_first.
    - rewrite rep_cons by done. by do 2 eexists. }
  unfold read_integer. by rewrite Hc.
Qed.

(** A number laid out without a width and without flags. *)
Lemma read_plain base p f num :
  2 <= base <= 36 -> 0 <= num < 2 ^ 64 ->
  Z.land f (Z.lor LEFT (Z.lor ZEROPAD (Z.lor SPECIAL (Z.lor PLUS SPACE)))) = 0 ->
  read_integer base (number_spec num base (-1) p f) = signed f num.
Proof.
  intros Hb Hn Hf. apply has_disjoint in Hf. rewrite !has_lor, !orb_false_iff in Hf.
  destruct Hf as (Hleft & Hzero & Hspec & Hplus & Hspace).
  assert (Hr : - 2 ^ 63 <= signed f num < 2 ^ 64).
  { unfold signed, s64_of. rewrite u64_id by done. repeat case_match; lia. }
  unfold number_spec, layout, sign_of, prefix_of, signed in *. rewrite Hleft, Hzero, Hspec, Hplus, Hspace in *.
  rewrite (rep_none (_ - _ - _)) by lia. cbn [app].
  destruct (has f SIGN); [destruct (Z.ltb_spec (s64_of num) 0)|]; cbn [app].
  2, 3: rewrite read_digits by lia; apply Z.abs_eq; lia.
  unfold read_integer. char_simpl. rewrite value_zeros, value_numeral by lia. lia.
Qed.

(** C38. An integer printed without a width and without flags, in any of the conversions, with
    any qualifier and any precision, reads back as the integer the argument was. *)
Theorem print_read c q bits p l :
  piece_ok (Conv [] NoWidth p q (Integer c bits)) = true ->
  exists n t,
    vsprintf (show (Conv [] NoWidth p q (Integer c bits)))
      (Out [] (args_of (Conv [] NoWidth p q (Integer c bits)) ++ l) []) = Ok (n, Out t l []) /\
    read_integer (base_of c) t = integer c q bits.
Proof.
  intros Hok. do 2 eexists. split.
  - rewrite <-(app_nil_r (show _)), <-(app_nil_r (args_of _)).
    unfold vsprintf, bind. rewrite (format_loop_show [Conv [] NoWidth p q (Integer c bits)]); [done| |done].
    by constructor.
  - cbn [app map concat render conv_text width_of]. rewrite app_nil_r.
    change (flags_of [] NoWidth) with 0.
    cbn [piece_ok conv_ok] in Hok. rewrite !andb_true_iff in Hok. destruct Hok as [_ [Hc _]].
    destruct (integer_range c q bits) as [Hr Hs].
    assert (signed (integer_flags c 0) (u64 (integer c q bits)) = integer c q bits) as Hsig.
    { unfold signed. assert (has (integer_flags c 0) SIGN = is_signed c) as -> by (by elem_cases Hc).
      destruct (is_signed c) eqn:E; [rewrite s64_of_u64, s64_of_id; lia|].
      apply u64_id. pose proof (u16_range bits). pose proof (u32_range bits). pose proof (u64_range bits).
      unfold integer. rewrite E. repeat case_match; lia. }
    etrans; [|exact Hsig]. apply read_plain; [unfold base_of; repeat case_match; lia|apply u64_range|by elem_cases Hc].
Qed.

Lemma print_read_witness :
  exists n t,
    vsprintf (list_ascii_of_string "%.5lld") (Out [] [VLLong (-42)] []) = Ok (n, Out t [] []) /\
    read_integer 10 t = -42.
Proof. exact (print_read "d" "q" (-42) (Digits ["5"]) [] eq_refl). Defined.

Lemma vsprintf_renders_witness :
  vsprintf (list_ascii_of_string "x=%-*d|%#06X|%.2s%%")
    (Out [] [VInt 5; VInt (-7); VInt 255; VStr 4096 (list_ascii_of_string "hello")] []) =
    Ok (18, Out (list_ascii_of_string "x=-7   |0X00FF|he%") [] []).
Proof.
  exact (vsprintf_renders
    [ Text "x"; Text "="; Conv ["-"] (StarWidth 5) NoPrec NUL (Integer "d" (-7)); Text "|";
      Conv ["#"; "0"] (Width ["6"]) NoPrec NUL (Integer "X" 255); Text "|";
      Conv [] NoWidth (Digits ["2"]) NUL (Str 4096 (list_ascii_of_string "hello"));
      Conv [] NoWidth NoPrec NUL Percent ] [] [] []
    ltac:(repeat constructor)).
Defined.
