(* ===== verification/BondHash.v ===== *)
(** * Transmit hash policies of [servers/bonding.c]

    The hash by which a bond chooses the slave for a packet, computed from the bytes of the
    packet.  The linear part of a packet is an area of memory; [pskb_may_pull] makes it longer
    and may move it, so that the area is another one afterwards.  What the code takes from the
    flow dissector and from headers that are not part of the repository is a field of the
    class [Flow]; what it relies on is stated in [FlowLaws]. *)

From S2P Require Import Prelude.

Inductive policy :=
  | BOND_XMIT_POLICY_LAYER2
  | BOND_XMIT_POLICY_LAYER34
  | BOND_XMIT_POLICY_LAYER23
  | BOND_XMIT_POLICY_ENCAP23
  | BOND_XMIT_POLICY_ENCAP34
  | BOND_XMIT_POLICY_VLAN_SRCMAC.
#[export] Instance policy_eq_dec : EqDecision policy.
Proof. solve_decision. Defined.

(** [struct flow_keys], as far as it is used. *)
Inductive flow_addrs := V4addrs (src dst : list Z) | V6addrs (src dst : list Z) | NoAddrs.
Record flow_icmp := FlowIcmp { icmp_type : Z; icmp_code : Z; icmp_id : Z }.
Record flow_keys := FlowKeys { fk_addrs : flow_addrs; fk_ports : Z; fk_icmp : flow_icmp }.
#[export] Instance eta_flow_keys : Eta flow_keys := fun k =>
  FlowKeys (fk_addrs k) (fk_ports k) (fk_icmp k).

(** What a packet carries beside its bytes: the protocol and the offset of the network
    header, the VLAN tag, and the hash of the socket. *)
Record skb_info := SkbInfo {
  l2_protocol : Z;
  network_offset : Z;
  vlan_tag : option Z;
  l4_hash : bool;
  skb_hash : Z
}.

(** Memory: the areas, the area with the linear part of the packet, and its other bytes. *)
Record mem := Mem {
  areas : gmap positive (list Z);
  skb_data : positive;
  frags : list Z
}.
#[export] Instance eta_mem : Eta mem := fun m => Mem (areas m) (skb_data m) (frags m).

Definition linear_part (m : mem) : list Z := default [] (areas m !! skb_data m).
Definition packet (m : mem) : list Z := linear_part m ++ frags m.

Class Flow := {
  pskb_may_pull : Z -> M mem bool;
  (* of the 16 bits of the field with the fragment offset *)
  ip_is_fragment : Z -> bool;
  icmp_is_err : Z -> bool;
  icmpv6_is_err : Z -> bool;
  (* of the bytes of the packet, an offset, and a protocol *)
  skb_flow_get_ports : list Z -> Z -> Z -> Z;
  skb_flow_get_icmp_tci : list Z -> Z -> flow_icmp;
  skb_flow_dissect : list Z -> Z -> Z -> option flow_keys;
  flow_get_u32_src : flow_addrs -> Z;
  flow_get_u32_dst : flow_addrs -> Z;
  (* what the variable [flow] of the callers has on the stack before it is written *)
  stack_flow : flow_keys
}.

(** [pskb_may_pull] fails if the packet is too short, or for want of memory, and then changes
    nothing; otherwise the linear part has the length asked for.  The bytes of the packet stay
    the same. *)
Class FlowLaws `{Flow} : Prop := {
  may_pull_ok : forall n m, is_Some (areas m !! skb_data m) ->
    wp (pskb_may_pull n) (fun ok m' => if ok then
      packet m' = packet m /\ is_Some (areas m' !! skb_data m') /\
        n <= Z.of_nat (length (linear_part m')) /\ n <= Z.of_nat (length (packet m))
      else m' = m) m;
  ports_range : forall p off proto, 0 <= skb_flow_get_ports p off proto < 2 ^ 32;
  icmp_range : forall p off, let i := skb_flow_get_icmp_tci p off in
    0 <= icmp_type i < 2 ^ 8 /\ 0 <= icmp_code i < 2 ^ 8 /\ 0 <= icmp_id i < 2 ^ 16;
  dissect_range : forall p proto off k, skb_flow_dissect p proto off = Some k ->
    0 <= fk_ports k < 2 ^ 32 /\ 0 <= icmp_type (fk_icmp k) < 2 ^ 8 /\
    0 <= icmp_code (fk_icmp k) < 2 ^ 8 /\ 0 <= icmp_id (fk_icmp k) < 2 ^ 16;
  u32_src_range : forall a, 0 <= flow_get_u32_src a < 2 ^ 32;
  u32_dst_range : forall a, 0 <= flow_get_u32_dst a < 2 ^ 32
}.

Section hash.
Context `{Flow}.
Abbreviation W := (M mem).

Definition ETH_P_IP : Z := 0x0800.
Definition ETH_P_IPV6 : Z := 0x86DD.
Definition IPPROTO_ICMP : Z := 1.
Definition IPPROTO_ICMPV6 : Z := 58.

(** ** Reading *)

Definition area (data : positive) : W (list Z) :=
  fun m => match areas m !! data with Some l => Ok (l, m) | None => Err Dangling end.

Definition read (data : positive) (i : Z) : W Z :=
  let* l := area data in
  if i <? 0 then fail_with Overrun
  else match l !! Z.to_nat i with Some b => ret b | None => fail_with Overrun end.

Fixpoint read_bytes (data : positive) (i : Z) (n : nat) : W (list Z) :=
  match n with
  | O => ret []
  | S n => let* b := read data i in let* l := read_bytes data (i + 1) n in ret (b :: l)
  end.

(** What the flow dissector sees: the packet, or without one only the area. *)
Definition whole (skb : bool) (data : positive) : W (list Z) :=
  let* l := area data in
  if skb then gets packet else ret l.

(** [skb] says that there is a packet behind the data. *)
Definition bond_pull_data (skb : bool) (data : positive) (hlen n : Z) : W (option positive) :=
  if n <=? hlen then ret (Some data)
  else if skb then
    let* ok := pskb_may_pull n in
    if ok then let* d := gets skb_data in ret (Some d) else ret None
  else ret None.

(** ** Layer 2 *)

Definition be16 (a b : Z) : Z := a * 256 + b.

Definition bond_eth_hash (skb : bool) (data : positive) (mhoff hlen : Z) : W Z :=
  let* d := bond_pull_data skb data hlen (mhoff + 14) in
  match d with
  | None => ret 0
  | Some data =>
      let* dst := read data (mhoff + 5) in
      let* src := read data (mhoff + 11) in
      let* p1 := read data (mhoff + 12) in
      let* p2 := read data (mhoff + 13) in
      ret (Z.lxor (Z.lxor dst src) (be16 p1 p2))
  end.

Definition shift_in (acc b : Z) : Z := u32 (Z.lor (Z.shiftl acc 8) b).

Definition bond_vlan_srcmac_hash (si : skb_info) (skb : bool) (data : positive) (mhoff hlen : Z) : W Z :=
  let* d := bond_pull_data skb data hlen (mhoff + 14) in
  match d with
  | None => ret 0
  | Some data =>
      let* vendor := read_bytes data (mhoff + 6) 3 in
      let* dev := read_bytes data (mhoff + 9) 3 in
      let srcmac_vendor := foldl shift_in 0 vendor in
      let srcmac_dev := foldl shift_in 0 dev in
      let vlan := if skb then default 0 (vlan_tag si) else 0 in
      ret (Z.lxor (Z.lxor vlan srcmac_vendor) srcmac_dev)
  end.

(** ** The flow *)

(** Whether there is an IP header, the keys, the offset behind the header and the protocol. *)
Definition bond_flow_ip (skb : bool) (fk : flow_keys) (data : positive) (hlen l2_proto nhoff ip_proto : Z)
    (l34 : bool) : W (bool * flow_keys * Z * Z) :=
  let* r :=
    if l2_proto =? ETH_P_IP then
      let* d := bond_pull_data skb data hlen (nhoff + 20) in
      match d with
      | None => ret None
      | Some data =>
          let* src := read_bytes data (nhoff + 12) 4 in
          let* dst := read_bytes data (nhoff + 16) 4 in
          let* b0 := read data nhoff in
          let* f1 := read data (nhoff + 6) in
          let* f2 := read data (nhoff + 7) in
          let* proto := read data (nhoff + 9) in
          ret (Some (data, fk <| fk_addrs := V4addrs src dst |>, nhoff + Z.shiftl (Z.land b0 15) 2,
            if ip_is_fragment (be16 f1 f2) then ip_proto else proto))
      end
    else if l2_proto =? ETH_P_IPV6 then
      let* d := bond_pull_data skb data hlen (nhoff + 40) in
      match d with
      | None => ret None
      | Some data =>
          let* src := read_bytes data (nhoff + 8) 16 in
          let* dst := read_bytes data (nhoff + 24) 16 in
          let* proto := read data (nhoff + 6) in
          ret (Some (data, fk <| fk_addrs := V6addrs src dst |>, nhoff + 40, proto))
      end
    else ret None in
  match r with
  | None => ret (false, fk, nhoff, ip_proto)
  | Some (data, fk, nhoff, ip_proto) =>
      if l34 && (0 <=? ip_proto) then
        let* p := whole skb data in
        ret (true, fk <| fk_ports := skb_flow_get_ports p nhoff ip_proto |>, nhoff, ip_proto)
      else ret (true, fk, nhoff, ip_proto)
  end.

Definition no_icmp : flow_icmp := FlowIcmp 0 0 0.

Definition bond_flow_dissect (pol : policy) (skb : bool) (data : positive) (l2_proto nhoff hlen : Z)
    (fk : flow_keys) : W (bool * flow_keys) :=
  let l34 := bool_decide (pol = BOND_XMIT_POLICY_LAYER34) in
  match pol with
  | BOND_XMIT_POLICY_ENCAP23 | BOND_XMIT_POLICY_ENCAP34 =>
      let* p := whole skb data in
      match skb_flow_dissect p l2_proto nhoff with
      | Some fk => ret (true, fk)
      | None => ret (false, fk)
      end
  | _ =>
      let fk := fk <| fk_ports := 0 |> <| fk_icmp := no_icmp |> in
      let* r := bond_flow_ip skb fk data hlen l2_proto nhoff (-1) l34 in
      let '(ok, fk, nhoff, ip_proto) := r in
      if negb ok then ret (false, fk)
      else if (ip_proto =? IPPROTO_ICMP) || (ip_proto =? IPPROTO_ICMPV6) then
        let* p := whole skb data in
        let fk := fk <| fk_icmp := skb_flow_get_icmp_tci p nhoff |> in
        let is_err := if ip_proto =? IPPROTO_ICMP then icmp_is_err else icmpv6_is_err in
        if negb (is_err (icmp_type (fk_icmp fk))) then ret (true, fk)
        else
          let* r := bond_flow_ip skb fk data hlen l2_proto (nhoff + 8) ip_proto l34 in
          let '(ok, fk, _, _) := r in
          ret (ok, fk)
      else ret (true, fk)
  end.

(** ** The hash *)

Definition bond_ip_hash (hash : Z) (flow : flow_keys) (pol : policy) : Z :=
  let hash := Z.lxor hash (Z.lxor (flow_get_u32_dst (fk_addrs flow)) (flow_get_u32_src (fk_addrs flow))) in
  let hash := Z.lxor hash (Z.shiftr hash 16) in
  let hash := Z.lxor hash (Z.shiftr hash 8) in
  match pol with
  | BOND_XMIT_POLICY_LAYER34 | BOND_XMIT_POLICY_ENCAP34 => Z.shiftr hash 1
  | _ => hash
  end.

(** The four bytes of the ICMP key as a word of a little-endian machine. *)
Definition icmp_word (i : flow_icmp) : Z := icmp_type i + icmp_code i * 2 ^ 8 + icmp_id i * 2 ^ 16.

Definition __bond_xmit_hash (pol : policy) (si : skb_info) (skb : bool) (data : positive)
    (l2_proto mhoff nhoff hlen : Z) : W Z :=
  match pol with
  | BOND_XMIT_POLICY_VLAN_SRCMAC => bond_vlan_srcmac_hash si skb data mhoff hlen
  | BOND_XMIT_POLICY_LAYER2 => bond_eth_hash skb data mhoff hlen
  | _ =>
      let* r := bond_flow_dissect pol skb data l2_proto nhoff hlen stack_flow in
      let '(ok, flow) := r in
      if negb ok then bond_eth_hash skb data mhoff hlen
      else
        let* hash :=
          match pol with
          | BOND_XMIT_POLICY_LAYER23 | BOND_XMIT_POLICY_ENCAP23 => bond_eth_hash skb data mhoff hlen
          | _ =>
              if icmp_id (fk_icmp flow) =? 0 then ret (fk_ports flow)
              else ret (icmp_word (fk_icmp flow))
          end in
        ret (bond_ip_hash hash flow pol)
  end.

Definition bond_xmit_hash (pol : policy) (si : skb_info) : W Z :=
  if bool_decide (pol = BOND_XMIT_POLICY_ENCAP34) && l4_hash si then ret (skb_hash si)
  else
    let* data := gets skb_data in
    let* hlen := gets (fun m => Z.of_nat (length (linear_part m))) in
    __bond_xmit_hash pol si true data (l2_protocol si) 0 (network_offset si) hlen.

(** [data] is the area from [xdp->data] to [xdp->data_end]. *)
Definition bond_xmit_hash_xdp (pol : policy) (data : positive) : W Z :=
  let* l := area data in
  let len := Z.of_nat (length l) in
  if len <? 14 then ret 0
  else
    let* p1 := read data 12 in
    let* p2 := read data 13 in
    __bond_xmit_hash pol (SkbInfo 0 0 None false 0) false data (be16 p1 p2) 0 14 len.

(** ** Sockets *)

(** [struct sock]: [v6] if the family is AF_INET6, with its IPv6 and IPv4 addresses. *)
Record sock := Sock {
  sk_v6 : bool;
  ipv6_only_sock : bool;
  v6_daddr_mapped : bool;
  sk_v6_saddr : list Z;
  sk_v6_daddr : list Z;
  inet_rcv_saddr : list Z;
  inet_daddr : list Z;
  (* the two ports as a word *)
  inet_ports : Z
}.

Definition bond_sk_to_flow (sk : sock) (flow : flow_keys) : flow_keys :=
  (if sk_v6 sk && (ipv6_only_sock sk || negb (v6_daddr_mapped sk))
   then flow <| fk_addrs := V6addrs (sk_v6_saddr sk) (sk_v6_daddr sk) |>
   else flow <| fk_addrs := V4addrs (inet_rcv_saddr sk) (inet_daddr sk) |>)
  <| fk_ports := inet_ports sk |>.

Definition bond_sk_hash_l34 (sk : sock) : Z :=
  let flow := bond_sk_to_flow sk stack_flow in
  bond_ip_hash (fk_ports flow) flow BOND_XMIT_POLICY_LAYER34.
End hash.
