(* ===== verification/BondSpec.v ===== *)
(** * Transmit hash policies: what the hash is

    The hash as a function of the bytes of a packet, and that the code computes it, without
    reading outside of the packet, if the packet is in one area of memory. *)

From S2P Require Import Prelude.
From S2P Require Import BondHash.

(** ** Bytes *)

Definition byte (p : list Z) (i : Z) : Z := default 0 (p !! Z.to_nat i).
Definition slice (p : list Z) (i : Z) (n : nat) : list Z := take n (drop (Z.to_nat i) p).
Definition fits (p : list Z) (n : Z) : bool := n <=? Z.of_nat (length p).

Section spec.
Context `{Flow}.

Definition eth_of (p : list Z) (mhoff : Z) : Z :=
  if fits p (mhoff + 14)
  then Z.lxor (Z.lxor (byte p (mhoff + 5)) (byte p (mhoff + 11))) (be16 (byte p (mhoff + 12)) (byte p (mhoff + 13)))
  else 0.

Definition srcmac_of (vlan : Z) (p : list Z) (mhoff : Z) : Z :=
  if fits p (mhoff + 14)
  then Z.lxor (Z.lxor vlan (foldl shift_in 0 (slice p (mhoff + 6) 3))) (foldl shift_in 0 (slice p (mhoff + 9) 3))
  else 0.

(** The addresses of an IP header, the offset behind it and the protocol; the protocol stays
    what it was for a fragment. *)
Definition ip_of (p : list Z) (l2_proto nhoff ip_proto : Z) : option (flow_addrs * Z * Z) :=
  if l2_proto =? ETH_P_IP then
    if fits p (nhoff + 20) then
      Some (V4addrs (slice p (nhoff + 12) 4) (slice p (nhoff + 16) 4),
        nhoff + Z.shiftl (Z.land (byte p nhoff) 15) 2,
        if ip_is_fragment (be16 (byte p (nhoff + 6)) (byte p (nhoff + 7))) then ip_proto else byte p (nhoff + 9))
    else None
  else if l2_proto =? ETH_P_IPV6 then
    if fits p (nhoff + 40) then
      Some (V6addrs (slice p (nhoff + 8) 16) (slice p (nhoff + 24) 16), nhoff + 40, byte p (nhoff + 6))
    else None
  else None.

Definition ports_of (l34 : bool) (p : list Z) (nhoff ip_proto old : Z) : Z :=
  if l34 && (0 <=? ip_proto) then skb_flow_get_ports p nhoff ip_proto else old.

(** The keys of a packet; those of the packet that caused it for an ICMP error. *)
Definition flow_of (pol : policy) (p : list Z) (l2_proto nhoff : Z) : option flow_keys :=
  let l34 := bool_decide (pol = BOND_XMIT_POLICY_LAYER34) in
  match pol with
  | BOND_XMIT_POLICY_ENCAP23 | BOND_XMIT_POLICY_ENCAP34 => skb_flow_dissect p l2_proto nhoff
  | _ =>
      match ip_of p l2_proto nhoff (-1) with
      | None => None
      | Some (addrs, nhoff, ip_proto) =>
          let ports := ports_of l34 p nhoff ip_proto 0 in
          if (ip_proto =? IPPROTO_ICMP) || (ip_proto =? IPPROTO_ICMPV6) then
            let icmp := skb_flow_get_icmp_tci p nhoff in
            let is_err := if ip_proto =? IPPROTO_ICMP then icmp_is_err else icmpv6_is_err in
            if negb (is_err (icmp_type icmp)) then Some (FlowKeys addrs ports icmp)
            else
              match ip_of p l2_proto (nhoff + 8) ip_proto with
              | None => None
              | Some (addrs, nhoff, ip_proto) => Some (FlowKeys addrs (ports_of l34 p nhoff ip_proto ports) icmp)
              end
          else Some (FlowKeys addrs ports no_icmp)
      end
  end.

Definition key_of (pol : policy) (p : list Z) (mhoff : Z) (flow : flow_keys) : Z :=
  match pol with
  | BOND_XMIT_POLICY_LAYER23 | BOND_XMIT_POLICY_ENCAP23 => eth_of p mhoff
  | _ => if icmp_id (fk_icmp flow) =? 0 then fk_ports flow else icmp_word (fk_icmp flow)
  end.

Definition hash_of (pol : policy) (vlan : Z) (p : list Z) (l2_proto mhoff nhoff : Z) : Z :=
  match pol with
  | BOND_XMIT_POLICY_VLAN_SRCMAC => srcmac_of vlan p mhoff
  | BOND_XMIT_POLICY_LAYER2 => eth_of p mhoff
  | _ =>
      match flow_of pol p l2_proto nhoff with
      | None => eth_of p mhoff
      | Some flow => bond_ip_hash (key_of pol p mhoff flow) flow pol
      end
  end.
End spec.

(** ** The code computes it *)

Section runs.
Context `{L : FlowLaws}.

(** The packet [p] is in the area [d], and there is no more of it. *)
Definition settled (skb : bool) (m : mem) (d : positive) (p : list Z) : Prop :=
  areas m !! d = Some p /\ (skb = true -> skb_data m = d /\ frags m = []).

Context (skb : bool) (m : mem) (d : positive) (p : list Z) (Hm : settled skb m d p).

Lemma settled_packet : skb = true -> packet m = p.
Proof.
  pose proof Hm as [Ha Hs]. intros [E1 E2]%Hs. unfold packet, linear_part. rewrite E1, E2, Ha. apply app_nil_r.
Qed.

Lemma pull_run n (Q : option positive -> mem -> Prop) :
  Q (if fits p n then Some d else None) m -> wp (bond_pull_data skb d (Z.of_nat (length p)) n) Q m.
Proof.
  pose proof Hm as [Ha Hs]. pose proof settled_packet as Hp.
  unfold bond_pull_data, fits. destruct (Z.leb_spec n (Z.of_nat (length p))); [done|].
  destruct skb eqn:Eskb; [|done]. intros HQ. destruct (Hs eq_refl) as [Hd _].
  apply wp_bind. eapply wp_mono; [apply may_pull_ok; rewrite Hd, Ha; by eexists|]. cbv beta.
  intros [] m'; [|by intros ->]. intros (_ & _ & _ & Hlen). rewrite Hp in Hlen by done. lia.
Qed.

Lemma read_run i (Q : Z -> mem -> Prop) :
  0 <= i < Z.of_nat (length p) -> Q (byte p i) m -> wp (read d i) Q m.
Proof.
  intros Hi HQ. unfold read, area, wp, bind. rewrite (proj1 Hm).
  rewrite (proj2 (Z.ltb_ge _ _)) by lia. unfold byte in HQ.
  destruct (lookup_lt_is_Some_2 p (Z.to_nat i)) as [b Hb]; [lia|]. by rewrite Hb in HQ |- *.
Qed.

Lemma read_bytes_run i n (Q : list Z -> mem -> Prop) :
  0 <= i -> i + Z.of_nat n <= Z.of_nat (length p) -> Q (slice p i n) m -> wp (read_bytes d i n) Q m.
Proof.
  revert i Q. induction n as [|n IH]; intros i Q H0 Hi HQ; cbn [read_bytes]; [done|].
  apply wp_bind, read_run; [lia|]. apply wp_bind, IH; [lia..|]. apply wp_ret.
  assert (slice p i (S n) = byte p i :: slice p (i + 1) n) as <-; [|done].
  unfold slice, byte. destruct (lookup_lt_is_Some_2 p (Z.to_nat i)) as [b Hb]; [lia|].
  replace (Z.to_nat (i + 1)) with (S (Z.to_nat i)) by lia. by rewrite (drop_S _ _ _ Hb), Hb.
Qed.

Lemma whole_run (Q : list Z -> mem -> Prop) : Q p m -> wp (whole skb d) Q m.
Proof.
  pose proof settled_packet as Hp. intros HQ. unfold whole, area, wp, bind. rewrite (proj1 Hm).
  destruct skb; [|done]. unfold gets. by rewrite Hp.
Qed.

Lemma eth_run mhoff (Q : Z -> mem -> Prop) :
  0 <= mhoff -> Q (eth_of p mhoff) m -> wp (bond_eth_hash skb d mhoff (Z.of_nat (length p))) Q m.
Proof.
  intros Hmh HQ. unfold bond_eth_hash. apply wp_bind, pull_run. unfold eth_of in HQ.
  destruct (fits p (mhoff + 14)) eqn:Hf; [|done]. apply Z.leb_le in Hf.
  do 4 (apply wp_bind, read_run; [lia|]). done.
Qed.

Lemma srcmac_run si mhoff (Q : Z -> mem -> Prop) :
  0 <= mhoff -> Q (srcmac_of (if skb then default 0 (vlan_tag si) else 0) p mhoff) m ->
  wp (bond_vlan_srcmac_hash si skb d mhoff (Z.of_nat (length p))) Q m.
Proof.
  intros Hmh HQ. unfold bond_vlan_srcmac_hash. apply wp_bind, pull_run. unfold srcmac_of in HQ.
  destruct (fits p (mhoff + 14)) eqn:Hf; [|done]. apply Z.leb_le in Hf.
  do 2 (apply wp_bind, read_bytes_run; [lia..|]). done.
Qed.

(** What [bond_flow_ip] gives in terms of [ip_of]. *)
Definition ip_result (fk : flow_keys) (nhoff ip_proto : Z) (l34 : bool) (r : option (flow_addrs * Z * Z)) :=
  match r with
  | None => (false, fk, nhoff, ip_proto)
  | Some (a, nh, pr) => (true, FlowKeys a (ports_of l34 p nh pr (fk_ports fk)) (fk_icmp fk), nh, pr)
  end.

Lemma flow_ip_run fk l2 nhoff ip_proto l34 Q :
  0 <= nhoff -> Q (ip_result fk nhoff ip_proto l34 (ip_of p l2 nhoff ip_proto)) m ->
  wp (bond_flow_ip skb fk d (Z.of_nat (length p)) l2 nhoff ip_proto l34) Q m.
Proof.
  intros Hn HQ. unfold bond_flow_ip. unfold ip_of in HQ. apply wp_bind.
  destruct (l2 =? ETH_P_IP); [|destruct (l2 =? ETH_P_IPV6); [|by do 2 apply wp_ret]];
    apply wp_bind, pull_run; (destruct (fits p _) eqn:Hf; [|by do 2 apply wp_ret]); apply Z.leb_le in Hf;
    repeat first [apply wp_bind, read_bytes_run; [lia..|] | apply wp_bind, read_run; [lia|]]; apply wp_ret;
    cbn [ip_result] in HQ; unfold ports_of in HQ; 
    (destruct (l34 && _); [apply wp_bind, whole_run; by apply wp_ret|by apply wp_ret]).
Qed.

Lemma ip_of_offset l2 nhoff ip_proto a nh pr :
  0 <= nhoff -> ip_of p l2 nhoff ip_proto = Some (a, nh, pr) -> 0 <= nh.
Proof.
  intros Hn. unfold ip_of. pose proof (Z.land_nonneg (byte p nhoff) 15) as Hl. rewrite Z.shiftl_mul_pow2 by lia.
  repeat case_match; intros; simplify_eq; lia.
Qed.

Lemma dissect_run pol l2 nhoff fk Q :
  0 <= nhoff ->
  (forall fk', (match flow_of pol p l2 nhoff with Some k => fk' = k | None => True end) ->
    Q (bool_decide (is_Some (flow_of pol p l2 nhoff)), fk') m) ->
  wp (bond_flow_dissect pol skb d l2 nhoff (Z.of_nat (length p)) fk) Q m.
Proof.
  intros Hn HQ. unfold bond_flow_dissect, flow_of in *.
  assert (forall k : flow_keys, bool_decide (is_Some (Some k)) = true) as Ht by (intros; by apply bool_decide_true).
  assert (bool_decide (is_Some (@None flow_keys)) = false) as Hf by (by apply bool_decide_false).
  destruct pol;
    first [ apply wp_bind, whole_run; destruct (skb_flow_dissect p l2 nhoff) as [k|];
              [rewrite Ht in HQ|rewrite Hf in HQ]; apply wp_ret; by apply HQ
          | idtac ];
    apply wp_bind, flow_ip_run; try done; cbn [ip_result];
    (destruct (ip_of p l2 nhoff (-1)) as [[[a nh] pr]|] eqn:E1; cbn [ip_result];
      [|apply wp_ret; rewrite Hf in HQ; by apply HQ]);
    apply ip_of_offset in E1; [|done| |done| |done| |done]; cbn [negb];
    (destruct ((pr =? IPPROTO_ICMP) || (pr =? IPPROTO_ICMPV6)); [|apply wp_ret; rewrite Ht in HQ; by apply HQ]);
    apply wp_bind, whole_run; cbn [fk_icmp];
    (destruct (negb _); [apply wp_ret; rewrite Ht in HQ; by apply HQ|]);
    apply wp_bind, flow_ip_run; [lia| |lia| |lia| |lia|];
    (destruct (ip_of p l2 (nh + 8) pr) as [[[a' nh'] pr']|]; cbn [ip_result]; apply wp_ret;
      [rewrite Ht in HQ|rewrite Hf in HQ]; by apply HQ).
Qed.

(** The code computes the hash, and reads nothing outside of the packet. *)
Lemma hash_run pol si l2 mhoff nhoff Q :
  0 <= mhoff -> 0 <= nhoff ->
  Q (hash_of pol (if skb then default 0 (vlan_tag si) else 0) p l2 mhoff nhoff) m ->
  wp (__bond_xmit_hash pol si skb d l2 mhoff nhoff (Z.of_nat (length p))) Q m.
Proof.
  intros Hmh Hn HQ. unfold __bond_xmit_hash, hash_of, key_of in *.
  destruct pol; [by apply eth_run| | | | |by apply srcmac_run];
    apply wp_bind, dissect_run; try done; intros fk Hfk;
    (destruct (flow_of _ p l2 nhoff) as [k|]; [rewrite bool_decide_true by done|rewrite bool_decide_false by done; by apply eth_run]);
    subst k; cbn [negb]; apply wp_bind;
    first [ apply eth_run; [done|by apply wp_ret] | case_match; by do 2 apply wp_ret ].
Qed.
End runs.

(** ** The hash is a 32-bit number *)

Lemma lxor_range n a b : 0 <= n -> 0 <= a < 2 ^ n -> 0 <= b < 2 ^ n -> 0 <= Z.lxor a b < 2 ^ n.
Proof.
  intros Hn Ha Hb. assert (0 <= Z.lxor a b) as H0 by (apply Z.lxor_nonneg; lia). split; [done|].
  destruct (Z.eq_dec (Z.lxor a b) 0) as [->|Hne]; [lia|]. apply Z.log2_lt_pow2; [lia|].
  pose proof (Z.log2_lxor a b) as Hl.
  assert (forall x, 0 <= x < 2 ^ n -> Z.log2 x < n \/ n = 0) as Hlog.
  { intros x Hx. destruct (Z.eq_dec n 0) as [|Hn0]; [by right|left]. destruct (Z.eq_dec x 0) as [->|]; [cbn; lia|].
    apply Z.log2_lt_pow2; lia. }
  destruct (Hlog a Ha) as [|En], (Hlog b Hb) as [|]; try lia; subst n; cbn in Ha, Hb;
    assert (a = 0) by lia; assert (b = 0) by lia; by subst.
Qed.

Lemma shiftr_range n a k : 0 <= k -> 0 <= a < 2 ^ n -> 0 <= Z.shiftr a k < 2 ^ n.
Proof.
  intros Hk Ha. rewrite Z.shiftr_div_pow2 by done. pose proof (Z.pow_pos_nonneg 2 k).
  split; [apply Z.div_pos; lia|]. pose proof (Z.div_le_upper_bound a (2 ^ k) a). nia.
Qed.

Section range.
Context `{L : FlowLaws}.

Definition bytes_ok (p : list Z) : Prop := Forall (fun b => 0 <= b < 2 ^ 8) p.

Lemma byte_range p i : bytes_ok p -> 0 <= byte p i < 2 ^ 8.
Proof.
  intros Hp. unfold byte. destruct (p !! Z.to_nat i) as [b|] eqn:Hb; cbn; [|lia].
  by apply (Forall_lookup_1 _ _ _ _ Hp) in Hb.
Qed.

Lemma eth_of_range p mhoff : bytes_ok p -> 0 <= eth_of p mhoff < 2 ^ 32.
Proof.
  intros Hp. unfold eth_of, be16. case_match; [|lia].
  assert (0 <= Z.lxor (Z.lxor (byte p (mhoff + 5)) (byte p (mhoff + 11)))
    (byte p (mhoff + 12) * 256 + byte p (mhoff + 13)) < 2 ^ 16); [|lia].
  pose proof (byte_range p (mhoff + 5) Hp). pose proof (byte_range p (mhoff + 11) Hp).
  pose proof (byte_range p (mhoff + 12) Hp). pose proof (byte_range p (mhoff + 13) Hp).
  apply lxor_range; [lia|apply lxor_range; lia|lia].
Qed.

Lemma foldl_shift_range l acc : 0 <= acc < 2 ^ 32 -> 0 <= foldl shift_in acc l < 2 ^ 32.
Proof. revert acc. induction l as [|b l IH]; intros acc Ha; cbn; [done|]. apply IH. apply u32_range. Qed.

Lemma srcmac_of_range vlan p mhoff : 0 <= vlan < 2 ^ 32 -> 0 <= srcmac_of vlan p mhoff < 2 ^ 32.
Proof.
  intros Hv. unfold srcmac_of. case_match; [|lia].
  apply lxor_range; [lia|apply lxor_range; [lia|done|]|]; by apply foldl_shift_range.
Qed.

Definition flow_ok (k : flow_keys) : Prop :=
  0 <= fk_ports k < 2 ^ 32 /\ 0 <= icmp_type (fk_icmp k) < 2 ^ 8 /\
  0 <= icmp_code (fk_icmp k) < 2 ^ 8 /\ 0 <= icmp_id (fk_icmp k) < 2 ^ 16.

Lemma flow_of_ok pol p l2 nhoff k : flow_of pol p l2 nhoff = Some k -> flow_ok k.
Proof.
  assert (forall l34 nh pr old, 0 <= old < 2 ^ 32 -> 0 <= ports_of l34 p nh pr old < 2 ^ 32) as Hports.
  { intros. unfold ports_of. case_match; [apply ports_range|done]. }
  unfold flow_of. destruct pol; try apply dissect_range;
    (destruct (ip_of p l2 nhoff (-1)) as [[[a nh] pr]|]; [|done]); pose proof (icmp_range p nh) as Hi;
    repeat case_match; intros; simplify_eq; unfold flow_ok; cbn;
    (split; [repeat apply Hports; lia|first [apply Hi | lia]]).
Qed.

Lemma ip_hash_range h k pol : 0 <= h < 2 ^ 32 -> 0 <= bond_ip_hash h k pol < 2 ^ 32.
Proof.
  intros Hh. unfold bond_ip_hash. cbv zeta. set (x := Z.lxor h _).
  assert (0 <= x < 2 ^ 32) as Hx.
  { subst x. apply lxor_range; [lia|done|]. apply lxor_range; [lia|apply u32_dst_range|apply u32_src_range]. }
  set (y := Z.lxor x _). assert (0 <= y < 2 ^ 32) as Hy by (apply lxor_range; [lia|done|by apply shiftr_range]).
  set (z := Z.lxor y _). assert (0 <= z < 2 ^ 32) as Hz by (apply lxor_range; [lia|done|by apply shiftr_range]).
  destruct pol; first [done | by apply shiftr_range].
Qed.

Lemma hash_of_range pol vlan p l2 mhoff nhoff :
  bytes_ok p -> 0 <= vlan < 2 ^ 32 -> 0 <= hash_of pol vlan p l2 mhoff nhoff < 2 ^ 32.
Proof.
  intros Hp Hv. pose proof (eth_of_range p mhoff Hp) as He. unfold hash_of.
  destruct pol; first [done | by apply srcmac_of_range | idtac];
    (destruct (flow_of _ p l2 nhoff) as [k|] eqn:Hk; [|done]); apply ip_hash_range; unfold key_of; try done;
    destruct (flow_of_ok _ _ _ _ _ Hk) as (H1 & H2 & H3 & H4); unfold icmp_word; case_match; lia.
Qed.

(** ** The entry points *)

(** A packet in one area. *)
Definition linear (m : mem) : Prop := is_Some (areas m !! skb_data m) /\ frags m = [].

Definition skb_hash_of (pol : policy) (si : skb_info) (p : list Z) : Z :=
  if bool_decide (pol = BOND_XMIT_POLICY_ENCAP34) && l4_hash si then skb_hash si
  else hash_of pol (default 0 (vlan_tag si)) p (l2_protocol si) 0 (network_offset si).

Lemma bond_xmit_hash_run pol si m :
  linear m -> 0 <= network_offset si -> bond_xmit_hash pol si m = Ok (skb_hash_of pol si (packet m), m).
Proof.
  intros [[p Hp] Hf] Hn. assert (settled true m (skb_data m) p) as Hs by done.
  assert (packet m = p) as -> by (by eapply settled_packet).
  unfold bond_xmit_hash, skb_hash_of. case_match; [done|]. unfold gets, bind. unfold linear_part. rewrite Hp. cbn.
  pose proof (hash_run true m (skb_data m) p Hs pol si (l2_protocol si) 0 (network_offset si)
    (fun r m' => r = hash_of pol (default 0 (vlan_tag si)) p (l2_protocol si) 0 (network_offset si) /\ m' = m)) as Hr.
  destruct (wp_inv _ _ _ (Hr ltac:(lia) Hn (conj eq_refl eq_refl))) as (h & m' & Hrun & -> & ->). done.
Qed.

Lemma bond_xmit_hash_xdp_run pol m d p :
  areas m !! d = Some p ->
  bond_xmit_hash_xdp pol d m =
    Ok (if fits p 14 then hash_of pol 0 p (be16 (byte p 12) (byte p 13)) 0 14 else 0, m).
Proof.
  intros Hp. assert (settled false m d p) as Hs by done. unfold fits.
  destruct (wp_inv (bond_xmit_hash_xdp pol d) (fun r m' =>
    r = (if 14 <=? Z.of_nat (length p) then hash_of pol 0 p (be16 (byte p 12) (byte p 13)) 0 14 else 0) /\ m' = m) m)
    as (h & m' & Hrun & -> & ->); [|done].
  unfold bond_xmit_hash_xdp. apply wp_bind. unfold area at 1, wp. rewrite Hp.
  destruct (Z.ltb_spec (Z.of_nat (length p)) 14); [rewrite (proj2 (Z.leb_gt _ _)) by lia; done|].
  rewrite (proj2 (Z.leb_le _ _)) by lia. do 2 (apply wp_bind; eapply read_run; [done|lia|]).
  eapply (hash_run false); try done; lia.
Qed.
End range.
