(* ===== verification/BondSample.v ===== *)
(** * Transmit hash policies: an instance

    [LinuxFlow] gives what the hash is computed with in the simplest way that has the
    documented behaviour.  Its [pskb_may_pull] moves the linear part to a new area when it has
    to make it longer, as it does where there is no room behind the old one. *)

From S2P Require Import Prelude.
From S2P Require Import BondHash.
From S2P Require Import BondSpec.

Definition word (l : list Z) : Z := u32 (foldl (fun acc b => acc * 256 + b) 0 l).

Definition pull_moving (n : Z) : M mem bool := fun m =>
  let lin := linear_part m in
  if n <=? Z.of_nat (length lin) then Ok (true, m)
  else if Z.of_nat (length (packet m)) <? n then Ok (false, m)
  else
    let k := (Z.to_nat n - length lin)%nat in
    let d := fresh (dom (areas m)) in
    Ok (true, Mem (<[d := lin ++ take k (frags m)]> (delete (skb_data m) (areas m))) d (drop k (frags m))).

#[export] Instance LinuxFlow : Flow := {|
  pskb_may_pull := pull_moving;
  ip_is_fragment := fun f => negb (Z.land f 0x3FFF =? 0);
  icmp_is_err := fun t => bool_decide (t ∈ [3; 4; 5; 11; 12]);
  icmpv6_is_err := fun t => t <? 128;
  skb_flow_get_ports := fun p off proto => if bool_decide (proto ∈ [6; 17]) then word (slice p off 4) else 0;
  skb_flow_get_icmp_tci := fun p off =>
    FlowIcmp (u8 (byte p off)) (u8 (byte p (off + 1)))
      (if bool_decide (byte p off ∈ [0; 8]) then u16 (be16 (byte p (off + 4)) (byte p (off + 5))) else 0);
  skb_flow_dissect := fun p proto off =>
    if (proto =? ETH_P_IP) && fits p (off + 20)
    then Some (FlowKeys (V4addrs (slice p (off + 12) 4) (slice p (off + 16) 4)) 0 no_icmp) else None;
  flow_get_u32_src := fun a => match a with V4addrs s _ | V6addrs s _ => word s | NoAddrs => 0 end;
  flow_get_u32_dst := fun a => match a with V4addrs _ d | V6addrs _ d => word d | NoAddrs => 0 end;
  stack_flow := FlowKeys NoAddrs 0xdeadbeef (FlowIcmp 1 2 3)
|}.

Lemma pull_moving_ok n m :
  is_Some (areas m !! skb_data m) ->
  wp (pull_moving n) (fun ok m' => if ok then
    packet m' = packet m /\ is_Some (areas m' !! skb_data m') /\
      n <= Z.of_nat (length (linear_part m')) /\ n <= Z.of_nat (length (packet m))
    else m' = m) m.
Proof.
  intros Ha. unfold pull_moving, wp. cbv zeta.
  destruct (Z.leb_spec n (Z.of_nat (length (linear_part m)))) as [Hle|Hgt].
  { unfold packet. rewrite length_app. split_and!; [done|done|done|lia]. }
  destruct (Z.ltb_spec (Z.of_nat (length (packet m))) n) as [|Hlen]; [done|].
  set (d := fresh (dom (areas m))). set (k := (Z.to_nat n - _)%nat).
  assert (linear_part (Mem (<[d := linear_part m ++ take k (frags m)]> (delete (skb_data m) (areas m))) d
    (drop k (frags m))) = linear_part m ++ take k (frags m)) as Hl.
  { unfold linear_part at 1. cbn. by rewrite lookup_insert_eq. }
  split_and!.
  - unfold packet. rewrite Hl. cbn. by rewrite <-app_assoc, take_drop.
  - cbn. rewrite lookup_insert_eq. by eexists.
  - rewrite Hl, length_app, length_take. unfold packet in Hlen. rewrite length_app in Hlen. subst k. lia.
  - done.
Qed.

#[export] Instance LinuxFlowLaws : FlowLaws.
Proof.
  constructor; cbn.
  - apply pull_moving_ok.
  - intros. case_match; [apply u32_range|lia].
  - intros. unfold u8. split_and!; try (apply Z.mod_pos_bound; lia).
    + case_match; [apply u16_range|lia].
    + case_match; [apply u16_range|lia].
  - intros p proto off k. case_match; [|done]. intros [= <-]. cbn. lia.
  - intros []; first [apply u32_range | lia].
  - intros []; first [apply u32_range | lia].
Qed.
