(* ===== verification/AlbTypes.v ===== *)
(** * Adaptive load balancing: the data of [servers/bond_alb.c]

    The tables of transmit and receive load balancing with the slaves of a bond.  Entries of
    the tables are linked by index, slaves are on a heap and are referred to by pointers.
    What the file takes from headers that are not part of the repository (net/bonding.h,
    net/bond_alb.h, linux/etherdevice.h, linux/netdevice.h) is a field of the class [Alb];
    what the code relies on about it is stated in [AlbLaws]. *)

From S2P Require Import Prelude.
From S2P Require Import BondHash.

(** An Ethernet address, an IP address: their bytes. *)
Abbreviation mac_addr := (list Z).
Abbreviation ip_addr := (list Z).

(** [struct slave], with its [SLAVE_TLB_INFO]: [load] and [head].  [dev_addr] is the address
    the kernel uses for the device, [hw_addr] the one its hardware listens to; [can_tx] is
    the value of [bond_slave_can_tx]. *)
Record slave := Slave {
  speed : Z;
  can_tx : bool;
  dev_addr : mac_addr;
  hw_addr : mac_addr;
  perm_hwaddr : mac_addr;
  load : Z;
  head : Z
}.
#[export] Instance eta_slave : Eta slave := fun s =>
  Slave (speed s) (can_tx s) (dev_addr s) (hw_addr s) (perm_hwaddr s) (load s) (head s).

(** [struct tlb_client_info] *)
Record tlb_client_info := TlbClient {
  tx_slave : option positive;
  tx_bytes : Z;
  load_history : Z;
  next : Z;
  prev : Z
}.
#[export] Instance eta_tlb_client_info : Eta tlb_client_info := fun e =>
  TlbClient (tx_slave e) (tx_bytes e) (load_history e) (next e) (prev e).

(** [struct rlb_client_info] *)
Record rlb_client_info := RlbClient {
  ip_src : ip_addr;
  ip_dst : ip_addr;
  mac_src : mac_addr;
  mac_dst : mac_addr;
  used_next : Z;
  used_prev : Z;
  src_first : Z;
  src_next : Z;
  src_prev : Z;
  assigned : bool;
  ntt : bool;
  rx_client : option positive;
  vlan_id : Z
}.
#[export] Instance eta_rlb_client_info : Eta rlb_client_info := fun e =>
  RlbClient (ip_src e) (ip_dst e) (mac_src e) (mac_dst e) (used_next e) (used_prev e)
    (src_first e) (src_next e) (src_prev e) (assigned e) (ntt e) (rx_client e) (vlan_id e).

(** [struct arp_pkt], as far as it is used. *)
Inductive arp_op := ARPOP_REQUEST | ARPOP_REPLY | ARPOP_OTHER.
Record arp_pkt := ArpPkt {
  op_code : arp_op;
  arp_mac_src : mac_addr;
  arp_ip_src : ip_addr;
  arp_mac_dst : mac_addr;
  arp_ip_dst : ip_addr
}.
#[export] Instance eta_arp_pkt : Eta arp_pkt := fun a =>
  ArpPkt (op_code a) (arp_mac_src a) (arp_ip_src a) (arp_mac_dst a) (arp_ip_dst a).

(** What is sent or asked of a device. *)
Inductive event :=
  | Learning (s : positive) (addr : mac_addr) (tag : option (Z * Z))
  | ArpReply (s : positive) (dst src : ip_addr) (addr : mac_addr) (vlan : Z)
  | Promiscuity (s : positive) (inc : Z)
  | Xmit (s : positive) (source : mac_addr)
  | Drop.

(** [netdev_tx_t] *)
Inductive netdev_tx_t := NETDEV_TX_OK | NETDEV_TX_BUSY | NET_XMIT_DROP.

(** [struct net_device] of the bond and of the devices above it, as far as it is used: a
    VLAN device has a tag, and [addr_stolen] if it took its address from the device below. *)
Record dev_info := DevInfo {
  ifindex : Z;
  is_vlan_dev : bool;
  vlan_proto : Z;
  vlan_dev_vlan_id : Z;
  lower_level : Z;
  addr_stolen : bool;
  upper_addr : mac_addr;
  netif_is_macvlan : bool
}.
#[warnings="-register-all"]
Inductive net_device := NetDevice (info : dev_info) (above : list net_device).

(** A pointer to tags, null or an error pointer; a tag is its protocol and its identifier. *)
Inductive tags_ptr := Tags (tags : list (Z * Z)) | TagsNull | TagsErr.

(** [struct bonding], with its [BOND_ALB_INFO].  [calls] counts the calls whose outcome the
    rest of the kernel decides. *)
Record bonding := Bonding {
  slaves : gmap positive slave;
  slave_list : list positive;
  curr_active_slave : option positive;
  usable_slaves : option (list positive);
  bond_dev : net_device;
  bond_addr : mac_addr;
  mode_tlb : bool;
  tlb_dynamic_lb : bool;
  xmit_policy : policy;
  tx_hashtbl : option (gmap Z tlb_client_info);
  unbalanced_load : Z;
  tx_rebalance_counter : Z;
  lp_counter : Z;
  rlb_enabled : bool;
  rx_hashtbl : option (gmap Z rlb_client_info);
  rx_hashtbl_used_head : Z;
  rx_ntt : bool;
  rx_slave : option positive;
  primary_is_promisc : bool;
  rlb_promisc_timeout_counter : Z;
  rlb_update_delay_counter : Z;
  rlb_update_retry_counter : Z;
  rlb_rebalance : bool;
  events : list event;
  calls : Z
}.
#[export] Instance eta_bonding : Eta bonding := fun b =>
  Bonding (slaves b) (slave_list b) (curr_active_slave b) (usable_slaves b) (bond_dev b)
    (bond_addr b) (mode_tlb b) (tlb_dynamic_lb b) (xmit_policy b) (tx_hashtbl b) (unbalanced_load b) (tx_rebalance_counter b)
    (lp_counter b) (rlb_enabled b) (rx_hashtbl b) (rx_hashtbl_used_head b) (rx_ntt b) (rx_slave b)
    (primary_is_promisc b) (rlb_promisc_timeout_counter b) (rlb_update_delay_counter b)
    (rlb_update_retry_counter b) (rlb_rebalance b) (events b) (calls b).

(** A packet to be sent: what the code looks at.  [may_pull] and [may_pull_icmp] say that
    the headers that are asked for are there; [skb_mem] has the bytes that are hashed. *)
Inductive protocol := ETH_P_IP | ETH_P_IPV6 | ETH_P_ARP | ETH_P_OTHER.
Record sk_buff := Skb {
  skb_protocol : protocol;
  h_dest : mac_addr;
  h_source : mac_addr;
  skb_len : Z;
  skb_vlan : option Z;
  may_pull : bool;
  ip_daddr : ip_addr;
  ip_is_igmp : bool;
  ip6_icmp : bool;
  may_pull_icmp : bool;
  ip6_nd : bool;
  ip6_any_saddr : bool;
  skb_arp : arp_pkt;
  skb_si : skb_info;
  skb_mem : mem
}.

(** The kernel around the file. *)
Class Alb := {
  (* what the hash of a packet is computed with *)
  alb_flow :: Flow;
  (* net/bond_alb.h *)
  TLB_NULL_INDEX : Z;
  RLB_NULL_INDEX : Z;
  TLB_HASH_TABLE_SIZE : Z;
  RLB_HASH_TABLE_SIZE : Z;
  BOND_TLB_REBALANCE_INTERVAL : Z;
  BOND_TLB_REBALANCE_TICKS : Z;
  BOND_ALB_LP_TICKS : Z;
  RLB_UPDATE_RETRY : Z;
  RLB_UPDATE_DELAY : Z;
  RLB_ARP_BURST_SIZE : nat;
  RLB_PROMISC_TIMEOUT : Z;
  (* error numbers; the one with which setting an address fails *)
  ENOMEM : Z; EFAULT : Z; EOPNOTSUPP : Z; EADDRNOTAVAIL : Z; mac_errno : Z;
  (* linux/etherdevice.h *)
  ether_addr_equal : mac_addr -> mac_addr -> bool;
  is_valid_ether_addr : mac_addr -> bool;
  is_zero_ether_addr : mac_addr -> bool;
  is_broadcast_ether_addr : mac_addr -> bool;
  is_multicast_ether_addr : mac_addr -> bool;
  (* net/bonding.h: the first slave of the list with an address *)
  bond_slave_has_mac : list (positive * slave) -> mac_addr -> option positive;
  bond_is_nondyn_tlb : bonding -> bool;
  BOND_VLAN_PROTO_NONE : Z;
  (* the device of an IP address is a bridge *)
  bridge_has_addr : ip_addr -> bool;
  (* the outcome of a call that can fail, by its number *)
  succeeds : Z -> bool
}.

(** What [bond_alb.c] relies on. *)
Class AlbLaws `{Alb} : Prop := {
  tlb_null_outside : ~ 0 <= TLB_NULL_INDEX < TLB_HASH_TABLE_SIZE;
  rlb_null_outside : ~ 0 <= RLB_NULL_INDEX < RLB_HASH_TABLE_SIZE;
  tlb_size : 256 <= TLB_HASH_TABLE_SIZE;
  rlb_size : 256 <= RLB_HASH_TABLE_SIZE;
  rebalance_interval : 0 < BOND_TLB_REBALANCE_INTERVAL;
  errors_nonzero : ENOMEM <> 0 /\ EFAULT <> 0 /\ EOPNOTSUPP <> 0 /\ mac_errno <> 0 /\ EADDRNOTAVAIL <> 0;
  alb_flow_laws :: FlowLaws;
  ether_addr_equal_spec : forall a b, ether_addr_equal a b = true <-> a = b;
  has_mac_some : forall l a s, bond_slave_has_mac l a = Some s ->
    exists sl, (s, sl) ∈ l /\ dev_addr sl = a;
  has_mac_none : forall l a, bond_slave_has_mac l a = None ->
    forall s sl, (s, sl) ∈ l -> dev_addr sl <> a
}.
