(* ===== verification/AlbOps.v ===== *)
(** * Adaptive load balancing: the tables

    The functions of [servers/bond_alb.c] that work on the transmit and the receive hash
    table.  Locks are the atomicity of the calls. *)

From S2P Require Import Prelude.
From S2P Require Import AlbTypes.

Section ops.
Context `{Alb}.

Abbreviation W := (M bonding).

(** ** Access to slaves and entries *)

Definition get_slave (s : positive) : W slave :=
  let* m := gets slaves in
  match m !! s with Some sl => ret sl | None => fail_with Dangling end.
Definition mod_slave (s : positive) (f : slave -> slave) : W unit :=
  let* sl := get_slave s in
  modify (fun b => b <| slaves ::= <[s := f sl]> |>).

Definition get_tx (i : Z) : W tlb_client_info :=
  let* t := gets tx_hashtbl in
  match t with
  | None => fail_with NullDeref
  | Some t => match t !! i with Some e => ret e | None => fail_with Overrun end
  end.
Definition mod_tx (i : Z) (f : tlb_client_info -> tlb_client_info) : W unit :=
  let* t := gets tx_hashtbl in
  match t with
  | None => fail_with NullDeref
  | Some t =>
      match t !! i with
      | Some e => modify (fun b => b <| tx_hashtbl := Some (<[i := f e]> t) |>)
      | None => fail_with Overrun
      end
  end.

Definition get_rx (i : Z) : W rlb_client_info :=
  let* t := gets rx_hashtbl in
  match t with
  | None => fail_with NullDeref
  | Some t => match t !! i with Some e => ret e | None => fail_with Overrun end
  end.
Definition mod_rx (i : Z) (f : rlb_client_info -> rlb_client_info) : W unit :=
  let* t := gets rx_hashtbl in
  match t with
  | None => fail_with NullDeref
  | Some t =>
      match t !! i with
      | Some e => modify (fun b => b <| rx_hashtbl := Some (<[i := f e]> t) |>)
      | None => fail_with Overrun
      end
  end.

(** A call whose outcome the rest of the kernel decides. *)
Definition try_call : W bool :=
  let* n := gets calls in
  modify (fun b => b <| calls := n + 1 |>) ;;;
  ret (succeeds n).

Definition emit (e : event) : W unit := modify (fun b => b <| events ::= cons e |>).

Definition is_active (s : positive) : W bool :=
  let* a := gets curr_active_slave in
  ret (bool_decide (a = Some s)).

Definition _simple_hash (bytes : list Z) : Z := foldl (fun h b => u8 (Z.lxor h b)) 0 bytes.

(** ** Transmit load balancing *)

Definition tlb_init_table_entry (save_load : bool) (e : tlb_client_info) : tlb_client_info :=
  let e :=
    if save_load then
      e <| load_history := u32 (1 + tx_bytes e / BOND_TLB_REBALANCE_INTERVAL) |> <| tx_bytes := 0 |>
    else e in
  e <| tx_slave := None |> <| next := TLB_NULL_INDEX |> <| prev := TLB_NULL_INDEX |>.

Definition tlb_init_slave (s : slave) : slave := s <| load := 0 |> <| head := TLB_NULL_INDEX |>.

(** Fuel for a walk along a list of entries: the size of the table. *)
Definition tlb_fuel : nat := S (Z.to_nat TLB_HASH_TABLE_SIZE).
Definition rlb_fuel : nat := S (Z.to_nat RLB_HASH_TABLE_SIZE).

Fixpoint clear_loop (fuel : nat) (index : Z) (save_load : bool) : W unit :=
  if index =? TLB_NULL_INDEX then ret tt
  else
    match fuel with
    | O => fail_with OutOfFuel
    | S fuel =>
        let* e := get_tx index in
        mod_tx index (tlb_init_table_entry save_load) ;;;
        clear_loop fuel (next e) save_load
    end.

Definition __tlb_clear_slave (s : positive) (save_load : bool) : W unit :=
  let* t := gets tx_hashtbl in
  match t with
  | Some _ =>
      let* sl := get_slave s in
      clear_loop tlb_fuel (head sl) save_load
  | None => ret tt
  end ;;;
  mod_slave s tlb_init_slave.

Definition tlb_clear_slave := __tlb_clear_slave.

(** The entries of a new table, from 0 to [size - 1]. *)
Definition new_table {A} (size : Z) (e : A) : gmap Z A :=
  list_to_map ((fun i => (i, e)) <$> seqZ 0 size).

Definition tlb_entry_0 : tlb_client_info := TlbClient None 0 0 0 0.

Definition tlb_initialize : W Z :=
  let* ok := try_call in
  if ok then
    modify (fun b => b <| tx_hashtbl :=
      Some (new_table TLB_HASH_TABLE_SIZE (tlb_init_table_entry false tlb_entry_0)) |>) ;;;
    ret 0
  else ret (- ENOMEM).

Definition tlb_deinitialize : W unit := modify (fun b => b <| tx_hashtbl := None |>).

(** [speed] and [load] are 32-bit, and so are the shifted values. *)
Definition compute_gap (s : slave) : Z := u32 (Z.shiftl (speed s) 20) - u32 (Z.shiftl (load s) 3).

Definition tlb_get_least_loaded_slave : W (option positive) :=
  let* l := gets slave_list in
  let* r := for_each l (None, - 2 ^ 63) (fun '(least_loaded, max_gap) s =>
    let* sl := get_slave s in
    if can_tx sl then
      let gap := compute_gap sl in
      if max_gap <? gap then ret (Continue (Some s, gap))
      else ret (Continue (least_loaded, max_gap))
    else ret (Continue (least_loaded, max_gap))) in
  ret r.1.

Definition __tlb_choose_channel (hash_index skb_len : Z) : W (option positive) :=
  let* e := get_tx hash_index in
  let* assigned_slave :=
    match tx_slave e with
    | Some s => ret (Some s)
    | None =>
        let* least := tlb_get_least_loaded_slave in
        match least with
        | None => ret None
        | Some s =>
            let* sl := get_slave s in
            let next_index := head sl in
            mod_tx hash_index (fun e =>
              e <| tx_slave := Some s |> <| next := next_index |> <| prev := TLB_NULL_INDEX |>) ;;;
            when_ (negb (next_index =? TLB_NULL_INDEX))
              (mod_tx next_index (fun e => e <| prev := hash_index |>)) ;;;
            let* e := get_tx hash_index in
            mod_slave s (fun sl =>
              sl <| head := hash_index |> <| load := u32 (load sl + load_history e) |>) ;;;
            ret (Some s)
        end
    end in
  when_ (bool_decide (is_Some assigned_slave))
    (mod_tx hash_index (fun e => e <| tx_bytes := u32 (tx_bytes e + skb_len) |>)) ;;;
  ret assigned_slave.

Definition tlb_choose_channel := __tlb_choose_channel.

(** ** Receive load balancing: entries *)

Definition rlb_init_table_entry_dst (e : rlb_client_info) : rlb_client_info :=
  e <| used_next := RLB_NULL_INDEX |> <| used_prev := RLB_NULL_INDEX |> <| assigned := false |>
    <| rx_client := None |> <| vlan_id := 0 |>.
Definition rlb_init_table_entry_src (e : rlb_client_info) : rlb_client_info :=
  e <| src_first := RLB_NULL_INDEX |> <| src_prev := RLB_NULL_INDEX |> <| src_next := RLB_NULL_INDEX |>.
Definition rlb_entry_0 : rlb_client_info :=
  RlbClient [0; 0; 0; 0] [0; 0; 0; 0] [0; 0; 0; 0; 0; 0] [0; 0; 0; 0; 0; 0] 0 0 0 0 0 false false None 0.
Definition rlb_init_table_entry : rlb_client_info :=
  rlb_init_table_entry_src (rlb_init_table_entry_dst rlb_entry_0).

Definition rlb_delete_table_entry_dst (index : Z) : W unit :=
  let* e := get_rx index in
  let next_index := used_next e in
  let prev_index := used_prev e in
  let* h := gets rx_hashtbl_used_head in
  when_ (index =? h) (modify (fun b => b <| rx_hashtbl_used_head := next_index |>)) ;;;
  when_ (negb (prev_index =? RLB_NULL_INDEX))
    (mod_rx prev_index (fun e => e <| used_next := next_index |>)) ;;;
  when_ (negb (next_index =? RLB_NULL_INDEX))
    (mod_rx next_index (fun e => e <| used_prev := prev_index |>)).

Definition rlb_src_unlink (index : Z) : W unit :=
  let* e := get_rx index in
  let next_index := src_next e in
  let prev_index := src_prev e in
  mod_rx index (fun e => e <| src_next := RLB_NULL_INDEX |> <| src_prev := RLB_NULL_INDEX |>) ;;;
  when_ (negb (next_index =? RLB_NULL_INDEX))
    (mod_rx next_index (fun e => e <| src_prev := prev_index |>)) ;;;
  if prev_index =? RLB_NULL_INDEX then ret tt
  else
    let* p := get_rx prev_index in
    if src_first p =? index then mod_rx prev_index (fun e => e <| src_first := next_index |>)
    else mod_rx prev_index (fun e => e <| src_next := next_index |>).

Definition rlb_delete_table_entry (index : Z) : W unit :=
  rlb_delete_table_entry_dst index ;;;
  mod_rx index rlb_init_table_entry_dst ;;;
  rlb_src_unlink index.

Definition rlb_src_link (ip_src_hash ip_dst_hash : Z) : W unit :=
  mod_rx ip_dst_hash (fun e => e <| src_prev := ip_src_hash |>) ;;;
  let* h := get_rx ip_src_hash in
  let next := src_first h in
  mod_rx ip_dst_hash (fun e => e <| src_next := next |>) ;;;
  when_ (negb (next =? RLB_NULL_INDEX)) (mod_rx next (fun e => e <| src_prev := ip_dst_hash |>)) ;;;
  mod_rx ip_src_hash (fun e => e <| src_first := ip_dst_hash |>).

(** A walk along a list that deletes the entries it selects; the successor is read before. *)
Fixpoint delete_loop (fuel : nat) (nx : rlb_client_info -> Z) (sel : rlb_client_info -> bool)
    (index : Z) : W unit :=
  if index =? RLB_NULL_INDEX then ret tt
  else
    match fuel with
    | O => fail_with OutOfFuel
    | S fuel =>
        let* e := get_rx index in
        let next_index := nx e in
        when_ (sel e) (rlb_delete_table_entry index) ;;;
        delete_loop fuel nx sel next_index
    end.

(** The address of the sender is that of the entry, its hardware is not. *)
Definition conflicts (arp : arp_pkt) (e : rlb_client_info) : bool :=
  bool_decide (ip_src e = arp_ip_src arp) && negb (ether_addr_equal (arp_mac_src arp) (mac_src e)).

Definition rlb_purge_src_ip (arp : arp_pkt) : W unit :=
  let* h := get_rx (_simple_hash (arp_ip_src arp)) in
  delete_loop rlb_fuel src_next (conflicts arp) (src_first h).

Definition rlb_clear_vlan (vlan : Z) : W unit :=
  let* h := gets rx_hashtbl_used_head in
  delete_loop rlb_fuel used_next (fun e => vlan_id e =? vlan) h.

Definition rlb_initialize : W Z :=
  let* ok := try_call in
  if ok then
    modify (fun b => b <| rx_hashtbl := Some (new_table RLB_HASH_TABLE_SIZE rlb_init_table_entry) |>
      <| rx_hashtbl_used_head := RLB_NULL_INDEX |>) ;;;
    ret 0
  else ret (-1).

Definition rlb_deinitialize : W unit :=
  modify (fun b => b <| rx_hashtbl := None |> <| rx_hashtbl_used_head := RLB_NULL_INDEX |>).
End ops.

(** * Adaptive load balancing: receive clients, addresses and the calls of the driver

    The functions of [servers/bond_alb.c] above the tables: choosing slaves for clients,
    telling clients, hardware addresses, and the functions that the driver calls. *)

Section clients.
Context `{Alb}.

Abbreviation W := (M bonding).

(** ** Receive load balancing: clients *)

(** [before] and [rx_slave] with their speeds. *)
Definition faster (best : option (positive * Z)) (s : positive) (sl : slave) : option (positive * Z) :=
  match best with
  | None => Some (s, speed sl)
  | Some (_, v) => if v <? speed sl then Some (s, speed sl) else best
  end.

Definition __rlb_next_rx_slave : W (option positive) :=
  let* l := gets slave_list in
  let* last := gets rx_slave in
  let* '(before, rx, _) := for_each l (None, None, false) (fun '(before, rx, found) s =>
    let* sl := get_slave s in
    if can_tx sl then
      let '(before, rx) :=
        if found : bool then (before, faster rx s sl) else (faster before s sl, rx) in
      ret (Continue (before, rx, found || bool_decide (last = Some s)))
    else ret (Continue (before, rx, found))) in
  let chosen :=
    match rx, before with
    | None, _ => before
    | Some (_, v), Some (_, v') => if v <? v' then before else rx
    | Some _, None => rx
    end in
  match chosen with
  | Some (s, _) => modify (fun b => b <| rx_slave := Some s |>) ;;; ret (Some s)
  | None => ret None
  end.

Definition rlb_next_rx_slave := __rlb_next_rx_slave.

Definition rlb_update_entry_from_arp (arp : arp_pkt) : W unit :=
  let hash_index := _simple_hash (arp_ip_src arp) in
  let* e := get_rx hash_index in
  when_ (assigned e && bool_decide (ip_src e = arp_ip_dst arp) &&
         bool_decide (ip_dst e = arp_ip_src arp) &&
         negb (ether_addr_equal (mac_dst e) (arp_mac_src arp)))
    (mod_rx hash_index (fun e => e <| mac_dst := arp_mac_src arp |> <| ntt := true |>) ;;;
     modify (fun b => b <| rx_ntt := true |>)).

(** For a packet of protocol ARP whose header is there. *)
Definition rlb_arp_recv (arp : arp_pkt) : W unit :=
  rlb_purge_src_ip arp ;;;
  match op_code arp with
  | ARPOP_REPLY => rlb_update_entry_from_arp arp
  | _ => ret tt
  end.

(** A learning packet, if there is memory for it. *)
Definition alb_send_lp_vid (s : positive) (addr : mac_addr) (tag : Z * Z) : W unit :=
  let* ok := try_call in
  when_ ok
    (let* _ := get_slave s in
     emit (Learning s addr (if tag.2 =? 0 then None else Some tag))).

(** [bond_verify_device_path]: the tags on a way from a device to the device [end_dev] above
    it.  The array is allocated where the way ends. *)
Fixpoint bond_verify_device_path (start : net_device) (end_dev : Z) (level : nat) : W tags_ptr :=
  let '(NetDevice info above) := start in
  if ifindex info =? end_dev then
    let* ok := try_call in
    ret (if ok then Tags (replicate level (0, 0) ++ [(BOND_VLAN_PROTO_NONE, 0)]) else TagsErr)
  else
    (fix search (l : list net_device) : W tags_ptr :=
       match l with
       | [] => ret TagsNull
       | (NetDevice upper _ as dev) :: l =>
           let* r := bond_verify_device_path dev end_dev (S level) in
           match r with
           | TagsErr => ret TagsErr
           | TagsNull => search l
           | Tags tags =>
               if is_vlan_dev upper then
                 if bool_decide (level < length tags)%nat then
                   ret (Tags (<[level := (vlan_proto upper, vlan_dev_vlan_id upper)]> tags))
                 else fail_with Overrun
               else ret (Tags tags)
           end
       end) above.

(** What is sent for a device above the bond; nonzero ends the walk. *)
Definition alb_upper_dev_walk (s : positive) (addr : mac_addr) (strict_match : bool)
    (upper : dev_info) : W Z :=
  let* dev := gets bond_dev in
  let '(NetDevice bond_info _) := dev in
  when_ (is_vlan_dev upper && (lower_level bond_info =? lower_level upper - 1))
    (alb_send_lp_vid s (if addr_stolen upper then addr else upper_addr upper)
       (vlan_proto upper, vlan_dev_vlan_id upper)) ;;;
  if netif_is_macvlan upper && negb strict_match then
    let* tags := bond_verify_device_path dev (ifindex upper) 0 in
    match tags with
    | Tags [] => fail_with Overrun
    | Tags (tag :: _) => alb_send_lp_vid s (upper_addr upper) tag ;;; ret 0
    | _ => ret (- ENOMEM)
    end
  else ret 0.

(** The devices that [netdev_walk_all_upper_dev_rcu] visits, in its order. *)
Fixpoint all_upper (dev : net_device) : list dev_info :=
  let '(NetDevice _ above) := dev in
  mjoin (map (fun d => match d with NetDevice info _ => info :: all_upper d end) above).

Definition alb_send_learning_packets (s : positive) (addr : mac_addr) (strict_match : bool) : W unit :=
  let* _ := get_slave s in
  alb_send_lp_vid s addr (0, 0) ;;;
  let* dev := gets bond_dev in
  for_each (all_upper dev) tt (fun _ upper =>
    let* res := alb_upper_dev_walk s addr strict_match upper in
    ret (if res =? 0 then Continue tt else Break tt)).

Definition rlb_teach_disabled_mac_on_primary (addr : mac_addr) : W unit :=
  let* active := gets curr_active_slave in
  match active with
  | None => ret tt
  | Some a =>
      let* p := gets primary_is_promisc in
      when_ (negb p)
        (emit (Promiscuity a 1) ;;;
         let* ok := try_call in
         modify (fun b => b <| primary_is_promisc := ok |>)) ;;;
      modify (fun b => b <| rlb_promisc_timeout_counter := 0 |>) ;;;
      alb_send_learning_packets a addr true
  end.

Fixpoint rlb_clear_loop (fuel : nat) (index : Z) (s : positive) : W unit :=
  if index =? RLB_NULL_INDEX then ret tt
  else
    match fuel with
    | O => fail_with OutOfFuel
    | S fuel =>
        let* e := get_rx index in
        when_ (bool_decide (rx_client e = Some s))
          (let* a := rlb_next_rx_slave in
           match a with
           | Some a =>
               mod_rx index (fun e => e <| rx_client := Some a |>) ;;;
               when_ (is_valid_ether_addr (mac_dst e))
                 (mod_rx index (fun e => e <| ntt := true |>) ;;;
                  modify (fun b => b <| rx_ntt := true |>
                                     <| rlb_update_retry_counter := RLB_UPDATE_RETRY |>))
           | None => mod_rx index (fun e => e <| rx_client := None |>)
           end) ;;;
        rlb_clear_loop fuel (used_next e) s
    end.

Definition rlb_clear_slave (s : positive) : W unit :=
  let* h := gets rx_hashtbl_used_head in
  rlb_clear_loop rlb_fuel h s ;;;
  let* active := is_active s in
  when_ (negb active)
    (let* sl := get_slave s in
     rlb_teach_disabled_mac_on_primary (dev_addr sl)).

(** One ARP reply of the burst, if there is memory for it. *)
Fixpoint arp_burst (n : nat) (s : positive) (e : rlb_client_info) : W unit :=
  match n with
  | O => ret tt
  | S n =>
      let* ok := try_call in
      when_ ok (emit (ArpReply s (ip_dst e) (ip_src e) (mac_dst e) (vlan_id e))) ;;;
      arp_burst n s e
  end.

Definition rlb_update_client (e : rlb_client_info) : W unit :=
  match rx_client e with
  | None => ret tt
  | Some s =>
      when_ (is_valid_ether_addr (mac_dst e))
        (let* _ := get_slave s in arp_burst RLB_ARP_BURST_SIZE s e)
  end.

(** A walk along the used entries, with a variable. *)
Fixpoint used_loop {A} (fuel : nat) (index : Z) (a : A) (body : A -> Z -> rlb_client_info -> W A) : W A :=
  if index =? RLB_NULL_INDEX then ret a
  else
    match fuel with
    | O => fail_with OutOfFuel
    | S fuel =>
        let* e := get_rx index in
        let* a := body a index e in
        let* e := get_rx index in
        used_loop fuel (used_next e) a body
    end.
Definition for_each_used {A} (a : A) (body : A -> Z -> rlb_client_info -> W A) : W A :=
  let* h := gets rx_hashtbl_used_head in
  used_loop rlb_fuel h a body.

Definition rlb_update_rx_clients : W unit :=
  for_each_used tt (fun _ index e =>
    when_ (ntt e)
      (rlb_update_client e ;;;
       let* n := gets rlb_update_retry_counter in
       when_ (n =? 0) (mod_rx index (fun e => e <| ntt := false |>)))) ;;;
  modify (fun b => b <| rlb_update_delay_counter := RLB_UPDATE_DELAY |>).

Definition rlb_req_update_slave_clients (s : positive) : W unit :=
  let* r := for_each_used false (fun r index e =>
    if bool_decide (rx_client e = Some s) && is_valid_ether_addr (mac_dst e) then
      mod_rx index (fun e => e <| ntt := true |>) ;;; ret true
    else ret r) in
  when_ r
    (modify (fun b => b <| rx_ntt := true |> <| rlb_update_retry_counter := RLB_UPDATE_RETRY |>)).

Definition rlb_req_update_subnet_clients (src_ip : ip_addr) : W unit :=
  for_each_used tt (fun _ index e =>
    match rx_client e with
    | None => ret tt
    | Some s =>
        let* sl := get_slave s in
        let* a := gets bond_addr in
        when_ (bool_decide (ip_src e = src_ip) && negb (ether_addr_equal (dev_addr sl) a) &&
               is_valid_ether_addr (mac_dst e))
          (mod_rx index (fun e => e <| ntt := true |>) ;;;
           modify (fun b => b <| rx_ntt := true |>))
    end).

(** [rlb_rebalance] of the code. *)
Definition rlb_rebalance_clients : W unit :=
  let* r := for_each_used false (fun r index e =>
    let* a := __rlb_next_rx_slave in
    match a with
    | None => ret r
    | Some a =>
        if bool_decide (rx_client e = Some a) then ret r
        else
          mod_rx index (fun e => e <| rx_client := Some a |>) ;;;
          if is_zero_ether_addr (mac_dst e) then ret r
          else mod_rx index (fun e => e <| ntt := true |>) ;;; ret true
    end) in
  when_ r (modify (fun b => b <| rx_ntt := true |>)).

(** The part of [rlb_choose_channel] for an entry in use: the slave of this client, or the
    old client moved to the primary. *)
Definition rlb_reuse (hash_index : Z) (arp : arp_pkt) : W (option positive) :=
  let* e := get_rx hash_index in
  if assigned e then
    if bool_decide (ip_src e = arp_ip_src arp) && bool_decide (ip_dst e = arp_ip_dst arp) then
      when_ (negb (is_broadcast_ether_addr (arp_mac_dst arp)))
        (mod_rx hash_index (fun e => e <| mac_dst := arp_mac_dst arp |>)) ;;;
      mod_rx hash_index (fun e => e <| mac_src := arp_mac_src arp |>) ;;;
      ret (rx_client e)
    else
      let* active := gets curr_active_slave in
      match active with
      | Some a =>
          when_ (negb (bool_decide (rx_client e = Some a)))
            (mod_rx hash_index (fun e => e <| rx_client := Some a |>) ;;;
             let* e := get_rx hash_index in
             rlb_update_client e)
      | None => ret tt
      end ;;;
      ret None
  else ret None.

(** A new slave for the entry. *)
Definition rlb_assign (hash_index : Z) (arp : arp_pkt) (vlan : option Z) (s : positive) : W unit :=
  let* e := get_rx hash_index in
  when_ (negb (assigned e && bool_decide (ip_src e = arp_ip_src arp)))
    (rlb_src_unlink hash_index ;;;
     rlb_src_link (_simple_hash (arp_ip_src arp)) hash_index) ;;;
  mod_rx hash_index (fun e =>
    e <| ip_src := arp_ip_src arp |> <| ip_dst := arp_ip_dst arp |>
      <| mac_dst := arp_mac_dst arp |> <| mac_src := arp_mac_src arp |> <| rx_client := Some s |>) ;;;
  (if is_valid_ether_addr (arp_mac_dst arp) then
     mod_rx hash_index (fun e => e <| ntt := true |>) ;;;
     modify (fun b => b <| rx_ntt := true |>)
   else mod_rx hash_index (fun e => e <| ntt := false |>)) ;;;
  mod_rx hash_index (fun e => e <| vlan_id := default 0 vlan |>) ;;;
  when_ (negb (assigned e))
    (let* prev_tbl_head := gets rx_hashtbl_used_head in
     modify (fun b => b <| rx_hashtbl_used_head := hash_index |>) ;;;
     mod_rx hash_index (fun e => e <| used_next := prev_tbl_head |>) ;;;
     when_ (negb (prev_tbl_head =? RLB_NULL_INDEX))
       (mod_rx prev_tbl_head (fun e => e <| used_prev := hash_index |>)) ;;;
     mod_rx hash_index (fun e => e <| assigned := true |>)).

Definition rlb_choose_channel (vlan : option Z) (arp : arp_pkt) : W (option positive) :=
  let hash_index := _simple_hash (arp_ip_dst arp) in
  let* r := rlb_reuse hash_index arp in
  match r with
  | Some s => ret (Some s)
  | None =>
      let* a := __rlb_next_rx_slave in
      match a with
      | Some s => rlb_assign hash_index arp vlan s ;;; ret (Some s)
      | None => ret None
      end
  end.
End clients.
