(* ===== verification/AlbEntry.v ===== *)
(** * Adaptive load balancing: hardware addresses and the calls of the driver *)

From S2P Require Import Prelude.
From S2P Require Import BondHash.
From S2P Require Import AlbTypes.
From S2P Require Import AlbOps.

Section entry.
Context `{Alb}.

Abbreviation W := (M bonding).

(** ** Hardware addresses *)

(** The slaves of the list with their data, for the search for an address. *)
Definition listed : W (list (positive * slave)) :=
  let* l := gets slave_list in
  let* m := gets slaves in
  ret (omap (fun s => pair s <$> m !! s) l).

Definition has_mac (addr : mac_addr) : W (option positive) :=
  let* l := listed in ret (bond_slave_has_mac l addr).

(** [dev_set_mac_address], and [dev_addr_set], which leaves the hardware alone. *)
Definition dev_set_mac_address (s : positive) (addr : mac_addr) : W bool :=
  let* ok := try_call in
  when_ ok (mod_slave s (fun sl => sl <| dev_addr := addr |> <| hw_addr := addr |>)) ;;;
  ret ok.
Definition dev_addr_set (s : positive) (addr : mac_addr) : W unit :=
  mod_slave s (fun sl => sl <| dev_addr := addr |>).

Definition alb_set_slave_mac_addr (s : positive) (addr : mac_addr) : W Z :=
  let* tlb := gets mode_tlb in
  if tlb then dev_addr_set s addr ;;; ret 0
  else
    let* ok := dev_set_mac_address s addr in
    ret (if ok then 0 else - EOPNOTSUPP).

Definition alb_swap_mac_addr (s1 s2 : positive) : W unit :=
  let* sl1 := get_slave s1 in
  let tmp_mac_addr := dev_addr sl1 in
  let* sl2 := get_slave s2 in
  let* _ := alb_set_slave_mac_addr s1 (dev_addr sl2) in
  let* _ := alb_set_slave_mac_addr s2 tmp_mac_addr in
  ret tt.

(** One slave of a swap: tell the switch and the clients, or find it disabled. *)
Definition fasten_one (s : positive) : W bool :=
  let* sl := get_slave s in
  if can_tx sl then
    alb_send_learning_packets s (dev_addr sl) false ;;;
    let* r := gets rlb_enabled in
    when_ r (rlb_req_update_slave_clients s) ;;;
    ret true
  else ret false.

Definition alb_fasten_mac_swap (s1 s2 : positive) : W unit :=
  let* can1 := fasten_one s1 in
  let* can2 := fasten_one s2 in
  let* r := gets rlb_enabled in
  when_ (r && negb (Bool.eqb can1 can2))
    (let* sl := get_slave (if can2 then s1 else s2) in
     rlb_teach_disabled_mac_on_primary (dev_addr sl)).

Definition alb_change_hw_addr_on_detach (s : positive) : W unit :=
  let* sl := get_slave s in
  let* a := gets bond_addr in
  when_ (negb (ether_addr_equal (perm_hwaddr sl) (dev_addr sl)) &&
         negb (ether_addr_equal (perm_hwaddr sl) a))
    (let* found := has_mac (perm_hwaddr sl) in
     match found with
     | Some f => alb_swap_mac_addr s f ;;; alb_fasten_mac_swap s f
     | None => ret tt
     end).

(** The search of [alb_handle_addr_collision_on_attach]: a slave whose permanent address no
    slave uses, and whether some slave has the address of the bond. *)
Definition find_free_mac : W (option positive * bool) :=
  let* l := gets slave_list in
  let* active := gets curr_active_slave in
  for_each l (None, bool_decide (is_Some active)) (fun '(_, has_bond_addr) s =>
    let* sl := get_slave s in
    let* used := has_mac (perm_hwaddr sl) in
    match used with
    | None => ret (Break (Some s, has_bond_addr))
    | Some _ =>
        let* a := gets bond_addr in
        ret (Continue (None, has_bond_addr || ether_addr_equal (dev_addr sl) a))
    end).

Definition alb_handle_addr_collision_on_attach (s : positive) : W Z :=
  let* l := gets slave_list in
  match l with
  | [] => ret 0
  | _ :: _ =>
      let* sl := get_slave s in
      let* a := gets bond_addr in
      let* used := has_mac (dev_addr sl) in
      if negb (ether_addr_equal (perm_hwaddr sl) a) && bool_decide (used = None) then ret 0
      else
        when_ (negb (ether_addr_equal (perm_hwaddr sl) a))
          (let* _ := alb_set_slave_mac_addr s a in ret tt) ;;;
        let* '(free_mac_slave, has_bond_addr) := find_free_mac in
        match free_mac_slave with
        | Some f =>
            let* fl := get_slave f in
            let* _ := alb_set_slave_mac_addr s (perm_hwaddr fl) in
            ret 0
        | None => ret (if has_bond_addr then - EFAULT else 0)
        end
  end.

(** Give the hardware of a slave another address and keep the kernel's. *)
Definition set_hw_only (s : positive) (addr : mac_addr) : W bool :=
  let* sl := get_slave s in
  let tmp_addr := dev_addr sl in
  let* ok := dev_set_mac_address s addr in
  dev_addr_set s tmp_addr ;;;
  ret ok.

(** The slave at which setting the address failed, if any. *)
Definition set_all_mac (addr : mac_addr) : W (option positive) :=
  let* l := gets slave_list in
  for_each l None (fun _ s =>
    let* ok := set_hw_only s addr in
    ret (if ok then Continue None else Break (Some s))).

Definition unwind_mac (failed : positive) : W unit :=
  let* l := gets slave_list in
  let* a := gets bond_addr in
  for_each l tt (fun _ s =>
    if bool_decide (s = failed) then ret (Break tt)
    else
      let* _ := set_hw_only s a in
      ret (Continue tt)).

Definition alb_set_mac_address (addr : mac_addr) : W Z :=
  let* r := gets rlb_enabled in
  if r then ret 0
  else
    let* failed := set_all_mac addr in
    match failed with
    | None => ret 0
    | Some s => unwind_mac s ;;; ret mac_errno
    end.

(** ** Opening and closing *)

Definition bond_alb_initialize (rlb : bool) : W Z :=
  let* res := tlb_initialize in
  if negb (res =? 0) then ret res
  else if rlb then
    let* res := rlb_initialize in
    if negb (res =? 0) then tlb_deinitialize ;;; ret res
    else modify (fun b => b <| rlb_enabled := true |>) ;;; ret 0
  else modify (fun b => b <| rlb_enabled := false |>) ;;; ret 0.

Definition bond_alb_deinitialize : W unit :=
  tlb_deinitialize ;;;
  let* r := gets rlb_enabled in
  when_ r rlb_deinitialize.

(** ** Transmission *)

Definition alb_determine_nd (skb : sk_buff) : bool :=
  if negb (may_pull skb) then true
  else if negb (ip6_icmp skb) then false
  else if negb (may_pull_icmp skb) then true
  else ip6_nd skb.

(** The hash of a packet, from its bytes and the policy of the bond. *)
Definition xmit_hash (skb : sk_buff) : W Z :=
  fun b => match bond_xmit_hash (xmit_policy b) (skb_si skb) (skb_mem skb) with
           | Ok (h, _) => Ok (h, b)
           | Err f => Err f
           end.

(** The slave with a given hash in the array of usable slaves. *)
Definition by_hash (hash : Z) : W (option positive) :=
  let* u := gets usable_slaves in
  let arr := default [] u in
  match arr with
  | [] => ret None
  | _ :: _ =>
      match arr !! Z.to_nat (hash mod Z.of_nat (length arr)) with
      | Some s => ret (Some s)
      | None => fail_with Overrun
      end
  end.

(** [bond_dev_queue_xmit]: the rest of the kernel decides whether the packet is taken. *)
Definition bond_dev_queue_xmit (s : positive) (source : mac_addr) : W netdev_tx_t :=
  emit (Xmit s source) ;;;
  let* ok := try_call in
  ret (if ok then NETDEV_TX_OK else NET_XMIT_DROP).
Definition bond_tx_drop : W netdev_tx_t := emit Drop ;;; ret NET_XMIT_DROP.

Definition bond_do_alb_xmit (skb : sk_buff) (tx_slave : option positive) : W netdev_tx_t :=
  let* active := gets curr_active_slave in
  let* dynamic := gets tlb_dynamic_lb in
  let* tx_slave :=
    match tx_slave with
    | Some s => ret (Some s)
    | None =>
        when_ dynamic
          (modify (fun b => b <| unbalanced_load := u32 (unbalanced_load b + skb_len skb) |>)) ;;;
        ret active
    end in
  match tx_slave with
  | None => bond_tx_drop
  | Some s =>
      let* sl := get_slave s in
      if can_tx sl then
        bond_dev_queue_xmit s (if bool_decide (active = Some s) then h_source skb else dev_addr sl)
      else
        when_ dynamic (__tlb_clear_slave s false) ;;;
        bond_tx_drop
  end.

Definition bond_xmit_tlb_slave_get (skb : sk_buff) : W (option positive) :=
  if is_multicast_ether_addr (h_dest skb) then ret None
  else
    let balanced :=
      match skb_protocol skb with
      | ETH_P_IPV6 => negb (alb_determine_nd skb)
      | ETH_P_IP => true
      | _ => false
      end in
    if balanced then
      let* hash_index := xmit_hash skb in
      let* dynamic := gets tlb_dynamic_lb in
      if dynamic then tlb_choose_channel (Z.land hash_index 0xFF) (skb_len skb)
      else by_hash hash_index
    else ret None.

Definition bond_tlb_xmit (skb : sk_buff) : W netdev_tx_t :=
  let* tx_slave := bond_xmit_tlb_slave_get skb in
  bond_do_alb_xmit skb tx_slave.

(** The slave for an ARP packet, and the packet with the address of that slave. *)
Definition rlb_arp_xmit (skb : sk_buff) : W (option positive * arp_pkt) :=
  let arp := skb_arp skb in
  if negb (may_pull skb) then ret (None, arp)
  else
    let* own := has_mac (arp_mac_src arp) in
    if bool_decide (own = None) then ret (None, arp)
    else if bridge_has_addr (arp_ip_src arp) then ret (None, arp)
    else
      match op_code arp with
      | ARPOP_REPLY =>
          let* tx_slave := rlb_choose_channel (skb_vlan skb) arp in
          match tx_slave with
          | Some s => let* sl := get_slave s in ret (Some s, arp <| arp_mac_src := dev_addr sl |>)
          | None => ret (None, arp)
          end
      | ARPOP_REQUEST =>
          let* tx_slave := rlb_choose_channel (skb_vlan skb) arp in
          modify (fun b => b <| rlb_update_delay_counter := RLB_UPDATE_DELAY |>) ;;;
          rlb_req_update_subnet_clients (arp_ip_src arp) ;;;
          ret (tx_slave, arp)
      | ARPOP_OTHER => ret (None, arp)
      end.

(** The address that an IP packet is balanced by; none if it is not balanced. *)
Definition ip_bcast : ip_addr := [255; 255; 255; 255].
Definition mac_v6_allmcast : mac_addr := [0x33; 0x33; 0x00; 0x00; 0x00; 0x01].
Definition balance_by (skb : sk_buff) : option ip_addr :=
  match skb_protocol skb with
  | ETH_P_IP =>
      if is_broadcast_ether_addr (h_dest skb) || negb (may_pull skb) then None
      else if bool_decide (ip_daddr skb = ip_bcast) || ip_is_igmp skb then None
      else Some (ip_daddr skb)
  | ETH_P_IPV6 =>
      if is_broadcast_ether_addr (h_dest skb) then None
      else if ether_addr_equal (h_dest skb) mac_v6_allmcast then None
      else if alb_determine_nd skb then None
      else if ip6_any_saddr skb then None
      else Some (ip_daddr skb)
  | _ => None
  end.

Definition bond_xmit_alb_slave_get (skb : sk_buff) : W (option positive) :=
  let* arp_slave :=
    match skb_protocol skb with
    | ETH_P_ARP =>
        let* r := gets rlb_enabled in
        if r then let* r := rlb_arp_xmit skb in ret r.1 else ret None
    | _ => ret None
    end in
  match balance_by skb with
  | None => ret arp_slave
  | Some addr =>
      let* dynamic := gets tlb_dynamic_lb in
      if dynamic then tlb_choose_channel (_simple_hash addr) (skb_len skb)
      else
        let* arr := gets usable_slaves in
        match default [] arr with
        | [] => ret None
        | _ :: _ => let* hash := xmit_hash skb in by_hash hash
        end
  end.

Definition bond_alb_xmit (skb : sk_buff) : W netdev_tx_t :=
  let* tx_slave := bond_xmit_alb_slave_get skb in
  bond_do_alb_xmit skb tx_slave.
End entry.

(** * Adaptive load balancing: slaves that come and go, the monitor

    The functions of [servers/bond_alb.c] that the driver calls when its slaves change, and
    the places of [servers/bonding.c] that call them. *)

Section driver.
Context `{Alb}.

Abbreviation W := (M bonding).

(** ** The monitor *)

Definition send_learning : W unit :=
  let* l := gets slave_list in
  for_each l tt (fun _ s =>
    let* sl := get_slave s in
    let* active := is_active s in
    let* r := gets rlb_enabled in
    alb_send_learning_packets s (dev_addr sl) (negb active || r) ;;;
    ret (Continue tt)).

Definition rebalance_tx : W unit :=
  let* l := gets slave_list in
  for_each l tt (fun _ s =>
    tlb_clear_slave s true ;;;
    let* active := is_active s in
    when_ active
      (let* u := gets unbalanced_load in
       mod_slave s (fun sl => sl <| load := u / BOND_TLB_REBALANCE_INTERVAL |>) ;;;
       modify (fun b => b <| unbalanced_load := 0 |>)) ;;;
    ret (Continue tt)).

(** The primary leaves promiscuous mode when its time is up; false if the lock is not to be
    had. *)
Definition promisc_timeout : W bool :=
  let* p := gets primary_is_promisc in
  if p then
    modify (fun b => b <| rlb_promisc_timeout_counter ::= Z.add 1 |>) ;;;
    let* n := gets rlb_promisc_timeout_counter in
    if RLB_PROMISC_TIMEOUT <=? n then
      let* locked := try_call in
      if locked then
        modify (fun b => b <| rlb_promisc_timeout_counter := 0 |>) ;;;
        let* active := gets curr_active_slave in
        match active with
        | None => fail_with NullDeref
        | Some a =>
            let* _ := get_slave a in
            emit (Promiscuity a (-1)) ;;;
            modify (fun b => b <| primary_is_promisc := false |>) ;;;
            ret true
        end
      else ret false
    else ret true
  else ret true.

Definition update_clients : W unit :=
  let* n := gets rx_ntt in
  when_ n
    (let* delay := gets rlb_update_delay_counter in
     if delay =? 0 then
       rlb_update_rx_clients ;;;
       let* retry := gets rlb_update_retry_counter in
       if retry =? 0 then modify (fun b => b <| rx_ntt := false |>)
       else modify (fun b => b <| rlb_update_retry_counter := retry - 1 |>)
     else modify (fun b => b <| rlb_update_delay_counter := delay - 1 |>)).

Definition bond_alb_monitor : W unit :=
  let* l := gets slave_list in
  match l with
  | [] => modify (fun b => b <| tx_rebalance_counter := 0 |> <| lp_counter := 0 |>)
  | _ :: _ =>
      modify (fun b => b <| tx_rebalance_counter ::= Z.add 1 |> <| lp_counter ::= Z.add 1 |>) ;;;
      let* lp := gets lp_counter in
      when_ (BOND_ALB_LP_TICKS <=? lp)
        (send_learning ;;; modify (fun b => b <| lp_counter := 0 |>)) ;;;
      let* n := gets tx_rebalance_counter in
      when_ (BOND_TLB_REBALANCE_TICKS <=? n)
        (rebalance_tx ;;; modify (fun b => b <| tx_rebalance_counter := 0 |>)) ;;;
      let* r := gets rlb_enabled in
      when_ r
        (let* go := promisc_timeout in
         when_ go
           (let* rebalance := gets rlb_rebalance in
            when_ rebalance
              (modify (fun b => b <| rlb_rebalance := false |>) ;;; rlb_rebalance_clients) ;;;
            update_clients))
  end.

(** ** Slaves *)

Definition order_rebalance : W unit :=
  modify (fun b => b <| tx_rebalance_counter := BOND_TLB_REBALANCE_TICKS |>) ;;;
  let* r := gets rlb_enabled in
  when_ r (modify (fun b => b <| rlb_rebalance := true |>)).

Definition bond_alb_init_slave (s : positive) : W Z :=
  let* sl := get_slave s in
  let* res := alb_set_slave_mac_addr s (perm_hwaddr sl) in
  if negb (res =? 0) then ret res
  else
    let* res := alb_handle_addr_collision_on_attach s in
    if negb (res =? 0) then ret res
    else
      mod_slave s tlb_init_slave ;;;
      order_rebalance ;;;
      ret 0.

Definition bond_alb_deinit_slave (s : positive) : W unit :=
  let* l := gets slave_list in
  when_ (bool_decide (l <> [])) (alb_change_hw_addr_on_detach s) ;;;
  tlb_clear_slave s false ;;;
  let* r := gets rlb_enabled in
  when_ r
    (modify (fun b => b <| rx_slave := None |>) ;;; rlb_clear_slave s).

(** The array of usable slaves.  For want of memory the old one is kept, without the slave
    that is to be skipped. *)
Fixpoint index_of (s : positive) (l : list positive) : option nat :=
  match l with
  | [] => None
  | x :: l => if bool_decide (x = s) then Some O else S <$> index_of s l
  end.
Definition bond_skip_slave (l : list positive) (s : positive) : list positive :=
  match index_of s l, last l with
  | Some i, Some z => take (pred (length l)) (<[i := z]> l)
  | _, _ => l
  end.
Definition bond_update_slave_arr (skip : option positive) : W unit :=
  let* ok1 := try_call in
  let* ok2 := try_call in
  if ok1 && ok2 then
    let* l := gets slave_list in
    let* arr := for_each l [] (fun arr s =>
      if bool_decide (skip = Some s) then ret (Continue arr)
      else
        let* sl := get_slave s in
        ret (Continue (if can_tx sl then arr ++ [s] else arr))) in
    modify (fun b => b <| usable_slaves := Some arr |>)
  else
    match skip with
    | Some s => modify (fun b => b <| usable_slaves ::= fmap (fun l => bond_skip_slave l s) |>)
    | None => ret tt
    end.

Inductive link := BOND_LINK_UP | BOND_LINK_DOWN | BOND_LINK_OTHER.

Definition bond_alb_handle_link_change (s : positive) (l : link) : W unit :=
  match l with
  | BOND_LINK_DOWN =>
      tlb_clear_slave s false ;;;
      let* r := gets rlb_enabled in
      when_ r (rlb_clear_slave s)
  | BOND_LINK_UP => order_rebalance
  | BOND_LINK_OTHER => ret tt
  end ;;;
  let* nondyn := gets bond_is_nondyn_tlb in
  when_ nondyn (bond_update_slave_arr None).

Definition leave_promisc : W unit :=
  let* active := gets curr_active_slave in
  let* p := gets primary_is_promisc in
  match active with
  | Some a =>
      when_ p
        (let* _ := get_slave a in
         emit (Promiscuity a (-1)) ;;;
         modify (fun b => b <| primary_is_promisc := false |> <| rlb_promisc_timeout_counter := 0 |>))
  | None => ret tt
  end.

(** Give the new active slave the address of the bond, from the slave that has it. *)
Definition take_bond_addr (swap_slave : option positive) (new : positive) : W unit :=
  let* a := gets bond_addr in
  match swap_slave with
  | Some w => alb_swap_mac_addr w new ;;; alb_fasten_mac_swap w new
  | None =>
      let* _ := alb_set_slave_mac_addr new a in
      alb_send_learning_packets new a false
  end.

Definition bond_alb_handle_active_change (new_slave : option positive) : W unit :=
  let* curr_active := gets curr_active_slave in
  if bool_decide (curr_active = new_slave) then ret tt
  else
    leave_promisc ;;;
    modify (fun b => b <| curr_active_slave := new_slave |>) ;;;
    let* l := gets slave_list in
    match new_slave, l with
    | Some new, _ :: _ =>
        let* a := gets bond_addr in
        let* swap_slave :=
          match curr_active with Some c => ret (Some c) | None => has_mac a end in
        match swap_slave with Some w => tlb_clear_slave w true | None => ret tt end ;;;
        tlb_clear_slave new true ;;;
        let* tlb := gets mode_tlb in
        when_ tlb (let* _ := set_hw_only new a in ret tt) ;;;
        take_bond_addr swap_slave new
    | _, _ => ret tt
    end.

Definition bond_alb_set_mac_address (addr : mac_addr) : W Z :=
  if negb (is_valid_ether_addr addr) then ret (- EADDRNOTAVAIL)
  else
    let* res := alb_set_mac_address addr in
    if negb (res =? 0) then ret res
    else
      modify (fun b => b <| bond_addr := addr |>) ;;;
      let* curr_active := gets curr_active_slave in
      match curr_active with
      | None => ret 0
      | Some c =>
          let* swap_slave := has_mac addr in
          match swap_slave with
          | Some w => alb_swap_mac_addr w c ;;; alb_fasten_mac_swap w c
          | None =>
              let* _ := alb_set_slave_mac_addr c addr in
              alb_send_learning_packets c addr false ;;;
              let* r := gets rlb_enabled in
              when_ r (rlb_req_update_slave_clients c)
          end ;;;
          ret 0
      end.

Definition bond_alb_clear_vlan (vlan : Z) : W unit :=
  let* r := gets rlb_enabled in
  when_ r (rlb_clear_vlan vlan).

(** ** Places of bonding.c *)

(** [bond_enslave]: a new slave, allocated with zeros, is put on the list if
    [bond_alb_init_slave] succeeds. *)
Definition bond_enslave_alb (s : positive) (sl : slave) : W Z :=
  modify (fun b => b <| slaves ::= <[s := sl <| load := 0 |> <| head := 0 |>]> |>) ;;;
  let* res := bond_alb_init_slave s in
  if negb (res =? 0) then modify (fun b => b <| slaves ::= delete s |>) ;;; ret res
  else
    modify (fun b => b <| slave_list ::= fun l => l ++ [s] |>) ;;;
    bond_update_slave_arr None ;;;
    ret 0.

(** [__bond_release_one] of one slave: it is taken off the list and from the array, stops
    being the active one, and is freed. *)
Definition bond_release_alb (s : positive) : W unit :=
  modify (fun b => b <| slave_list ::= filter (fun x => x <> s) |>) ;;;
  bond_update_slave_arr (Some s) ;;;
  let* active := is_active s in
  when_ active (bond_alb_handle_active_change None) ;;;
  bond_alb_deinit_slave s ;;;
  modify (fun b => b <| slaves ::= delete s |>).
End driver.
