(* ===== verification/AlbLinks.v ===== *)
(** * Lists linked by index

    The links of a table as functions on indices.  [chain] describes a doubly linked list by
    the list of its indices; [path] says that one index is reached from another. *)

From S2P Require Import Prelude.

Section chain.
Context (null : Z).

(** ** Doubly linked lists *)

(** From [first], whose link back is [p], the links [nx] lead along [l] and back by [pv]. *)
Fixpoint chain (nx pv : Z -> Z) (p first : Z) (l : list Z) : Prop :=
  match l with
  | [] => first = null
  | x :: l => first = x /\ pv x = p /\ chain nx pv x (nx x) l
  end.

Lemma chain_ext nx pv nx' pv' p f l :
  (forall x, x ∈ l -> nx' x = nx x /\ pv' x = pv x) -> chain nx pv p f l -> chain nx' pv' p f l.
Proof.
  revert p f. induction l as [|x l IH]; intros p f Heq; [done|]. intros (-> & Hp & Hc).
  destruct (Heq x) as [Hnx Hpv]; [by left|]. split_and!; [done|by rewrite Hpv|].
  rewrite Hnx. apply IH; [|done]. intros y Hy. apply Heq. by right.
Qed.

Lemma chain_links nx pv p f l1 x l2 :
  chain nx pv p f (l1 ++ x :: l2) ->
  pv x = default p (last l1) /\ nx x = default null (head l2) /\ f = default x (head l1).
Proof.
  revert p f. induction l1 as [|y l1 IH]; intros p f.
  - intros (-> & Hp & Hc). split_and!; [done| |done]. destruct l2; [done|]. by destruct Hc.
  - intros (-> & Hp & Hc). apply IH in Hc as (Hpv & Hnx & _). split_and!; [|done..].
    rewrite Hpv. destruct l1 as [|z l1]; [done|]. by rewrite last_cons_cons; destruct (last (z :: l1)) eqn:E; [|apply last_None in E].
Qed.

(** A new first element. *)
Lemma chain_push nx pv nx' pv' p f l x :
  chain nx pv p f l -> NoDup l -> x ∉ l -> nx' x = f -> pv' x = p ->
  (forall y, y ∈ l -> nx' y = nx y) ->
  (forall y, y ∈ l -> pv' y = if decide (y = f) then x else pv y) ->
  chain nx' pv' p x (x :: l).
Proof.
  intros Hc Hnd Hx Hnx Hpv Hn Hp. split_and!; [done..|]. rewrite Hnx.
  destruct l as [|y l]; [done|]. destruct Hc as (-> & _ & Hc). apply NoDup_cons in Hnd as [Hy Hnd].
  split_and!; [done| |].
  - rewrite Hp by (by left). by rewrite decide_True.
  - rewrite Hn by (by left). eapply chain_ext; [|done]. intros z Hz. split; [apply Hn; by right|].
    rewrite Hp by (by right). rewrite decide_False; [done|]. by intros ->.
Qed.

(** An element taken out: its neighbours are linked to each other. *)
Lemma chain_delete nx pv nx' pv' p f l1 x l2 :
  chain nx pv p f (l1 ++ x :: l2) -> NoDup (l1 ++ x :: l2) ->
  (forall y, y ∈ l1 ++ l2 -> nx' y = if decide (last l1 = Some y) then nx x else nx y) ->
  (forall y, y ∈ l1 ++ l2 -> pv' y = if decide (head l2 = Some y) then pv x else pv y) ->
  chain nx' pv' p (if l1 is [] then nx x else f) (l1 ++ l2).
Proof.
  revert p f. induction l1 as [|a l1 IH]; intros p f Hc Hnd Hn Hp.
  - destruct Hc as (-> & Hpx & Hc). cbn in *. destruct l2 as [|y l2]; [done|].
    destruct Hc as (-> & Hy & Hc). apply NoDup_cons in Hnd as [_ [Hy2 _]%NoDup_cons].
    split_and!; [done| |].
    + rewrite Hp by (by left). by rewrite decide_True.
    + rewrite Hn by (by left). eapply chain_ext; [|done]. intros z Hz. cbn.
      split; [by rewrite Hn by (by right)|]. rewrite Hp by (by right). rewrite decide_False; [done|]. naive_solver.
  - destruct Hc as (-> & Hpa & Hc). cbn in Hnd. apply NoDup_cons in Hnd as [Ha Hnd]. cbn [app].
    assert (head l2 <> Some a).
    { intros Hh. apply Ha. apply elem_of_app. right. right. destruct l2; naive_solver left. }
    split_and!; [done| |].
    + rewrite Hp by (by left). by rewrite decide_False.
    + specialize (IH a (nx a) Hc Hnd). rewrite Hn by (by left).
      assert (last l1 <> Some a).
      { intros Hl. apply Ha. apply elem_of_app. left. by eapply last_Some_elem_of. }
      destruct l1 as [|b l1].
      * cbn. rewrite decide_True by done.
        apply IH; intros y Hy; [|apply Hp; by right]. rewrite Hn by (by right). cbn. rewrite decide_False; [done|].
        intros [= <-]. apply Ha. apply elem_of_app. right. by right.
      * rewrite last_cons_cons. rewrite decide_False by done.
        apply IH; intros y Hy; [|apply Hp; by right]. rewrite Hn by (by right). by rewrite last_cons_cons.
Qed.

(** ** Reachability *)

Inductive path (nx : Z -> Z) : Z -> Z -> Prop :=
  | path_here i : path nx i i
  | path_next i j : nx i <> null -> path nx (nx i) j -> path nx i j.

Lemma path_mono nx nx' i j :
  (forall k, nx k <> null -> nx' k = nx k) -> path nx i j -> path nx' i j.
Proof.
  intros Heq. induction 1 as [i|i j Hi Hp IH]; [apply path_here|].
  apply path_next; rewrite Heq by done; done.
Qed.

(** A set that is closed under the links holds what is reached from it. *)
Lemma path_closed nx (V : Z -> Prop) i j :
  (forall k, V k -> nx k <> null -> V (nx k)) -> V i -> path nx i j -> V j.
Proof. intros Hcl Hi. induction 1 as [|i j Hne Hp IH]; [done|]. apply IH. by apply Hcl. Qed.

(** A path that does not meet a closed set is not changed with the set. *)
Lemma path_avoid nx nx' (V : Z -> Prop) i j :
  (forall k, V k -> nx k <> null -> V (nx k)) -> (forall k, ~ V k -> nx' k = nx k) ->
  ~ V j -> path nx i j -> path nx' i j.
Proof.
  intros Hcl Heq Hj. induction 1 as [i|i j Hne Hp IH]; [apply path_here|].
  assert (~ V i) as Hi.
  { intros Hi. apply Hj. eapply path_closed; [done| |done]. by apply Hcl. }
  apply path_next; rewrite Heq by done; auto.
Qed.
End chain.

(** * The lists of the receive table

    The entries in use are on one list; the entries whose source address has a given hash
    are on the list of that hash.  [links] describes a table by these lists, and the lemmas
    say what taking an entry out and putting it in does to them. *)

From S2P Require Import AlbTypes.
From S2P Require Import AlbOps.

Section links.
Context `{AlbLaws}.

Abbreviation table := (gmap Z rlb_client_info).

(** The links as functions. *)
Definition rx_get (p : rlb_client_info -> Z) (t : table) (i : Z) : Z :=
  from_option p RLB_NULL_INDEX (t !! i).

Definition rx_index (i : Z) : Prop := 0 <= i < RLB_HASH_TABLE_SIZE.

(** [hd] is the head of the list of used entries [ul], [sl h] the list of hash [h]. *)
Record links (hd : Z) (t : table) (ul : list Z) (sl : Z -> list Z) : Prop := {
  ln_dom : forall i, is_Some (t !! i) <-> rx_index i;
  ln_used_nd : NoDup ul;
  ln_used_in : forall i, i ∈ ul -> rx_index i;
  ln_used : chain RLB_NULL_INDEX (rx_get used_next t) (rx_get used_prev t) RLB_NULL_INDEX hd ul;
  ln_used_out : forall i, i ∉ ul ->
    rx_get used_next t i = RLB_NULL_INDEX /\ rx_get used_prev t i = RLB_NULL_INDEX;
  ln_src_nd : forall h, NoDup (sl h);
  ln_src_in : forall h i, i ∈ sl h -> rx_index i /\ rx_index h;
  ln_src_one : forall h h' i, i ∈ sl h -> i ∈ sl h' -> h = h';
  ln_src : forall h, chain RLB_NULL_INDEX (rx_get src_next t) (rx_get src_prev t) h
    (rx_get src_first t h) (sl h);
  ln_src_out : forall i, (forall h, i ∉ sl h) ->
    rx_get src_next t i = RLB_NULL_INDEX /\ rx_get src_prev t i = RLB_NULL_INDEX
}.

Lemma null_no_index : ~ rx_index RLB_NULL_INDEX.
Proof. apply rlb_null_outside. Qed.

Lemma index_not_null i : rx_index i -> i <> RLB_NULL_INDEX.
Proof. intros Hi ->. by apply null_no_index. Qed.

Lemma rx_get_alter p f t j i :
  rx_get p (alter f j t) i =
    if decide (i = j) then from_option (fun e => p (f e)) RLB_NULL_INDEX (t !! j) else rx_get p t i.
Proof.
  unfold rx_get. case_decide as E.
  - subst. rewrite lookup_alter_eq. by destruct (t !! j).
  - by rewrite lookup_alter_ne.
Qed.

Lemma rx_get_some p t i e : t !! i = Some e -> rx_get p t i = p e.
Proof. intros He. unfold rx_get. by rewrite He. Qed.

Lemma dom_alter (t : table) f j :
  (forall i, is_Some (t !! i) <-> rx_index i) -> forall i, is_Some (alter f j t !! i) <-> rx_index i.
Proof.
  intros Hd i. rewrite <-Hd. destruct (decide (i = j)) as [->|].
  - rewrite lookup_alter_eq. by rewrite fmap_is_Some.
  - by rewrite lookup_alter_ne.
Qed.

(** A table with the same links has the same lists. *)
Lemma links_ext hd t t' ul sl :
  links hd t ul sl -> (forall i, is_Some (t' !! i) <-> is_Some (t !! i)) ->
  (forall p, In p [used_next; used_prev; src_next; src_prev; src_first] ->
     forall i, rx_get p t' i = rx_get p t i) ->
  links hd t' ul sl.
Proof.
  intros [] Hdom Heq. constructor; try done.
  - intros i. by rewrite Hdom.
  - eapply chain_ext; [|done]. intros i _. by rewrite !Heq by (cbn; tauto).
  - intros i Hi. rewrite !Heq by (cbn; tauto). auto.
  - intros h. rewrite Heq by (cbn; tauto). eapply chain_ext; [|done]. intros i _. by rewrite !Heq by (cbn; tauto).
  - intros i Hi. rewrite !Heq by (cbn; tauto). auto.
Qed.

(** Changes of an entry that leave its links alone. *)
Definition same_links (e e' : rlb_client_info) : Prop :=
  used_next e' = used_next e /\ used_prev e' = used_prev e /\ src_next e' = src_next e /\
  src_prev e' = src_prev e /\ src_first e' = src_first e.

Lemma links_alter hd t ul sl f j :
  links hd t ul sl -> (forall e, same_links e (f e)) -> links hd (alter f j t) ul sl.
Proof.
  intros Hl Hf. eapply links_ext; [done| |].
  - intros i. destruct (decide (i = j)) as [->|]; [by rewrite lookup_alter_eq, fmap_is_Some|by rewrite lookup_alter_ne].
  - intros p Hp i. rewrite rx_get_alter. case_decide as E; [|done]. subst. unfold rx_get.
    destruct (t !! j) as [e|]; [|done]. cbn. destruct (Hf e) as (? & ? & ? & ? & ?).
    cbn in Hp. destruct_or!; subst; done.
Qed.

Lemma filter_id (l : list Z) i : i ∉ l -> filter (fun x => x <> i) l = l.
Proof.
  induction l as [|x l IH]; [done|]. intros [Hx Hl]%not_elem_of_cons.
  rewrite filter_cons_True by naive_solver. by rewrite IH.
Qed.

Lemma filter_out (l1 l2 : list Z) i :
  i ∉ l1 -> i ∉ l2 -> filter (fun x => x <> i) (l1 ++ i :: l2) = l1 ++ l2.
Proof.
  intros H1 H2. rewrite filter_app, filter_cons_False by naive_solver. by rewrite !filter_id.
Qed.

Lemma elem_of_filter_out (l : list Z) i j : (j ∈ filter (fun x => x <> i) l) <-> (j <> i) /\ (j ∈ l).
Proof. by rewrite list_elem_of_filter. Qed.

Lemma head_listed (l : list Z) y : hd_error l = Some y -> y ∈ l.
Proof. destruct l; [done|]. intros [= ->]. by left. Qed.

Lemma NoDup_split (l : list Z) i :
  NoDup l -> i ∈ l -> exists l1 l2, (l = l1 ++ i :: l2) /\ (i ∉ l1) /\ (i ∉ l2).
Proof.
  intros Hnd Hi. apply list_elem_of_split in Hi as (l1 & l2 & ->). exists l1, l2.
  apply NoDup_app in Hnd as (_ & Hd & [Hi2 _]%NoDup_cons). split_and!; [done| |done].
  intros Hi1. apply (Hd i Hi1). by left.
Qed.

(** ** The tables that the operations leave *)

Definition src_unlinked (t : table) (i : Z) : table :=
  let next_index := rx_get src_next t i in
  let prev_index := rx_get src_prev t i in
  let t := alter (fun e => e <| src_next := RLB_NULL_INDEX |> <| src_prev := RLB_NULL_INDEX |>) i t in
  let t := if next_index =? RLB_NULL_INDEX then t
           else alter (fun e => e <| src_prev := prev_index |>) next_index t in
  if prev_index =? RLB_NULL_INDEX then t
  else if rx_get src_first t prev_index =? i
  then alter (fun e => e <| src_first := next_index |>) prev_index t
  else alter (fun e => e <| src_next := next_index |>) prev_index t.

Definition src_linked (t : table) (h i : Z) : table :=
  let t := alter (fun e => e <| src_prev := h |>) i t in
  let next := rx_get src_first t h in
  let t := alter (fun e => e <| src_next := next |>) i t in
  let t := if next =? RLB_NULL_INDEX then t else alter (fun e => e <| src_prev := i |>) next t in
  alter (fun e => e <| src_first := i |>) h t.

Definition used_unlinked (t : table) (i : Z) : table :=
  let next_index := rx_get used_next t i in
  let prev_index := rx_get used_prev t i in
  let t := if prev_index =? RLB_NULL_INDEX then t
           else alter (fun e => e <| used_next := next_index |>) prev_index t in
  if next_index =? RLB_NULL_INDEX then t
  else alter (fun e => e <| used_prev := prev_index |>) next_index t.

Definition used_linked (t : table) (hd i : Z) : table :=
  let t := alter (fun e => e <| used_next := hd |>) i t in
  if hd =? RLB_NULL_INDEX then t else alter (fun e => e <| used_prev := i |>) hd t.

Lemma get_other p f t j i : (forall e, p (f e) = p e) -> rx_get p (alter f j t) i = rx_get p t i.
Proof.
  intros Hf. rewrite rx_get_alter. case_decide; [|done]. subst. unfold rx_get.
  destruct (t !! j); [apply Hf|done].
Qed.

Lemma get_set p f v t j i :
  (forall e, p (f e) = v) -> is_Some (t !! j) ->
  rx_get p (alter f j t) i = if decide (i = j) then v else rx_get p t i.
Proof.
  intros Hf [e He]. rewrite rx_get_alter. case_decide; [|done]. rewrite He. apply Hf.
Qed.

Lemma some_alter (t : table) f j i : is_Some (alter f j t !! i) <-> is_Some (t !! i).
Proof.
  destruct (decide (i = j)) as [->|]; [by rewrite lookup_alter_eq, fmap_is_Some|by rewrite lookup_alter_ne].
Qed.

(** Compute a link in a table that was changed. *)
Ltac get_simpl :=
  repeat first [ rewrite get_other by (intros; by rec_simpl)
               | erewrite get_set; [|intros; by rec_simpl|by rewrite ?some_alter] ].

Section unlinked.
Context (t : table) (i : Z).
Let n := rx_get src_next t i.
Let q := rx_get src_prev t i.
Hypothesis Hi : is_Some (t !! i).
Hypothesis Hn : n <> RLB_NULL_INDEX -> is_Some (t !! n).
Hypothesis Hq : q <> RLB_NULL_INDEX -> is_Some (t !! q).

Ltac solve_unlinked :=
  unfold src_unlinked; fold n q; cbv zeta;
  destruct (Z.eqb_spec n RLB_NULL_INDEX) as [En|En], (Z.eqb_spec q RLB_NULL_INDEX) as [Eq|Eq];
  try specialize (Hn En); try specialize (Hq Eq); get_simpl;
  try (destruct (Z.eqb_spec (rx_get src_first t q) i) as [Ef|Ef]; get_simpl);
  repeat case_decide; naive_solver congruence.

Lemma unlinked_next y :
  rx_get src_next (src_unlinked t i) y =
    if decide (q <> RLB_NULL_INDEX /\ rx_get src_first t q <> i /\ y = q) then n
    else if decide (y = i) then RLB_NULL_INDEX else rx_get src_next t y.
Proof. solve_unlinked. Qed.

Lemma unlinked_prev y :
  rx_get src_prev (src_unlinked t i) y =
    if decide (n <> RLB_NULL_INDEX /\ y = n) then q
    else if decide (y = i) then RLB_NULL_INDEX else rx_get src_prev t y.
Proof. solve_unlinked. Qed.

Lemma unlinked_first y :
  rx_get src_first (src_unlinked t i) y =
    if decide (q <> RLB_NULL_INDEX /\ rx_get src_first t q = i /\ y = q) then n
    else rx_get src_first t y.
Proof. solve_unlinked. Qed.

Lemma unlinked_used y :
  rx_get used_next (src_unlinked t i) y = rx_get used_next t y /\
  rx_get used_prev (src_unlinked t i) y = rx_get used_prev t y.
Proof. unfold src_unlinked. cbv zeta. repeat case_match; get_simpl; done. Qed.
End unlinked.

Section linked.
Context (t : table) (h i : Z).
Let n := rx_get src_first t h.
Hypothesis Hi : is_Some (t !! i).
Hypothesis Hh : is_Some (t !! h).
Hypothesis Hn : n <> RLB_NULL_INDEX -> is_Some (t !! n).

Ltac solve_linked :=
  unfold src_linked; cbv zeta;
  rewrite (get_other src_first (fun e => e <| src_prev := h |>)) by (intros; by rec_simpl); fold n;
  destruct (Z.eqb_spec n RLB_NULL_INDEX) as [En|En]; try specialize (Hn En); get_simpl;
  repeat case_decide; naive_solver congruence.

Lemma linked_next y :
  rx_get src_next (src_linked t h i) y = if decide (y = i) then n else rx_get src_next t y.
Proof. solve_linked. Qed.

Lemma linked_prev y :
  rx_get src_prev (src_linked t h i) y =
    if decide (n <> RLB_NULL_INDEX /\ y = n) then i
    else if decide (y = i) then h else rx_get src_prev t y.
Proof. solve_linked. Qed.

Lemma linked_first y :
  rx_get src_first (src_linked t h i) y = if decide (y = h) then i else rx_get src_first t y.
Proof. solve_linked. Qed.

Lemma linked_used y :
  rx_get used_next (src_linked t h i) y = rx_get used_next t y /\
  rx_get used_prev (src_linked t h i) y = rx_get used_prev t y.
Proof. unfold src_linked. cbv zeta. repeat case_match; get_simpl; done. Qed.
End linked.

(** What the links are about. *)
Definition content (e : rlb_client_info) :=
  (ip_src e, ip_dst e, mac_src e, mac_dst e, assigned e, ntt e, rx_client e, vlan_id e).
Definition same_content (t t' : table) : Prop := forall y, content <$> t' !! y = content <$> t !! y.

Lemma content_alter t f j : (forall e, content (f e) = content e) -> same_content t (alter f j t).
Proof.
  intros Hf y. destruct (decide (y = j)) as [->|]; [|by rewrite lookup_alter_ne].
  rewrite lookup_alter_eq. destruct (t !! j); cbn; [by rewrite Hf|done].
Qed.

Lemma content_trans t1 t2 t3 : same_content t1 t2 -> same_content t2 t3 -> same_content t1 t3.
Proof. intros H1 H2 y. by rewrite H2, H1. Qed.

Ltac solve_content :=
  cbv zeta; repeat case_match;
  repeat (eapply content_trans; [|apply content_alter; intros; unfold content; by rec_simpl]); done.

Lemma content_src_unlinked t i : same_content t (src_unlinked t i).
Proof. unfold src_unlinked. solve_content. Qed.

Lemma content_src_linked t h i : same_content t (src_linked t h i).
Proof. unfold src_linked. solve_content. Qed.

Lemma content_used_unlinked t i : same_content t (used_unlinked t i).
Proof. unfold used_unlinked. solve_content. Qed.

Lemma content_used_linked t hd i : same_content t (used_linked t hd i).
Proof. unfold used_linked. solve_content. Qed.

Lemma content_dom t t' : same_content t t' -> forall y, is_Some (t' !! y) <-> is_Some (t !! y).
Proof. intros Hc y. rewrite <-!(fmap_is_Some content). by rewrite Hc. Qed.

Lemma content_lookup t t' y e :
  same_content t t' -> t !! y = Some e -> exists e', t' !! y = Some e' /\ content e' = content e.
Proof.
  intros Hc He. specialize (Hc y). rewrite He in Hc. apply fmap_Some in Hc as (e' & ? & ?). eauto.
Qed.

(** ** The lists after an operation *)

Lemma first_listed hd t ul sl h :
  links hd t ul sl -> rx_get src_first t h <> RLB_NULL_INDEX -> rx_get src_first t h ∈ sl h.
Proof.
  intros Hl. pose proof (ln_src _ _ _ _ Hl h) as Hc. destruct (sl h); [done|].
  destruct Hc as (-> & _). intros _. by left.
Qed.

Lemma links_lists hd t ul sl sl' :
  links hd t ul sl -> (forall h, sl' h = sl h) -> links hd t ul sl'.
Proof.
  intros [] Heq. constructor; try done; try (intros *; rewrite !Heq; by eauto).
  intros i Hi. apply ln_src_out0. intros h. by rewrite <-Heq.
Qed.

Lemma src_listed_dec (sl : Z -> list Z) i :
  (forall h i, i ∈ sl h -> rx_index i /\ rx_index h) ->
  {h | i ∈ sl h} + {forall h, i ∉ sl h}.
Proof.
  intros Hin. destruct (list_find (fun h => i ∈ sl h) (seqZ 0 RLB_HASH_TABLE_SIZE)) as [[k h]|] eqn:E.
  - left. exists h. by apply list_find_Some in E as (_ & ? & _).
  - right. intros h Hi. apply list_find_None in E. rewrite Forall_forall in E. apply (E h); [|done].
    apply elem_of_seqZ. destruct (Hin h i Hi) as [_ Hh]. unfold rx_index in Hh. lia.
Defined.

(** An entry that is on no list of hashes has nothing to be unlinked from. *)
Lemma links_src_unlink_none hd t ul sl i :
  links hd t ul sl -> rx_index i -> (forall h, i ∉ sl h) -> links hd (src_unlinked t i) ul sl.
Proof.
  intros Hl Hi Hout. destruct (ln_src_out _ _ _ _ Hl i Hout) as [Hn Hp].
  assert (is_Some (t !! i)) as Hti by (by apply (ln_dom _ _ _ _ Hl)).
  eapply links_ext; [done|apply content_dom, content_src_unlinked|].
  intros p Hin y. cbn in Hin. destruct_or!; subst; try done.
  - apply unlinked_used.
  - apply unlinked_used.
  - rewrite unlinked_next by (rewrite ?Hn, ?Hp; done). rewrite Hp, decide_False by (by intros [? _]). 
    case_decide; [|done]. by subst.
  - rewrite unlinked_prev by (rewrite ?Hn, ?Hp; done). rewrite Hn, decide_False by (by intros [? _]).
    case_decide; [|done]. by subst.
  - rewrite unlinked_first by (rewrite ?Hn, ?Hp; done). by rewrite Hp, decide_False by (by intros [? _]).
Qed.

(** The entry before another one on a list is not the index of a list that begins with it. *)
Lemma src_not_first hd t ul sl h i l1 l2 w :
  links hd t ul sl -> sl h = l1 ++ i :: l2 -> i ∉ l1 -> last l1 = Some w -> rx_get src_first t w <> i.
Proof.
  intros Hl Hsl H1 Hw Hi. assert (i ∈ sl h) as Hih by (rewrite Hsl; apply elem_of_app; right; by left).
  assert (i ∈ sl w) as Hiw.
  { rewrite <-Hi. eapply first_listed; [done|]. rewrite Hi. by apply index_not_null, (ln_src_in _ _ _ _ Hl h). }
  rewrite (ln_src_one _ _ _ _ Hl _ _ _ Hiw Hih) in Hi.
  pose proof (ln_src _ _ _ _ Hl h) as Hc. rewrite Hsl in Hc. apply chain_links in Hc as (_ & _ & Hf).
  rewrite Hi in Hf. destruct l1 as [|z l1]; [done|]. cbn in Hf. subst z. apply H1. by left.
Qed.

(** The neighbours of an entry on the list of [h]. *)
Lemma src_neighbours hd t ul sl h i l1 l2 :
  links hd t ul sl -> sl h = l1 ++ i :: l2 -> i ∉ l1 ->
  let n := rx_get src_next t i in
  let q := rx_get src_prev t i in
  (n <> RLB_NULL_INDEX -> is_Some (t !! n)) /\ (q <> RLB_NULL_INDEX -> is_Some (t !! q)) /\
  (forall y, n <> RLB_NULL_INDEX /\ y = n <-> hd_error l2 = Some y) /\
  (forall y, q <> RLB_NULL_INDEX /\ rx_get src_first t q <> i /\ y = q <-> last l1 = Some y) /\
  (forall y, q <> RLB_NULL_INDEX /\ rx_get src_first t q = i /\ y = q <-> l1 = [] /\ y = h).
Proof.
  intros Hl Hsl H1 n q. pose proof (ln_src _ _ _ _ Hl h) as Hc. rewrite Hsl in Hc.
  destruct (chain_links _ _ _ _ _ _ _ _ Hc) as (Hp & Hn & Hf). fold n in Hn. fold q in Hp.
  pose proof (ln_src_in _ _ _ _ Hl h) as Hel. pose proof (ln_dom _ _ _ _ Hl) as Hdom.
  assert (i ∈ sl h) as Hih by (rewrite Hsl; apply elem_of_app; right; by left).
  assert (forall y, hd_error l2 = Some y -> rx_index y) as Hh2.
  { intros y Hy. apply (Hel y). rewrite Hsl. apply elem_of_app. right. right. by apply head_listed. }
  assert (forall y, last l1 = Some y -> rx_index y) as Hl1.
  { intros y Hy. apply (Hel y). rewrite Hsl. apply elem_of_app. left. by eapply last_Some_elem_of. }
  pose proof (src_not_first hd t ul sl h i l1 l2) as Hnf.
  assert (rx_index q) as Hqi.
  { rewrite Hp. destruct (last l1); cbn; [by apply Hl1|by apply (Hel i)]. }
  pose proof (index_not_null _ Hqi) as Hqn. split_and!.
  - intros Hne. apply Hdom. rewrite Hn in Hne |- *. destruct (hd_error l2); [by apply Hh2|done].
  - intros _. by apply Hdom.
  - intros y. rewrite Hn. destruct (hd_error l2) as [z|]; cbn; [|naive_solver].
    split; [by intros [_ ->]|]. intros [= ->]. split; [by apply index_not_null, Hh2|done].
  - intros y. rewrite Hp in *. destruct (last l1) as [z|] eqn:E; cbn in *.
    + split; [by intros (_ & _ & ->)|]. intros [= ->]. split_and!; [done|by apply Hnf|done].
    + apply last_None in E. subst l1. cbn in Hf. naive_solver.
  - intros y. rewrite Hp in *. destruct (last l1) as [z|] eqn:E; cbn in *.
    + split; [intros (_ & Hz & _); by destruct (Hnf z Hl Hsl H1 eq_refl)|by intros [-> _]].
    + apply last_None in E. subst l1. cbn in Hf. naive_solver.
Qed.

(** The links after the entry was taken from the list of [h]. *)
Lemma unlinked_links hd t ul sl h i l1 l2 :
  links hd t ul sl -> sl h = l1 ++ i :: l2 -> i ∉ l1 -> forall y,
  rx_get src_next (src_unlinked t i) y =
    (if decide (last l1 = Some y) then rx_get src_next t i
     else if decide (y = i) then RLB_NULL_INDEX else rx_get src_next t y) /\
  rx_get src_prev (src_unlinked t i) y =
    (if decide (hd_error l2 = Some y) then rx_get src_prev t i
     else if decide (y = i) then RLB_NULL_INDEX else rx_get src_prev t y) /\
  rx_get src_first (src_unlinked t i) y =
    (if decide (l1 = [] /\ y = h) then rx_get src_next t i else rx_get src_first t y).
Proof.
  intros Hl Hsl H1 y. destruct (src_neighbours _ _ _ _ _ _ _ _ Hl Hsl H1) as (Htn & Htq & Hn & Hq & Hq').
  assert (is_Some (t !! i)) as Hti.
  { apply (ln_dom _ _ _ _ Hl), (ln_src_in _ _ _ _ Hl h). rewrite Hsl. apply elem_of_app. right. by left. }
  split_and!.
  - rewrite unlinked_next by done. by rewrite (decide_ext _ _ _ _ (Hq y)).
  - rewrite unlinked_prev by done. by rewrite (decide_ext _ _ _ _ (Hn y)).
  - rewrite unlinked_first by done. by rewrite (decide_ext _ _ _ _ (Hq' y)).
Qed.

Lemma links_src_unlink_some hd t ul sl h i :
  links hd t ul sl -> i ∈ sl h ->
  links hd (src_unlinked t i) ul (fun h => filter (fun x => x <> i) (sl h)).
Proof.
  intros Hl Hih. destruct (NoDup_split (sl h) i (ln_src_nd _ _ _ _ Hl h) Hih) as (l1 & l2 & Hsl & H1 & H2).
  pose proof (unlinked_links _ _ _ _ _ _ _ _ Hl Hsl H1) as Hu'.
  assert (Hnext := fun y => proj1 (Hu' y)). assert (Hprev := fun y => proj1 (proj2 (Hu' y))).
  assert (Hfirst := fun y => proj2 (proj2 (Hu' y))).
  assert (Hold : forall y h', y ∈ sl h' -> h' <> h -> last l1 <> Some y /\ hd_error l2 <> Some y /\ y <> i).
  { intros y h' Hy Hne. assert (y ∉ sl h) as Hyh by (intros Hyh; by apply Hne, (ln_src_one _ _ _ _ Hl _ _ y)).
    rewrite Hsl in Hyh. split_and!.
    - intros Hl1. apply Hyh, elem_of_app. left. by eapply last_Some_elem_of.
    - intros Hh2. apply Hyh, elem_of_app. right. right. by apply head_listed.
    - intros ->. apply Hyh, elem_of_app. right. by left. }
  pose proof (content_dom _ _ (content_src_unlinked t i)) as Hdom.
  destruct Hl as [Hd Hund Huin Hu Huout Hsnd Hsin Hsone Hs Hsout]. constructor; try done.
  - intros y. by rewrite Hdom.
  - eapply chain_ext; [|done]. intros x _. apply unlinked_used.
  - intros x Hx. destruct (unlinked_used t i x) as [-> ->]. auto.
  - intros x. by apply NoDup_filter.
  - intros x y [_ Hy]%elem_of_filter_out. by apply Hsin.
  - intros x x' y [_ Hy]%elem_of_filter_out [_ Hy']%elem_of_filter_out. by eapply Hsone.
  - intros x. destruct (decide (x = h)) as [->|Hx].
    + pose proof (Hs h) as Hc. pose proof (Hsnd h) as Hnd. rewrite Hsl in Hc, Hnd |- *. rewrite filter_out, Hfirst by done.
      assert (forall y, y ∈ l1 ++ l2 -> y <> i) as Hyi by (intros y [Hy|Hy]%elem_of_app ->; done).
      eapply chain_delete in Hc; [|done|..].
      * destruct l1; [rewrite decide_True by done|rewrite decide_False by (by intros [? _])]; done.
      * intros y Hy. cbn beta. rewrite Hnext. by rewrite (decide_False (P := y = i)) by auto.
      * intros y Hy. cbn beta. rewrite Hprev. by rewrite (decide_False (P := y = i)) by auto.
    + rewrite filter_id, Hfirst, decide_False by (naive_solver || (intros Hi; by apply Hx, (Hsone _ _ i))).
      eapply chain_ext; [|done]. intros y Hy. destruct (Hold y x Hy Hx) as (? & ? & ?).
      by rewrite Hnext, Hprev, !decide_False.
  - intros y Hy. rewrite Hnext, Hprev.
    destruct (decide (y = i)) as [->|Hyi].
    + rewrite !decide_False; [done|intros Hh2|intros Hl1].
      * by apply H2, head_listed.
      * apply H1. by eapply last_Some_elem_of.
    + assert (forall x, y ∉ sl x) as Hyo by (intros x Hin; apply (Hy x), elem_of_filter_out; done).
      rewrite !decide_False; [by apply Hsout|intros Hh2|intros Hl1]; apply (Hyo h); rewrite Hsl; apply elem_of_app.
      * right. right. by apply head_listed.
      * left. by eapply last_Some_elem_of.
Qed.

(** Taking an entry from the list of its hash, if it is on one. *)
Lemma links_src_unlink hd t ul sl i :
  links hd t ul sl -> rx_index i ->
  links hd (src_unlinked t i) ul (fun h => filter (fun x => x <> i) (sl h)).
Proof.
  intros Hl Hi. destruct (src_listed_dec sl i (ln_src_in _ _ _ _ Hl)) as [[h Hh]|Hout].
  - by eapply links_src_unlink_some.
  - eapply links_lists; [by apply links_src_unlink_none|]. intros h. by rewrite filter_id.
Qed.

Lemma links_src_link hd t ul sl h i :
  links hd t ul sl -> rx_index i -> rx_index h -> (forall h, i ∉ sl h) ->
  links hd (src_linked t h i) ul (fun x => if decide (x = h) then i :: sl h else sl x).
Proof.
  intros Hl Hi Hh Hout. pose proof (content_dom _ _ (content_src_linked t h i)) as Hdom.
  pose proof (first_listed _ _ _ _ h Hl) as Hfirst.
  assert (rx_get src_first t h <> RLB_NULL_INDEX -> is_Some (t !! rx_get src_first t h)) as Hn
    by (intros Hn; apply (ln_dom _ _ _ _ Hl), (ln_src_in _ _ _ _ Hl h), Hfirst, Hn).
  assert (is_Some (t !! i) /\ is_Some (t !! h)) as [Hti Hth] by (split; by apply (ln_dom _ _ _ _ Hl)).
  destruct Hl as [Hd Hund Huin Hu Huout Hsnd Hsin Hsone Hs Hsout]. constructor; try done.
  - intros y. by rewrite Hdom.
  - eapply chain_ext; [|done]. intros x _. apply linked_used.
  - intros x Hx. destruct (linked_used t h i x) as [-> ->]. auto.
  - intros x. case_decide; [|done]. subst. by constructor.
  - intros x y. case_decide; [|by apply Hsin]. subst. intros [->|Hy]%elem_of_cons; [done|by apply Hsin].
  - intros x x' y Hy Hy'. repeat case_decide; subst; [done| | |by eapply Hsone].
    + apply elem_of_cons in Hy' as [->|Hy']; [by destruct (Hout x)|by eapply Hsone].
    + apply elem_of_cons in Hy as [->|Hy]; [by destruct (Hout x')|by eapply Hsone].
  - intros x. rewrite linked_first by done. case_decide as E.
    + subst x. eapply chain_push; [done|done|done| | | |].
      * rewrite linked_next by done. by rewrite decide_True.
      * rewrite linked_prev by done. rewrite decide_False, decide_True; [done..|].
        intros [Hne ->]. by apply (Hout h), Hfirst.
      * intros y Hy. rewrite linked_next by done. rewrite decide_False; [done|]. intros ->. by apply (Hout h).
      * intros y Hy. rewrite linked_prev by done. destruct (Hsin h y Hy) as [Hyi _].
        destruct (decide (y = rx_get src_first t h)) as [->|].
        -- rewrite decide_True; [done|]. by split; [apply index_not_null|].
        -- rewrite !decide_False; [done|intros ->; by apply (Hout h)|by intros [_ ?]].
    + eapply chain_ext; [|done]. intros y Hy. rewrite linked_next, linked_prev by done.
      rewrite !decide_False; [done|intros ->; by apply (Hout x)|
        |intros ->; by apply (Hout x)].
      intros [Hne ->]. apply E. by eapply Hsone; [|apply Hfirst].
  - intros y Hy. rewrite linked_next, linked_prev by done.
    assert (y <> i) as Hyi.
    { intros ->. specialize (Hy h). rewrite decide_True in Hy by done. apply Hy. by left. }
    assert (forall h, y ∉ sl h) as Hyo.
    { intros h' Hin. apply (Hy h'). case_decide; [subst; by right|done]. }
    rewrite !decide_False; [by apply Hsout|done| |done]. intros [Hne ->]. by apply (Hyo h), Hfirst.
Qed.

(** The used list. *)
Lemma links_used_link hd t ul sl i :
  links hd t ul sl -> rx_index i -> i ∉ ul -> links i (used_linked t hd i) (i :: ul) sl.
Proof.
  intros Hl Hi Hout. assert (is_Some (t !! i)) as Hti by (by apply (ln_dom _ _ _ _ Hl)).
  destruct (ln_used_out _ _ _ _ Hl i Hout) as [_ Hpi].
  assert (hd <> RLB_NULL_INDEX -> hd ∈ ul) as Hhd.
  { pose proof (ln_used _ _ _ _ Hl) as Hc. destruct ul; [done|]. destruct Hc as (-> & _). intros _. by left. }
  assert (Hnext : forall y, rx_get used_next (used_linked t hd i) y =
    if decide (y = i) then hd else rx_get used_next t y).
  { intros y. unfold used_linked. case_match; get_simpl; done. }
  assert (Hprev : forall y, rx_get used_prev (used_linked t hd i) y =
    if decide (hd <> RLB_NULL_INDEX /\ y = hd) then i else rx_get used_prev t y).
  { intros y. unfold used_linked. destruct (Z.eqb_spec hd RLB_NULL_INDEX) as [E|E]; get_simpl.
    - by rewrite decide_False by (by intros [? _]).
    - assert (is_Some (t !! hd)) by (apply (ln_dom _ _ _ _ Hl), (ln_used_in _ _ _ _ Hl); auto).
      get_simpl. repeat case_decide; naive_solver. }
  assert (Hsrc : forall p, In p [src_next; src_prev; src_first] -> forall y,
    rx_get p (used_linked t hd i) y = rx_get p t y).
  { intros p Hp y. cbn in Hp. unfold used_linked. destruct_or!; subst; case_match; get_simpl; done. }
  pose proof (content_dom _ _ (content_used_linked t hd i)) as Hdom.
  destruct Hl as [Hd Hund Huin Hu Huout Hsnd Hsin Hsone Hs Hsout]. constructor; try done.
  - intros y. by rewrite Hdom.
  - by constructor.
  - intros y [->|Hy]%elem_of_cons; auto.
  - eapply chain_push; [done|done|done| | | |].
    + by rewrite Hnext, decide_True.
    + rewrite Hprev, decide_False; [done|]. intros [Hne ->]. auto.
    + intros y Hy. rewrite Hnext, decide_False; [done|]. by intros ->.
    + intros y Hy. rewrite Hprev. apply decide_ext. split; [by intros [_ ?]|]. intros ->.
      split; [by apply index_not_null, Huin|done].
  - intros y [Hyi Hyu]%not_elem_of_cons. rewrite Hnext, Hprev, !decide_False; [auto|intros [Hne ->]; auto|done].
  - intros x. rewrite Hsrc by (cbn; tauto). eapply chain_ext; [|apply Hs].
    intros y _. by rewrite !Hsrc by (cbn; tauto).
  - intros y Hy. rewrite !Hsrc by (cbn; tauto). auto.
Qed.

Definition used_removed (t : table) (i : Z) : table := alter rlb_init_table_entry_dst i (used_unlinked t i).

(** The links of the used list after an entry was taken out. *)
Lemma removed_links hd t ul sl i l1 l2 :
  links hd t ul sl -> ul = l1 ++ i :: l2 -> i ∉ l1 -> i ∉ l2 -> forall y,
  rx_get used_next (used_removed t i) y =
    (if decide (y = i) then RLB_NULL_INDEX
     else if decide (last l1 = Some y) then rx_get used_next t i else rx_get used_next t y) /\
  rx_get used_prev (used_removed t i) y =
    (if decide (y = i) then RLB_NULL_INDEX
     else if decide (hd_error l2 = Some y) then rx_get used_prev t i else rx_get used_prev t y).
Proof.
  intros Hl Hul H1 H2 y. pose proof (ln_used _ _ _ _ Hl) as Hc. rewrite Hul in Hc.
  destruct (chain_links _ _ _ _ _ _ _ _ Hc) as (Hp & Hn & Hf).
  assert (forall y, y ∈ ul -> is_Some (t !! y) /\ y <> RLB_NULL_INDEX) as Hel.
  { intros z Hz. apply (ln_used_in _ _ _ _ Hl) in Hz. split; [by apply (ln_dom _ _ _ _ Hl)|by apply index_not_null]. }
  assert (is_Some (t !! i)) as Hti by (apply Hel; rewrite Hul; apply elem_of_app; right; by left).
  unfold used_removed, used_unlinked. cbv zeta. rewrite Hp, Hn.
  assert (forall z, last l1 = Some z -> z ∈ ul) as Hl1
    by (intros z Hz; rewrite Hul; apply elem_of_app; left; by eapply last_Some_elem_of).
  assert (forall z, hd_error l2 = Some z -> z ∈ ul) as Hh2
    by (intros z Hz; rewrite Hul; apply elem_of_app; right; right; by apply head_listed).
  destruct (last l1) as [q|] eqn:El; [destruct (Hel q (Hl1 q eq_refl))|];
    (destruct (hd_error l2) as [n|] eqn:Eh; [destruct (Hel n (Hh2 n eq_refl))|]); cbn [default from_option]; unfold rlb_init_table_entry_dst, id.
  all: rewrite ?(proj2 (Z.eqb_eq RLB_NULL_INDEX RLB_NULL_INDEX)) by done.
  all: rewrite ?(proj2 (Z.eqb_neq q RLB_NULL_INDEX)), ?(proj2 (Z.eqb_neq n RLB_NULL_INDEX)) by done.
  all: cbn in Hp, Hn; get_simpl; split; repeat case_decide; congruence.
Qed.

Lemma removed_src t i p :
  In p [src_next; src_prev; src_first] -> forall y, rx_get p (used_removed t i) y = rx_get p t y.
Proof.
  intros Hp y. cbn in Hp. unfold used_removed, used_unlinked, rlb_init_table_entry_dst. cbv zeta.
  destruct_or!; subst; repeat case_match; get_simpl; done.
Qed.

Lemma links_used_remove hd t ul sl i :
  links hd t ul sl -> i ∈ ul ->
  links (if i =? hd then rx_get used_next t i else hd) (used_removed t i)
    (filter (fun x => x <> i) ul) sl.
Proof.
  intros Hl Hiu. destruct (NoDup_split ul i (ln_used_nd _ _ _ _ Hl) Hiu) as (l1 & l2 & Hul & H1 & H2).
  pose proof (removed_links _ _ _ _ _ _ _ Hl Hul H1 H2) as Hu'.
  assert (Hnext := fun y => proj1 (Hu' y)). assert (Hprev := fun y => proj2 (Hu' y)). clear Hu'.
  assert (forall y, is_Some (used_removed t i !! y) <-> is_Some (t !! y)) as Hdom.
  { intros y. unfold used_removed. rewrite some_alter. apply content_dom, content_used_unlinked. }
  pose proof (removed_src t i) as Hsrc.
  destruct Hl as [Hd Hund Huin Hu Huout Hsnd Hsin Hsone Hs Hsout]. constructor; try done.
  - intros y. by rewrite Hdom.
  - by apply NoDup_filter.
  - intros y [_ Hy]%elem_of_filter_out. auto.
  - rewrite Hul in Hu, Hund |- *. rewrite filter_out by done.
    destruct (chain_links _ _ _ _ _ _ _ _ Hu) as (_ & _ & Hf).
    assert (forall y, y ∈ l1 ++ l2 -> y <> i) as Hyi by (intros y [Hy|Hy]%elem_of_app ->; done).
    eapply chain_delete in Hu; [|done|..].
    + destruct l1 as [|z l1]; [cbn in Hf; subst; by rewrite Z.eqb_refl|]. cbn in Hf. subst z.
      rewrite (proj2 (Z.eqb_neq _ _)); [done|]. intros ->. apply H1. by left.
    + intros y Hy. cbn beta. by rewrite Hnext, decide_False by auto.
    + intros y Hy. cbn beta. by rewrite Hprev, decide_False by auto.
  - intros y Hy. rewrite Hnext, Hprev. case_decide as Hyi; [done|].
    assert (y ∉ ul) as Hyu by (intros Hin; by apply Hy, elem_of_filter_out).
    rewrite !decide_False; [auto|intros Hh2|intros Hl1]; apply Hyu; rewrite Hul; apply elem_of_app.
    + right. right. by apply head_listed.
    + left. by eapply last_Some_elem_of.
  - intros x. rewrite Hsrc by (cbn; tauto). eapply chain_ext; [|apply Hs].
    intros y _. by rewrite !Hsrc by (cbn; tauto).
  - intros y Hy. rewrite !Hsrc by (cbn; tauto). auto.
Qed.
End links.
