(* ===== verification/AlbInv.v ===== *)
(** * Adaptive load balancing: the invariant of the tables

    What holds between the calls of [servers/bond_alb.c]: every pointer of the tables and of
    the bond is to a slave that exists, the links of the receive table are lists, and every
    transmit entry of a slave is reached from the head of that slave.  Then the steps that
    keep it, and relations that say what else a function leaves alone. *)

From S2P Require Import Prelude.
From S2P Require Import AlbTypes.
From S2P Require Import AlbOps.
From S2P Require Import AlbLinks.

Section inv.
Context `{AlbLaws}.

Definition live (m : gmap positive slave) (s : positive) : Prop := is_Some (m !! s).

(** ** The transmit table *)

Abbreviation ttable := (gmap Z tlb_client_info).

Definition tx_index (i : Z) : Prop := 0 <= i < TLB_HASH_TABLE_SIZE.
Definition tx_nx (t : ttable) (i : Z) : Z := from_option next TLB_NULL_INDEX (t !! i).
Definition tx_link (i : Z) : Prop := i = TLB_NULL_INDEX \/ tx_index i.

Record tx_ok (m : gmap positive slave) (t : ttable) : Prop := {
  tx_dom : forall i, is_Some (t !! i) <-> tx_index i;
  tx_next_in : forall i e, t !! i = Some e -> tx_link (next e);
  tx_free : forall i e, t !! i = Some e -> tx_slave e = None -> next e = TLB_NULL_INDEX;
  tx_path : forall i e s, t !! i = Some e -> tx_slave e = Some s ->
    exists sl, m !! s = Some sl /\ path TLB_NULL_INDEX (tx_nx t) (head sl) i
}.

(** ** The receive table *)

Abbreviation rtable := (gmap Z rlb_client_info).

(** What an entry says about the lists it is on. *)
Record rx_entry_ok (m : gmap positive slave) (ul : list Z) (sl : Z -> list Z) (i : Z)
    (e : rlb_client_info) : Prop := {
  rx_used : (i ∈ ul) <-> assigned e = true;
  rx_src : forall h, (i ∈ sl h) <-> assigned e = true /\ _simple_hash (ip_src e) = h;
  rx_none : assigned e = false -> rx_client e = None;
  rx_live : forall s, rx_client e = Some s -> live m s
}.

Definition rx_ok (m : gmap positive slave) (hd : Z) (t : rtable) : Prop :=
  exists ul sl, links hd t ul sl /\ forall i e, t !! i = Some e -> rx_entry_ok m ul sl i e.

(** ** The bond *)

Record inv (b : bonding) : Prop := {
  inv_nodup : NoDup (slave_list b);
  inv_listed : forall s, s ∈ slave_list b -> live (slaves b) s;
  inv_active : forall s, curr_active_slave b = Some s -> live (slaves b) s;
  inv_usable : forall l, usable_slaves b = Some l -> NoDup l /\ forall s, s ∈ l -> live (slaves b) s;
  inv_promisc : primary_is_promisc b = true -> is_Some (curr_active_slave b);
  inv_heads : forall s sl, slaves b !! s = Some sl -> tx_link (head sl);
  inv_tx : forall t, tx_hashtbl b = Some t -> tx_ok (slaves b) t;
  inv_rx : forall t, rx_hashtbl b = Some t -> rx_ok (slaves b) (rx_hashtbl_used_head b) t;
  inv_rx_none : rx_hashtbl b = None -> rlb_enabled b = true -> rx_hashtbl_used_head b = RLB_NULL_INDEX;
  inv_rx_some : is_Some (rx_hashtbl b) -> rlb_enabled b = true /\ is_Some (tx_hashtbl b);
  inv_rx_open : rlb_enabled b = true -> is_Some (tx_hashtbl b) -> is_Some (rx_hashtbl b);
  inv_mode : rlb_enabled b = true -> mode_tlb b = false;
  inv_rx_slave : forall s, rx_slave b = Some s -> live (slaves b) s /\ rlb_enabled b = true
}.

(** The fields that the invariant is about, and the address of the bond. *)
Definition core (b : bonding) :=
  (slaves b, slave_list b, curr_active_slave b, usable_slaves b, primary_is_promisc b,
   tx_hashtbl b, rx_hashtbl b, rx_hashtbl_used_head b, rlb_enabled b, mode_tlb b, rx_slave b,
   bond_addr b).

Lemma inv_core b b' : core b' = core b -> inv b -> inv b'.
Proof.
  unfold core. intros [= E1 E2 E3 E4 E5 E6 E7 E8 E9 E10 E11 E12] [].
  constructor; rewrite ?E1, ?E2, ?E3, ?E4, ?E5, ?E6, ?E7, ?E8, ?E9, ?E10, ?E11, ?E12; done.
Qed.

(** ** What functions leave alone *)

(** What the driver says of a slave. *)
Definition env (sl : slave) := (speed sl, can_tx sl, perm_hwaddr sl).

(** [same]: the slaves that exist and what the driver says of them, their list, the active
    one and which tables there are. *)
Record same (b b' : bonding) : Prop := {
  same_env : forall s, env <$> slaves b' !! s = env <$> slaves b !! s;
  same_list : slave_list b' = slave_list b;
  same_active : curr_active_slave b' = curr_active_slave b;
  same_usable : usable_slaves b' = usable_slaves b;
  same_enabled : rlb_enabled b' = rlb_enabled b;
  same_mode : mode_tlb b' = mode_tlb b;
  same_tx : is_Some (tx_hashtbl b') <-> is_Some (tx_hashtbl b);
  same_rx : is_Some (rx_hashtbl b') <-> is_Some (rx_hashtbl b)
}.

(** [still]: moreover the addresses. *)
Definition addr_of (b : bonding) (s : positive) : option mac_addr := dev_addr <$> slaves b !! s.
Record still (b b' : bonding) : Prop := {
  sl_same : same b b';
  sl_addr : forall s, addr_of b' s = addr_of b s;
  sl_bond : bond_addr b' = bond_addr b
}.

(** [mac_side]: [same], and the tables. *)
Record mac_side (b b' : bonding) : Prop := {
  ms_same : same b b';
  ms_tx : tx_hashtbl b' = tx_hashtbl b;
  ms_rx : rx_hashtbl b' = rx_hashtbl b;
  ms_rx_slave : rx_slave b' = rx_slave b
}.

(** [rx_side]: [still], and the slaves and the transmit table. *)
Record rx_side (b b' : bonding) : Prop := {
  rs_still : still b b';
  rs_slaves : slaves b' = slaves b;
  rs_tx : tx_hashtbl b' = tx_hashtbl b
}.

(** [keep]: moreover which entries of the receive table are used, and their order. *)
Definition used_nx (b : bonding) (i : Z) : Z :=
  match rx_hashtbl b with Some t => rx_get used_next t i | None => RLB_NULL_INDEX end.
Record keep (b b' : bonding) : Prop := {
  kp_side : rx_side b b';
  kp_head : rx_hashtbl_used_head b' = rx_hashtbl_used_head b;
  kp_next : forall i, used_nx b' i = used_nx b i
}.

Lemma same_live b b' : same b b' -> forall s, live (slaves b') s <-> live (slaves b) s.
Proof. intros [He] s. unfold live. by rewrite <-!(fmap_is_Some env), He. Qed.

(** A relation [R] that steps of kind [K] extend. *)
Class Extends (K R : bonding -> bonding -> Prop) : Prop := {
  ext_trans : forall a b c, R a b -> K b c -> R a c;
  ext_same : forall a b, R a b -> same a b
}.

Lemma same_trans a b c : same a b -> same b c -> same a c.
Proof. intros [] []. constructor; try congruence; intros; by etrans; eauto. Qed.
Lemma still_trans a b c : still a b -> still b c -> still a c.
Proof. intros [] []. constructor; try congruence. by eapply same_trans. Qed.
Lemma mac_side_trans a b c : mac_side a b -> mac_side b c -> mac_side a c.
Proof. intros [] []. constructor; try congruence. by eapply same_trans. Qed.
Lemma rx_side_trans a b c : rx_side a b -> rx_side b c -> rx_side a c.
Proof. intros [] []. constructor; try congruence. by eapply still_trans. Qed.
Lemma keep_trans a b c : keep a b -> keep b c -> keep a c.
Proof. intros [] []. constructor; try congruence. by eapply rx_side_trans. Qed.

#[export] Instance same_same : Extends same same.
Proof. constructor; [apply same_trans|done]. Qed.
#[export] Instance still_same : Extends still same.
Proof. constructor; [intros a b c ? []; by eapply same_trans|done]. Qed.
#[export] Instance rx_side_same : Extends rx_side same.
Proof. constructor; [intros a b c ? [[]]; by eapply same_trans|done]. Qed.
#[export] Instance keep_same : Extends keep same.
Proof. constructor; [intros a b c ? [[[]]]; by eapply same_trans|done]. Qed.
#[export] Instance mac_side_same : Extends mac_side same.
Proof. constructor; [intros a b c ? []; by eapply same_trans|done]. Qed.
#[export] Instance mac_side_side : Extends mac_side mac_side.
Proof. constructor; [apply mac_side_trans|by intros a b []]. Qed.
#[export] Instance still_still : Extends still still.
Proof. constructor; [apply still_trans|by intros a b []]. Qed.
#[export] Instance rx_side_still : Extends rx_side still.
Proof. constructor; [intros a b c ? []; by eapply still_trans|by intros a b []]. Qed.
#[export] Instance keep_still : Extends keep still.
Proof. constructor; [intros a b c ? [[]]; by eapply still_trans|by intros a b []]. Qed.
#[export] Instance rx_side_side : Extends rx_side rx_side.
Proof. constructor; [apply rx_side_trans|by intros a b [[]]]. Qed.
#[export] Instance keep_side : Extends keep rx_side.
Proof. constructor; [intros a b c ? []; by eapply rx_side_trans|by intros a b [[]]]. Qed.
#[export] Instance keep_keep : Extends keep keep.
Proof. constructor; [apply keep_trans|by intros a b [[[]]]]. Qed.

Lemma same_refl b : same b b.
Proof. by constructor. Qed.
Lemma still_refl b : still b b.
Proof. by constructor; [apply same_refl|..]. Qed.
Lemma mac_side_refl b : mac_side b b.
Proof. by constructor; [apply same_refl|..]. Qed.
Lemma rx_side_refl b : rx_side b b.
Proof. by constructor; [apply still_refl|..]. Qed.
Lemma keep_refl b : keep b b.
Proof. by constructor; [apply rx_side_refl|..]. Qed.

(** Only fields outside the invariant change. *)
Lemma core_keep b b' : core b' = core b -> keep b b'.
Proof.
  unfold core. intros [= E1 E2 E3 E4 E5 E6 E7 E8 E9 E10 E11 E12].
  constructor; [constructor; [constructor; [constructor|..]|..]|..]; unfold used_nx, addr_of;
    rewrite ?E1, ?E2, ?E3, ?E4, ?E5, ?E6, ?E7, ?E8, ?E9, ?E10, ?E11, ?E12; done.
Qed.

(** The invariant, and what was left alone since [b0]. *)
Definition good (R : bonding -> bonding -> Prop) (b0 b : bonding) : Prop := inv b /\ R b0 b.

Lemma good_step K R b0 b b' `{!Extends K R} : good R b0 b -> K b b' -> inv b' -> good R b0 b'.
Proof. intros [Hi Hr] Hk Hi'. split; [done|]. by eapply ext_trans. Qed.

Lemma good_core R b0 b b' `{!Extends keep R} : good R b0 b -> core b' = core b -> good R b0 b'.
Proof.
  intros Hg Hc. eapply good_step; [done|done|by apply core_keep|].
  eapply inv_core; [done|]. apply Hg.
Qed.
(** ** Access *)

Lemma when_wp (c : bool) (m : M bonding unit) (Q : unit -> bonding -> Prop) b :
  (c = true -> wp m Q b) -> (c = false -> Q tt b) -> wp (when_ c m) Q b.
Proof. destruct c; cbn; auto. Qed.

Lemma wp_slave s sl (Q : slave -> bonding -> Prop) b :
  slaves b !! s = Some sl -> Q sl b -> wp (get_slave s) Q b.
Proof. intros Hs HQ. unfold get_slave. apply wp_bind, wp_gets. by rewrite Hs. Qed.

Lemma wp_mod_slave s sl f (Q : unit -> bonding -> Prop) b :
  slaves b !! s = Some sl -> Q tt (b <| slaves ::= <[s := f sl]> |>) -> wp (mod_slave s f) Q b.
Proof. intros Hs HQ. unfold mod_slave. apply wp_bind. by eapply wp_slave. Qed.

Lemma wp_get_tx t i e (Q : tlb_client_info -> bonding -> Prop) b :
  tx_hashtbl b = Some t -> t !! i = Some e -> Q e b -> wp (get_tx i) Q b.
Proof. intros Ht He HQ. unfold get_tx. apply wp_bind, wp_gets. by rewrite Ht, He. Qed.

Lemma wp_get_rx t i e (Q : rlb_client_info -> bonding -> Prop) b :
  rx_hashtbl b = Some t -> t !! i = Some e -> Q e b -> wp (get_rx i) Q b.
Proof. intros Ht He HQ. unfold get_rx. apply wp_bind, wp_gets. by rewrite Ht, He. Qed.

Lemma insert_alter_eq {A} (f : A -> A) i e (t : gmap Z A) : t !! i = Some e -> <[i := f e]> t = alter f i t.
Proof.
  intros He. apply map_eq. intros j. destruct (decide (j = i)) as [->|].
  - by rewrite lookup_insert_eq, lookup_alter_eq, He.
  - by rewrite lookup_insert_ne, lookup_alter_ne.
Qed.

Lemma wp_mod_tx t i f (Q : unit -> bonding -> Prop) b :
  tx_hashtbl b = Some t -> is_Some (t !! i) -> Q tt (b <| tx_hashtbl := Some (alter f i t) |>) ->
  wp (mod_tx i f) Q b.
Proof.
  intros Ht [e He] HQ. unfold mod_tx. apply wp_bind, wp_gets. rewrite Ht, He. apply wp_mod.
  by rewrite (insert_alter_eq f i e).
Qed.

Lemma wp_mod_rx t i f (Q : unit -> bonding -> Prop) b :
  rx_hashtbl b = Some t -> is_Some (t !! i) -> Q tt (b <| rx_hashtbl := Some (alter f i t) |>) ->
  wp (mod_rx i f) Q b.
Proof.
  intros Ht [e He] HQ. unfold mod_rx. apply wp_bind, wp_gets. rewrite Ht, He. apply wp_mod.
  by rewrite (insert_alter_eq f i e).
Qed.

Lemma wp_try_call (Q : bool -> bonding -> Prop) b :
  (forall ok, Q ok (b <| calls := calls b + 1 |>)) -> wp try_call Q b.
Proof. intros HQ. unfold try_call. apply wp_bind, wp_gets, wp_bind, wp_mod, wp_ret, HQ. Qed.

(** A slave that existed exists. *)
Lemma good_live K R b0 b s `{!Extends K R} :
  good R b0 b -> live (slaves b0) s -> exists sl, slaves b !! s = Some sl.
Proof. intros [_ Hr] Hl. by apply (same_live _ _ (ext_same (K := K) _ _ Hr)). Qed.
End inv.

#[export] Hint Resolve mac_side_same mac_side_side same_same still_same still_still rx_side_still keep_still rx_side_same keep_same rx_side_side keep_side keep_keep : core.
