(* ===== verification/AlbTlb.v ===== *)
(** * Adaptive load balancing: transmit load balancing keeps the invariant

    Clearing a slave ends and leaves no entry of that slave, whatever the links are; a flow
    that is assigned to a slave is put on the list of that slave; the choice is the slave
    with the largest gap. *)

From S2P Require Import Prelude.
From S2P Require Import AlbTypes.
From S2P Require Import AlbOps.
From S2P Require Import AlbLinks.
From S2P Require Import AlbInv.

Section tlb.
Context `{AlbLaws}.

Abbreviation ttable := (gmap Z tlb_client_info).

Lemma tx_null_no_index : ~ tx_index TLB_NULL_INDEX.
Proof. apply tlb_null_outside. Qed.

Lemma tx_nx_some (t : ttable) i e : t !! i = Some e -> tx_nx t i = next e.
Proof. intros He. unfold tx_nx. by rewrite He. Qed.

(** ** Clearing the entries of a slave *)

(** Entries with a successor; their number bounds the walk. *)
Definition busy (t : ttable) : nat := size (filter (fun p => next p.2 <> TLB_NULL_INDEX) t).

Lemma busy_bound t : (forall i, is_Some (t !! i) <-> tx_index i) -> (busy t < tlb_fuel)%nat.
Proof.
  intros Hd. unfold busy, tlb_fuel.
  assert (size t <= Z.to_nat TLB_HASH_TABLE_SIZE)%nat as Hs.
  { rewrite <-size_dom. etrans; [apply (subseteq_size _ (list_to_set (seqZ 0 TLB_HASH_TABLE_SIZE)))|].
    - intros i Hi%elem_of_dom%Hd. apply elem_of_list_to_set, elem_of_seqZ. unfold tx_index in Hi. lia.
    - rewrite size_list_to_set by apply NoDup_seqZ. by rewrite length_seqZ. }
  pose proof (map_subseteq_size _ _ (map_filter_subseteq (fun p => next p.2 <> TLB_NULL_INDEX) t)). lia.
Qed.

Lemma busy_blank (t : ttable) i e e' :
  t !! i = Some e -> next e <> TLB_NULL_INDEX -> next e' = TLB_NULL_INDEX ->
  busy (<[i := e']> t) = pred (busy t).
Proof.
  intros He Hne He'. unfold busy. rewrite map_filter_insert_False by (cbn; naive_solver).
  rewrite map_filter_delete. apply map_size_delete_Some.
  exists e. by apply map_lookup_filter_Some.
Qed.

Definition blank (e : tlb_client_info) : Prop := tx_slave e = None /\ next e = TLB_NULL_INDEX.

Lemma blank_init sv e : blank (tlb_init_table_entry sv e).
Proof. unfold blank, tlb_init_table_entry. destruct sv; cbv zeta; by rec_simpl. Qed.

(** The entries [V], closed under the links, are blank in [t']. *)
Record cleared (t t' : ttable) (V : list Z) : Prop := {
  cl_closed : forall k, k ∈ V -> tx_nx t k <> TLB_NULL_INDEX -> tx_nx t k ∈ V;
  cl_other : forall k, k ∉ V -> t' !! k = t !! k;
  cl_blank : forall k, k ∈ V -> tx_index k /\ exists e, t' !! k = Some e /\ blank e
}.

Lemma cleared_nil t : cleared t t [].
Proof. constructor; set_solver. Qed.

Lemma cleared_cons t t' V i e e1 :
  t !! i = Some e -> tx_index i -> blank e1 -> (next e = TLB_NULL_INDEX) \/ (next e ∈ V) ->
  cleared (<[i := e1]> t) t' V -> cleared t t' (i :: V).
Proof.
  intros He Hi Hb Hn [Hc Ho Hbl]. constructor.
  - intros k [->|Hk]%elem_of_cons; [rewrite (tx_nx_some _ _ _ He); set_solver|].
    destruct (decide (k = i)) as [->|Hki]; [rewrite (tx_nx_some _ _ _ He); set_solver|].
    intros Hne. right. specialize (Hc k Hk). unfold tx_nx in *. rewrite lookup_insert_ne in Hc by done. auto.
  - intros k [Hki Hk]%not_elem_of_cons. rewrite Ho by done. by rewrite lookup_insert_ne.
  - intros k Hk. destruct (decide (k ∈ V)) as [HkV|HkV]; [auto|].
    apply elem_of_cons in Hk as [->|]; [|done]. split; [done|]. exists e1.
    by rewrite Ho, lookup_insert_eq.
Qed.

Lemma set_tx_same b t : tx_hashtbl b = Some t -> b <| tx_hashtbl := Some t |> = b.
Proof. intros Ht. destruct b. cbn in Ht. by rewrite Ht. Qed.
Lemma set_tx_twice b t t' : b <| tx_hashtbl := Some t |> <| tx_hashtbl := Some t' |> = b <| tx_hashtbl := Some t' |>.
Proof. by destruct b. Qed.

Lemma clear_loop_ok sv fuel index b t :
  tx_hashtbl b = Some t -> (forall i, is_Some (t !! i) <-> tx_index i) ->
  (forall i e, t !! i = Some e -> tx_link (next e)) -> tx_link index -> (busy t < fuel)%nat ->
  wp (clear_loop fuel index sv) (fun _ b' => exists t' (V : list Z), b' = b <| tx_hashtbl := Some t' |> /\
    cleared t t' V /\ ((index = TLB_NULL_INDEX) \/ (index ∈ V))) b.
Proof.
  revert index b t. induction fuel as [|fuel IH]; intros index b t Ht Hd Hn Hi Hf; [lia|]. cbn.
  destruct (Z.eqb_spec index TLB_NULL_INDEX) as [->|Hne].
  { apply wp_ret. exists t, []. split_and!; [by rewrite set_tx_same|apply cleared_nil|by left]. }
  destruct Hi as [|Hi]; [done|]. destruct (proj2 (Hd index) Hi) as [e He].
  apply wp_bind. eapply wp_get_tx; [done..|]. cbv beta. apply wp_bind.
  eapply wp_mod_tx; [done..|]. cbv beta. rewrite <-(insert_alter_eq _ _ _ _ He).
  pose proof (blank_init sv e) as Hb. set (e1 := tlb_init_table_entry sv e) in *. clearbody e1.
  destruct (decide (next e = TLB_NULL_INDEX)) as [En|En].
  { assert (clear_loop fuel (next e) sv = ret tt) as -> by (rewrite En; destruct fuel; cbn; by rewrite Z.eqb_refl).
    apply wp_ret. eexists _, [index]. split; [done|]. split; [|right; by left].
    eapply cleared_cons; [done|done|done|by left|apply cleared_nil]. }
  eapply wp_mono; [apply (IH _ _ (<[index := e1]> t))|].
  - by rec_simpl.
  - intros i. rewrite <-Hd. destruct (decide (i = index)) as [->|]; [rewrite lookup_insert_eq, He; split; eauto|].
    by rewrite lookup_insert_ne.
  - intros i e'. destruct (decide (i = index)) as [->|].
    + rewrite lookup_insert_eq. intros [= <-]. left. apply Hb.
    + rewrite lookup_insert_ne by done. apply Hn.
  - eauto.
  - rewrite (busy_blank t index e) by (done || apply Hb).
    assert (busy t <> 0)%nat; [|lia]. unfold busy. intros Hz%map_size_empty_inv.
    eapply map_empty in Hz. apply map_lookup_filter_None in Hz as [Hz|Hz]; [by rewrite He in Hz|].
    by apply (Hz e He).
  - cbv beta. intros _ b' (t' & V & -> & Hc & HV). exists t', (index :: V).
    rewrite set_tx_twice. split_and!; [done| |right; by left].
    eapply cleared_cons; [done|done|done|naive_solver|done].
Qed.

Lemma path_null (t : ttable) i :
  (forall i, is_Some (t !! i) <-> tx_index i) -> path TLB_NULL_INDEX (tx_nx t) TLB_NULL_INDEX i -> i = TLB_NULL_INDEX.
Proof.
  intros Hd Hp. inversion Hp as [|? ? Hne]; [done|]. subst. exfalso. apply Hne. unfold tx_nx.
  destruct (t !! TLB_NULL_INDEX) eqn:E; [|done]. exfalso. apply tx_null_no_index, Hd. eauto.
Qed.

(** No entry of the transmit table is of slave [s]. *)
Definition tx_free_of (s : positive) (b : bonding) : Prop :=
  forall t i e, tx_hashtbl b = Some t -> t !! i = Some e -> tx_slave e <> Some s.

Lemma tx_ok_cleared m t t' V s sl sl' :
  tx_ok m t -> cleared t t' V -> m !! s = Some sl -> (head sl = TLB_NULL_INDEX) \/ (head sl ∈ V) ->
  tx_ok (<[s := sl']> m) t' /\ forall i e, t' !! i = Some e -> tx_slave e <> Some s.
Proof.
  intros [Hd Hn Hfr Hp] [Hc Ho Hb] Hs Hh.
  assert (forall i e, t' !! i = Some e -> (blank e) \/ (i ∉ V) /\ t !! i = Some e) as Hcase.
  { intros i e He. destruct (decide (i ∈ V)) as [Hi|Hi].
    - apply Hb in Hi as (_ & e' & He' & Hbl). rewrite He in He'. simplify_eq. by left.
    - right. split; [done|]. by rewrite <-Ho. }
  assert (forall i e, t' !! i = Some e -> tx_slave e <> Some s) as Hno.
  { intros i e He Hes. destruct (Hcase i e He) as [[E _]|[Hi Hte]]; [congruence|].
    destruct (Hp i e s Hte Hes) as (sl0 & Hsl & Hpath). simplify_eq. destruct Hh as [Hh|Hh].
    - rewrite Hh in Hpath. apply path_null in Hpath; [|done]. subst. apply tx_null_no_index, Hd. eauto.
    - apply Hi. by eapply (path_closed _ (tx_nx t) (fun k => k ∈ V)). }
  split; [|done]. constructor.
  - intros i. rewrite <-Hd. destruct (decide (i ∈ V)) as [Hi|Hi]; [|by rewrite Ho].
    destruct (Hb i Hi) as (Hx & e & He & _). rewrite He. split; [intros _; by apply Hd|by eauto].
  - intros i e He. destruct (Hcase i e He) as [[_ E]|[_ Hte]]; [by left|eauto].
  - intros i e He Hes. destruct (Hcase i e He) as [[_ E]|[_ Hte]]; [done|eauto].
  - intros i e s' He Hes. destruct (Hcase i e He) as [[E _]|[Hi Hte]]; [congruence|].
    destruct (Hp i e s' Hte Hes) as (sl0 & Hsl & Hpath). exists sl0. split.
    + rewrite lookup_insert_ne; [done|]. intros ->. by apply (Hno i e).
    + eapply (path_avoid _ (tx_nx t) (tx_nx t') (fun k => k ∈ V)); [done| |done|done].
      intros k Hk. unfold tx_nx. by rewrite Ho.
Qed.
(** ** Changes of the slaves and of the transmit table *)

Definition tlb_core (b : bonding) :=
  (slave_list b, curr_active_slave b, usable_slaves b, primary_is_promisc b, rx_hashtbl b,
   rx_hashtbl_used_head b, rlb_enabled b, mode_tlb b, rx_slave b, bond_addr b).

Lemma rx_ok_live m m' hd t : (forall s, live m s -> live m' s) -> rx_ok m hd t -> rx_ok m' hd t.
Proof.
  intros Hl (ul & sl & Hlk & He). exists ul, sl. split; [done|]. intros i e Hi.
  destruct (He i e Hi). constructor; eauto.
Qed.

(** What changes of the slaves by transmit load balancing leave alone. *)
Definition tlb_still (sl : slave) := (env sl, dev_addr sl).

Lemma inv_tlb b b' :
  inv b -> tlb_core b' = tlb_core b -> (forall s, live (slaves b') s <-> live (slaves b) s) ->
  (is_Some (tx_hashtbl b') <-> is_Some (tx_hashtbl b)) ->
  (forall s sl, slaves b' !! s = Some sl -> tx_link (head sl)) ->
  (forall t, tx_hashtbl b' = Some t -> tx_ok (slaves b') t) ->
  inv b'.
Proof.
  unfold tlb_core. intros [] [= E1 E2 E3 E4 E5 E6 E7 E8 E9 E10] Hl Ht Hh Htx.
  constructor; rewrite ?E1, ?E2, ?E3, ?E4, ?E5, ?E6, ?E7, ?E8, ?E9, ?Ht; try done.
  - intros s Hs. apply Hl. auto.
  - intros s Hs. apply Hl. auto.
  - intros l Hu. destruct (inv_usable l Hu) as [? Hlv]. split; [done|]. intros s Hs. apply Hl. auto.
  - intros t Hr. eapply rx_ok_live; [|by apply inv_rx]. intros s. by apply Hl.
  - intros s Hs. rewrite Hl. auto.
Qed.

Lemma good_tlb R b0 b b' `{!Extends still R} :
  good R b0 b -> tlb_core b' = tlb_core b ->
  (forall s, tlb_still <$> slaves b' !! s = tlb_still <$> slaves b !! s) ->
  (is_Some (tx_hashtbl b') <-> is_Some (tx_hashtbl b)) ->
  (forall s sl, slaves b' !! s = Some sl -> tx_link (head sl)) ->
  (forall t, tx_hashtbl b' = Some t -> tx_ok (slaves b') t) ->
  good R b0 b'.
Proof.
  intros Hg Hc Hst Ht Hh Htx. eapply good_step; [done|done| |].
  - unfold tlb_core in Hc. injection Hc as E1 E2 E3 E4 E5 E6 E7 E8 E9 E10.
    constructor; [constructor; rewrite ?E1, ?E2, ?E3, ?E5, ?E7, ?E8; try done| |done]; intros s; specialize (Hst s);
      unfold addr_of, tlb_still in *; destruct (slaves b' !! s), (slaves b !! s); cbn in *; congruence.
  - eapply inv_tlb; [apply Hg|done| |done..]. intros s. unfold live. by rewrite <-!(fmap_is_Some tlb_still), Hst.
Qed.

Lemma fmap_insert_same {B} (f : slave -> B) (m : gmap positive slave) s sl sl' :
  m !! s = Some sl -> f sl' = f sl -> forall s', f <$> <[s := sl']> m !! s' = f <$> m !! s'.
Proof.
  intros Hs Hst s'. destruct (decide (s' = s)) as [->|].
  - rewrite lookup_insert_eq, Hs. cbn. by rewrite Hst.
  - by rewrite lookup_insert_ne.
Qed.

Lemma heads_insert (m : gmap positive slave) s sl :
  (forall s sl, m !! s = Some sl -> tx_link (head sl)) -> tx_link (head sl) ->
  forall s' sl', <[s := sl]> m !! s' = Some sl' -> tx_link (head sl').
Proof.
  intros Hm Hs s' sl'. destruct (decide (s' = s)) as [->|].
  - rewrite lookup_insert_eq. by intros [= <-].
  - rewrite lookup_insert_ne by done. apply Hm.
Qed.

Lemma tlb_clear_slave_ok R b0 b s sv `{!Extends still R} :
  good R b0 b -> live (slaves b0) s ->
  wp (tlb_clear_slave s sv) (fun _ b' => good R b0 b' /\ tx_free_of s b' /\ tlb_core b' = tlb_core b) b.
Proof.
  intros Hg Hs. destruct (good_live still _ _ _ _ Hg Hs) as [sl Hsl]. destruct (proj1 Hg) as [].
  unfold tlb_clear_slave, __tlb_clear_slave. apply wp_bind, wp_gets, wp_bind.
  destruct (tx_hashtbl b) as [t|] eqn:Ht.
  - apply wp_bind. eapply wp_slave; [done|]. cbv beta.
    destruct (inv_tx t eq_refl) as [Hd Hn Hfr Hp].
    eapply wp_mono; [eapply clear_loop_ok; eauto using busy_bound|]. cbv beta.
    intros _ b' (t' & V & -> & Hc & HV). eapply wp_mod_slave; [by rec_simpl|].
    destruct (tx_ok_cleared _ _ _ _ s sl (tlb_init_slave sl) (Build_tx_ok _ _ Hd Hn Hfr Hp) Hc Hsl HV) as [Hok Hno].
    split_and!.
    + eapply good_tlb; [done|done|..]; unfold tlb_core; rec_simpl.
      * done.
      * eapply fmap_insert_same; [done|]. unfold tlb_still, env, tlb_init_slave. by rec_simpl.
      * rewrite Ht. split; by eauto.
      * apply heads_insert; [done|]. left. unfold tlb_init_slave. by rec_simpl.
      * by intros ? [= <-].
    + intros t0 i e. rec_simpl. intros [= <-]. apply Hno.
    + unfold tlb_core. by rec_simpl.
  - apply wp_ret. eapply wp_mod_slave; [done|]. split_and!.
    + eapply good_tlb; [done|done|..]; unfold tlb_core; rec_simpl.
      * done.
      * eapply fmap_insert_same; [done|]. unfold tlb_still, env, tlb_init_slave. by rec_simpl.
      * done.
      * apply heads_insert; [done|]. left. unfold tlb_init_slave. by rec_simpl.
      * by rewrite Ht.
    + intros t0 i e. rec_simpl. by rewrite Ht.
    + unfold tlb_core. by rec_simpl.
Qed.
Lemma tx_ok_slave m t s sl sl' :
  tx_ok m t -> m !! s = Some sl -> head sl' = head sl -> tx_ok (<[s := sl']> m) t.
Proof.
  intros [Hd Hn Hf Hp] Hs Hh. constructor; [done..|]. intros i e s' He Hs'.
  destruct (Hp i e s' He Hs') as (sl0 & Hsl & Hpath). destruct (decide (s' = s)) as [->|].
  - exists sl'. rewrite lookup_insert_eq, Hh. by simplify_eq.
  - exists sl0. by rewrite lookup_insert_ne.
Qed.

(** ** The choice of a slave *)

(** The first of the slaves that can transmit with the largest gap. *)
Definition best_channel (m : gmap positive slave) (l : list positive) (r : option positive) : Prop :=
  match r with
  | None => forall s sl, s ∈ l -> m !! s = Some sl -> can_tx sl = false
  | Some s => exists l1 l2 sl, l = l1 ++ s :: l2 /\ m !! s = Some sl /\ can_tx sl = true /\
      (forall s' sl', s' ∈ l1 -> m !! s' = Some sl' -> can_tx sl' = true -> compute_gap sl' < compute_gap sl) /\
      (forall s' sl', s' ∈ l2 -> m !! s' = Some sl' -> can_tx sl' = true -> compute_gap sl' <= compute_gap sl)
  end.

Lemma best_channel_snoc m l s sl r :
  m !! s = Some sl -> best_channel m l r ->
  best_channel m (l ++ [s])
    (if can_tx sl then
       match r with
       | Some s' => if from_option compute_gap 0 (m !! s') <? compute_gap sl then Some s else r
       | None => Some s
       end
     else r).
Proof.
  intros Hs Hr. destruct (can_tx sl) eqn:Ec.
  - destruct r as [s'|]; cbn in Hr.
    + destruct Hr as (l1 & l2 & sl' & -> & Hs' & Hc' & H1 & H2). rewrite Hs'. cbn.
      destruct (Z.ltb_spec (compute_gap sl') (compute_gap sl)).
      * exists (l1 ++ s' :: l2), [], sl. split_and!; [done..| |set_solver].
        intros s0 sl0 [Hin|[->|Hin]%elem_of_cons]%elem_of_app Hs0 Hc0.
        -- specialize (H1 _ _ Hin Hs0 Hc0). lia.
        -- by simplify_eq.
        -- specialize (H2 _ _ Hin Hs0 Hc0). lia.
      * exists l1, (l2 ++ [s]), sl'. rewrite <-app_assoc. split_and!; [done..|].
        intros s0 sl0 [Hin|Hin%list_elem_of_singleton]%elem_of_app Hs0 Hc0; [by eauto|simplify_eq; first [done|congruence]].
    + exists l, [], sl. split_and!; [done..| |set_solver]. intros s0 sl0 Hin Hs0 Hc0.
      rewrite (Hr s0 sl0) in Hc0; done.
  - destruct r as [s'|]; cbn in Hr |- *.
    + destruct Hr as (l1 & l2 & sl' & -> & Hs' & Hc' & H1 & H2).
      exists l1, (l2 ++ [s]), sl'. rewrite <-app_assoc. split_and!; [done..|].
      intros s0 sl0 [Hin|Hin%list_elem_of_singleton]%elem_of_app Hs0 Hc0; [by eauto|simplify_eq; first [done|congruence]].
    + intros s0 sl0 [Hin|Hin%list_elem_of_singleton]%elem_of_app Hs0; [by eauto|simplify_eq; first [done|congruence]].
Qed.

Lemma compute_gap_range sl : - 2 ^ 32 < compute_gap sl < 2 ^ 32.
Proof.
  unfold compute_gap. pose proof (u32_range (Z.shiftl (speed sl) 20)).
  pose proof (u32_range (Z.shiftl (load sl) 3)). lia.
Qed.

Lemma tlb_get_least_loaded_slave_ok b :
  (forall s, s ∈ slave_list b -> live (slaves b) s) ->
  wp tlb_get_least_loaded_slave (fun r b' => b' = b /\ best_channel (slaves b) (slave_list b) r) b.
Proof.
  intros Hl. unfold tlb_get_least_loaded_slave. apply wp_bind, wp_gets, wp_bind.
  eapply (wp_for_each (fun pre a b' => b' = b /\ best_channel (slaves b) pre a.1 /\
    a.2 = match a.1 with Some s => from_option compute_gap 0 (slaves b !! s) | None => - 2 ^ 63 end)).
  - split_and!; [done|cbn; set_solver|done].
  - intros pre s post [least max_gap] b' Hpre (-> & Hbest & Hmax). cbn in Hbest, Hmax.
    destruct (Hl s) as [sl Hs]; [rewrite Hpre; set_solver|].
    pose proof (best_channel_snoc _ _ _ _ _ Hs Hbest) as Hsnoc. pose proof (compute_gap_range sl) as Hgap.
    apply wp_bind. eapply wp_slave; [done|]. cbv beta.
    destruct (can_tx sl); [|by apply wp_ret]. cbv zeta. rewrite Hmax.
    destruct least as [s'|]; [|rewrite (proj2 (Z.ltb_lt _ _)) by lia];
      [case_match; apply wp_ret; (split_and!; [done|done|]); cbn; by rewrite ?Hs|].
    apply wp_ret. split_and!; [done|done|]. cbn. by rewrite Hs.
  - intros [r mx] b' (-> & Hbest & _). by apply wp_ret.
Qed.
(** ** Assigning a flow *)

(** What the invariant says of an entry. *)
Definition tx_key (e : tlb_client_info) := (tx_slave e, next e).

Lemma tx_key_some (t : ttable) i e k v :
  tx_key <$> t !! i = Some (k, v) -> t !! i = Some e -> tx_slave e = k /\ next e = v.
Proof. intros Hk He. rewrite He in Hk. cbn in Hk. unfold tx_key in Hk. by simplify_eq. Qed.

Lemma tx_nx_key (t t' : ttable) i :
  tx_key <$> t' !! i = tx_key <$> t !! i -> tx_nx t' i = tx_nx t i.
Proof. unfold tx_nx, tx_key. intros E. destruct (t !! i), (t' !! i); cbn in *; congruence. Qed.

Lemma tx_key_lookup (t t' : ttable) i e' :
  tx_key <$> t' !! i = tx_key <$> t !! i -> t' !! i = Some e' ->
  exists e, t !! i = Some e /\ tx_slave e' = tx_slave e /\ next e' = next e.
Proof.
  intros Hk He'. rewrite He' in Hk. destruct (t !! i) as [e|]; [|done]. exists e.
  unfold tx_key in Hk. cbn in Hk. by simplify_eq.
Qed.

Lemma tx_ok_key m t t' :
  tx_ok m t -> (forall i, tx_key <$> t' !! i = tx_key <$> t !! i) -> tx_ok m t'.
Proof.
  intros [Hd Hn Hfr Hp] Hk. constructor.
  - intros i. rewrite <-Hd, <-(fmap_is_Some tx_key), Hk. by rewrite fmap_is_Some.
  - intros i e' He'. destruct (tx_key_lookup _ _ _ _ (Hk i) He') as (e & He & _ & ->). eauto.
  - intros i e' He' Hs. destruct (tx_key_lookup _ _ _ _ (Hk i) He') as (e & He & Es & ->).
    apply (Hfr i); congruence.
  - intros i e' s He' Hs. destruct (tx_key_lookup _ _ _ _ (Hk i) He') as (e & He & Es & _).
    destruct (Hp i e s He) as (sl & Hsl & Hpath); [congruence|]. exists sl. split; [done|].
    eapply path_mono; [|done]. intros k _. by apply tx_nx_key.
Qed.

Lemma tx_ok_assign m t t' i e s sl sl' :
  tx_ok m t -> t !! i = Some e -> tx_slave e = None -> m !! s = Some sl -> tx_link (head sl) ->
  head sl' = i ->
  (forall k, tx_key <$> t' !! k = if decide (k = i) then Some (Some s, head sl) else tx_key <$> t !! k) ->
  tx_ok (<[s := sl']> m) t'.
Proof.
  intros Hok He Hes Hs Hh Hi' Hk. pose proof Hok as [Hd Hn Hfr Hp].
  assert (tx_index i) as Hi by (apply Hd; eauto).
  assert (forall k, k <> i -> tx_key <$> t' !! k = tx_key <$> t !! k) as Hk'
    by (intros k Hne; by rewrite Hk, decide_False).
  assert (tx_key <$> t' !! i = Some (Some s, head sl)) as Hki by (by rewrite Hk, decide_True).
  assert (forall k, tx_nx t k <> TLB_NULL_INDEX -> tx_nx t' k = tx_nx t k) as Hmono.
  { intros k Hne. apply tx_nx_key, Hk'. intros ->. apply Hne. rewrite (tx_nx_some _ _ _ He). eauto. }
  constructor.
  - intros k. rewrite <-Hd, <-(fmap_is_Some tx_key), Hk. case_decide; [subst|by rewrite fmap_is_Some].
    rewrite He. split; eauto.
  - intros k e'' He''. destruct (decide (k = i)) as [->|Hne].
    + destruct (tx_key_some _ _ _ _ _ Hki He'') as [_ ->]. done.
    + destruct (tx_key_lookup _ _ _ _ (Hk' k Hne) He'') as (e0 & He0 & _ & ->). eauto.
  - intros k e'' He'' Hs''. destruct (decide (k = i)) as [->|Hne].
    + destruct (tx_key_some _ _ _ _ _ Hki He'') as [? _]. congruence.
    + destruct (tx_key_lookup _ _ _ _ (Hk' k Hne) He'') as (e0 & He0 & Es & ->). apply (Hfr k); congruence.
  - intros k e'' s'' He'' Hs''. destruct (decide (k = i)) as [->|Hne].
    + destruct (tx_key_some _ _ _ _ _ Hki He'') as [Es _]. assert (s'' = s) as -> by congruence.
      exists sl'. rewrite lookup_insert_eq, Hi'. split; [done|apply path_here].
    + destruct (tx_key_lookup _ _ _ _ (Hk' k Hne) He'') as (e0 & He0 & Es & _).
      destruct (Hp k e0 s'' He0) as (sl0 & Hsl0 & Hpath); [congruence|].
      apply (path_mono _ _ _ _ _ Hmono) in Hpath. destruct (decide (s'' = s)) as [->|Hss].
      * exists sl'. rewrite lookup_insert_eq, Hi'. split; [done|]. assert (sl0 = sl) as -> by congruence.
        assert (tx_nx t' i = head sl) as Hnx.
        { destruct (t' !! i) as [e1|] eqn:E1; [|done].
          rewrite (tx_nx_some _ _ _ E1). unfold tx_key in Hki. by simplify_eq/=. }
        apply path_next; rewrite Hnx; [|done]. intros E.
        destruct (Hp k e0 s He0) as (sl1 & Hsl1 & Hpath1); [congruence|].
        assert (sl1 = sl) as -> by congruence. rewrite E in Hpath1.
        apply path_null in Hpath1; [|done]. subst. apply tx_null_no_index, Hd. eauto.
      * exists sl0. by rewrite lookup_insert_ne.
Qed.
Definition tx_assigned (t : ttable) (i : Z) (s : positive) (h : Z) : ttable :=
  let t := alter (fun e => e <| tx_slave := Some s |> <| next := h |> <| prev := TLB_NULL_INDEX |>) i t in
  if h =? TLB_NULL_INDEX then t else alter (fun e => e <| prev := i |>) h t.

Lemma tx_key_alter (t : ttable) f j i :
  (forall e, tx_key (f e) = tx_key e) -> tx_key <$> alter f j t !! i = tx_key <$> t !! i.
Proof.
  intros Hf. destruct (decide (i = j)) as [->|]; [|by rewrite lookup_alter_ne].
  rewrite lookup_alter_eq. destruct (t !! j); cbn; [by rewrite Hf|done].
Qed.

Lemma tx_key_assigned t i s h k :
  is_Some (t !! i) ->
  tx_key <$> tx_assigned t i s h !! k = if decide (k = i) then Some (Some s, h) else tx_key <$> t !! k.
Proof.
  intros [e He]. unfold tx_assigned. cbv zeta.
  assert (forall k, tx_key <$> alter (fun e => e <| tx_slave := Some s |> <| next := h |>
    <| prev := TLB_NULL_INDEX |>) i t !! k = if decide (k = i) then Some (Some s, h) else tx_key <$> t !! k) as E.
  { intros k'. case_decide; [|by rewrite lookup_alter_ne]. subst. by rewrite lookup_alter_eq, He. }
  case_match; [apply E|]. rewrite tx_key_alter; [apply E|done].
Qed.

Lemma tx_key_inner (t t' : ttable) i :
  tx_key <$> t' !! i = tx_key <$> t !! i -> tx_slave <$> t' !! i = tx_slave <$> t !! i.
Proof. unfold tx_key. destruct (t !! i), (t' !! i); cbn; congruence. Qed.

(** What a flow gets: its slave, or the best one, which it then keeps. *)
Record chosen (b b' : bonding) (t : ttable) (i : Z) (e : tlb_client_info) (r : option positive) : Prop := {
  ch_sticks : forall s, tx_slave e = Some s -> r = Some s;
  ch_best : tx_slave e = None -> best_channel (slaves b) (slave_list b) r;
  ch_table : exists t', tx_hashtbl b' = Some t' /\ forall j,
    tx_slave <$> t' !! j = if decide (j = i) then Some r else tx_slave <$> t !! j
}.

Lemma tx_bytes_step R b0 b t i len r `{!Extends still R} :
  good R b0 b -> tx_hashtbl b = Some t -> is_Some (t !! i) ->
  wp (when_ (bool_decide (is_Some r))
    (mod_tx i (fun e => e <| tx_bytes := u32 (tx_bytes e + len) |>)) ;;; ret r)
  (fun r' b' => good R b0 b' /\ r' = (r : option positive) /\ exists t', tx_hashtbl b' = Some t' /\
    forall j, tx_slave <$> t' !! j = tx_slave <$> t !! j) b.
Proof.
  intros Hg Ht Hi. apply wp_bind, when_wp; intros _; [|apply wp_ret; by eauto 10].
  eapply wp_mod_tx; [done..|]. apply wp_ret.
  assert (forall j, tx_key <$> alter (fun e => e <| tx_bytes := u32 (tx_bytes e + len) |>) i t !! j =
    tx_key <$> t !! j) as Hk by (intros j; by apply tx_key_alter).
  split_and!; [|done|].
  - eapply good_tlb; [done|done|..]; unfold tlb_core; rec_simpl; [done|by intros|rewrite Ht; split; by eauto|apply Hg|].
    intros ? [= <-]. eapply tx_ok_key; [|done]. by apply Hg.
  - rec_simpl. eexists. split; [done|]. intros j. by apply tx_key_inner.
Qed.
(** The lists of the transmit table when a flow gets a slave. *)
Lemma assign_step R b0 b t i e s sl `{!Extends still R} :
  good R b0 b -> tx_hashtbl b = Some t -> t !! i = Some e -> tx_slave e = None ->
  slaves b !! s = Some sl ->
  wp (let next_index := head sl in
      mod_tx i (fun e =>
        e <| tx_slave := Some s |> <| next := next_index |> <| prev := TLB_NULL_INDEX |>) ;;;
      when_ (negb (next_index =? TLB_NULL_INDEX)) (mod_tx next_index (fun e => e <| prev := i |>)) ;;;
      let* e := get_tx i in
      mod_slave s (fun sl => sl <| head := i |> <| load := u32 (load sl + load_history e) |>) ;;;
      ret (Some s))
  (fun r b' => r = Some s /\ good R b0 b' /\ tx_hashtbl b' = Some (tx_assigned t i s (head sl))) b.
Proof.
  intros Hg Ht He Hes Hs. destruct (proj1 Hg) as []. pose proof (inv_tx t Ht) as Htx.
  assert (forall k, is_Some (tx_assigned t i s (head sl) !! k) <-> is_Some (t !! k)) as Hdom.
  { intros k. rewrite <-(fmap_is_Some tx_key), tx_key_assigned by eauto.
    case_decide; [subst; rewrite He; split; by eauto|by rewrite fmap_is_Some]. }
  cbv zeta. apply wp_bind. eapply wp_mod_tx; [done|by eauto|]. cbv beta. apply wp_bind.
  eapply (wp_mono _ (fun _ b' => b' = b <| tx_hashtbl := Some (tx_assigned t i s (head sl)) |>)).
  { unfold tx_assigned. cbv zeta. apply when_wp; intros E.
    - destruct (head sl =? TLB_NULL_INDEX) eqn:En; [done|]. eapply wp_mod_tx; [by rec_simpl| |by rewrite set_tx_twice].
      apply Z.eqb_neq in En. destruct (inv_heads s sl Hs) as [|Hh]; [done|].
      apply (tx_dom _ _ Htx) in Hh as [e' He']. destruct (decide (head sl = i)) as [->|].
      + rewrite lookup_alter_eq, He. by eauto.
      + rewrite lookup_alter_ne by done. by eauto.
    - by destruct (head sl =? TLB_NULL_INDEX). }
  intros _ b' ->. cbv beta. destruct (proj2 (Hdom i)) as [e2 He2]; [by eauto|].
  apply wp_bind. eapply wp_get_tx; [by rec_simpl|done|]. cbv beta. apply wp_bind.
  eapply wp_mod_slave; [by rec_simpl|]. apply wp_ret. split_and!; [done| |by rec_simpl].
  eapply good_tlb; [done|done|..]; unfold tlb_core; rec_simpl.
  - done.
  - eapply fmap_insert_same; [done|]. unfold tlb_still, env, tlb_init_slave. by rec_simpl.
  - rewrite Ht. split; by eauto.
  - apply heads_insert; [done|]. rec_simpl. right. apply (tx_dom _ _ Htx). by eauto.
  - intros ? [= <-]. eapply tx_ok_assign; [done|exact He|done|done|by eauto|by rec_simpl|].
    intros k. by apply tx_key_assigned; eauto.
Qed.

Lemma tlb_choose_channel_ok R b0 b t i e len `{!Extends still R} :
  good R b0 b -> tx_hashtbl b = Some t -> t !! i = Some e ->
  wp (tlb_choose_channel i len) (fun r b' => good R b0 b' /\ chosen b b' t i e r /\
    forall s, r = Some s -> live (slaves b0) s) b.
Proof.
  intros Hg Ht He. destruct (proj1 Hg) as []. pose proof (inv_tx t Ht) as Htx.
  assert (forall s, live (slaves b) s <-> live (slaves b0) s) as Hlive.
  { intros s. apply same_live, (ext_same (K := still)), Hg. }
  unfold tlb_choose_channel, __tlb_choose_channel. apply wp_bind. eapply wp_get_tx; [done..|]. cbv beta.
  apply wp_bind. destruct (tx_slave e) as [s|] eqn:Es.
  - apply wp_ret. eapply wp_mono; [eapply tx_bytes_step; [done..|by rewrite He]|]. cbv beta.
    intros r b' (Hg' & -> & t' & Ht' & Hk). split_and!; [done| |].
    + constructor; [intros; congruence|intros; congruence|]. exists t'. split; [done|]. intros j. rewrite Hk.
      case_decide; [|done]. subst. rewrite He. cbn. congruence.
    + intros s' [= <-]. apply Hlive. destruct (tx_path _ _ Htx i e s He Es) as (sl & Hsl & _). by exists sl.
  - apply wp_bind. eapply wp_mono; [by apply tlb_get_least_loaded_slave_ok|]. cbv beta.
    intros [s|] b' (-> & Hbest).
    + pose proof Hbest as (l1 & l2 & sl & Hl & Hs & _). apply wp_bind. eapply wp_slave; [done|]. cbv beta.
      eapply wp_mono; [by eapply assign_step|]. cbv beta. intros r b' (-> & Hg' & Ht').
      pose proof (tx_key_assigned t i s (head sl)) as Hk.
      eapply wp_mono; [eapply tx_bytes_step; [done..|]|].
      { rewrite <-(fmap_is_Some tx_key), Hk, decide_True by eauto. by eauto. }
      cbv beta. intros r b'' (Hg'' & -> & t' & Ht'' & Hk'). split_and!; [done| |].
      * constructor; [intros; congruence|done|]. exists t'. split; [done|]. intros j. rewrite Hk'.
        specialize (Hk j (mk_is_Some _ _ He)). destruct (decide (j = i)); [|by apply tx_key_inner].
        unfold tx_key in Hk. destruct (tx_assigned _ _ _ _ !! j); cbn in *; congruence.
      * intros s' [= <-]. apply Hlive. by exists sl.
    + apply wp_ret. eapply wp_mono; [eapply tx_bytes_step; [done..|by rewrite He]|]. cbv beta.
      intros r b' (Hg' & -> & t' & Ht' & Hk). split_and!; [done| |done].
      constructor; [intros; congruence|done|]. exists t'. split; [done|]. intros j. rewrite Hk.
      case_decide; [|done]. subst. rewrite He. cbn. congruence.
Qed.
End tlb.
