(* ===== verification/AlbRlb.v ===== *)
(** * Adaptive load balancing: the receive table keeps its lists

    The functions on the links of the receive table leave the tables of [AlbLinks]; deleting
    and assigning entries keep the invariant. *)

From S2P Require Import Prelude.
From S2P Require Import AlbTypes.
From S2P Require Import AlbOps.
From S2P Require Import AlbLinks.
From S2P Require Import AlbInv.

Section rlb.
Context `{AlbLaws}.

Abbreviation rtable := (gmap Z rlb_client_info).

Lemma set_rx_same b t : rx_hashtbl b = Some t -> b <| rx_hashtbl := Some t |> = b.
Proof. intros Ht. destruct b. cbn in Ht. by rewrite Ht. Qed.
Lemma set_rx_twice b t t' : b <| rx_hashtbl := Some t |> <| rx_hashtbl := Some t' |> = b <| rx_hashtbl := Some t' |>.
Proof. by destruct b. Qed.

(** A link that is not null is to an entry. *)
Definition linked_in (p : rlb_client_info -> Z) (t : rtable) : Prop :=
  forall i, rx_get p t i <> RLB_NULL_INDEX -> is_Some (t !! rx_get p t i).

Lemma mod_rx_unless b t (j : Z) f (Q : unit -> bonding -> Prop) :
  rx_hashtbl b = Some t -> (j <> RLB_NULL_INDEX -> is_Some (t !! j)) ->
  Q tt (b <| rx_hashtbl := Some (if j =? RLB_NULL_INDEX then t else alter f j t) |>) ->
  wp (when_ (negb (j =? RLB_NULL_INDEX)) (mod_rx j f)) Q b.
Proof.
  intros Ht Hj HQ. destruct (Z.eqb_spec j RLB_NULL_INDEX) as [E|E]; cbn.
  - apply wp_ret. by rewrite set_rx_same in HQ.
  - eapply wp_mod_rx; eauto.
Qed.

Lemma rlb_src_unlink_run b t i (Q : unit -> bonding -> Prop) :
  rx_hashtbl b = Some t -> is_Some (t !! i) -> linked_in src_next t -> linked_in src_prev t ->
  Q tt (b <| rx_hashtbl := Some (src_unlinked t i) |>) -> wp (rlb_src_unlink i) Q b.
Proof.
  intros Ht Hi Hn Hp HQ. pose proof Hi as [e He]. unfold rlb_src_unlink. apply wp_bind.
  eapply wp_get_rx; [done..|]. cbv beta zeta. apply wp_bind. eapply wp_mod_rx; [done|done|]. cbv beta.
  rewrite <-(rx_get_some src_next t i e He), <-(rx_get_some src_prev t i e He).
  apply wp_bind. eapply mod_rx_unless; [by rec_simpl|intros; rewrite some_alter; by apply Hn|]. cbv beta.
  rewrite set_rx_twice. unfold src_unlinked in HQ. cbv zeta in HQ.
  set (n := rx_get src_next t i) in *. set (q := rx_get src_prev t i) in *.
  set (t1 := if n =? RLB_NULL_INDEX then _ else _) in *.
  destruct (Z.eqb_spec q RLB_NULL_INDEX) as [E|E]; [by apply wp_ret|].
  assert (is_Some (t1 !! q)) as [e1 He1].
  { subst t1. destruct (n =? RLB_NULL_INDEX); rewrite ?some_alter; by apply Hp. }
  clearbody t1.
  apply wp_bind. eapply wp_get_rx; [by rec_simpl|done|]. cbv beta.
  rewrite (rx_get_some src_first t1 q e1 He1) in HQ.
  case_match; (eapply wp_mod_rx; [by rec_simpl|by eauto|by rewrite set_rx_twice]).
Qed.

Lemma rlb_src_link_run b t h i (Q : unit -> bonding -> Prop) :
  rx_hashtbl b = Some t -> is_Some (t !! i) -> is_Some (t !! h) -> linked_in src_first t ->
  Q tt (b <| rx_hashtbl := Some (src_linked t h i) |>) -> wp (rlb_src_link h i) Q b.
Proof.
  intros Ht Hi Hh Hf HQ. unfold rlb_src_link. apply wp_bind. eapply wp_mod_rx; [done..|]. cbv beta.
  unfold src_linked in HQ. cbv zeta in HQ. set (t1 := alter _ i t) in *.
  assert (rx_get src_first t1 h = rx_get src_first t h) as Ef by (apply get_other; intros; by rec_simpl).
  assert (is_Some (t1 !! h)) as [e1 He1] by (by apply some_alter).
  apply wp_bind. eapply wp_get_rx; [by rec_simpl|done|]. cbv beta zeta.
  rewrite <-(rx_get_some src_first t1 h e1 He1), Ef in *.
  apply wp_bind. eapply wp_mod_rx; [by rec_simpl|by apply some_alter|]. cbv beta.
  rewrite set_rx_twice. apply wp_bind.
  eapply mod_rx_unless; [by rec_simpl|intros; subst t1; rewrite !some_alter; by apply Hf|]. cbv beta.
  rewrite set_rx_twice. eapply wp_mod_rx; [by rec_simpl| |by rewrite set_rx_twice].
  subst t1. destruct (_ =? _); by rewrite !some_alter.
Qed.

Lemma rlb_delete_table_entry_dst_run b t i (Q : unit -> bonding -> Prop) :
  rx_hashtbl b = Some t -> is_Some (t !! i) -> linked_in used_next t -> linked_in used_prev t ->
  Q tt (b <| rx_hashtbl_used_head := if i =? rx_hashtbl_used_head b then rx_get used_next t i
             else rx_hashtbl_used_head b |>
          <| rx_hashtbl := Some (used_unlinked t i) |>) ->
  wp (rlb_delete_table_entry_dst i) Q b.
Proof.
  intros Ht [e He] Hn Hp HQ. unfold rlb_delete_table_entry_dst. apply wp_bind.
  eapply wp_get_rx; [done..|]. cbv beta zeta. apply wp_bind, wp_gets, wp_bind.
  rewrite <-(rx_get_some used_next t i e He), <-(rx_get_some used_prev t i e He).
  eapply (wp_mono _ (fun _ b' => b' = b <| rx_hashtbl_used_head :=
    if i =? rx_hashtbl_used_head b then rx_get used_next t i else rx_hashtbl_used_head b |>)).
  { apply when_wp; intros ->; [done|by destruct b]. }
  intros _ b' ->. apply wp_bind.
  unfold used_unlinked in HQ. cbv zeta in HQ.
  eapply mod_rx_unless; [by rec_simpl|intros; by apply Hp|]. cbv beta.
  eapply mod_rx_unless; [by rec_simpl| |by rewrite set_rx_twice].
  intros. destruct (rx_get used_prev t i =? _); rewrite ?some_alter; by apply Hn.
Qed.
(** ** Entries and lists *)

Lemma links_linked hd t ul sl p :
  links hd t ul sl -> In p [used_next; used_prev; src_next; src_prev; src_first] -> linked_in p t.
Proof.
  intros Hl Hp i Hne. apply (ln_dom _ _ _ _ Hl). cbn in Hp.
  assert (forall l1 l2 l, l = l1 ++ i :: l2 -> forall y, last l1 = Some y \/ hd_error l2 = Some y -> y ∈ l) as Hin.
  { intros l1 l2 l -> y [Hy%last_Some_elem_of|Hy%head_listed]; set_solver. }
  assert (In p [used_next; used_prev] -> exists l1 l2, ul = l1 ++ i :: l2) as Hu.
  { clear Hp. cbn. intros Hp'. apply list_elem_of_split. destruct (decide (i ∈ ul)) as [|Hi]; [done|].
    destruct (ln_used_out _ _ _ _ Hl i Hi). destruct_or!; subst; done. }
  assert (In p [src_next; src_prev] -> exists h l1 l2, sl h = l1 ++ i :: l2) as Hs.
  { clear Hp. cbn. intros Hp'. destruct (src_listed_dec sl i (ln_src_in _ _ _ _ Hl)) as [[h Hh]|Hi].
    - exists h. by apply list_elem_of_split.
    - destruct (ln_src_out _ _ _ _ Hl i Hi). destruct_or!; subst; done. }
  destruct_or!; subst p.
  1,2: destruct Hu as (l1 & l2 & Hul); [cbn; tauto|]; pose proof (ln_used _ _ _ _ Hl) as Hc;
    rewrite Hul in Hc; apply chain_links in Hc as (Hpv & Hnx & _); apply (ln_used_in _ _ _ _ Hl).
  - rewrite Hnx in *. destruct (hd_error l2) eqn:E; [|done]. cbn. eapply Hin; eauto.
  - rewrite Hpv in *. destruct (last l1) eqn:E; [|done]. cbn. eapply Hin; eauto.
  - destruct Hs as (h & l1 & l2 & Hsl); [cbn; tauto|]. pose proof (ln_src _ _ _ _ Hl h) as Hc.
    rewrite Hsl in Hc. apply chain_links in Hc as (_ & Hnx & _). rewrite Hnx in *.
    destruct (hd_error l2) eqn:E; [|done]. apply (ln_src_in _ _ _ _ Hl h). cbn. eapply Hin; eauto.
  - destruct Hs as (h & l1 & l2 & Hsl); [cbn; tauto|]. pose proof (ln_src _ _ _ _ Hl h) as Hc.
    rewrite Hsl in Hc. apply chain_links in Hc as (Hpv & _ & _). rewrite Hpv in *.
    destruct (last l1) eqn:E; cbn.
    + apply (ln_src_in _ _ _ _ Hl h). eapply Hin; eauto.
    + apply (ln_src_in _ _ _ _ Hl h i). rewrite Hsl. set_solver.
  - apply (ln_src_in _ _ _ _ Hl i). by apply (first_listed hd t ul).
Qed.

Lemma rlb_delete_table_entry_run b t ul sl i (Q : unit -> bonding -> Prop) :
  rx_hashtbl b = Some t -> links (rx_hashtbl_used_head b) t ul sl -> i ∈ ul ->
  (forall hd' t', links hd' t' (filter (fun x => x <> i) ul) (fun h => filter (fun x => x <> i) (sl h)) ->
     (forall y, content <$> t' !! y =
       if decide (y = i) then (fun e => content (rlb_init_table_entry_dst e)) <$> t !! i else content <$> t !! y) ->
     Q tt (b <| rx_hashtbl_used_head := hd' |> <| rx_hashtbl := Some t' |>)) ->
  wp (rlb_delete_table_entry i) Q b.
Proof.
  intros Ht Hl Hi HQ. pose proof (ln_used_in _ _ _ _ Hl i Hi) as Hidx.
  assert (is_Some (t !! i)) as Hti by (by apply (ln_dom _ _ _ _ Hl)).
  pose proof (links_used_remove _ _ _ _ _ Hl Hi) as Hl1.
  unfold rlb_delete_table_entry. apply wp_bind. eapply rlb_delete_table_entry_dst_run; [done|done| | |].
  1,2: eapply links_linked; [done|cbn; tauto].
  assert (is_Some (used_unlinked t i !! i)) as Hui.
  { by apply (content_dom _ _ (content_used_unlinked t i)). }
  apply wp_bind. eapply wp_mod_rx; [by rec_simpl|done|]. cbv beta. rewrite set_rx_twice.
  fold (used_removed t i). set (hd' := if i =? rx_hashtbl_used_head b then _ else _) in *. clearbody hd'.
  eapply rlb_src_unlink_run; [by rec_simpl| | | |].
  - by apply some_alter.
  - eapply links_linked; [done|cbn; tauto].
  - eapply links_linked; [done|cbn; tauto].
  - rewrite set_rx_twice. apply HQ; [by apply links_src_unlink|].
    intros y. rewrite (content_src_unlinked (used_removed t i) i y).
    pose proof (content_used_unlinked t i) as Hc. unfold used_removed. case_decide as E.
    + subst y. rewrite lookup_alter_eq. specialize (Hc i). destruct Hti as [e He], Hui as [e' He'].
      rewrite He, He' in *. cbn in *. f_equal. unfold content, rlb_init_table_entry_dst in *. rec_simpl. congruence.
    + rewrite lookup_alter_ne by done. apply Hc.
Qed.
(** ** Steps on the receive side *)

Definition rx_rest (b : bonding) :=
  (slaves b, slave_list b, curr_active_slave b, usable_slaves b, primary_is_promisc b,
   tx_hashtbl b, rlb_enabled b, mode_tlb b, rx_slave b, bond_addr b).

(** The table of a bond and its lists. *)
Record lists (b : bonding) (t : rtable) (ul : list Z) (sl : Z -> list Z) : Prop := {
  li_table : rx_hashtbl b = Some t;
  li_links : links (rx_hashtbl_used_head b) t ul sl;
  li_entry : forall i e, t !! i = Some e -> rx_entry_ok (slaves b) ul sl i e
}.

Lemma good_lists R b0 b t : good R b0 b -> rx_hashtbl b = Some t -> exists ul sl, lists b t ul sl.
Proof.
  intros [Hi _] Ht. destruct (inv_rx _ Hi t Ht) as (ul & sl & Hl & He). exists ul, sl. by constructor.
Qed.

Lemma good_rx R b0 b b' t' ul' sl' `{!Extends rx_side R} :
  good R b0 b -> rx_rest b' = rx_rest b -> is_Some (rx_hashtbl b) -> lists b' t' ul' sl' -> good R b0 b'.
Proof.
  intros Hg. unfold rx_rest. intros [= E1 E2 E3 E4 E5 E6 E7 E8 E9 E10] Hs [Ht Hl He].
  assert (is_Some (rx_hashtbl b')) as Hs' by (rewrite Ht; by eauto).
  eapply good_step; [done|done| |].
  - constructor; [constructor; [constructor|..]|..]; unfold addr_of;
      rewrite ?E1, ?E2, ?E3, ?E4, ?E6, ?E7, ?E8, ?E10; done.
  - destruct Hg as [[] _]. constructor; rewrite ?E1, ?E2, ?E3, ?E4, ?E5, ?E6, ?E7, ?E8, ?E9; try done.
    + intros t [= <-]%(eq_trans (eq_sym Ht)). exists ul', sl'. rewrite <-E1. done.
    + intros E. rewrite E in Hs'. by destruct Hs'.
    + intros _. by apply inv_rx_some.
Qed.

(** Deleting an entry. *)
Lemma delete_step R b0 b t ul sl i `{!Extends rx_side R} :
  good R b0 b -> lists b t ul sl -> i ∈ ul ->
  wp (rlb_delete_table_entry i) (fun _ b' => good R b0 b' /\ exists t',
    lists b' t' (filter (fun x => x <> i) ul) (fun h => filter (fun x => x <> i) (sl h)) /\
    forall y, content <$> t' !! y =
      if decide (y = i) then (fun e => content (rlb_init_table_entry_dst e)) <$> t !! i else content <$> t !! y) b.
Proof.
  intros Hg [Ht Hl He] Hi. eapply rlb_delete_table_entry_run; [done..|]. intros hd' t' Hl' Hc.
  set (b' := b <| rx_hashtbl_used_head := hd' |> <| rx_hashtbl := Some t' |>).
  assert (lists b' t' (filter (fun x => x <> i) ul) (fun h => filter (fun x => x <> i) (sl h))) as Hli.
  { constructor; subst b'; rec_simpl; [done|done|]. intros j e' He'. specialize (Hc j). rewrite He' in Hc.
    case_decide as E.
    - subst j. destruct (t !! i) as [e|] eqn:Ee; [|done]. cbn in Hc.
      unfold content, rlb_init_table_entry_dst in Hc. rec_simpl_all. injection Hc as ????????.
      constructor; try congruence.
      + rewrite elem_of_filter_out. split; [by intros [? _]|congruence].
      + intros h. rewrite elem_of_filter_out. split; [by intros [? _]|intros [? _]; congruence].
    - destruct (t !! j) as [e|] eqn:Ee; [|done]. cbn in Hc. unfold content in Hc. injection Hc as Eip ??? Eas ? Ecl ?.
      destruct (He j e Ee) as [Hu Hs Hn Hv]. constructor; rewrite ?Eas, ?Eip, ?Ecl; [| |done|done].
      + rewrite elem_of_filter_out, Hu. naive_solver.
      + intros h. rewrite elem_of_filter_out, Hs. naive_solver. }
  split; [|by eauto]. eapply good_rx; [done|done| | |done].
  - subst b'. unfold rx_rest. by rec_simpl.
  - by rewrite Ht.
Qed.

Lemma elem_of_cons_ne (i x : Z) l : i <> x -> (i ∈ x :: l) <-> (i ∈ l).
Proof. intros Hne. rewrite elem_of_cons. tauto. Qed.

(** A loop over one of the lists that deletes the selected entries. *)
Section delete_loop.
Context (nx : rlb_client_info -> Z) (sel : rlb_client_info -> bool).
Context (pick : list Z -> (Z -> list Z) -> list Z).
Hypothesis pick_filter : forall ul sl i,
  pick (filter (fun x => x <> i) ul) (fun h => filter (fun x => x <> i) (sl h)) =
  filter (fun x => x <> i) (pick ul sl).
Hypothesis pick_next : forall hd t ul sl l1 x l2, links hd t ul sl -> pick ul sl = l1 ++ x :: l2 ->
  rx_get nx t x = default RLB_NULL_INDEX (hd_error l2).
Hypothesis pick_used : forall b t ul sl i, lists b t ul sl -> i ∈ pick ul sl -> i ∈ ul.
Hypothesis pick_nodup : forall hd t ul sl, links hd t ul sl -> NoDup (pick ul sl).
Hypothesis sel_content : forall e e', content e' = content e -> sel e' = sel e.

Lemma delete_loop_ok R b0 fuel b t ul sl l1 l2 `{!Extends rx_side R} :
  good R b0 b -> lists b t ul sl -> pick ul sl = l1 ++ l2 -> (length l2 < fuel)%nat ->
  wp (delete_loop fuel nx sel (default RLB_NULL_INDEX (hd_error l2))) (fun _ b' => good R b0 b' /\
    exists t' ul' sl', lists b' t' ul' sl' /\ forall i e, t !! i = Some e ->
      exists e', t' !! i = Some e' /\
        content e' = if bool_decide (i ∈ l2) && sel e then content (rlb_init_table_entry_dst e) else content e) b.
Proof.
  revert b t ul sl l1 l2. induction fuel as [|fuel IH]; intros b t ul sl l1 l2 Hg Hli Hpk Hf; [lia|].
  destruct l2 as [|x l2]; cbn [hd_error default from_option id].
  { cbn. rewrite Z.eqb_refl. apply wp_ret. split; [done|]. exists t, ul, sl. split; [done|]. by eauto. }
  assert (x ∈ ul) as Hx by (eapply pick_used; [done|]; rewrite Hpk; set_solver).
  pose proof (ln_used_in _ _ _ _ (li_links _ _ _ _ Hli) x Hx) as Hxi.
  assert (is_Some (t !! x)) as [e He] by (by apply (ln_dom _ _ _ _ (li_links _ _ _ _ Hli))).
  pose proof (pick_nodup _ _ _ _ (li_links _ _ _ _ Hli)) as Hnd. rewrite Hpk in Hnd.
  assert ((x ∉ l1) /\ (x ∉ l2)) as [Hx1 Hx2].
  { apply NoDup_app in Hnd as (_ & Hd & [? _]%NoDup_cons). split; [|done]. intros Hin. apply (Hd x Hin). set_solver. }
  cbn. destruct (Z.eqb_spec x RLB_NULL_INDEX) as [->|_]; [by destruct (null_no_index Hxi)|].
  apply wp_bind. eapply wp_get_rx; [apply Hli|done|]. cbv beta zeta.
  rewrite <-(rx_get_some nx t x e He), (pick_next _ _ _ _ _ _ _ (li_links _ _ _ _ Hli) Hpk).
  apply wp_bind, when_wp; intros Hsel.
  - eapply wp_mono; [by eapply delete_step|]. cbv beta. intros _ b' (Hg' & t' & Hli' & Hc).
    eapply wp_mono; [eapply (IH _ t' _ _ l1 l2); [done|done| |]|].
    + rewrite pick_filter, Hpk. by apply filter_out.
    + cbn in Hf. lia.
    + cbv beta. intros _ b'' (Hg'' & t'' & ul'' & sl'' & Hli'' & Hres). split; [done|].
      exists t'', ul'', sl''. split; [done|]. intros i e0 He0. specialize (Hc i). rewrite He0 in Hc.
      destruct (decide (i = x)) as [->|Hix].
      * simplify_eq. rewrite He in Hc. apply fmap_Some in Hc as (e1 & He1 & Hc1).
        destruct (Hres x e1 He1) as (e2 & He2 & Hc2). exists e2. split; [done|]. rewrite Hc2.
        rewrite (bool_decide_true (x ∈ x :: l2)), (bool_decide_false (x ∈ l2)), Hsel by (done || by left). done.
      * apply fmap_Some in Hc as (e1 & He1 & Hc1). destruct (Hres i e1 He1) as (e2 & He2 & Hc2).
        exists e2. split; [done|]. rewrite Hc2, (sel_content e0 e1) by done.
        rewrite (bool_decide_ext _ _ (elem_of_cons_ne i x l2 Hix)).
        destruct (decide (i ∈ l2)); [rewrite !bool_decide_true by done|by rewrite !bool_decide_false by done].
        destruct (sel e0); cbn; [|done]. unfold content, rlb_init_table_entry_dst in *. rec_simpl. congruence.
  - eapply wp_mono; [apply (IH _ t ul sl (l1 ++ [x]) l2); [done|done| |]|].
    + rewrite Hpk, <-app_assoc. done.
    + cbn in Hf. lia.
    + cbv beta. intros _ b' (Hg' & t' & ul' & sl' & Hli' & Hres). split; [done|]. exists t', ul', sl'. split; [done|].
      intros i e0 He0. destruct (Hres i e0 He0) as (e1 & He1 & Hc1). exists e1. split; [done|]. rewrite Hc1.
      destruct (decide (i = x)) as [->|Hix].
      * simplify_eq. by rewrite Hsel, !andb_false_r.
      * by rewrite (bool_decide_ext _ _ (elem_of_cons_ne i x l2 Hix)).
Qed.
End delete_loop.

(** The fuel is enough for every list. *)
Lemma index_length l : NoDup l -> (forall i, i ∈ l -> rx_index i) -> (length l < rlb_fuel)%nat.
Proof.
  intros Hnd Hin. unfold rlb_fuel. apply Nat.lt_succ_r.
  rewrite <-(length_seqZ 0 RLB_HASH_TABLE_SIZE). apply submseteq_length, NoDup_submseteq; [done|].
  intros i Hi%Hin. apply elem_of_seqZ. unfold rx_index in Hi. lia.
Qed.

Lemma simple_hash_range l : 0 <= _simple_hash l < 256.
Proof.
  unfold _simple_hash.
  enough (forall z, 0 <= z < 256 -> 0 <= foldl (fun h b => u8 (Z.lxor h b)) z l < 256) as Hgen by (apply Hgen; lia).
  induction l as [|x l IH]; intros z Hz; [done|]. cbn. apply IH. unfold u8. apply Z.mod_pos_bound. lia.
Qed.

Lemma simple_hash_index l : rx_index (_simple_hash l).
Proof. unfold rx_index. pose proof (simple_hash_range l). pose proof rlb_size. lia. Qed.

Lemma rx_index_some b t ul sl i : lists b t ul sl -> rx_index i -> is_Some (t !! i).
Proof. intros [_ Hl _] Hi. by apply (ln_dom _ _ _ _ Hl). Qed.

(** Exactly the entries that conflict with a packet are deleted. *)
Lemma rlb_purge_src_ip_ok R b0 b t arp `{!Extends rx_side R} :
  good R b0 b -> rx_hashtbl b = Some t ->
  wp (rlb_purge_src_ip arp) (fun _ b' => good R b0 b' /\ exists t', rx_hashtbl b' = Some t' /\
    forall i e, t !! i = Some e -> exists e', t' !! i = Some e' /\
      content e' = if assigned e && conflicts arp e then content (rlb_init_table_entry_dst e) else content e) b.
Proof.
  intros Hg Ht. destruct (good_lists _ _ _ _ Hg Ht) as (ul & sl & Hli). pose proof Hli as [_ Hl Hent].
  set (h := _simple_hash (arp_ip_src arp)).
  destruct (rx_index_some _ _ _ _ h Hli) as [eh Heh]; [apply simple_hash_index|].
  unfold rlb_purge_src_ip. apply wp_bind. eapply wp_get_rx; [done|exact Heh|]. cbv beta.
  assert (src_first eh = default RLB_NULL_INDEX (hd_error (sl h))) as ->.
  { rewrite <-(rx_get_some src_first t h eh Heh). pose proof (ln_src _ _ _ _ Hl h) as Hc.
    destruct (sl h); [done|]. by destruct Hc as (-> & _). }
  eapply wp_mono; [apply (delete_loop_ok src_next (conflicts arp) (fun _ sl => sl h)) with (l1 := [])
    (t := t) (ul := ul) (sl := sl); try done|].
  - intros hd t0 ul0 sl0 l1 x l2 Hl0 Hs. pose proof (ln_src _ _ _ _ Hl0 h) as Hc. rewrite Hs in Hc.
    by apply chain_links in Hc as (_ & ? & _).
  - intros b1 t0 ul0 sl0 i [Ht0 Hl0 He0] Hi. destruct (ln_src_in _ _ _ _ Hl0 h i Hi) as [Hidx _].
    apply (ln_dom _ _ _ _ Hl0) in Hidx as [e He]. apply (rx_used _ _ _ _ _ (He0 i e He)).
    by apply (rx_src _ _ _ _ _ (He0 i e He) h).
  - intros hd t0 ul0 sl0 Hl0. apply (ln_src_nd _ _ _ _ Hl0).
  - intros e e' E. unfold content in E. injection E as E1 E2 E3 E4 E5 E6 E7 E8. unfold conflicts. by rewrite E1, E3.
  - apply index_length; [apply (ln_src_nd _ _ _ _ Hl)|]. intros i Hi. by apply (ln_src_in _ _ _ _ Hl h).
  - cbv beta. intros _ b' (Hg' & t' & ul' & sl' & Hli' & Hres). split; [done|]. exists t'. split; [apply Hli'|].
    intros i e He. destruct (Hres i e He) as (e' & He' & Hc). exists e'. split; [done|]. rewrite Hc.
    destruct (conflicts arp e) eqn:Ec; [|by rewrite !andb_false_r]. rewrite !andb_true_r.
    pose proof (rx_src _ _ _ _ _ (Hent i e He) h) as Hin.
    unfold conflicts in Ec. apply andb_true_iff in Ec as [Ec%bool_decide_eq_true _]. rewrite Ec in Hin.
    destruct (assigned e); [rewrite bool_decide_true|rewrite bool_decide_false]; [done|by apply Hin|done|].
    by intros [? _]%Hin.
Qed.

Lemma rlb_clear_vlan_ok R b0 b vlan `{!Extends rx_side R} :
  good R b0 b -> rlb_enabled b = true ->
  wp (rlb_clear_vlan vlan) (fun _ b' => good R b0 b' /\ forall t, rx_hashtbl b = Some t ->
    exists t', rx_hashtbl b' = Some t' /\ forall i e, t !! i = Some e -> exists e', t' !! i = Some e' /\
      content e' = if assigned e && (vlan_id e =? vlan) then content (rlb_init_table_entry_dst e) else content e) b.
Proof.
  intros Hg Hen. unfold rlb_clear_vlan. apply wp_bind, wp_gets.
  destruct (rx_hashtbl b) as [t|] eqn:Ht.
  2: { rewrite (inv_rx_none _ (proj1 Hg) Ht Hen). cbn. rewrite Z.eqb_refl. by apply wp_ret. }
  destruct (good_lists _ _ _ _ Hg Ht) as (ul & sl & Hli). pose proof Hli as [_ Hl Hent].
  assert (rx_hashtbl_used_head b = default RLB_NULL_INDEX (hd_error ul)) as ->.
  { pose proof (ln_used _ _ _ _ Hl) as Hc. destruct ul; [done|]. by destruct Hc as (-> & _). }
  eapply wp_mono; [apply (delete_loop_ok used_next (fun e => vlan_id e =? vlan) (fun ul _ => ul)) with (l1 := [])
    (t := t) (ul := ul) (sl := sl); try done|].
  - intros hd t0 ul0 sl0 l1 x l2 Hl0 Hs. pose proof (ln_used _ _ _ _ Hl0) as Hc. rewrite Hs in Hc.
    by apply chain_links in Hc as (_ & ? & _).
  - intros hd t0 ul0 sl0 Hl0. apply (ln_used_nd _ _ _ _ Hl0).
  - intros e e' E. unfold content in E. injection E as E1 E2 E3 E4 E5 E6 E7 E8. by rewrite E8.
  - apply index_length; [apply (ln_used_nd _ _ _ _ Hl)|apply (ln_used_in _ _ _ _ Hl)].
  - cbv beta. intros _ b' (Hg' & t' & ul' & sl' & Hli' & Hres). split; [done|]. intros ? [= <-].
    exists t'. split; [apply Hli'|]. intros i e He. destruct (Hres i e He) as (e' & He' & Hc). exists e'.
    split; [done|]. rewrite Hc. pose proof (rx_used _ _ _ _ _ (Hent i e He)) as Hin.
    destruct (assigned e); [rewrite bool_decide_true|rewrite bool_decide_false]; [done|by apply Hin|done|].
    by intros ?%Hin.
Qed.
End rlb.
