(* ===== verification/AlbSide.v ===== *)
(** * Adaptive load balancing: functions that keep the lists of the receive table

    Walks along the used entries, the choice of a slave for a client, what clients and
    switches are told. *)

From S2P Require Import Prelude.
From S2P Require Import AlbTypes.
From S2P Require Import AlbOps.
From S2P Require Import AlbLinks.
From S2P Require Import AlbInv.
From S2P Require Import AlbRlb.

Section side.
Context `{AlbLaws}.

Abbreviation rtable := (gmap Z rlb_client_info).

(** ** Changes of an entry that keep the lists *)

Record quiet (f : rlb_client_info -> rlb_client_info) : Prop := {
  qu_links : forall e, same_links e (f e);
  qu_assigned : forall e, assigned (f e) = assigned e;
  qu_src : forall e, ip_src (f e) = ip_src e
}.

Lemma mod_rx_keep R b0 b t i e f `{!Extends keep R} :
  good R b0 b -> rx_hashtbl b = Some t -> t !! i = Some e -> quiet f ->
  (assigned e = false -> rx_client (f e) = None) ->
  (forall s, rx_client (f e) = Some s -> live (slaves b) s) ->
  wp (mod_rx i f) (fun _ b' => good R b0 b' /\ b' = b <| rx_hashtbl := Some (alter f i t) |>) b.
Proof.
  intros Hg Ht He [Hlk Has Hip] Hnone Hlive. eapply wp_mod_rx; [done|by eauto|]. split; [|done].
  destruct (good_lists _ _ _ _ Hg Ht) as (ul & sl & [_ Hl Hent]).
  eapply good_step; [done|done| |].
  - constructor; [constructor; [constructor; [constructor|..]|..]|..]; unfold addr_of; rec_simpl; try (by intros).
    intros j. unfold used_nx. rec_simpl. rewrite Ht, rx_get_alter. case_decide; [|done]. subst.
    unfold rx_get. rewrite He. cbn. apply Hlk.
  - destruct Hg as [[] _]. constructor; rec_simpl; try done.
    + intros ? [= <-]. exists ul, sl. split; [by apply links_alter|]. intros j e'.
      destruct (decide (j = i)) as [->|].
      * rewrite lookup_alter_eq, He. intros [= <-]. destruct (Hent i e He).
        constructor; rewrite ?Has, ?Hip; done.
      * rewrite lookup_alter_ne by done. apply Hent.
    + intros _. apply inv_rx_some. by rewrite Ht.
Qed.

(** Changes that leave the slave of the entry alone. *)
Lemma mod_rx_quiet R b0 b t i e f `{!Extends keep R} :
  good R b0 b -> rx_hashtbl b = Some t -> t !! i = Some e -> quiet f ->
  (forall e, rx_client (f e) = rx_client e) ->
  wp (mod_rx i f) (fun _ b' => good R b0 b' /\ b' = b <| rx_hashtbl := Some (alter f i t) |>) b.
Proof.
  intros Hg Ht He Hq Hf. destruct (good_lists _ _ _ _ Hg Ht) as (ul & sl & [_ _ Hent]).
  destruct (Hent i e He). eapply mod_rx_keep; try done; rewrite Hf; done.
Qed.

(** ** Walks along the used entries *)

Lemma chain_unique nx pv nx' pv' p p' f l l' :
  chain RLB_NULL_INDEX nx pv p f l -> chain RLB_NULL_INDEX nx' pv' p' f l' -> (forall i, nx' i = nx i) ->
  (forall i, i ∈ l -> i <> RLB_NULL_INDEX) -> (forall i, i ∈ l' -> i <> RLB_NULL_INDEX) -> l = l'.
Proof.
  intros Hc Hc' Hnx. revert p p' f l' Hc Hc'. induction l as [|x l IH]; intros p p' f l' Hc Hc' Hl Hl'.
  - destruct l' as [|y l']; [done|]. cbn in Hc. destruct Hc' as (-> & _). subst. by destruct (Hl' RLB_NULL_INDEX); [left|].
  - destruct Hc as (-> & _ & Hc). destruct l' as [|y l'].
    { cbn in Hc'. subst. by destruct (Hl RLB_NULL_INDEX); [left|]. }
    destruct Hc' as (-> & _ & Hc'). rewrite Hnx in Hc'. f_equal.
    eapply IH; [done|done| |]; intros i Hi; [apply Hl|apply Hl']; by right.
Qed.

Lemma keep_lists b1 b t1 ul sl1 :
  lists b1 t1 ul sl1 -> good keep b1 b -> exists t sl, lists b t ul sl.
Proof.
  intros [Ht1 Hl1 _] Hg. pose proof Hg as [Hi [[[Hs _ _] _ _] Hh Hn]].
  destruct (rx_hashtbl b) as [t|] eqn:Ht.
  2: { apply (same_rx _ _) in Hs. rewrite Ht, Ht1 in Hs. by destruct (proj2 Hs); [eauto|]. }
  destruct (good_lists _ _ _ _ Hg Ht) as (ul' & sl & Hli). exists t, sl.
  enough (ul = ul') as -> by done. pose proof Hli as [_ Hl _].
  pose proof (ln_used _ _ _ _ Hl1) as Hc1. pose proof (ln_used _ _ _ _ Hl) as Hc. rewrite Hh in Hc.
  eapply chain_unique; [exact Hc1|exact Hc| | |].
  - intros i. specialize (Hn i). unfold used_nx in Hn. by rewrite Ht, Ht1 in Hn.
  - intros i Hin. by apply index_not_null, (ln_used_in _ _ _ _ Hl1).
  - intros i Hin. by apply index_not_null, (ln_used_in _ _ _ _ Hl).
Qed.

(** The state of a walk at entry [x]. *)
Lemma walk_entry b1 b t1 ul sl1 pre x post :
  lists b1 t1 ul sl1 -> good keep b1 b -> ul = pre ++ x :: post ->
  x <> RLB_NULL_INDEX /\ exists t e, rx_hashtbl b = Some t /\ t !! x = Some e /\ assigned e = true /\
    used_next e = default RLB_NULL_INDEX (hd_error post).
Proof.
  intros Hli Hg Hul. destruct (keep_lists _ _ _ _ _ Hli Hg) as (t & sl & [Ht Hl Hent]).
  assert (x ∈ ul) as Hx by (rewrite Hul; set_solver).
  pose proof (ln_used_in _ _ _ _ Hl x Hx) as Hidx. split; [by apply index_not_null|].
  apply (ln_dom _ _ _ _ Hl) in Hidx as [e He]. exists t, e. split_and!; [done|done| |].
  - by apply (rx_used _ _ _ _ _ (Hent x e He)).
  - rewrite <-(rx_get_some used_next t x e He). pose proof (ln_used _ _ _ _ Hl) as Hc. rewrite Hul in Hc.
    by apply chain_links in Hc as (_ & ? & _).
Qed.

Section walk.
Context {A : Type} (b1 : bonding) (t1 : rtable) (ul : list Z) (sl1 : Z -> list Z).
Context (I : list Z -> A -> bonding -> Prop) (body : A -> Z -> rlb_client_info -> M bonding A).
Hypothesis Hli : lists b1 t1 ul sl1.
Hypothesis Hbody : forall pre x post a b t e, ul = pre ++ x :: post -> good keep b1 b -> I pre a b ->
  rx_hashtbl b = Some t -> t !! x = Some e -> assigned e = true ->
  wp (body a x e) (fun a' b' => good keep b1 b' /\ I (pre ++ [x]) a' b') b.

Lemma used_loop_ok fuel pre post a b :
  ul = pre ++ post -> good keep b1 b -> I pre a b -> (length post < fuel)%nat ->
  wp (used_loop fuel (default RLB_NULL_INDEX (hd_error post)) a body)
    (fun a' b' => good keep b1 b' /\ I ul a' b') b.
Proof.
  revert pre post a b. induction fuel as [|fuel IH]; intros pre post a b Hul Hg HI Hf; [lia|].
  destruct post as [|x post]; cbn.
  { rewrite Z.eqb_refl. apply wp_ret. split; [done|]. rewrite app_nil_r in Hul. by subst. }
  destruct (walk_entry _ _ _ _ _ _ _ _ Hli Hg Hul) as (Hx & t & e & Ht & He & Ha & _).
  rewrite (proj2 (Z.eqb_neq _ _)) by done. apply wp_bind. eapply wp_get_rx; [done..|]. cbv beta.
  apply wp_bind. eapply wp_mono; [by eapply Hbody|]. cbv beta. intros a' b' [Hg' HI'].
  destruct (walk_entry _ _ _ _ _ _ _ _ Hli Hg' Hul) as (_ & t' & e' & Ht' & He' & _ & Hn').
  apply wp_bind. eapply wp_get_rx; [done..|]. cbv beta. rewrite Hn'.
  eapply (IH (pre ++ [x]) post); [by rewrite <-app_assoc|done|done|]. cbn in Hf. lia.
Qed.
End walk.

Lemma keep_good R b0 b b' `{!Extends keep R} : good R b0 b -> good keep b b' -> good R b0 b'.
Proof. intros Hg [Hi' Hk]. by eapply good_step. Qed.

Lemma good_start b : inv b -> good keep b b.
Proof. intros Hi. split; [done|apply keep_refl]. Qed.

Lemma used_head_list b t ul sl :
  lists b t ul sl -> rx_hashtbl_used_head b = default RLB_NULL_INDEX (hd_error ul).
Proof.
  intros [_ Hl _]. pose proof (ln_used _ _ _ _ Hl) as Hc. destruct ul; [done|]. by destruct Hc as (-> & _).
Qed.

(** A walk that keeps the lists, in a bond with receive load balancing. *)
Lemma for_each_used_ok {A} R b0 b (a : A) body (I : list Z -> A -> bonding -> Prop) `{!Extends keep R} :
  good R b0 b -> rlb_enabled b = true -> I [] a b ->
  (forall t ul sl, lists b t ul sl ->
    forall pre x post a b' t e, ul = pre ++ x :: post -> good keep b b' -> I pre a b' ->
    rx_hashtbl b' = Some t -> t !! x = Some e -> assigned e = true ->
    wp (body a x e) (fun a' b'' => good keep b b'' /\ I (pre ++ [x]) a' b'') b') ->
  wp (for_each_used a body) (fun a' b' => good R b0 b' /\ good keep b b' /\
    match rx_hashtbl b with
    | Some t => exists ul sl, lists b t ul sl /\ I ul a' b'
    | None => I [] a' b'
    end) b.
Proof.
  intros Hg Hen HI Hbody. unfold for_each_used. apply wp_bind, wp_gets.
  pose proof (good_start b (proj1 Hg)) as Hs. destruct (rx_hashtbl b) as [t|] eqn:Ht.
  - destruct (good_lists _ _ _ _ Hg Ht) as (ul & sl & Hli). rewrite (used_head_list _ _ _ _ Hli).
    eapply wp_mono; [eapply (used_loop_ok b t ul sl I) with (pre := []); [done|by eauto|done|done|done|]|].
    + pose proof (li_links _ _ _ _ Hli) as Hl.
      apply index_length; [apply (ln_used_nd _ _ _ _ Hl)|apply (ln_used_in _ _ _ _ Hl)].
    + cbv beta. intros a' b' [Hg' HI']. split_and!; [by eapply keep_good|done|by eauto].
  - rewrite (inv_rx_none _ (proj1 Hg) Ht Hen). cbn. rewrite Z.eqb_refl. by apply wp_ret.
Qed.
(** ** The slave for the next client *)

(** The slaves that can be used, with their speeds. *)
Definition candidates (m : gmap positive slave) (l : list positive) : list (positive * Z) :=
  omap (fun s => match m !! s with
                 | Some sl => if can_tx sl then Some (s, speed sl) else None
                 | None => None
                 end) l.

(** The first of the fastest. *)
Definition pick_fast (best : option (positive * Z)) (p : positive * Z) : option (positive * Z) :=
  match best with
  | None => Some p
  | Some (_, v) => if v <? p.2 then Some p else best
  end.
Definition fastest (cs : list (positive * Z)) : option (positive * Z) := foldl pick_fast None cs.

(** The candidates up to the last slave used, and those after it. *)
Fixpoint split_last (last : option positive) (cs : list (positive * Z)) :
    list (positive * Z) * list (positive * Z) :=
  match cs with
  | [] => ([], [])
  | p :: cs =>
      if bool_decide (last = Some p.1) then ([p], cs)
      else (p :: (split_last last cs).1, (split_last last cs).2)
  end.

(** In turn: beginning after the last slave used. *)
Definition in_turn (last : option positive) (cs : list (positive * Z)) : list (positive * Z) :=
  (split_last last cs).2 ++ (split_last last cs).1.

Definition next_rx (b : bonding) : option positive :=
  fst <$> fastest (in_turn (rx_slave b) (candidates (slaves b) (slave_list b))).

Lemma fastest_snoc cs p : fastest (cs ++ [p]) = pick_fast (fastest cs) p.
Proof. unfold fastest. by rewrite foldl_app. Qed.

Lemma fastest_spec cs :
  match fastest cs with
  | None => cs = []
  | Some (s, v) => exists l1 l2, cs = l1 ++ (s, v) :: l2 /\
      (forall p, p ∈ l1 -> p.2 < v) /\ (forall p, p ∈ l2 -> p.2 <= v)
  end.
Proof.
  induction cs as [|p cs IH] using rev_ind; [done|]. rewrite fastest_snoc.
  destruct (fastest cs) as [[s v]|]; cbn.
  - destruct IH as (l1 & l2 & -> & H1 & H2). destruct (Z.ltb_spec v p.2) as [Hlt|Hle].
    + destruct p as [s' v']. cbn in Hlt. exists (l1 ++ (s, v) :: l2), []. split_and!; [done| |set_solver].
      intros q [Hq|[->|Hq]%elem_of_cons]%elem_of_app; [specialize (H1 q Hq)|cbn|specialize (H2 q Hq)]; lia.
    + exists l1, (l2 ++ [p]). rewrite <-app_assoc. split_and!; [done..|].
      intros q [Hq|Hq%list_elem_of_singleton]%elem_of_app; [by apply H2|by subst].
  - subst. destruct p as [s' v']. exists [], []. split_and!; [done|set_solver..].
Qed.

Lemma fastest_app a c :
  fastest (a ++ c) =
    match fastest a, fastest c with
    | None, _ => fastest c
    | Some (_, v), Some (_, v') => if v <? v' then fastest c else fastest a
    | Some _, None => fastest a
    end.
Proof.
  induction c as [|p c IH] using rev_ind.
  - rewrite app_nil_r. by destruct (fastest a) as [[]|].
  - rewrite app_assoc, !fastest_snoc, IH. destruct p as [s2 v2].
    destruct (fastest a) as [[s v]|], (fastest c) as [[s' v']|]; cbn; try done.
    destruct (v <? v') eqn:E1, (v' <? v2) eqn:E2, (v <? v2) eqn:E3; cbn; rewrite ?E1, ?E2, ?E3; try done;
      rewrite ?Z.ltb_lt, ?Z.ltb_ge in *; lia.
Qed.

Lemma split_snoc last cs p :
  split_last last (cs ++ [p]) =
    if existsb (fun q => bool_decide (last = Some q.1)) cs
    then ((split_last last cs).1, (split_last last cs).2 ++ [p])
    else ((split_last last cs).1 ++ [p], []).
Proof.
  induction cs as [|q cs IH]; cbn; [by destruct (bool_decide _)|].
  destruct (bool_decide (last = Some q.1)); cbn; [done|]. rewrite IH. by destruct (existsb _ cs).
Qed.

Lemma __rlb_next_rx_slave_run b (Q : option positive -> bonding -> Prop) :
  (forall s, s ∈ slave_list b -> live (slaves b) s) ->
  Q (next_rx b) (match next_rx b with Some s => b <| rx_slave := Some s |> | None => b end) ->
  wp __rlb_next_rx_slave Q b.
Proof.
  intros Hl HQ. unfold __rlb_next_rx_slave. apply wp_bind, wp_gets, wp_bind, wp_gets, wp_bind.
  set (last := rx_slave b) in *.
  eapply (wp_for_each (fun pre a b' => b' = b /\ let cs := candidates (slaves b) pre in
    a = (fastest (split_last last cs).1, fastest (split_last last cs).2,
         existsb (fun q => bool_decide (last = Some q.1)) cs))).
  - done.
  - intros pre s post a b' Hpre (-> & ->). destruct (Hl s) as [sl Hs]; [rewrite Hpre; set_solver|].
    apply wp_bind. eapply wp_slave; [done|]. cbv beta.
    assert (candidates (slaves b) (pre ++ [s]) =
      candidates (slaves b) pre ++ (if can_tx sl then [(s, speed sl)] else [])) as E.
    { unfold candidates. rewrite omap_app. f_equal. cbn. rewrite Hs. by destruct (can_tx sl). }
    cbv zeta. rewrite E. destruct (can_tx sl); [|rewrite app_nil_r; by apply wp_ret].
    rewrite split_snoc, existsb_app. cbn [existsb]. rewrite orb_false_r.
    destruct (existsb _ (candidates (slaves b) pre)) eqn:Ef; apply wp_ret; (split; [done|]); cbn [fst snd].
    + by rewrite fastest_snoc.
    + rewrite fastest_snoc. cbn. repeat f_equal.
      clear -Ef. induction (candidates (slaves b) pre) as [|q cs IH]; [done|]. cbn in *.
      destruct (bool_decide (last = Some q.1)); [done|]. by apply IH.
  - intros a b' (-> & ->). cbv zeta.
    assert (next_rx b = fst <$> match fastest (split_last last (candidates (slaves b) (slave_list b))).2,
        fastest (split_last last (candidates (slaves b) (slave_list b))).1 with
      | None, before => before
      | Some (_, v) as rx, Some (_, v') as before => if v <? v' then before else rx
      | Some _ as rx, None => rx
      end) as E.
    { unfold next_rx, in_turn. rewrite fastest_app. subst last. repeat case_match; done. }
    revert HQ. rewrite E. destruct (fastest _.2) as [[s v]|], (fastest _.1) as [[s' v']|]; cbn;
      try destruct (v <? v'); cbn; intros HQ; first [by apply wp_bind, wp_mod, wp_ret|by apply wp_ret].
Qed.
End side.

(** * Adaptive load balancing: what switches are told

    The tags on the way to a device above the bond, the learning packets, and the primary
    that is put in promiscuous mode.  None of this touches the tables. *)

(** Induction on a device and those above it. *)
Lemma net_device_all (P : net_device -> Prop) :
  (forall info above, Forall P above -> P (NetDevice info above)) -> forall d, P d.
Proof.
  intros HP. fix IH 1. intros [info above]. apply HP. induction above as [|d above IHa]; constructor; [apply IH|done].
Qed.

Section learn.
Context `{AlbLaws}.

(** The first way, in depth-first order, from a device to the device [end_dev] above it. *)
Fixpoint find_path (dev : net_device) (end_dev : Z) : option (list dev_info) :=
  let '(NetDevice info above) := dev in
  if ifindex info =? end_dev then Some []
  else
    (fix search (l : list net_device) : option (list dev_info) :=
       match l with
       | [] => None
       | (NetDevice upper _ as dev) :: l =>
           match find_path dev end_dev with
           | Some p => Some (upper :: p)
           | None => search l
           end
       end) above.

Definition tag_of (d : dev_info) : Z * Z :=
  if is_vlan_dev d then (vlan_proto d, vlan_dev_vlan_id d) else (0, 0).

(** The array that is returned: a tag for every device of the way, then the mark of the end. *)
Definition path_tags (level : nat) (p : list dev_info) : list (Z * Z) :=
  replicate level (0, 0) ++ map tag_of p ++ [(BOND_VLAN_PROTO_NONE, 0)].

Definition path_result (b : bonding) (level : nat) (p : option (list dev_info)) : tags_ptr * bonding :=
  match p with
  | None => (TagsNull, b)
  | Some p => (if succeeds (calls b) then Tags (path_tags level p) else TagsErr, b <| calls := calls b + 1 |>)
  end.

Lemma path_tags_insert level d p :
  is_vlan_dev d = true ->
  <[level := (vlan_proto d, vlan_dev_vlan_id d)]> (path_tags (S level) p) = path_tags level (d :: p).
Proof.
  intros Hd. unfold path_tags. rewrite replicate_S_end, <-app_assoc.
  rewrite insert_app_r_alt by (by rewrite length_replicate). rewrite length_replicate, Nat.sub_diag.
  cbn. unfold tag_of. by rewrite Hd.
Qed.

Lemma path_tags_plain level d p :
  is_vlan_dev d = false -> path_tags (S level) p = path_tags level (d :: p).
Proof.
  intros Hd. unfold path_tags. rewrite replicate_S_end, <-app_assoc. cbn. unfold tag_of. by rewrite Hd.
Qed.

Lemma path_tags_length level p : (level < length (path_tags level p))%nat.
Proof. unfold path_tags. rewrite !length_app, length_replicate, length_map. cbn. lia. Qed.

(** The search finds the way and its tags, or an error if there is no memory. *)
Lemma verify_path_run dev end_dev level b :
  bond_verify_device_path dev end_dev level b = Ok (path_result b level (find_path dev end_dev)).
Proof.
  revert level b. induction dev as [info above IH] using net_device_all. intros level b. cbn.
  destruct (ifindex info =? end_dev); [done|].
  induction IH as [|[upper up] l Hd _ IHl]; [done|]. unfold bind at 1. rewrite Hd.
  destruct (find_path (NetDevice upper up) end_dev) as [p|] eqn:Ep; cbn -[path_tags]; [|apply IHl].
  destruct (succeeds (calls b)); [|done]. destruct (is_vlan_dev upper) eqn:Ev.
  - rewrite bool_decide_true by (pose proof (path_tags_length (S level) p); lia).
    by rewrite path_tags_insert.
  - by rewrite (path_tags_plain level upper).
Qed.

(** ** Frames *)

Context (R : bonding -> bonding -> Prop) `{!Extends keep R} (b0 : bonding).

Ltac by_core := first [done | eapply good_core; [done|done|unfold core; by rec_simpl]].

Lemma emit_ok e b : good R b0 b -> wp (emit e) (fun _ b' => good R b0 b' /\ core b' = core b) b.
Proof. intros Hg. apply wp_mod. split; [by_core|unfold core; by rec_simpl]. Qed.

Lemma alb_send_lp_vid_ok s addr tag b :
  good R b0 b -> live (slaves b0) s ->
  wp (alb_send_lp_vid s addr tag) (fun _ b' => good R b0 b' /\ core b' = core b) b.
Proof.
  intros Hg Hs. unfold alb_send_lp_vid. apply wp_bind, wp_try_call. intros ok.
  assert (good R b0 (b <| calls := calls b + 1 |>)) as Hg1 by by_core.
  destruct ok; cbn; [|apply wp_ret; split; [done|unfold core; by rec_simpl]].
  destruct (good_live keep _ _ _ _ Hg1 Hs) as [sl Hsl].
  apply wp_bind. eapply wp_slave; [done|]. cbv beta. eapply wp_mono; [by apply emit_ok|].
  intros _ b' [Hg' Hc]. split; [done|]. rewrite Hc. unfold core. by rec_simpl.
Qed.

Lemma alb_upper_dev_walk_ok s addr strict upper b :
  good R b0 b -> live (slaves b0) s ->
  wp (alb_upper_dev_walk s addr strict upper) (fun _ b' => good R b0 b' /\ core b' = core b) b.
Proof.
  intros Hg Hs. unfold alb_upper_dev_walk. apply wp_bind, wp_gets. destruct (bond_dev b) as [bi ba].
  apply wp_bind. eapply (wp_mono _ (fun _ b' => good R b0 b' /\ core b' = core b)).
  { apply when_wp; intros _; [by apply alb_send_lp_vid_ok|done]. }
  cbv beta. intros _ b1 [Hg1 Hc1]. case_match; [|by apply wp_ret].
  apply wp_bind. unfold wp at 1. rewrite verify_path_run.
  destruct (find_path _ _) as [p|]; cbn -[path_tags wp]; [|by apply wp_ret].
  assert (good R b0 (b1 <| calls := calls b1 + 1 |>)) as Hg2 by by_core.
  assert (core (b1 <| calls := calls b1 + 1 |>) = core b) as Hc2 by (rewrite <-Hc1; unfold core; by rec_simpl).
  destruct (succeeds (calls b1)); [|by apply wp_ret].
  pose proof (path_tags_length 0 p) as Hlen. destruct (path_tags 0 p) as [|tag ?]; [cbn in Hlen; lia|].
  apply wp_bind. eapply wp_mono; [by apply alb_send_lp_vid_ok|]. intros _ b3 [Hg3 Hc3].
  apply wp_ret. split; [done|congruence].
Qed.

Lemma alb_send_learning_packets_ok s addr strict b :
  good R b0 b -> live (slaves b0) s ->
  wp (alb_send_learning_packets s addr strict) (fun _ b' => good R b0 b' /\ core b' = core b) b.
Proof.
  intros Hg Hs. unfold alb_send_learning_packets. destruct (good_live keep _ _ _ _ Hg Hs) as [sl Hsl].
  apply wp_bind. eapply wp_slave; [done|]. cbv beta. apply wp_bind.
  eapply wp_mono; [by apply alb_send_lp_vid_ok|]. cbv beta. intros _ b1 [Hg1 Hc1].
  apply wp_bind, wp_gets.
  eapply (wp_for_each (fun _ _ b' => good R b0 b' /\ core b' = core b)); [done| |done].
  intros pre x post [] b2 _ [Hg2 Hc2]. apply wp_bind. eapply wp_mono; [by apply alb_upper_dev_walk_ok|].
  cbv beta. intros res b3 [Hg3 Hc3]. apply wp_ret. case_match; (split; [done|congruence]).
Qed.

Lemma good_promisc b p :
  good R b0 b -> (p = true -> is_Some (curr_active_slave b)) -> good R b0 (b <| primary_is_promisc := p |>).
Proof.
  intros Hg Hp. eapply good_step; [done|done| |].
  - constructor; [constructor; [constructor; [constructor|..]|..]|..]; unfold used_nx, addr_of; by rec_simpl.
  - destruct Hg as [[] _]. constructor; rec_simpl; done.
Qed.

(** The fields of a bond that a change of the promiscuous mode leaves alone. *)
Definition tables (b : bonding) := (tx_hashtbl b, rx_hashtbl b, rx_slave b).

Lemma rlb_teach_disabled_mac_on_primary_ok addr b :
  good R b0 b ->
  wp (rlb_teach_disabled_mac_on_primary addr) (fun _ b' => good R b0 b' /\ tables b' = tables b) b.
Proof.
  intros Hg. unfold rlb_teach_disabled_mac_on_primary. apply wp_bind, wp_gets.
  destruct (curr_active_slave b) as [a|] eqn:Ha; [|by apply wp_ret].
  assert (live (slaves b0) a) as Hla.
  { destruct Hg as [Hi Hr]. apply (same_live _ _ (ext_same _ _ Hr)). by apply (inv_active _ Hi). }
  apply wp_bind, wp_gets, wp_bind.
  eapply (wp_mono _ (fun _ b' => good R b0 b' /\ tables b' = tables b)).
  { apply when_wp; intros _; [|done]. apply wp_bind, wp_mod, wp_bind, wp_try_call. intros ok.
    apply wp_mod. split; [|unfold tables; by rec_simpl]. apply good_promisc; [by_core|]. rec_simpl. rewrite Ha. by eauto. }
  cbv beta. intros _ b1 [Hg1 Ht1]. apply wp_bind, wp_mod.
  eapply wp_mono; [apply alb_send_learning_packets_ok; [by_core|done]|]. cbv beta. intros _ b2 [Hg2 Hc2].
  split; [done|]. rewrite <-Ht1. unfold core, tables in *. rec_simpl_all. congruence.
Qed.
End learn.
