(* ===== verification/AlbServe.v ===== *)
(** * Adaptive load balancing: the clients keep a slave that exists

    The walks along the receive clients and the assignment of a slave to a client keep the
    invariant; clearing a slave leaves no client of it. *)

From S2P Require Import Prelude.
From S2P Require Import AlbTypes.
From S2P Require Import AlbOps.
From S2P Require Import AlbLinks.
From S2P Require Import AlbInv.
From S2P Require Import AlbRlb.
From S2P Require Import AlbSide.

Section serve.
Context `{AlbLaws}.

Abbreviation rtable := (gmap Z rlb_client_info).

Ltac by_core := first [done | eapply good_core; [done|done|unfold core; by rec_simpl]].
Ltac by_quiet := constructor; intros; unfold same_links; rec_simpl; done.

(** ** The choice *)

Lemma candidates_in m l p :
  p ∈ candidates m l -> (p.1 ∈ l) /\ exists sl, m !! p.1 = Some sl /\ can_tx sl = true /\ p.2 = speed sl.
Proof.
  unfold candidates. rewrite list_elem_of_omap. intros (s & Hs & Hp).
  destruct (m !! s) as [sl|] eqn:E; [|done]. destruct (can_tx sl) eqn:Ec; [|done]. simplify_eq/=. eauto.
Qed.

Lemma split_last_app last cs : (split_last last cs).1 ++ (split_last last cs).2 = cs.
Proof. induction cs as [|p cs IH]; [done|]. cbn. case_bool_decide; [done|]. cbn. by rewrite IH. Qed.

Lemma in_turn_perm last cs : in_turn last cs ≡ₚ cs.
Proof. unfold in_turn. rewrite Permutation_app_comm. by rewrite split_last_app. Qed.

(** A slave of the list that can transmit. *)
Definition eligible (b : bonding) (s : positive) : Prop :=
  (s ∈ slave_list b) /\ exists sl, slaves b !! s = Some sl /\ can_tx sl = true.

Lemma next_rx_eligible b s : next_rx b = Some s -> eligible b s.
Proof.
  unfold next_rx. intros (p & Hp & ->)%fmap_Some. pose proof (fastest_spec (in_turn (rx_slave b)
    (candidates (slaves b) (slave_list b)))) as Hf. rewrite Hp in Hf. destruct p as [s v].
  destruct Hf as (l1 & l2 & Hcs & _).
  destruct (candidates_in (slaves b) (slave_list b) (s, v)) as (Hin & sl & Hsl & Hc & _).
  { rewrite <-(in_turn_perm (rx_slave b)), Hcs. set_solver. }
  split; eauto.
Qed.

Lemma next_rx_ok R b0 b `{!Extends keep R} :
  good R b0 b -> rlb_enabled b = true ->
  wp __rlb_next_rx_slave (fun r b' => good R b0 b' /\ r = next_rx b /\ rx_hashtbl b' = rx_hashtbl b /\
    slaves b' = slaves b /\ (forall s, r = Some s -> eligible b s) /\
    rx_slave b' = match r with Some _ => r | None => rx_slave b end) b.
Proof.
  intros Hg Hen. eapply __rlb_next_rx_slave_run; [apply Hg|].
  destruct (next_rx b) as [s|] eqn:En; [|done]. pose proof (next_rx_eligible b s En) as Hs.
  split_and!; rec_simpl; [|done|done|done|by intros ? [= <-]|done].
  eapply good_step; [done|done| |].
  - constructor; [constructor; [constructor; [constructor|..]|..]|..]; unfold used_nx, addr_of; by rec_simpl.
  - destruct Hg as [[] _]. constructor; rec_simpl; try done. intros ? [= <-].
    split; [|done]. apply inv_listed, Hs.
Qed.

(** ** Clearing a slave *)

Definition rx_free_of (s : positive) (b : bonding) : Prop :=
  forall t i e, rx_hashtbl b = Some t -> t !! i = Some e -> rx_client e <> Some s.

(** Giving a client of the table another slave. *)
Lemma set_client_ok R b0 b t i e a `{!Extends keep R} :
  good R b0 b -> rx_hashtbl b = Some t -> t !! i = Some e -> assigned e = true ->
  (forall s, a = Some s -> live (slaves b) s) ->
  wp (mod_rx i (fun e => e <| rx_client := a |>)) (fun _ b' => good R b0 b' /\
    b' = b <| rx_hashtbl := Some (alter (fun e => e <| rx_client := a |>) i t) |>) b.
Proof.
  intros Hg Ht He Ha Hlive. eapply mod_rx_keep; [done|done|done|done|by_quiet| |]; rec_simpl; [by rewrite Ha|done].
Qed.

Lemma set_ntt_ok R b0 b t i e v `{!Extends keep R} :
  good R b0 b -> rx_hashtbl b = Some t -> t !! i = Some e ->
  wp (mod_rx i (fun e => e <| ntt := v |>)) (fun _ b' => good R b0 b' /\
    b' = b <| rx_hashtbl := Some (alter (fun e => e <| ntt := v |>) i t) |>) b.
Proof. intros Hg Ht He. eapply mod_rx_quiet; [done|done|done|done|by_quiet|]. intros. by rec_simpl. Qed.

(** The entries of [l] are not clients of [s]. *)
Definition not_clients (s : positive) (l : list Z) (b : bonding) : Prop :=
  forall t x e, rx_hashtbl b = Some t -> x ∈ l -> t !! x = Some e -> rx_client e <> Some s.

(** The next client does not begin at a slave that cannot be chosen. *)
Definition not_last (b1 : bonding) (s : positive) (b : bonding) : Prop :=
  ~ eligible b1 s -> rx_slave b1 <> Some s -> rx_slave b <> Some s.

Lemma not_clients_alter s l b b' t f i e :
  not_clients s l b -> rx_hashtbl b = Some t -> rx_hashtbl b' = Some (alter f i t) ->
  t !! i = Some e -> rx_client (f e) <> Some s -> not_clients s (l ++ [i]) b'.
Proof.
  intros Hn Ht Ht' He Hf t0 x e0 E Hx He0. rewrite Ht' in E. simplify_eq.
  destruct (decide (x = i)) as [->|Hne].
  - rewrite lookup_alter_eq, He in He0. cbn in He0. by simplify_eq.
  - rewrite lookup_alter_ne in He0 by done. apply (Hn t x); [done| |done].
    apply elem_of_app in Hx as [|Hx%list_elem_of_singleton]; done.
Qed.

Lemma not_clients_same s l b i t e :
  not_clients s l b -> rx_hashtbl b = Some t -> t !! i = Some e -> rx_client e <> Some s ->
  not_clients s (l ++ [i]) b.
Proof.
  intros Hn Ht He Hc t0 x e0 Ht0 [Hx|Hx%list_elem_of_singleton]%elem_of_app He0; [by eapply Hn|].
  simplify_eq. congruence.
Qed.

Lemma eligible_keep b1 b s : good keep b1 b -> eligible b s -> eligible b1 s.
Proof. intros [_ [[[Hs _ _] Hm _] _ _]] [Hin Hsl]. split; [by rewrite <-(same_list _ _ Hs)|by rewrite <-Hm]. Qed.

Lemma rlb_clear_loop_ok b1 t1 ul sl1 s fuel pre post b :
  lists b1 t1 ul sl1 -> rlb_enabled b1 = true -> ul = pre ++ post -> good keep b1 b ->
  (~ eligible b1 s -> not_clients s pre b) -> not_last b1 s b -> (length post < fuel)%nat ->
  wp (rlb_clear_loop fuel (default RLB_NULL_INDEX (hd_error post)) s)
    (fun _ b' => good keep b1 b' /\ (~ eligible b1 s -> not_clients s ul b') /\ not_last b1 s b') b.
Proof.
  intros Hli Hen. revert pre post b.
  induction fuel as [|fuel IH]; intros pre post b Hul Hg Hn Hlast Hf; [lia|]. destruct post as [|x post]; cbn.
  { rewrite Z.eqb_refl. apply wp_ret. split; [done|]. rewrite app_nil_r in Hul. by subst. }
  destruct (walk_entry _ _ _ _ _ _ _ _ Hli Hg Hul) as (Hx & t & e & Ht & He & Ha & Hnx).
  assert (rlb_enabled b = true) as Henb by (rewrite (same_enabled b1 b); [done|apply Hg]).
  rewrite (proj2 (Z.eqb_neq _ _)) by done. apply wp_bind. eapply wp_get_rx; [done..|]. cbv beta.
  rewrite Hnx. apply wp_bind.
  eapply (wp_mono _ (fun _ b' => good keep b1 b' /\ (~ eligible b1 s -> not_clients s (pre ++ [x]) b') /\ not_last b1 s b')).
  2: { intros _ b' (Hg' & Hn' & Hl'). eapply (IH (pre ++ [x]) post); [by rewrite <-app_assoc|done|done|done|]. cbn in Hf. lia. }
  apply when_wp; intros Hc; [|apply bool_decide_eq_false in Hc; split_and!; [done|intros; by eapply not_clients_same; eauto|done]].
  apply wp_bind. eapply wp_mono; [by apply (next_rx_ok keep b1)|]. cbv beta.
  intros r b2 (Hg2 & _ & Ht2 & Hsl2 & Hr & Hrx). rewrite Ht in Ht2.
  assert (~ eligible b1 s -> r <> Some s) as Hrs.
  { intros Hs ->. apply Hs. eapply eligible_keep; [exact Hg|]. by apply Hr. }
  assert (not_last b1 s b2) as Hl2.
  { intros Hs Hx'. rewrite Hrx. destruct r; [by apply Hrs|by apply Hlast]. }
  assert (~ eligible b1 s -> not_clients s pre b2) as Hn2.
  { intros Hs t0 y e0 Ht0. apply (Hn Hs t0 y). congruence. }
  assert (forall s, r = Some s -> live (slaves b2) s) as Hlive.
  { intros s' E. rewrite Hsl2. destruct (Hr s' E) as (_ & sl & Hsl & _). by exists sl. }
  destruct r as [a|].
  - apply wp_bind. eapply wp_mono; [by eapply set_client_ok|]. cbv beta. intros _ b3 [Hg3 ->].
    assert (~ eligible b1 s -> not_clients s (pre ++ [x]) (b2 <| rx_hashtbl :=
      Some (alter (fun e => e <| rx_client := Some a |>) x t) |>)) as Hn3.
    { intros Hs. eapply not_clients_alter; [by apply Hn2|done|by rec_simpl|done|by apply Hrs]. }
    assert (forall f, not_last b1 s (b2 <| rx_hashtbl := f |>)) as Hl3 by (intros f; unfold not_last; by rec_simpl).
    apply when_wp; intros _; [|done]. apply wp_bind.
    eapply wp_mono; [eapply set_ntt_ok; [done|done|by rec_simpl|by rewrite lookup_alter_eq, He]|]. cbv beta.
    intros _ b4 [Hg4 ->]. apply wp_mod. split_and!; [by_core| |unfold not_last; by rec_simpl]. intros Hs t0 y e0. rec_simpl. intros [= <-] Hy.
    destruct (decide (y = x)) as [->|].
    + rewrite !lookup_alter_eq, He. intros [= <-]. rec_simpl. by apply Hrs.
    + rewrite lookup_alter_ne by done. apply (Hn3 Hs); [by rec_simpl|done].
  - eapply wp_mono; [by eapply set_client_ok|]. cbv beta. intros _ b3 [Hg3 ->].
    split_and!; [done| |unfold not_last; by rec_simpl]. intros Hs. eapply not_clients_alter; [by apply Hn2|done|by rec_simpl|done|by apply Hrs].
Qed.

Lemma rlb_clear_slave_ok R b0 b s `{!Extends keep R} :
  good R b0 b -> rlb_enabled b = true -> live (slaves b) s ->
  wp (rlb_clear_slave s) (fun _ b' => good R b0 b' /\ keep b b' /\
    (~ eligible b s -> rx_free_of s b') /\ not_last b s b') b.
Proof.
  intros Hg Hen Hs. unfold rlb_clear_slave. apply wp_bind, wp_gets, wp_bind.
  eapply (wp_mono _ (fun _ b' => good keep b b' /\ (~ eligible b s -> rx_free_of s b') /\ not_last b s b')).
  { assert (not_last b s b) as Hl0 by (by intros _). pose proof (good_start b (proj1 Hg)) as Hst. destruct (rx_hashtbl b) as [t|] eqn:Ht.
    - destruct (good_lists _ _ _ _ Hg Ht) as (ul & sl & Hli). rewrite (used_head_list _ _ _ _ Hli).
      eapply wp_mono; [eapply (rlb_clear_loop_ok b t ul sl s _ [] ul); try done|].
      + intros _ t0 x e _ Hx. by apply not_elem_of_nil in Hx.
      + pose proof (li_links _ _ _ _ Hli) as Hl.
        apply index_length; [apply (ln_used_nd _ _ _ _ Hl)|apply (ln_used_in _ _ _ _ Hl)].
      + cbv beta. intros _ b' (Hg' & Hn' & Hl'). split_and!; [done| |done]. intros Hne t' i e Ht' He.
        destruct (keep_lists _ _ _ _ _ Hli Hg') as (t'' & sl' & [Ht'' _ Hent]).
        rewrite Ht' in Ht''. simplify_eq. destruct (Hent i e He) as [Hu _ Hno _].
        destruct (assigned e); [|by rewrite Hno]. apply (Hn' Hne t'' i); [done|by apply Hu|done].
    - rewrite (inv_rx_none _ (proj1 Hg) Ht Hen). cbn. rewrite Z.eqb_refl. apply wp_ret. split_and!; [done| |done].
      intros _ t i e Ht'. congruence. }
  cbv beta. intros _ b1 (Hg1 & Hf1 & Hl1).
  assert (live (slaves b1) s) as [sl1 Hs1] by (by apply (same_live _ _ (sl_same _ _ (rs_still _ _ (kp_side _ _ (proj2 Hg1)))))).
  unfold is_active. apply wp_bind, wp_bind, wp_gets, wp_ret, when_wp; intros _.
  2: { split_and!; [by eapply keep_good|apply Hg1|done|done]. }
  apply wp_bind. eapply wp_slave; [done|]. cbv beta.
  eapply wp_mono; [by apply (rlb_teach_disabled_mac_on_primary_ok keep b)|]. cbv beta. intros _ b2 [Hg2 Ht2].
  unfold tables in Ht2.
  split_and!; [by eapply keep_good|apply Hg2| |].
  - intros Hne t i e Ht. apply (Hf1 Hne t i). congruence.
  - intros Hne Hx. specialize (Hl1 Hne Hx). congruence.
Qed.
(** ** Telling the clients *)

Lemma entry_live R b0 b t i e s :
  good R b0 b -> rx_hashtbl b = Some t -> t !! i = Some e -> rx_client e = Some s -> live (slaves b) s.
Proof.
  intros Hg Ht He Hs. destruct (good_lists _ _ _ _ Hg Ht) as (ul & sl & [_ _ Hent]).
  by apply (rx_live _ _ _ _ _ (Hent i e He)).
Qed.

Lemma arp_burst_ok R b0 n s e b `{!Extends keep R} :
  good R b0 b -> wp (arp_burst n s e) (fun _ b' => good R b0 b' /\ core b' = core b) b.
Proof.
  revert b. induction n as [|n IH]; intros b Hg; [done|]. cbn [arp_burst].
  apply wp_bind, wp_try_call. intros ok. apply wp_bind.
  eapply (wp_mono _ (fun _ b' => good R b0 b' /\ core b' = core b)).
  { apply when_wp; intros _; [apply wp_mod|]; (split; [by_core|unfold core; by rec_simpl]). }
  cbv beta. intros _ b' [Hg' Hc']. eapply wp_mono; [by apply IH|]. cbv beta. intros _ b'' [Hg'' Hc'']. split; [done|congruence].
Qed.

Lemma rlb_update_client_ok R b0 e b `{!Extends keep R} :
  good R b0 b -> (forall s, rx_client e = Some s -> live (slaves b) s) ->
  wp (rlb_update_client e) (fun _ b' => good R b0 b' /\ core b' = core b) b.
Proof.
  intros Hg Hl. unfold rlb_update_client. destruct (rx_client e) as [s|]; [|done].
  apply when_wp; intros _; [|done]. destruct (Hl s eq_refl) as [sl Hsl].
  apply wp_bind. eapply wp_slave; [done|]. cbv beta. by apply arp_burst_ok.
Qed.

Lemma keep_enabled b1 b : good keep b1 b -> rlb_enabled b = rlb_enabled b1.
Proof. by intros [_ [[[[] _ _] _ _] _ _]]. Qed.

(** A walk of which only the invariant is kept. *)
Lemma walk_ok {A} R b0 b (a : A) body `{!Extends keep R} :
  good R b0 b -> rlb_enabled b = true ->
  (forall a x b' t e, good keep b b' -> rx_hashtbl b' = Some t -> t !! x = Some e -> assigned e = true ->
     wp (body a x e) (fun _ b'' => good keep b b'') b') ->
  wp (for_each_used a body) (fun _ b' => good R b0 b') b.
Proof.
  intros Hg Hen Hbody. eapply wp_mono; [apply (for_each_used_ok R b0 b a body (fun _ _ _ => True))|]; try done.
  - intros _ _ _ _ pre x post a' b' t e _ Hg' _ Ht He Ha. eapply wp_mono; [by eapply Hbody|]. done.
  - cbv beta. tauto.
Qed.

Lemma rlb_update_rx_clients_ok R b0 b `{!Extends keep R} :
  good R b0 b -> rlb_enabled b = true -> wp rlb_update_rx_clients (fun _ b' => good R b0 b') b.
Proof.
  intros Hg Hen. unfold rlb_update_rx_clients. apply wp_bind.
  eapply wp_mono; [apply (walk_ok R b0)|]; [done|done|done| |cbv beta; intros _ b' Hg'; apply wp_mod; by_core].
  intros _ x b' t e Hg' Ht He Ha. apply when_wp; intros _; [|done]. apply wp_bind.
  eapply wp_mono; [apply (rlb_update_client_ok keep b); [done|done|]; intros s; by eapply entry_live|].
  cbv beta. intros _ b2 [Hg2 Hc2]. apply wp_bind, wp_gets, when_wp; intros _; [|done].
  assert (rx_hashtbl b2 = Some t) as Ht2 by (unfold core in Hc2; congruence).
  eapply wp_mono; [eapply (set_ntt_ok keep b); done|]. cbv beta. by intros _ b3 [? _].
Qed.

Lemma rlb_req_update_slave_clients_ok R b0 b s `{!Extends keep R} :
  good R b0 b -> rlb_enabled b = true -> wp (rlb_req_update_slave_clients s) (fun _ b' => good R b0 b') b.
Proof.
  intros Hg Hen. unfold rlb_req_update_slave_clients. apply wp_bind.
  eapply wp_mono; [apply (walk_ok R b0)|]; [done|done|done| |].
  - intros a x b' t e Hg' Ht He Ha. case_match; [|done]. apply wp_bind.
    eapply wp_mono; [eapply (set_ntt_ok keep b); done|]. cbv beta. by intros _ b3 [? _].
  - cbv beta. intros r b' Hg'. apply when_wp; intros _; [apply wp_mod; by_core|done].
Qed.

Lemma rlb_req_update_subnet_clients_ok R b0 b ip `{!Extends keep R} :
  good R b0 b -> rlb_enabled b = true -> wp (rlb_req_update_subnet_clients ip) (fun _ b' => good R b0 b') b.
Proof.
  intros Hg Hen. unfold rlb_req_update_subnet_clients. apply (walk_ok R b0); [done..|].
  intros [] x b' t e Hg' Ht He Ha. destruct (rx_client e) as [s|] eqn:Es; [|done].
  destruct (entry_live _ _ _ _ _ _ _ Hg' Ht He Es) as [sl Hsl].
  apply wp_bind. eapply wp_slave; [done|]. cbv beta. apply wp_bind, wp_gets, when_wp; intros _; [|done].
  apply wp_bind. eapply wp_mono; [eapply (set_ntt_ok keep b); done|]. cbv beta. intros _ b3 [Hg3 _].
  apply wp_mod. by_core.
Qed.

Lemma rlb_rebalance_clients_ok R b0 b `{!Extends keep R} :
  good R b0 b -> rlb_enabled b = true -> wp rlb_rebalance_clients (fun _ b' => good R b0 b') b.
Proof.
  intros Hg Hen. unfold rlb_rebalance_clients. apply wp_bind.
  eapply wp_mono; [apply (walk_ok R b0)|]; [done|done|done| |].
  - intros a x b' t e Hg' Ht He Ha. apply wp_bind.
    eapply wp_mono; [apply (next_rx_ok keep b); [done|done|by rewrite (keep_enabled b)]|]. cbv beta.
    intros r b2 (Hg2 & _ & Ht2 & Hs2 & Hr & _). destruct r as [s|]; [|done]. case_match; [done|]. apply wp_bind.
    rewrite Ht in Ht2. eapply wp_mono; [eapply (set_client_ok keep b); try done|].
    { intros s' [= <-]. rewrite Hs2. destruct (Hr s eq_refl) as (_ & sl & Hsl & _). by exists sl. }
    cbv beta. intros _ b3 [Hg3 ->]. case_match; [done|]. apply wp_bind.
    eapply wp_mono; [eapply (set_ntt_ok keep b); [done|done|by rec_simpl|by rewrite lookup_alter_eq, He]|].
    cbv beta. intros _ b4 [Hg4 _]. by apply wp_ret.
  - cbv beta. intros r b' Hg'. apply when_wp; intros _; [apply wp_mod; by_core|done].
Qed.
(** ** Assigning a slave to a client *)

(** Only the entry [i] of the receive table may have changed. *)
Record touched (b b' : bonding) (t : rtable) (i : Z) : Prop := {
  to_good : good keep b b';
  to_rx_slave : rx_slave b' = rx_slave b;
  to_table : exists t' e', rx_hashtbl b' = Some t' /\ t' !! i = Some e' /\ forall y, y <> i -> t' !! y = t !! y
}.

Lemma touched_alter b b1 t t1 i e1 f :
  touched b b1 t i -> rx_hashtbl b1 = Some t1 -> t1 !! i = Some e1 ->
  good keep b (b1 <| rx_hashtbl := Some (alter f i t1) |>) ->
  touched b (b1 <| rx_hashtbl := Some (alter f i t1) |>) t i.
Proof.
  intros [_ Hs (t' & e' & Ht' & He' & Ho)] Ht1 He1 Hg. assert (t' = t1) as -> by congruence. constructor; [done|by rec_simpl|].
  rec_simpl. eexists _, _. split_and!; [done|by rewrite lookup_alter_eq, He1|].
  intros y Hy. rewrite lookup_alter_ne by done. auto.
Qed.

Lemma touched_core b b1 b2 t i : touched b b1 t i -> core b2 = core b1 -> touched b b2 t i.
Proof.
  intros [Hg Hs Ht] Hc. constructor; [by eapply good_core| |]; unfold core in Hc.
  - congruence.
  - destruct Ht as (t' & e' & ? & ?). exists t', e'. split; [congruence|done].
Qed.

Lemma rlb_reuse_ok b t i e arp :
  inv b -> rx_hashtbl b = Some t -> t !! i = Some e ->
  wp (rlb_reuse i arp) (fun r b' => touched b b' t i /\
    r = (if assigned e && bool_decide (ip_src e = arp_ip_src arp) && bool_decide (ip_dst e = arp_ip_dst arp)
         then rx_client e else None)) b.
Proof.
  intros Hi Ht He. pose proof (good_start b Hi) as Hs.
  assert (touched b b t i) as Hto by (constructor; [done|done|by eauto]).
  unfold rlb_reuse. apply wp_bind. eapply wp_get_rx; [done..|]. cbv beta.
  destruct (assigned e) eqn:Ha; [|by apply wp_ret]. cbn [andb].
  destruct (bool_decide (ip_src e = _) && bool_decide (ip_dst e = _)).
  - apply wp_bind. eapply (wp_mono _ (fun _ b' => touched b b' t i)).
    { apply when_wp; intros _; [|done].
      eapply wp_mono; [eapply (mod_rx_quiet keep b); [done|done|done|done|by_quiet|]|].
      - intros. by rec_simpl.
      - cbv beta. intros _ b' [Hg' ->]. by eapply touched_alter. }
    cbv beta. intros _ b1 Hto1. pose proof Hto1 as [Hg1 _ (t1 & e1 & Ht1 & He1 & _)]. apply wp_bind.
    eapply wp_mono; [eapply (mod_rx_quiet keep b); [done|done|done|done|by_quiet|]|].
    + intros. by rec_simpl.
    + cbv beta. intros _ b' [Hg' ->]. apply wp_ret. split; [by eapply touched_alter|done].
  - apply wp_bind, wp_gets, wp_bind. eapply (wp_mono _ (fun _ b' => touched b b' t i)); [|intros _ b' Hto'; by apply wp_ret].
    destruct (curr_active_slave b) as [a|] eqn:Hact; [|done]. apply when_wp; intros _; [|done].
    apply wp_bind. eapply wp_mono; [eapply (set_client_ok keep b); try done|].
    { intros s [= <-]. by apply (inv_active _ Hi). }
    cbv beta. intros _ b1 [Hg1 ->]. apply wp_bind.
    eapply wp_get_rx; [by rec_simpl|by rewrite lookup_alter_eq, He|]. cbv beta.
    eapply wp_mono; [apply (rlb_update_client_ok keep b); [done|done|]|].
    + rec_simpl. intros s [= <-]. by apply (inv_active _ Hi).
    + cbv beta. intros _ b2 [_ Hc2]. eapply touched_core; [|done]. by eapply touched_alter.
Qed.

(** The state while an entry is filled in: the lists, and the content of the entry. *)
Record stage (b1 b : bonding) (t0 : rtable) (ul : list Z) (sl : Z -> list Z) (i : Z)
    (e : rlb_client_info) : Prop := {
  st_rest : rx_rest b = rx_rest b1;
  st_table : exists t, rx_hashtbl b = Some t /\ links (rx_hashtbl_used_head b) t ul sl /\
    (forall y, y <> i -> content <$> t !! y = content <$> t0 !! y) /\
    content <$> t !! i = Some (content e)
}.

Lemma stage_mod b1 b t0 ul sl i e f :
  stage b1 b t0 ul sl i e -> (forall e, same_links e (f e)) ->
  (forall e e', content e' = content e -> content (f e') = content (f e)) ->
  wp (mod_rx i f) (fun _ b' => stage b1 b' t0 ul sl i (f e)) b.
Proof.
  intros [Hr (t & Ht & Hl & Ho & Hi)] Hf Hc. pose proof Hi as (e1 & He1 & Hc1)%fmap_Some.
  eapply wp_mod_rx; [done|by eauto|]. constructor.
  - rewrite <-Hr. unfold rx_rest. by rec_simpl.
  - exists (alter f i t). rec_simpl. split_and!; [done|by apply links_alter| |].
    + intros y Hy. rewrite lookup_alter_ne by done. by apply Ho.
    + rewrite lookup_alter_eq, He1. cbn. f_equal. by apply Hc.
Qed.

Lemma stage_frame b1 b b' t0 ul sl i e :
  stage b1 b t0 ul sl i e -> core b' = core b -> stage b1 b' t0 ul sl i e.
Proof.
  intros [Hr (t & Ht & Hl & Hrest)]. unfold core. intros [= E1 E2 E3 E4 E5 E6 E7 E8 E9 E10 E11 E12].
  constructor; [|exists t; rewrite E7, E8; done].
  rewrite <-Hr. unfold rx_rest. by rewrite E1, E2, E3, E4, E5, E6, E9, E10, E11, E12.
Qed.
Lemma stage_start R b0 b t ul sl i e :
  good R b0 b -> lists b t ul sl -> t !! i = Some e -> stage b b t ul sl i e.
Proof. intros Hg [Ht Hl _] He. constructor; [done|]. exists t. split_and!; [done..|by rewrite He]. Qed.

(** The entry is put on the list of its new source. *)
Definition relinked (sl : Z -> list Z) (h i : Z) : Z -> list Z :=
  fun x => if decide (x = h) then i :: filter (fun y => y <> i) (sl h) else filter (fun y => y <> i) (sl x).

Lemma elem_of_relinked sl h i y x :
  (y ∈ relinked sl h i x) <-> if decide (y = i) then x = h else y ∈ sl x.
Proof.
  unfold relinked. case_decide as Ex; rewrite ?elem_of_cons, elem_of_filter_out; case_decide as Ey; subst; naive_solver.
Qed.

Lemma relink_step b t ul sl i h e :
  stage b b t ul sl i e -> rx_index i -> rx_index h ->
  wp (rlb_src_unlink i ;;; rlb_src_link h i) (fun _ b' => stage b b' t ul (relinked sl h i) i e) b.
Proof.
  intros [_ (t0 & Ht & Hl & Ho & Hi)] Hidx Hh. pose proof (ln_dom _ _ _ _ Hl) as Hd.
  pose proof (links_src_unlink _ _ _ _ i Hl Hidx) as Hl1.
  assert (forall y, is_Some (src_unlinked t0 i !! y) <-> rx_index y) as Hd1.
  { intros y. rewrite <-Hd. apply content_dom, content_src_unlinked. }
  apply wp_bind. eapply rlb_src_unlink_run; [done|by apply Hd| | |].
  1,2: eapply links_linked; [done|cbn; tauto].
  eapply rlb_src_link_run; [by rec_simpl|by apply Hd1|by apply Hd1|eapply links_linked; [done|cbn; tauto]|].
  rewrite set_rx_twice. assert (same_content t0 (src_linked (src_unlinked t0 i) h i)) as Hc.
  { eapply content_trans; [apply content_src_unlinked|apply content_src_linked]. }
  constructor; [unfold rx_rest; by rec_simpl|]. eexists. rec_simpl. split_and!; [done| | |].
  - apply (links_src_link _ _ _ (fun x => filter (fun y => y <> i) (sl x))); [done|done|done|]. intros x. rewrite elem_of_filter_out. by intros [? _].
  - intros y Hy. rewrite Hc. by apply Ho.
  - by rewrite Hc.
Qed.

(** The entry is put on the list of used entries. *)
Lemma use_step b1 b t0 ul sl i e :
  stage b1 b t0 ul sl i e -> rx_index i -> i ∉ ul ->
  wp (let* prev_tbl_head := gets rx_hashtbl_used_head in
      modify (fun b => b <| rx_hashtbl_used_head := i |>) ;;;
      mod_rx i (fun e => e <| used_next := prev_tbl_head |>) ;;;
      when_ (negb (prev_tbl_head =? RLB_NULL_INDEX))
        (mod_rx prev_tbl_head (fun e => e <| used_prev := i |>)) ;;;
      mod_rx i (fun e => e <| assigned := true |>))
    (fun _ b' => stage b1 b' t0 (i :: ul) sl i (e <| assigned := true |>)) b.
Proof.
  intros [Hr (t & Ht & Hl & Ho & Hi)] Hidx Hout. pose proof (ln_dom _ _ _ _ Hl) as Hd.
  apply wp_bind, wp_gets, wp_bind, wp_mod, wp_bind. eapply wp_mod_rx; [by rec_simpl|by apply Hd|].
  cbv beta. apply wp_bind. eapply mod_rx_unless; [by rec_simpl| |].
  { intros Hne. rewrite some_alter. apply Hd, (ln_used_in _ _ _ _ Hl).
    pose proof (ln_used _ _ _ _ Hl) as Hc. destruct ul; [done|]. destruct Hc as (-> & _). by left. }
  rewrite set_rx_twice. fold (used_linked t (rx_hashtbl_used_head b) i). cbv beta.
  pose proof (content_used_linked t (rx_hashtbl_used_head b) i) as Hc.
  eapply stage_mod.
  - constructor; [rewrite <-Hr; unfold rx_rest; by rec_simpl|]. eexists. rec_simpl.
    split; [done|]. split; [by apply links_used_link|]. split; [|by rewrite Hc].
    intros y Hy. rewrite Hc. by apply Ho.
  - intros. unfold same_links. by rec_simpl.
  - intros e0 e' E. unfold content in *. rec_simpl. congruence.
Qed.

(** From a finished entry back to the invariant. *)
Lemma stage_good R b0 b b' t ul sl ul' sl' i e `{!Extends rx_side R} :
  good R b0 b -> lists b t ul sl -> stage b b' t ul' sl' i e -> assigned e = true ->
  (forall y, (y ∈ ul') <-> (y = i) \/ (y ∈ ul)) ->
  (forall y h, (y ∈ sl' h) <-> if decide (y = i) then h = _simple_hash (ip_src e) else y ∈ sl h) ->
  (forall s, rx_client e = Some s -> live (slaves b) s) ->
  good R b0 b' /\ exists t', rx_hashtbl b' = Some t' /\
    (forall y, y <> i -> content <$> t' !! y = content <$> t !! y) /\ content <$> t' !! i = Some (content e).
Proof.
  intros Hg [Ht Hl Hent] [Hr (t' & Ht' & Hl' & Ho & Hi)] Ha Hu Hs Hlive. split; [|by eauto].
  eapply good_rx; [done|done|done|by rewrite Ht|]. constructor; [exact Ht'|exact Hl'|].
  assert (slaves b' = slaves b) as -> by (unfold rx_rest in Hr; congruence).
  intros y e' He'. destruct (decide (y = i)) as [->|Hy].
  - rewrite He' in Hi. cbn in Hi. unfold content in Hi. injection Hi as Ei _ _ _ Eas _ Ecl _.
    constructor; rewrite ?Ei, ?Eas, ?Ecl, ?Ha; [|intros h|done|done].
    + rewrite Hu. naive_solver.
    + rewrite Hs, decide_True by done. naive_solver.
  - specialize (Ho y Hy). rewrite He' in Ho. destruct (t !! y) as [e0|] eqn:E0; [|done].
    cbn in Ho. unfold content in Ho. injection Ho as Ei _ _ _ Eas _ Ecl _. destruct (Hent y e0 E0) as [H1 H2 H3 H4].
    constructor; rewrite ?Ei, ?Eas, ?Ecl; [|intros h|done|done].
    + rewrite Hu, H1. naive_solver.
    + rewrite Hs, decide_False by done. apply H2.
Qed.
(** What an assignment leaves in the table: the new entry, and the others as they were. *)
Definition assigned_to (t t' : rtable) (i : Z) (arp : arp_pkt) (vlan : option Z) (s : positive) : Prop :=
  (forall y, y <> i -> content <$> t' !! y = content <$> t !! y) /\
  content <$> t' !! i = Some (arp_ip_src arp, arp_ip_dst arp, arp_mac_src arp, arp_mac_dst arp, true,
    is_valid_ether_addr (arp_mac_dst arp), Some s, default 0 vlan).

Ltac by_stage := first [done | intros; unfold same_links; by rec_simpl | intros; unfold content in *; rec_simpl; congruence].

Lemma rlb_assign_ok R b0 b t i arp vlan s `{!Extends rx_side R} :
  good R b0 b -> rx_hashtbl b = Some t -> rx_index i -> live (slaves b) s ->
  wp (rlb_assign i arp vlan s) (fun _ b' => good R b0 b' /\
    exists t', rx_hashtbl b' = Some t' /\ assigned_to t t' i arp vlan s) b.
Proof.
  intros Hg Ht Hidx Hs. destruct (good_lists _ _ _ _ Hg Ht) as (ul & sl & Hli).
  destruct (rx_index_some _ _ _ _ i Hli Hidx) as [e He]. pose proof (stage_start _ _ _ _ _ _ _ _ Hg Hli He) as Hst.
  destruct (li_entry _ _ _ _ Hli i e He) as [Hu Hsrc _ _].
  unfold rlb_assign. apply wp_bind. eapply wp_get_rx; [done..|]. cbv beta. apply wp_bind.
  eapply (wp_mono _ (fun _ b1 => exists sl1, stage b b1 t ul sl1 i e /\ forall y h,
    (y ∈ sl1 h) <-> if decide (y = i) then h = _simple_hash (arp_ip_src arp) else y ∈ sl h)).
  { apply when_wp; intros Hc.
    - eapply wp_mono; [apply relink_step; [done|done|apply simple_hash_index]|]. cbv beta. intros _ b1 Hst1.
      eexists. split; [done|]. intros y h. apply elem_of_relinked.
    - exists sl. split; [done|]. intros y h. destruct (decide (y = i)) as [->|]; [|reflexivity]. rewrite Hsrc.
      apply negb_false_iff, andb_true_iff in Hc as [Ha Hip%bool_decide_eq_true]. rewrite Ha, Hip. naive_solver. }
  cbv beta. intros _ b1 (sl1 & Hst1 & Hm). apply wp_bind.
  eapply wp_mono; [eapply stage_mod; by_stage|]. cbv beta. intros _ b2 Hst2. apply wp_bind.
  set (e2 := e <| ip_src := _ |> <| ip_dst := _ |> <| mac_dst := _ |> <| mac_src := _ |> <| rx_client := _ |>) in *.
  eapply (wp_mono _ (fun _ b3 => stage b b3 t ul sl1 i (e2 <| ntt := is_valid_ether_addr (arp_mac_dst arp) |>))).
  { destruct (is_valid_ether_addr (arp_mac_dst arp)).
    - apply wp_bind. eapply wp_mono; [eapply stage_mod; by_stage|]. cbv beta. intros _ b3 Hst3. apply wp_mod.
      eapply stage_frame; [done|unfold core; by rec_simpl].
    - eapply stage_mod; by_stage. }
  intros _ b3 Hst3. apply wp_bind. eapply wp_mono; [eapply stage_mod; by_stage|]. cbv beta. intros _ b4 Hst4.
  set (e4 := e2 <| ntt := _ |> <| vlan_id := _ |>) in *.
  assert (content (e4 <| assigned := true |>) = (arp_ip_src arp, arp_ip_dst arp, arp_mac_src arp, arp_mac_dst arp, true,
    is_valid_ether_addr (arp_mac_dst arp), Some s, default 0 vlan)) as Hc4 by (unfold content; subst e4 e2; by rec_simpl).
  eapply (wp_mono _ (fun _ b5 => exists ul', stage b b5 t ul' sl1 i (e4 <| assigned := true |>) /\
    forall y, (y ∈ ul') <-> (y = i) \/ (y ∈ ul))).
  { apply when_wp; intros Ha.
    - eapply wp_mono; [apply use_step; [done|done|]|].
      + intros Hin%Hu. by rewrite Hin in Ha.
      + cbv beta. intros _ b5 Hst5. eexists. split; [done|]. intros y. apply elem_of_cons.
    - apply negb_false_iff in Ha. exists ul. split.
      + destruct Hst4 as [Hr (t4 & Ht4 & Hl4 & Ho4 & Hi4)]. constructor; [done|]. exists t4. split_and!; [done..|].
        rewrite Hi4, Hc4. subst e4 e2. unfold content. rec_simpl. by rewrite Ha.
      + intros y. split; [by right|]. intros [->|]; [by apply Hu|done]. }
  intros _ b5 (ul' & Hst5 & Hu').
  destruct (stage_good R b0 b b5 t ul sl ul' sl1 i _ Hg Hli Hst5) as [Hg5 Hres]; [by rec_simpl|done| | |].
  - intros y h. rewrite Hm. subst e4 e2. by rec_simpl.
  - subst e4 e2. rec_simpl. by intros ? [= <-].
  - split; [done|]. destruct Hres as (t5 & ? & ? & ?). exists t5. unfold assigned_to. rewrite <-Hc4. done.
Qed.
(** The slave of a client: the one it has, or the next in turn. *)
Definition keeps_slave (arp : arp_pkt) (e : rlb_client_info) : bool :=
  assigned e && bool_decide (ip_src e = arp_ip_src arp) && bool_decide (ip_dst e = arp_ip_dst arp) &&
  bool_decide (is_Some (rx_client e)).

Record served (b b' : bonding) (t : rtable) (i : Z) (e : rlb_client_info) (arp : arp_pkt)
    (vlan : option Z) (r : option positive) : Prop := {
  sv_keeps : keeps_slave arp e = true -> r = rx_client e;
  sv_new : keeps_slave arp e = false -> r = next_rx b /\ forall s, r = Some s ->
    exists t', rx_hashtbl b' = Some t' /\ assigned_to t t' i arp vlan s
}.

Lemma rlb_choose_channel_ok R b0 b t e vlan arp `{!Extends rx_side R, !Extends keep R} :
  good R b0 b -> rx_hashtbl b = Some t -> t !! _simple_hash (arp_ip_dst arp) = Some e ->
  wp (rlb_choose_channel vlan arp) (fun r b' => good R b0 b' /\
    served b b' t (_simple_hash (arp_ip_dst arp)) e arp vlan r /\ forall s, r = Some s -> live (slaves b0) s) b.
Proof.
  intros Hg Ht He. pose proof (simple_hash_index (arp_ip_dst arp)) as Hidx.
  set (i := _simple_hash (arp_ip_dst arp)) in *. unfold rlb_choose_channel. apply wp_bind.
  assert (forall s, live (slaves b) s -> live (slaves b0) s) as Hlive.
  { intros s. apply (same_live _ _ (ext_same (K := keep) (R := R) _ _ (proj2 Hg))). }
  eapply wp_mono; [eapply rlb_reuse_ok; [apply Hg|done|done]|]. cbv beta. intros r b1 [Hto Hr].
  assert (keeps_slave arp e = bool_decide (is_Some r)) as Hks.
  { unfold keeps_slave. rewrite Hr. by destruct (assigned e && _ && _). }
  destruct r as [s|].
  - apply wp_ret. assert (rx_client e = Some s) as Es by (by destruct (assigned e && _ && _)).
    split_and!; [eapply keep_good; [done|done|apply Hto]|constructor; [done|by rewrite Hks]|].
    intros s' [= <-]. apply Hlive. by eapply entry_live.
  - pose proof Hto as [Hg1 Hrs (t1 & e1 & Ht1 & He1 & Ho1)]. pose proof (keep_good R b0 b b1 Hg Hg1) as Hg1'.
    pose proof Hg1 as [_ [[[Hsame _ _] Hsl _] _ _]].
    assert (rlb_enabled b1 = true) as Hen by (by apply (inv_rx_some _ (proj1 Hg1)); rewrite Ht1).
    assert (next_rx b1 = next_rx b) as Hnx by (unfold next_rx; by rewrite Hrs, Hsl, (same_list _ _ Hsame)).
    apply wp_bind. eapply wp_mono; [by apply (next_rx_ok R b0)|]. cbv beta.
    intros r b2 (Hg2 & -> & Ht2 & Hs2 & Hel & _). rewrite Hnx in *. destruct (next_rx b) as [s|] eqn:En.
    + destruct (Hel s eq_refl) as (_ & sl & Hsl' & _). assert (live (slaves b2) s) as Hls by (rewrite Hs2; by exists sl).
      apply wp_bind. eapply wp_mono; [eapply (rlb_assign_ok R b0 b2 t1); [done|done|congruence|done|done]|].
      cbv beta. intros _ b3 (Hg3 & t3 & Ht3 & Hto3 & Hti3). apply wp_ret. split_and!; [done| |].
      * constructor; [by rewrite Hks|]. intros _. split; [done|]. intros s' [= <-]. exists t3. split; [done|].
        split; [|done]. intros y Hy. rewrite Hto3 by done. by rewrite Ho1.
      * intros s' [= <-]. apply Hlive. rewrite Hsl in Hsl'. by exists sl.
    + apply wp_ret. split_and!; [done| |done]. constructor; [by rewrite Hks|]. by intros _.
Qed.
End serve.

(** * Adaptive load balancing: taking turns

    [__rlb_next_rx_slave] hands out the fastest slaves in the order of the list, beginning
    after the last one used.  Where all slaves have the same speed this is round robin: as
    many calls as there are slaves give every slave once. *)

Section turn.
Context `{AlbLaws}.

(** ** The fastest slave *)

Lemma fastest_same v cs : (forall p, p ∈ cs -> p.2 = v) -> fastest cs = hd_error cs.
Proof.
  intros Hv. pose proof (fastest_spec cs) as Hf. destruct (fastest cs) as [[s w]|]; [|by subst].
  destruct Hf as (l1 & l2 & -> & H1 & _). destruct l1 as [|p l1]; [done|].
  assert (p.2 < w) as Hlt by (apply H1; set_solver). pose proof (Hv p) as Hp. pose proof (Hv (s, w)) as Hs.
  rewrite Hp in Hlt by set_solver. cbn in Hs. rewrite Hs in Hlt by set_solver. lia.
Qed.

Lemma candidates_mem m l s sl :
  s ∈ l -> m !! s = Some sl -> can_tx sl = true -> (s, speed sl) ∈ candidates m l.
Proof. intros Hin Hs Hc. apply list_elem_of_omap. exists s. by rewrite Hs, Hc. Qed.

Lemma candidates_nodup m l : NoDup l -> NoDup (candidates m l).*1.
Proof.
  induction 1 as [|s l Hs Hnd IH]; cbn; [constructor|].
  destruct (m !! s) as [sl|]; [|done]. destruct (can_tx sl); [|done]. cbn. constructor; [|done].
  rewrite list_elem_of_fmap. intros (p & -> & Hp). by apply candidates_in in Hp as [? _].
Qed.

(** The slave that is handed out is as fast as any other, and comes before the others that
    are as fast. *)
Record turn (b : bonding) (r : option positive) : Prop := {
  tu_none : r = None -> forall s, ~ eligible b s;
  tu_some : forall s, r = Some s -> eligible b s;
  tu_fast : forall s sl s' sl', r = Some s -> slaves b !! s = Some sl ->
    eligible b s' -> slaves b !! s' = Some sl' -> speed sl' <= speed sl;
  tu_first : forall s sl, r = Some s -> slaves b !! s = Some sl ->
    exists l1 l2, in_turn (rx_slave b) (candidates (slaves b) (slave_list b)) = l1 ++ (s, speed sl) :: l2 /\
      forall p, p ∈ l1 -> p.2 < speed sl
}.

Lemma next_rx_turn b : turn b (next_rx b).
Proof.
  set (cs := in_turn (rx_slave b) (candidates (slaves b) (slave_list b))).
  assert (forall s sl, eligible b s -> slaves b !! s = Some sl -> (s, speed sl) ∈ cs) as Hmem.
  { intros s sl [Hin (sl0 & Hs0 & Hc)] Hs. simplify_eq. subst cs. rewrite in_turn_perm. by apply candidates_mem. }
  assert (forall s, next_rx b = Some s -> exists sl l1 l2, slaves b !! s = Some sl /\ cs = l1 ++ (s, speed sl) :: l2 /\
    (forall p, p ∈ l1 -> p.2 < speed sl) /\ (forall p, p ∈ l2 -> p.2 <= speed sl)) as Hnx.
  { intros s ([s' v] & Hf & ->)%fmap_Some. pose proof (fastest_spec cs) as Hsp. subst cs. rewrite Hf in Hsp.
    destruct Hsp as (l1 & l2 & Hcs & H1 & H2). assert ((s', v) ∈ candidates (slaves b) (slave_list b)) as Hv.
    { rewrite <-(in_turn_perm (rx_slave b)), Hcs. set_solver. }
    apply candidates_in in Hv as (_ & sl & Hsl & _ & Ev). cbn in Hsl, Ev. subst v. by exists sl, l1, l2. }
  constructor.
  - intros Hn%fmap_None s He. pose proof (fastest_spec cs) as Hsp. subst cs. rewrite Hn in Hsp.
    pose proof He as [_ (sl & Hsl & _)]. specialize (Hmem s sl He Hsl). rewrite Hsp in Hmem. by apply not_elem_of_nil in Hmem.
  - apply next_rx_eligible.
  - intros s sl s' sl' (sl0 & l1 & l2 & Hs0 & Hcs & H1 & H2)%Hnx Hs He Hs'. simplify_eq.
    specialize (Hmem s' sl' He Hs'). rewrite Hcs in Hmem.
    apply elem_of_app in Hmem as [Hm|[Hm|Hm]%elem_of_cons]; [specialize (H1 _ Hm)|injection Hm|specialize (H2 _ Hm)]; cbn in *; lia.
  - intros s sl (sl0 & l1 & l2 & Hs0 & Hcs & H1 & H2)%Hnx Hs. simplify_eq. eauto.
Qed.

(** ** Round robin *)

Lemma split_last_at p A B :
  (p.1 ∉ A.*1) -> split_last (Some p.1) (A ++ p :: B) = (A ++ [p], B).
Proof.
  induction A as [|q A IH]; cbn; intros Hp.
  - by rewrite bool_decide_true.
  - rewrite bool_decide_false by set_solver. by rewrite IH by set_solver.
Qed.

Lemma in_turn_rotate last cs p r :
  NoDup cs.*1 -> in_turn last cs = p :: r -> in_turn (Some p.1) cs = r ++ [p].
Proof.
  intros Hnd. pose proof (split_last_app last cs) as Hcs. unfold in_turn at 1.
  destruct (split_last last cs) as [A B]. cbn in Hcs |- *. destruct B as [|q B]; cbn.
  - intros ->. rewrite app_nil_r in Hcs. subst cs. unfold in_turn. cbn. by rewrite bool_decide_true.
  - intros [= -> <-]. subst cs. unfold in_turn. rewrite split_last_at; [cbn; by rewrite app_assoc|].
    rewrite fmap_app, fmap_cons in Hnd. apply NoDup_app in Hnd as (_ & Hd & _). intros Hin. apply (Hd _ Hin). by left.
Qed.

(** Calls for the next slave, one after another. *)
Fixpoint next_calls (n : nat) : M bonding (list (option positive)) :=
  match n with
  | O => ret []
  | S n => let* r := __rlb_next_rx_slave in let* l := next_calls n in ret (r :: l)
  end.

Lemma next_calls_run v l1 l2 b :
  NoDup (slave_list b) -> (forall s, s ∈ slave_list b -> live (slaves b) s) ->
  (forall p, p ∈ candidates (slaves b) (slave_list b) -> p.2 = v) ->
  in_turn (rx_slave b) (candidates (slaves b) (slave_list b)) = l1 ++ l2 ->
  wp (next_calls (length l1)) (fun l _ => l = map (fun p => Some p.1) l1) b.
Proof.
  intros Hnd Hl Hv. revert b l2 Hnd Hl Hv. induction l1 as [|p l1 IH]; intros b l2 Hnd Hl Hv Hin; cbn; [done|].
  assert (next_rx b = Some p.1) as Hnx.
  { unfold next_rx. rewrite (fastest_same v); [by rewrite Hin|]. intros q. rewrite in_turn_perm. apply Hv. }
  apply wp_bind. apply __rlb_next_rx_slave_run; [done|]. rewrite Hnx. apply wp_bind.
  eapply wp_mono; [apply (IH _ (l2 ++ [p])); rec_simpl; try done|].
  - rewrite app_assoc. apply (in_turn_rotate (rx_slave b)); [by apply candidates_nodup|done].
  - cbv beta. intros l b' ->. by apply wp_ret.
Qed.

Lemma candidates_eligible b p :
  p ∈ candidates (slaves b) (slave_list b) <->
  eligible b p.1 /\ exists sl, slaves b !! p.1 = Some sl /\ p.2 = speed sl.
Proof.
  destruct p as [s w]. cbn. split.
  - intros (Hin & sl & Hs & Hc & Hw)%candidates_in. split; [split|]; eauto.
  - intros [[Hin (sl & Hs & Hc)] (sl' & Hs' & ->)]. simplify_eq. by apply candidates_mem.
Qed.

Lemma next_calls_spread v b :
  NoDup (slave_list b) -> (forall s, s ∈ slave_list b -> live (slaves b) s) ->
  (forall s sl, eligible b s -> slaves b !! s = Some sl -> speed sl = v) ->
  wp (next_calls (length (candidates (slaves b) (slave_list b))))
    (fun l _ => NoDup l /\ forall s, (Some s ∈ l) <-> eligible b s) b.
Proof.
  intros Hnd Hl Hv. set (cs := in_turn (rx_slave b) (candidates (slaves b) (slave_list b))).
  assert (cs ≡ₚ candidates (slaves b) (slave_list b)) as Hp by apply in_turn_perm.
  rewrite <-(Permutation_length Hp). eapply wp_mono; [apply (next_calls_run v cs []); try done; [|by rewrite app_nil_r]|].
  - intros q (He & sl & Hs & ->)%candidates_eligible. by apply (Hv q.1).
  - cbv beta. intros l _ ->. split.
    + rewrite <-(map_map fst Some). apply (NoDup_fmap_2 Some). rewrite Hp. by apply candidates_nodup.
    + intros s. split.
      * intros (q & [= ->] & Hq)%list_elem_of_fmap. rewrite Hp in Hq. by apply candidates_eligible in Hq as [? _].
      * intros He. pose proof He as [_ (sl & Hs & _)]. apply list_elem_of_fmap. exists (s, speed sl). split; [done|].
        rewrite Hp. apply candidates_eligible. eauto.
Qed.
End turn.
