(* ===== verification/AlbMac.v ===== *)
(** * Adaptive load balancing: hardware addresses

    Setting, swapping and unwinding addresses keep the invariant.  If devices let their
    address be changed, a slave that is added gets an address that no other slave has. *)

From S2P Require Import Prelude.
From S2P Require Import AlbTypes.
From S2P Require Import AlbOps.
From S2P Require Import AlbEntry.
From S2P Require Import AlbLinks.
From S2P Require Import AlbInv.
From S2P Require Import AlbTlb.
From S2P Require Import AlbRlb.
From S2P Require Import AlbSide.
From S2P Require Import AlbServe.

Section mac.
Context `{AlbLaws}.

Ltac by_core := first [done | eapply good_core; [done|done|unfold core; by rec_simpl]].

(** ** One slave *)

(** A change of a slave that is no concern of transmit load balancing. *)
Lemma good_slave R b0 b s sl sl' `{!Extends mac_side R} :
  good R b0 b -> slaves b !! s = Some sl -> head sl' = head sl -> env sl' = env sl ->
  good R b0 (b <| slaves ::= <[s := sl']> |>).
Proof.
  intros Hg Hs Hh He. pose proof (fmap_insert_same env (slaves b) s sl sl' Hs He) as Henv.
  eapply good_step; [done|done| |].
  - constructor; [constructor|..]; rec_simpl; done.
  - eapply inv_tlb; [apply Hg|unfold tlb_core; by rec_simpl|..]; rec_simpl.
    + intros s'. unfold live. by rewrite <-!(fmap_is_Some env), Henv.
    + done.
    + apply heads_insert; [apply Hg|]. rewrite Hh. eapply (inv_heads _ (proj1 Hg)); done.
    + intros t Ht. eapply tx_ok_slave; [by apply Hg|done|done].
Qed.

Lemma addr_of_insert b s sl' s' :
  addr_of (b <| slaves ::= <[s := sl']> |>) s' = if decide (s' = s) then Some (dev_addr sl') else addr_of b s'.
Proof.
  unfold addr_of. rec_simpl. case_decide; [subst; by rewrite lookup_insert_eq|by rewrite lookup_insert_ne].
Qed.

(** The address that the hardware of a slave listens to. *)
Definition hw_of (b : bonding) (s : positive) : option mac_addr := hw_addr <$> slaves b !! s.

Lemma hw_of_insert b s sl' s' :
  hw_of (b <| slaves ::= <[s := sl']> |>) s' = if decide (s' = s) then Some (hw_addr sl') else hw_of b s'.
Proof.
  unfold hw_of. rec_simpl. case_decide; [subst; by rewrite lookup_insert_eq|by rewrite lookup_insert_ne].
Qed.

(** Devices that let their address be changed: always in TLB mode, where the address of the
    device itself stays. *)
Definition reliable (b : bonding) : Prop := mode_tlb b = true \/ forall n, succeeds n = true.

(** The address of slave [s] is set to [a], or setting it failed. *)
Record readdressed (b b' : bonding) (s : positive) (a : mac_addr) (res : Z) : Prop := {
  ra_bond : bond_addr b' = bond_addr b;
  ra_other : forall s', s' <> s -> addr_of b' s' = addr_of b s';
  ra_this : addr_of b' s = (if res =? 0 then Some a else addr_of b s);
  ra_reliable : reliable b -> res = 0
}.

Lemma dev_addr_set_ok R b0 b s a `{!Extends mac_side R} :
  good R b0 b -> live (slaves b0) s ->
  wp (dev_addr_set s a) (fun _ b' => good R b0 b' /\ readdressed b b' s a 0 /\
    calls b' = calls b /\ forall s', hw_of b' s' = hw_of b s') b.
Proof.
  intros Hg Hs. destruct (good_live mac_side _ _ _ _ Hg Hs) as [sl Hsl]. unfold dev_addr_set.
  eapply wp_mod_slave; [done|]. split_and!.
  - eapply good_slave; [done|done|done|by rec_simpl|unfold env; by rec_simpl].
  - constructor; [by rec_simpl| | |done].
    + intros s' Hne. by rewrite addr_of_insert, decide_False.
    + rewrite addr_of_insert, decide_True by done. by rec_simpl.
  - by rec_simpl.
  - intros s'. rewrite hw_of_insert. case_decide; [|done]. subst. rec_simpl. unfold hw_of. by rewrite Hsl.
Qed.

Lemma dev_set_mac_address_ok R b0 b s a `{!Extends mac_side R} :
  good R b0 b -> live (slaves b0) s ->
  wp (dev_set_mac_address s a) (fun ok b' => good R b0 b' /\ bond_addr b' = bond_addr b /\
    ok = succeeds (calls b) /\ calls b' = calls b + 1 /\
    (forall s', addr_of b' s' = if ok && bool_decide (s' = s) then Some a else addr_of b s') /\
    forall s', hw_of b' s' = if ok && bool_decide (s' = s) then Some a else hw_of b s') b.
Proof.
  intros Hg Hs. unfold dev_set_mac_address. apply wp_bind. unfold try_call.
  apply wp_bind, wp_gets, wp_bind, wp_mod, wp_ret, wp_bind.
  assert (good R b0 (b <| calls := calls b + 1 |>)) as Hg1.
  { eapply good_step; [done|done| |].
    - by constructor; [constructor|..]; rec_simpl.
    - eapply inv_core; [|apply Hg]. unfold core. by rec_simpl. }
  destruct (good_live mac_side _ _ _ _ Hg1 Hs) as [sl Hsl]. apply when_wp; intros ->.
  - eapply wp_mod_slave; [done|]. apply wp_ret. split_and!; [|by rec_simpl|done|by rec_simpl| |].
    + eapply good_slave; [done|done|done|by rec_simpl|unfold env; by rec_simpl].
    + intros s'. rewrite addr_of_insert. cbn. case_decide; case_bool_decide; by rec_simpl.
    + intros s'. rewrite hw_of_insert. cbn. case_decide; case_bool_decide; by rec_simpl.
  - apply wp_ret. split_and!; [done|by rec_simpl|done|by rec_simpl| |]; intros s'; cbn; unfold addr_of, hw_of; by rec_simpl.
Qed.

Lemma set_addr_ok R b0 b s a `{!Extends mac_side R} :
  good R b0 b -> live (slaves b0) s ->
  wp (alb_set_slave_mac_addr s a) (fun res b' => good R b0 b' /\ readdressed b b' s a res) b.
Proof.
  intros Hg Hs. unfold alb_set_slave_mac_addr. apply wp_bind, wp_gets.
  destruct (mode_tlb b) eqn:Hm.
  - apply wp_bind. eapply wp_mono; [by eapply dev_addr_set_ok|]. cbv beta. intros _ b' (Hg' & Hr & _). by apply wp_ret.
  - apply wp_bind. eapply wp_mono; [by eapply dev_set_mac_address_ok|]. cbv beta.
    intros ok b' (Hg' & Hb & Hok & _ & Ha & _). apply wp_ret. split; [done|].
    destruct errors_nonzero as (_ & _ & Hne & _). constructor; [done| | |].
    + intros s' Hs'. rewrite Ha, bool_decide_false by done. by rewrite andb_false_r.
    + rewrite Ha, bool_decide_true by done. destruct ok; cbn; [done|].
      destruct (Z.eqb_spec (- EOPNOTSUPP) 0); [lia|done].
    + intros [Hr|Hr]; [congruence|]. by rewrite Hok, Hr.
Qed.

Lemma readdressed_mode R b0 b b' `{!Extends mac_side R} : good R b0 b -> good R b0 b' -> mode_tlb b' = mode_tlb b.
Proof.
  intros [_ H1] [_ H2]. apply (ext_same (K := mac_side)) in H1. apply (ext_same (K := mac_side)) in H2.
  by rewrite (same_mode _ _ H1), (same_mode _ _ H2).
Qed.

(** The addresses of two slaves are exchanged. *)
Record swapped (b b' : bonding) (s1 s2 : positive) : Prop := {
  sw_bond : bond_addr b' = bond_addr b;
  sw_other : forall s, s <> s1 -> s <> s2 -> addr_of b' s = addr_of b s;
  sw_these : reliable b -> addr_of b' s1 = addr_of b s2 /\ addr_of b' s2 = addr_of b s1
}.

Lemma alb_swap_mac_addr_ok R b0 b s1 s2 `{!Extends mac_side R} :
  good R b0 b -> live (slaves b0) s1 -> live (slaves b0) s2 ->
  wp (alb_swap_mac_addr s1 s2) (fun _ b' => good R b0 b' /\ swapped b b' s1 s2) b.
Proof.
  intros Hg Hs1 Hs2. destruct (good_live mac_side _ _ _ _ Hg Hs1) as [sl1 Hsl1].
  destruct (good_live mac_side _ _ _ _ Hg Hs2) as [sl2 Hsl2]. unfold alb_swap_mac_addr.
  apply wp_bind. eapply wp_slave; [done|]. cbv beta zeta. apply wp_bind. eapply wp_slave; [done|]. cbv beta.
  apply wp_bind. eapply wp_mono; [by eapply set_addr_ok|]. cbv beta. intros r1 b1 [Hg1 [B1 O1 T1 R1]].
  apply wp_bind. eapply wp_mono; [eapply set_addr_ok; [done|exact Hg1|done]|]. cbv beta. intros r2 b2 [Hg2 [B2 O2 T2 R2]].
  apply wp_ret. split; [done|]. constructor; [congruence| |].
  - intros s N1 N2. rewrite O2, O1 by done. done.
  - intros Hr. assert (reliable b1) as Hr1.
    { unfold reliable. by rewrite (readdressed_mode R b0 b b1). }
    rewrite (R1 Hr) in T1. rewrite (R2 Hr1) in T2. cbn in T1, T2.
    assert (addr_of b s1 = Some (dev_addr sl1)) as A1 by (unfold addr_of; by rewrite Hsl1).
    assert (addr_of b s2 = Some (dev_addr sl2)) as A2 by (unfold addr_of; by rewrite Hsl2).
    split; [|by rewrite T2, A1]. destruct (decide (s1 = s2)) as [->|Hne].
    + by rewrite T2, A1.
    + by rewrite O2, T1, A2 by done.
Qed.
(** ** Telling switch and clients *)

Lemma fasten_one_ok b s : inv b -> live (slaves b) s -> wp (fasten_one s) (fun _ b' => good keep b b') b.
Proof.
  intros Hi Hs. pose proof Hs as [sl Hsl]. pose proof (good_start b Hi) as Hg. unfold fasten_one.
  apply wp_bind. eapply wp_slave; [done|]. cbv beta. destruct (can_tx sl); [|done].
  apply wp_bind. eapply wp_mono; [by apply (alb_send_learning_packets_ok keep b)|]. cbv beta. intros _ b1 [Hg1 _].
  apply wp_bind, wp_gets, wp_bind. eapply (wp_mono _ (fun _ b' => good keep b b')); [|done].
  apply when_wp; intros Hen; [|done]. by apply (rlb_req_update_slave_clients_ok keep b).
Qed.

Lemma keep_live b b' s : good keep b b' -> live (slaves b) s -> live (slaves b') s.
Proof. intros [_ [[_ Hs _] _ _]]. by rewrite Hs. Qed.

Lemma alb_fasten_mac_swap_ok b s1 s2 :
  inv b -> live (slaves b) s1 -> live (slaves b) s2 -> wp (alb_fasten_mac_swap s1 s2) (fun _ b' => good keep b b') b.
Proof.
  intros Hi H1 H2. pose proof (good_start b Hi) as Hg. unfold alb_fasten_mac_swap.
  apply wp_bind. eapply wp_mono; [by apply fasten_one_ok|]. cbv beta. intros c1 b1 Hg1.
  apply wp_bind. eapply wp_mono; [apply fasten_one_ok; [apply Hg1|by eapply keep_live]|]. cbv beta. intros c2 b2 Hg2'.
  pose proof (keep_good keep b b1 b2 Hg1 Hg2') as Hg2.
  apply wp_bind, wp_gets, when_wp; intros _; [|done].
  assert (live (slaves b2) (if c2 then s1 else s2)) as [sl Hsl] by (eapply keep_live; [done|]; by destruct c2).
  apply wp_bind. eapply wp_slave; [done|]. cbv beta.
  eapply wp_mono; [by apply (rlb_teach_disabled_mac_on_primary_ok keep b)|]. by intros _ b3 [? _].
Qed.

(** ** Searching for an address *)

Lemma listed_spec b s sl :
  ((s, sl) ∈ omap (fun s => pair s <$> slaves b !! s) (slave_list b)) <->
  (s ∈ slave_list b) /\ slaves b !! s = Some sl.
Proof.
  rewrite list_elem_of_omap. split.
  - intros (s' & Hs' & E). apply fmap_Some in E as (sl' & E & [= <- <-]). done.
  - intros [Hs E]. exists s. by rewrite E.
Qed.

(** The answer to the question who has an address. *)
Definition holder (b : bonding) (a : mac_addr) (r : option positive) : Prop :=
  match r with
  | Some s => (s ∈ slave_list b) /\ addr_of b s = Some a
  | None => forall s, s ∈ slave_list b -> addr_of b s <> Some a
  end.

Lemma has_mac_ok b a (Q : option positive -> bonding -> Prop) :
  (forall r, holder b a r -> Q r b) -> wp (has_mac a) Q b.
Proof.
  intros HQ. unfold has_mac, listed. apply wp_bind, wp_bind, wp_gets, wp_bind, wp_gets, wp_ret, wp_ret, HQ.
  unfold holder, addr_of. destruct (bond_slave_has_mac _ a) as [s|] eqn:E.
  - apply has_mac_some in E as (sl & [Hs Hsl]%listed_spec & <-). by rewrite Hsl.
  - intros s Hs Ha. apply fmap_Some in Ha as (sl & Hsl & ->).
    eapply (has_mac_none _ _ E s sl); [|done]. by apply listed_spec.
Qed.

Lemma alb_change_hw_addr_on_detach_ok R b0 b s `{!Extends mac_side R, !Extends keep R} :
  good R b0 b -> live (slaves b0) s ->
  wp (alb_change_hw_addr_on_detach s) (fun _ b' => good R b0 b' /\
    exists f, swapped b b' s f /\ ((f = s) \/ (f ∈ slave_list b))) b.
Proof.
  intros Hg Hs. destruct (good_live mac_side _ _ _ _ Hg Hs) as [sl Hsl]. unfold alb_change_hw_addr_on_detach.
  assert (swapped b b s s) as Hid by (by constructor).
  apply wp_bind. eapply wp_slave; [done|]. cbv beta. apply wp_bind, wp_gets, when_wp; intros _; [|by eauto].
  apply wp_bind, has_mac_ok. intros [f|] Hf; [|apply wp_ret; by eauto]. destruct Hf as [Hf _].
  assert (forall b', good R b0 b' -> forall x, live (slaves b') x <-> live (slaves b0) x) as Hlive.
  { intros b' [_ Hr]. by apply same_live, (ext_same (K := mac_side)). }
  assert (live (slaves b0) f) as Hlf by (apply (Hlive b Hg), Hg, Hf).
  apply wp_bind. eapply wp_mono; [by eapply alb_swap_mac_addr_ok|]. cbv beta. intros _ b1 [Hg1 Hsw].
  eapply wp_mono; [apply alb_fasten_mac_swap_ok; [apply Hg1|by apply Hlive|by apply Hlive]|]. cbv beta.
  intros _ b2 Hg2. split; [by eapply keep_good|]. destruct Hg2 as [Hi2 [[[Hsame Haddr Hbond] _ Htx] _ _]].
  exists f. split; [|by right]. destruct Hsw as [B O T]. constructor; [congruence| |].
  - intros s' N1 N2. rewrite Haddr. auto.
  - intros Hr. rewrite !Haddr. auto.
Qed.
(** ** An address for a new slave *)

Definition perm_of (b : bonding) (s : positive) : option mac_addr := perm_hwaddr <$> slaves b !! s.

(** The address [a] is of no slave on the list. *)
Definition unused (b : bonding) (a : mac_addr) : Prop := forall s, s ∈ slave_list b -> addr_of b s <> Some a.

Lemma find_free_mac_ok b (Q : option positive * bool -> bonding -> Prop) :
  (forall s, s ∈ slave_list b -> live (slaves b) s) ->
  (forall f hb, (f ∈ slave_list b) -> (forall a, perm_of b f = Some a -> unused b a) -> Q (Some f, hb) b) ->
  (forall hb, (hb = false -> unused b (bond_addr b)) -> Q (None, hb) b) ->
  wp find_free_mac Q b.
Proof.
  intros Hl HS HN. unfold find_free_mac. apply wp_bind, wp_gets, wp_bind, wp_gets.
  eapply (wp_for_each (fun pre a b' => b' = b /\ a.1 = None /\
    (a.2 = false -> forall s, s ∈ pre -> addr_of b s <> Some (bond_addr b)))).
  - split_and!; [done|done|]. intros _ s Hs. by apply not_elem_of_nil in Hs.
  - intros pre s post [r hb] b' Hpre (-> & _ & Hhb). cbn in Hhb.
    assert (s ∈ slave_list b) as Hin by (rewrite Hpre; set_solver).
    destruct (Hl s Hin) as [sl Hs]. apply wp_bind. eapply wp_slave; [done|]. cbv beta.
    apply wp_bind, has_mac_ok. intros [u|] Hu.
    + apply wp_bind, wp_gets, wp_ret. split_and!; [done|done|]. cbn.
      intros [Hh He]%orb_false_iff s' [Hs'|Hs'%list_elem_of_singleton]%elem_of_app; [auto|]. subst s'.
      unfold addr_of. rewrite Hs. intros [= E]. apply ether_addr_equal_spec in E. congruence.
    + apply wp_ret. apply HS; [done|]. intros a. unfold perm_of. rewrite Hs. by intros [= <-].
  - intros [r hb] b' (-> & Hr & Hhb). cbn in Hr, Hhb. subst. apply HN. intros E s Hs. by apply Hhb.
Qed.

Lemma readdressed_list R b0 b b' `{!Extends mac_side R} : good R b0 b -> good R b0 b' -> slave_list b' = slave_list b.
Proof.
  intros [_ H1] [_ H2]. apply (ext_same (K := mac_side)) in H1. apply (ext_same (K := mac_side)) in H2.
  by rewrite (same_list _ _ H1), (same_list _ _ H2).
Qed.

Lemma good_perm R b0 b b' s `{!Extends mac_side R} : good R b0 b -> good R b0 b' -> perm_of b' s = perm_of b s.
Proof.
  intros [_ H1] [_ H2]. apply (ext_same (K := mac_side)) in H1. apply (ext_same (K := mac_side)) in H2.
  pose proof (same_env _ _ H1 s) as E1. pose proof (same_env _ _ H2 s) as E2. rewrite <-E1 in E2.
  unfold perm_of, env in *. destruct (slaves b !! s), (slaves b' !! s); cbn in *; congruence.
Qed.

Lemma unused_other R b0 b b' s a `{!Extends mac_side R} :
  good R b0 b -> good R b0 b' -> s ∉ slave_list b -> (forall s', s' <> s -> addr_of b' s' = addr_of b s') ->
  unused b a -> unused b' a.
Proof.
  intros Hg Hg' Hs Ho Hu s' Hs'. rewrite (readdressed_list R b0 b b') in Hs' by done.
  rewrite Ho by (intros ->; done). by apply Hu.
Qed.

(** A slave that is not on the list yet, with its own address, gets one that is not used. *)
Lemma collision_ok R b0 b s `{!Extends mac_side R} :
  good R b0 b -> live (slaves b0) s -> s ∉ slave_list b ->
  wp (alb_handle_addr_collision_on_attach s) (fun res b' => good R b0 b' /\ bond_addr b' = bond_addr b /\
    (forall s', s' <> s -> addr_of b' s' = addr_of b s') /\
    (reliable b -> addr_of b s = perm_of b s -> res = 0 -> forall a, addr_of b' s = Some a -> unused b' a)) b.
Proof.
  intros Hg Hs Hout. destruct (good_live mac_side _ _ _ _ Hg Hs) as [sl Hsl].
  unfold alb_handle_addr_collision_on_attach. apply wp_bind, wp_gets.
  destruct (slave_list b) as [|x l] eqn:El.
  { apply wp_ret. split_and!; [done..|]. intros _ _ _ a _ s'. rewrite El. by intros ?%not_elem_of_nil. }
  rewrite <-El in Hout. clear El x l. apply wp_bind. eapply wp_slave; [done|]. cbv beta.
  apply wp_bind, wp_gets, wp_bind, has_mac_ok. intros used Hused.
  case_match eqn:Ec.
  { apply andb_true_iff in Ec as [_ ->%bool_decide_eq_true]. apply wp_ret. split_and!; [done..|].
    intros _ _ _ a Ha. unfold addr_of in Ha. rewrite Hsl in Ha. injection Ha as <-. exact Hused. }
  apply wp_bind. eapply (wp_mono _ (fun _ b1 => good R b0 b1 /\ bond_addr b1 = bond_addr b /\
    (forall s', s' <> s -> addr_of b1 s' = addr_of b s') /\
    (reliable b -> addr_of b s = perm_of b s -> addr_of b1 s = Some (bond_addr b)))).
  { apply when_wp; intros Ep.
    - apply wp_bind. eapply wp_mono; [by eapply set_addr_ok|]. cbv beta. intros res b1 [Hg1 [B O T Rl]].
      apply wp_ret. split_and!; [done..|]. intros Hr _. by rewrite T, Rl.
    - apply negb_false_iff, ether_addr_equal_spec in Ep. split_and!; [done..|]. intros _ ->.
      unfold perm_of. rewrite Hsl. cbn. congruence. }
  cbv beta. intros _ b1 (Hg1 & B1 & O1 & A1). apply wp_bind, find_free_mac_ok; [apply Hg1| |].
  - intros f hb Hf Hfree. assert (live (slaves b1) f) as [fl Hfl] by (apply Hg1, Hf).
    apply wp_bind. eapply wp_slave; [done|]. cbv beta.
    apply wp_bind. eapply wp_mono; [eapply set_addr_ok; [done|exact Hg1|done]|]. cbv beta. intros res b2 [Hg2 [B2 O2 T2 R2]].
    apply wp_ret. split_and!; [done|congruence|intros s' Hne; by rewrite O2, O1|].
    intros Hr Hp _ a Ha. assert (reliable b1) as Hr1 by (unfold reliable; by rewrite (readdressed_mode R b0 b b1)).
    rewrite T2, R2 in Ha by done. injection Ha as <-.
    eapply (unused_other R b0 b1 b2 s); [done|done|done| |exact O2|].
    + by rewrite (readdressed_list R b0 b b1).
    + apply Hfree. unfold perm_of. by rewrite Hfl.
  - intros hb Hhb. apply wp_ret. split_and!; [done|done|done|]. intros Hr Hp Hres a Ha.
    rewrite A1 in Ha by done. injection Ha as <-. rewrite <-B1. apply Hhb.
    destruct hb; [|done]. destruct errors_nonzero as (_ & He & _). lia.
Qed.
(** ** The address of the bond in TLB mode *)

(** The hardware of slave [s] was asked to listen to [a]. *)
Record hw_set (b b' : bonding) (s : positive) (a : mac_addr) (ok : bool) : Prop := {
  hs_ok : ok = succeeds (calls b);
  hs_calls : calls b' = calls b + 1;
  hs_addr : forall s', addr_of b' s' = addr_of b s';
  hs_bond : bond_addr b' = bond_addr b;
  hs_hw : forall s', hw_of b' s' = if ok && bool_decide (s' = s) then Some a else hw_of b s'
}.

Lemma set_hw_only_ok R b0 b s a `{!Extends mac_side R} :
  good R b0 b -> live (slaves b0) s ->
  wp (set_hw_only s a) (fun ok b' => good R b0 b' /\ hw_set b b' s a ok) b.
Proof.
  intros Hg Hs. destruct (good_live mac_side _ _ _ _ Hg Hs) as [sl Hsl]. unfold set_hw_only.
  apply wp_bind. eapply wp_slave; [done|]. cbv beta zeta. apply wp_bind.
  eapply wp_mono; [by eapply dev_set_mac_address_ok|]. cbv beta. intros ok b1 (Hg1 & B1 & Hok & C1 & A1 & W1).
  apply wp_bind. eapply wp_mono; [eapply dev_addr_set_ok; [done|exact Hg1|done]|]. cbv beta.
  intros _ b2 (Hg2 & [B2 O2 T2 _] & C2 & W2). apply wp_ret. split; [done|]. constructor; [done|congruence| |congruence|].
  - intros s'. destruct (decide (s' = s)) as [->|Hne].
    + rewrite T2. unfold addr_of. cbn. by rewrite Hsl.
    + rewrite O2, A1, bool_decide_false by done. by rewrite andb_false_r.
  - intros s'. by rewrite W2, W1.
Qed.

(** After a call of [set_all_mac]: the slave that failed, if any, and those before it. *)
Record all_set (b b' : bonding) (a : mac_addr) (l : list positive) : Prop := {
  as_addr : forall s, addr_of b' s = addr_of b s;
  as_bond : bond_addr b' = bond_addr b;
  as_list : slave_list b' = slave_list b;
  as_calls : calls b <= calls b';
  as_hw : forall s, hw_of b' s = if bool_decide (s ∈ l) then Some a else hw_of b s
}.

Lemma set_all_mac_ok R b0 b a `{!Extends mac_side R} :
  good R b0 b ->
  wp (set_all_mac a) (fun r b' => good R b0 b' /\
    match r with
    | None => all_set b b' a (slave_list b)
    | Some f => exists pre post, slave_list b = pre ++ f :: post /\ all_set b b' a pre /\
        exists n, n < calls b' /\ succeeds n = false
    end) b.
Proof.
  intros Hg. unfold set_all_mac. apply wp_bind, wp_gets.
  eapply (wp_for_each (fun pre r b' => r = None /\ good R b0 b' /\ all_set b b' a pre)).
  - split_and!; [done|done|]. constructor; [done|done|done|lia|]. intros s. by rewrite bool_decide_false by apply not_elem_of_nil.
  - intros pre s post r b1 Hl (-> & Hg1 & [A1 B1 L1 C1 W1]).
    assert (live (slaves b0) s) as Hs.
    { apply (same_live _ _ (ext_same (K := mac_side) _ _ (proj2 Hg))), Hg. rewrite Hl. set_solver. }
    apply wp_bind. eapply wp_mono; [by eapply set_hw_only_ok|]. cbv beta. intros ok b2 [Hg2 [K2 C2 A2 B2 W2]].
    apply wp_ret. pose proof (readdressed_list R b0 b b2 Hg Hg2) as L2. destruct ok.
    + split_and!; [done|done|]. constructor; [congruence|congruence|done|lia|].
      intros s'. rewrite W2, W1. cbn. destruct (decide (s' = s)) as [->|].
      * by rewrite !bool_decide_true by set_solver.
      * rewrite (bool_decide_false (s' = s)) by done. erewrite bool_decide_ext; [done|]. set_solver.
    + split; [done|]. exists pre, post. split_and!; [done| |].
      * constructor; [congruence|congruence|done|lia|]. intros s'. by rewrite W2, W1.
      * exists (calls b1). split; [lia|done].
  - intros r b1 (-> & Hg1 & Ha). done.
Qed.

(** Where a walk stands before it comes to [f]. *)
Lemma walk_before (l pre rest post : list positive) s f :
  pre ++ f :: post = l ++ s :: rest -> f ∉ l -> f ∉ pre -> if decide (s = f) then l = pre else s ∈ pre.
Proof.
  revert pre. induction l as [|y l IH]; intros [|z pre] E Hl Hp; cbn in E; injection E as -> E.
  - by rewrite decide_True.
  - rewrite decide_False by (intros ->; apply Hp; by left). by left.
  - destruct Hl. by left.
  - specialize (IH pre E). rewrite not_elem_of_cons in Hl, Hp. destruct Hl as [_ Hl], Hp as [_ Hp].
    specialize (IH Hl Hp). case_decide; [by subst|by right].
Qed.

Lemma unwind_mac_ok R b0 b f pre post `{!Extends mac_side R} :
  good R b0 b -> slave_list b = pre ++ f :: post ->
  wp (unwind_mac f) (fun _ b' => good R b0 b' /\ bond_addr b' = bond_addr b /\
    (forall s, addr_of b' s = addr_of b s) /\
    (forall s, s ∉ pre -> hw_of b' s = hw_of b s) /\
    ((forall n, calls b <= n -> succeeds n = true) -> forall s, s ∈ pre -> hw_of b' s = Some (bond_addr b))) b.
Proof.
  intros Hg Hl. assert (f ∉ pre) as Hf.
  { pose proof (inv_nodup _ (proj1 Hg)) as Hnd. rewrite Hl in Hnd. apply NoDup_app in Hnd as (_ & Hd & _).
    intros Hin. apply (Hd f Hin). by left. }
  unfold unwind_mac. apply wp_bind, wp_gets, wp_bind, wp_gets. rewrite Hl at 1.
  eapply (wp_for_each (fun l _ b' => good R b0 b' /\ bond_addr b' = bond_addr b /\ calls b <= calls b' /\
    (f ∉ l) /\ (forall s, addr_of b' s = addr_of b s) /\
    (forall s, s ∉ pre -> hw_of b' s = hw_of b s) /\
    ((forall n, calls b <= n -> succeeds n = true) -> forall s, s ∈ l -> hw_of b' s = Some (bond_addr b)))).
  - split_and!; try done; try lia; try set_solver.
  - intros l s rest [] b1 Hsp (Hg1 & B1 & C1 & Hfl & A1 & O1 & W1). case_bool_decide as Es.
    + subst s. apply wp_ret. split_and!; [done|done|done|done|]. intros Hn s Hs. apply W1; [done|].
      pose proof (walk_before _ _ _ _ _ _ Hsp Hfl Hf) as E. rewrite decide_True in E by done. by subst.
    + assert (live (slaves b0) s) as Hs.
      { apply (same_live _ _ (ext_same (K := mac_side) _ _ (proj2 Hg))), Hg. rewrite Hl, Hsp. set_solver. }
      apply wp_bind. eapply wp_mono; [by eapply set_hw_only_ok|]. cbv beta. intros ok b2 [Hg2 [K2 C2 A2 B2 W2]].
      apply wp_ret. split_and!; [done|congruence|lia|set_solver|congruence| |].
      * intros s' Hs'. rewrite W2. destruct (decide (s' = s)) as [->|]; [|rewrite bool_decide_false by done; rewrite andb_false_r; auto].
        exfalso. apply Hs'. pose proof (walk_before _ _ _ _ _ _ Hsp Hfl Hf) as E. by rewrite decide_False in E.
      * intros Hn s' [Hs'|Hs'%list_elem_of_singleton]%elem_of_app; rewrite W2, K2, Hn by lia; cbn.
        -- case_bool_decide; [done|auto].
        -- by rewrite bool_decide_true.
  - intros [] b1 (_ & _ & _ & Hfl & _). destruct Hfl. set_solver.
Qed.
(** All slaves listen to the new address; or an address could not be set, and if the other
    calls succeed no slave has stopped listening to the address of the bond. *)
Record mac_result (b b' : bonding) (a : mac_addr) (res : Z) : Prop := {
  mr_addr : forall s, addr_of b' s = addr_of b s;
  mr_bond : bond_addr b' = bond_addr b;
  mr_done : res = 0 -> forall s, s ∈ slave_list b -> hw_of b' s = Some a;
  mr_undone : res <> 0 -> exists n, succeeds n = false /\ ((forall m, m <> n -> succeeds m = true) ->
    forall s, s ∈ slave_list b -> hw_of b s = Some (bond_addr b) -> hw_of b' s = Some (bond_addr b))
}.

Lemma alb_set_mac_address_ok R b0 b a `{!Extends mac_side R} :
  good R b0 b ->
  wp (alb_set_mac_address a) (fun res b' => good R b0 b' /\
    if rlb_enabled b then b' = b /\ res = 0 else mac_result b b' a res) b.
Proof.
  intros Hg. unfold alb_set_mac_address. apply wp_bind, wp_gets. destruct (rlb_enabled b); [done|].
  apply wp_bind. eapply wp_mono; [by eapply set_all_mac_ok|]. cbv beta. intros [f|] b1 [Hg1 Hset].
  - destruct Hset as (pre & post & Hl & [A1 B1 L1 C1 W1] & n & Hn & Hfail). apply wp_bind.
    eapply wp_mono; [eapply unwind_mac_ok; [done|done|by rewrite L1]|]. cbv beta.
    intros _ b2 (Hg2 & B2 & A2 & O2 & W2). apply wp_ret. split; [done|].
    destruct errors_nonzero as (_ & _ & _ & He & _). constructor; [congruence|congruence|done|].
    intros _. exists n. split; [done|]. intros Hm s Hs Hw. destruct (decide (s ∈ pre)) as [Hp|Hp].
    + rewrite W2, B1; [done| |done]. intros m Hge. apply Hm. lia.
    + by rewrite O2, W1, bool_decide_false by done.
  - destruct Hset as [A1 B1 L1 C1 W1]. apply wp_ret. split; [done|]. constructor; [done|done| |done].
    intros _ s Hs. by rewrite W1, bool_decide_true.
Qed.
End mac.
