(* ===== verification/AlbXmit.v ===== *)
(** * Adaptive load balancing: opening, closing, packets and the monitor

    The tables are made and freed, packets are sent and ARP packets received, and the
    monitor runs: all keep the invariant. *)

From S2P Require Import Prelude.
From S2P Require Import BondHash.
From S2P Require Import BondSpec.
From S2P Require Import AlbTypes.
From S2P Require Import AlbOps.
From S2P Require Import AlbEntry.
From S2P Require Import AlbLinks.
From S2P Require Import AlbInv.
From S2P Require Import AlbTlb.
From S2P Require Import AlbRlb.
From S2P Require Import AlbSide.
From S2P Require Import AlbServe.

Section xmit.
Context `{AlbLaws}.

Ltac by_core := first [done | eapply good_core; [done|done|unfold core; by rec_simpl]].

(** ** Opening and closing *)

Lemma new_table_lookup {A} size (e : A) i :
  new_table size e !! i = if decide (0 <= i < size) then Some e else None.
Proof.
  unfold new_table. case_decide as Hi.
  - apply elem_of_list_to_map.
    + rewrite <-list_fmap_compose, (list_fmap_ext _ id), list_fmap_id by done. apply NoDup_seqZ.
    + apply list_elem_of_fmap. exists i. split; [done|]. apply elem_of_seqZ. lia.
  - apply not_elem_of_list_to_map. rewrite <-list_fmap_compose, (list_fmap_ext _ id), list_fmap_id by done.
    rewrite elem_of_seqZ. lia.
Qed.

Lemma new_table_some {A} size (e : A) i e' : new_table size e !! i = Some e' -> e' = e /\ 0 <= i < size.
Proof. rewrite new_table_lookup. case_decide; [|done]. by intros [= <-]. Qed.

Lemma new_table_dom {A} size (e : A) i : is_Some (new_table size e !! i) <-> 0 <= i < size.
Proof. rewrite new_table_lookup. case_decide; split; by eauto using is_Some_None. Qed.

Lemma new_tx_ok m : tx_ok m (new_table TLB_HASH_TABLE_SIZE (tlb_init_table_entry false tlb_entry_0)).
Proof.
  destruct (blank_init false tlb_entry_0) as [Hb Hn]. constructor.
  - intros i. apply new_table_dom.
  - intros i e [-> _]%new_table_some. by left.
  - by intros i e [-> _]%new_table_some.
  - intros i e s [-> _]%new_table_some. congruence.
Qed.

Lemma new_rx_ok m : rx_ok m RLB_NULL_INDEX (new_table RLB_HASH_TABLE_SIZE rlb_init_table_entry).
Proof.
  set (t := new_table _ _).
  assert (forall p, In p [used_next; used_prev; src_next; src_prev; src_first] -> forall i, rx_get p t i = RLB_NULL_INDEX) as Hg.
  { intros p Hp i. unfold rx_get. destruct (t !! i) as [e|] eqn:E; [|done]. apply new_table_some in E as [-> _].
    cbn in Hp. unfold rlb_init_table_entry, rlb_init_table_entry_src, rlb_init_table_entry_dst.
    destruct_or!; subst; cbn; by rec_simpl. }
  exists [], (fun _ => []). split.
  - constructor.
    + intros i. apply new_table_dom.
    + constructor.
    + by intros i ?%not_elem_of_nil.
    + done.
    + intros i _. by rewrite !Hg by (cbn; tauto).
    + intros h. constructor.
    + by intros h i ?%not_elem_of_nil.
    + by intros h h' i ?%not_elem_of_nil.
    + intros h. cbn. by rewrite Hg by (cbn; tauto).
    + intros i _. by rewrite !Hg by (cbn; tauto).
  - intros i e [-> _]%new_table_some.
    unfold rlb_init_table_entry, rlb_init_table_entry_src, rlb_init_table_entry_dst.
    constructor; rec_simpl; [set_solver|set_solver|done|done].
Qed.

(** The slaves, which the tables do not matter for. *)
Definition attached (b : bonding) := (slaves b, slave_list b, curr_active_slave b, mode_tlb b).

Lemma open_ok b :
  inv b -> tx_hashtbl b = None ->
  wp (bond_alb_initialize (negb (mode_tlb b))) (fun res b' => (inv b' /\ (is_Some (tx_hashtbl b') <-> res = 0)) /\
    attached b' = attached b) b.
Proof.
  intros Hi Ht. destruct errors_nonzero as (He & _).
  assert (rx_hashtbl b = None) as Hr.
  { destruct (rx_hashtbl b) eqn:E; [|done]. destruct (inv_rx_some _ Hi) as [_ Hs]; [by eauto|].
    rewrite Ht in Hs. by destruct Hs. }
  unfold bond_alb_initialize, tlb_initialize. apply wp_bind, wp_bind, wp_try_call. intros [|].
  2: { apply wp_ret. destruct (Z.eqb_spec (- ENOMEM) 0); [lia|]. apply wp_ret. split.
       - split; [eapply inv_core; [|done]; unfold core; by rec_simpl|].
         rec_simpl. rewrite Ht. split; [by intros []|done].
       - unfold attached. by rec_simpl. }
  apply wp_bind, wp_mod, wp_ret. cbn [negb Z.eqb].
  pose proof Hi as []. destruct (mode_tlb b) eqn:Hm; cbn [negb].
  - apply wp_bind, wp_mod, wp_ret.
    assert (rlb_enabled b = false) as Hen by (destruct (rlb_enabled b) eqn:E; [specialize (inv_mode eq_refl); congruence|done]).
    split; [split; [|rec_simpl; split; [done|by eexists]]|unfold attached; by rec_simpl]. constructor; rec_simpl; try done; try congruence.
    + intros ? [= <-]. apply new_tx_ok.
    + rewrite Hr. by intros [].
    + intros s Hs. destruct (inv_rx_slave s Hs). congruence.
  - unfold rlb_initialize. apply wp_bind, wp_bind, wp_try_call. intros [|].
    + apply wp_bind, wp_mod, wp_ret. cbn [negb Z.eqb]. apply wp_bind, wp_mod, wp_ret.
      split; [split; [|rec_simpl; split; [done|by eexists]]|unfold attached; by rec_simpl]. constructor; rec_simpl; try done; try (by eauto).
      * intros ? [= <-]. apply new_tx_ok.
      * intros ? [= <-]. apply new_rx_ok.
      * intros s Hs. split; [|done]. by apply inv_rx_slave.
    + apply wp_ret. cbn [negb Z.eqb]. apply wp_bind, wp_mod, wp_ret.
      split; [split|unfold attached; by rec_simpl].
      * constructor; rec_simpl; try done. rewrite Hr. by intros [].
      * rec_simpl. split; [by intros []|done].
Qed.

Lemma close_ok b : inv b -> wp bond_alb_deinitialize (fun _ b' => (inv b' /\ tx_hashtbl b' = None) /\
    attached b' = attached b) b.
Proof.
  intros []. unfold bond_alb_deinitialize. apply wp_bind, wp_mod, wp_bind, wp_gets. rec_simpl.
  apply when_wp; intros Hen; [apply wp_mod|]; (split; [split; [|by rec_simpl]|unfold attached; by rec_simpl]); constructor; rec_simpl;
    first [done | by intros [] | by intros _ [] | congruence | intros Hs; destruct (inv_rx_some Hs); congruence].
Qed.
(** ** Sending packets *)

Lemma good_begin b : inv b -> good still b b.
Proof. intros Hi. split; [done|apply still_refl]. Qed.

Lemma good_live_iff b0 b s : good still b0 b -> live (slaves b) s <-> live (slaves b0) s.
Proof. intros [_ [Hs _ _]]. by apply same_live. Qed.

(** A result that is a slave that exists. *)
Definition slave_or_none (b0 : bonding) (r : option positive) : Prop := forall s, r = Some s -> live (slaves b0) s.

(** The bytes of a packet are in one area. *)
Definition skb_linear (skb : sk_buff) : Prop := linear (skb_mem skb) /\ 0 <= network_offset (skb_si skb).

Lemma wp_xmit_hash skb b (Q : Z -> bonding -> Prop) :
  skb_linear skb -> (forall h, Q h b) -> wp (xmit_hash skb) Q b.
Proof. intros [Hl Hn] HQ. unfold xmit_hash, wp. by rewrite bond_xmit_hash_run. Qed.

Lemma by_hash_ok b0 b h :
  good still b0 b -> wp (by_hash h) (fun r b' => good still b0 b' /\ slave_or_none b0 r) b.
Proof.
  intros Hg. unfold by_hash. apply wp_bind, wp_gets. destruct (default [] (usable_slaves b)) as [|x l] eqn:E; [by apply wp_ret|].
  destruct (lookup_lt_is_Some_2 (x :: l) (Z.to_nat (h mod Z.of_nat (length (x :: l))))) as [s Hs].
  { pose proof (Z.mod_pos_bound h (Z.of_nat (length (x :: l)))). cbn [length] in *. lia. }
  rewrite Hs. apply wp_ret. split; [done|]. intros s' [= <-]. apply (good_live_iff b0 b); [done|].
  destruct (usable_slaves b) as [u|] eqn:Eu; [|done]. cbn in E. subst u.
  apply (inv_usable _ (proj1 Hg) _ Eu). by eapply list_elem_of_lookup_2.
Qed.

Lemma hash_index_some b t h :
  inv b -> tx_hashtbl b = Some t -> 0 <= h < 256 -> exists e, t !! h = Some e.
Proof.
  intros Hi Ht Hh. apply (tx_dom _ _ (inv_tx _ Hi t Ht)). unfold tx_index. pose proof tlb_size. lia.
Qed.

Lemma land_255 h : 0 <= Z.land h 255 < 256.
Proof. change 255 with (Z.ones 8). rewrite Z.land_ones by lia. apply Z.mod_pos_bound. lia. Qed.

Lemma choose_ok b0 b h len :
  good still b0 b -> is_Some (tx_hashtbl b0) -> 0 <= h < 256 ->
  wp (tlb_choose_channel h len) (fun r b' => good still b0 b' /\ slave_or_none b0 r) b.
Proof.
  intros Hg Ht Hh. apply (same_tx _ _ (sl_same _ _ (proj2 Hg))) in Ht as [t Ht].
  destruct (hash_index_some _ _ _ (proj1 Hg) Ht Hh) as [e He].
  eapply wp_mono; [by eapply (tlb_choose_channel_ok still b0)|]. cbv beta. intros r b' (Hg' & _ & Hl). done.
Qed.

Lemma bond_tx_drop_ok b0 b : good still b0 b -> wp bond_tx_drop (fun _ b' => good still b0 b') b.
Proof. intros Hg. unfold bond_tx_drop. apply wp_bind, wp_mod, wp_ret. by_core. Qed.

Lemma bond_dev_queue_xmit_ok b0 b s a :
  good still b0 b -> wp (bond_dev_queue_xmit s a) (fun _ b' => good still b0 b') b.
Proof.
  intros Hg. unfold bond_dev_queue_xmit, try_call. apply wp_bind, wp_mod, wp_bind, wp_bind, wp_gets, wp_bind, wp_mod.
  do 2 apply wp_ret. by_core.
Qed.

Lemma bond_do_alb_xmit_ok b0 b skb r :
  good still b0 b -> slave_or_none b0 r -> wp (bond_do_alb_xmit skb r) (fun _ b' => good still b0 b') b.
Proof.
  intros Hg Hr. unfold bond_do_alb_xmit. apply wp_bind, wp_gets, wp_bind, wp_gets, wp_bind.
  eapply (wp_mono _ (fun r b' => good still b0 b' /\ slave_or_none b0 r)).
  { destruct r as [s|]; [by apply wp_ret|]. apply wp_bind.
    eapply (wp_mono _ (fun _ b' => good still b0 b')).
    - apply when_wp; intros _; [apply wp_mod; by_core|done].
    - cbv beta. intros _ b' Hg'. apply wp_ret. split; [done|]. intros s Ha.
      apply (good_live_iff b0 b); [done|]. by apply (inv_active _ (proj1 Hg)). }
  cbv beta. intros [s|] b1 [Hg1 Hs]; [|by apply bond_tx_drop_ok].
  destruct (good_live still _ _ _ _ Hg1 (Hs s eq_refl)) as [sl Hsl].
  apply wp_bind. eapply wp_slave; [done|]. cbv beta. destruct (can_tx sl); [by apply bond_dev_queue_xmit_ok|].
  apply wp_bind. eapply (wp_mono _ (fun _ b' => good still b0 b')); [|cbv beta; intros _ b2 Hg2; by apply bond_tx_drop_ok].
  apply when_wp; intros _; [|done].
  eapply wp_mono; [eapply (tlb_clear_slave_ok still b0); [done|done|by apply Hs]|]. by intros _ b2 [? _].
Qed.

Lemma bond_tlb_xmit_ok b skb :
  inv b -> is_Some (tx_hashtbl b) -> skb_linear skb -> wp (bond_tlb_xmit skb) (fun _ b' => good still b b') b.
Proof.
  intros Hi Ht Hlin. pose proof (good_begin b Hi) as Hg. unfold bond_tlb_xmit. apply wp_bind.
  eapply (wp_mono _ (fun r b' => good still b b' /\ slave_or_none b r)).
  2: { cbv beta. intros r b' [Hg' Hr]. by apply bond_do_alb_xmit_ok. }
  unfold bond_xmit_tlb_slave_get. destruct (is_multicast_ether_addr (h_dest skb)); [by apply wp_ret|]. cbv zeta.
  case_match; [|by apply wp_ret]. apply wp_bind, wp_xmit_hash; [done|]. intros h. apply wp_bind, wp_gets.
  destruct (tlb_dynamic_lb b).
  - apply choose_ok; [done|done|apply land_255].
  - by apply by_hash_ok.
Qed.

Lemma rlb_arp_xmit_ok b skb :
  inv b -> is_Some (rx_hashtbl b) ->
  wp (rlb_arp_xmit skb) (fun r b' => good still b b' /\ slave_or_none b r.1) b.
Proof.
  intros Hi [t Ht]. pose proof (good_begin b Hi) as Hg.
  assert (rlb_enabled b = true) as Hen by (by apply (inv_rx_some _ Hi); rewrite Ht).
  destruct (good_lists _ _ _ _ Hg Ht) as (ul & sl & Hli).
  unfold rlb_arp_xmit. cbv zeta. set (arp := skb_arp skb).
  destruct (rx_index_some _ _ _ _ (_simple_hash (arp_ip_dst arp)) Hli) as [e He]; [apply simple_hash_index|].
  pose proof (rlb_choose_channel_ok still b b t e (skb_vlan skb) arp Hg Ht He) as Hch.
  destruct (may_pull skb); cbn [negb]; [|by apply wp_ret].
  unfold has_mac, listed. apply wp_bind, wp_bind, wp_bind, wp_gets, wp_bind, wp_gets, wp_ret, wp_ret.
  case_match; [by apply wp_ret|]. case_match; [by apply wp_ret|]. destruct (op_code arp); [| |by apply wp_ret].
  - apply wp_bind. eapply wp_mono; [apply Hch|]. cbv beta. intros r b1 (Hg1 & _ & Hr).
    apply wp_bind, wp_mod, wp_bind.
    assert (good still b (b1 <| rlb_update_delay_counter := RLB_UPDATE_DELAY |>)) as Hg2 by by_core.
    eapply wp_mono; [apply (rlb_req_update_subnet_clients_ok still b); [done|done|]|].
    + rec_simpl. by rewrite (same_enabled _ _ (sl_same _ _ (proj2 Hg1))).
    + cbv beta. intros _ b3 Hg3. apply wp_ret. done.
  - apply wp_bind. eapply wp_mono; [apply Hch|]. cbv beta. intros [s|] b1 (Hg1 & _ & Hr); [|by apply wp_ret].
    destruct (good_live still _ _ _ _ Hg1 (Hr s eq_refl)) as [sl1 Hs1].
    apply wp_bind. eapply wp_slave; [done|]. cbv beta. by apply wp_ret.
Qed.

Lemma bond_alb_xmit_ok b skb :
  inv b -> is_Some (tx_hashtbl b) -> skb_linear skb -> wp (bond_alb_xmit skb) (fun _ b' => good still b b') b.
Proof.
  intros Hi Ht Hlin. pose proof (good_begin b Hi) as Hg. unfold bond_alb_xmit. apply wp_bind.
  eapply (wp_mono _ (fun r b' => good still b b' /\ slave_or_none b r)).
  2: { cbv beta. intros r b' [Hg' Hr]. by apply bond_do_alb_xmit_ok. }
  unfold bond_xmit_alb_slave_get. apply wp_bind.
  eapply (wp_mono _ (fun r b' => good still b b' /\ slave_or_none b r)).
  { destruct (skb_protocol skb); try (by apply wp_ret). apply wp_bind, wp_gets.
    destruct (rlb_enabled b) eqn:Hen; [|by apply wp_ret]. apply wp_bind.
    eapply wp_mono; [apply rlb_arp_xmit_ok; [done|by apply (inv_rx_open _ Hi)]|]. cbv beta. intros r b' [Hg' Hr]. by apply wp_ret. }
  cbv beta. intros r b1 [Hg1 Hr]. destruct (balance_by skb) as [a|]; [|by apply wp_ret].
  apply wp_bind, wp_gets. destruct (tlb_dynamic_lb b1).
  - apply choose_ok; [done|done|apply simple_hash_range].
  - apply wp_bind, wp_gets. case_match; [by apply wp_ret|]. apply wp_bind, wp_xmit_hash; [done|].
    intros h. by apply by_hash_ok.
Qed.

Lemma rlb_arp_recv_ok b arp : inv b -> is_Some (rx_hashtbl b) -> wp (rlb_arp_recv arp) (fun _ b' => good still b b') b.
Proof.
  intros Hi [t Ht]. pose proof (good_begin b Hi) as Hg. unfold rlb_arp_recv. apply wp_bind.
  eapply wp_mono; [by eapply (rlb_purge_src_ip_ok still b)|]. cbv beta. intros _ b1 (Hg1 & t1 & Ht1 & _).
  destruct (op_code arp); [by apply wp_ret| |by apply wp_ret].
  destruct (good_lists _ _ _ _ Hg1 Ht1) as (ul & sl & Hli).
  destruct (rx_index_some _ _ _ _ (_simple_hash (arp_ip_src arp)) Hli) as [e He]; [apply simple_hash_index|].
  unfold rlb_update_entry_from_arp. cbv zeta. apply wp_bind. eapply wp_get_rx; [done|done|]. cbv beta.
  apply when_wp; intros _; [|done]. apply wp_bind.
  eapply wp_mono; [eapply (mod_rx_quiet still b); [done|done|done|done| |]|].
  - constructor; intros; unfold same_links; rec_simpl; done.
  - intros. by rec_simpl.
  - cbv beta. intros _ b2 [Hg2 _]. apply wp_mod. by_core.
Qed.
(** ** The monitor *)

Lemma send_learning_ok b0 b : good still b0 b -> wp send_learning (fun _ b' => good still b0 b') b.
Proof.
  intros Hg. unfold send_learning. apply wp_bind, wp_gets.
  eapply (wp_for_each (fun _ _ b' => good still b0 b')); [done| |done].
  intros pre s post [] b1 Hl Hg1.
  assert (live (slaves b0) s) as Hs.
  { apply (good_live_iff b0 b); [done|]. apply (inv_listed _ (proj1 Hg)). rewrite Hl. set_solver. }
  destruct (good_live still _ _ _ _ Hg1 Hs) as [sl Hsl].
  apply wp_bind. eapply wp_slave; [done|]. cbv beta. unfold is_active.
  apply wp_bind, wp_bind, wp_gets, wp_ret, wp_bind, wp_gets, wp_bind.
  eapply wp_mono; [by apply (alb_send_learning_packets_ok still b0)|]. cbv beta. intros _ b2 [Hg2 _]. by apply wp_ret.
Qed.

Lemma set_load_ok b0 b s f :
  good still b0 b -> live (slaves b0) s ->
  wp (mod_slave s (fun sl => sl <| load := f |>)) (fun _ b' => good still b0 b') b.
Proof.
  intros Hg Hs. destruct (good_live still _ _ _ _ Hg Hs) as [sl Hsl]. eapply wp_mod_slave; [done|].
  eapply good_tlb; [done|done|unfold tlb_core; by rec_simpl|..]; rec_simpl.
  - eapply fmap_insert_same; [done|]. unfold tlb_still, env. by rec_simpl.
  - done.
  - apply heads_insert; [apply Hg|]. rec_simpl. by apply (inv_heads _ (proj1 Hg) s).
  - intros t Ht. eapply tx_ok_slave; [by apply Hg|done|by rec_simpl].
Qed.

Lemma rebalance_tx_ok b0 b : good still b0 b -> wp rebalance_tx (fun _ b' => good still b0 b') b.
Proof.
  intros Hg. unfold rebalance_tx. apply wp_bind, wp_gets.
  eapply (wp_for_each (fun _ _ b' => good still b0 b')); [done| |done].
  intros pre s post [] b1 Hl Hg1.
  assert (live (slaves b0) s) as Hs.
  { apply (good_live_iff b0 b); [done|]. apply (inv_listed _ (proj1 Hg)). rewrite Hl. set_solver. }
  apply wp_bind. eapply wp_mono; [by eapply (tlb_clear_slave_ok still b0)|]. cbv beta. intros _ b2 [Hg2 _].
  unfold is_active. apply wp_bind, wp_bind, wp_gets, wp_ret, wp_bind.
  eapply (wp_mono _ (fun _ b' => good still b0 b')); [|done].
  apply when_wp; intros _; [|done]. apply wp_bind, wp_gets, wp_bind. eapply wp_mono; [by apply (set_load_ok b0)|].
  cbv beta. intros _ b3 Hg3. apply wp_mod. by_core.
Qed.

Lemma promisc_timeout_ok b0 b : good still b0 b -> wp promisc_timeout (fun _ b' => good still b0 b') b.
Proof.
  intros Hg. unfold promisc_timeout. apply wp_bind, wp_gets. destruct (primary_is_promisc b) eqn:Hp; [|done].
  apply wp_bind, wp_mod, wp_bind, wp_gets. case_match; [|apply wp_ret; by_core].
  apply wp_bind, wp_try_call. intros [|]; [|apply wp_ret; by_core].
  apply wp_bind, wp_mod, wp_bind, wp_gets. rec_simpl.
  destruct (inv_promisc _ (proj1 Hg) Hp) as [a Ha]. rewrite Ha.
  destruct (inv_active _ (proj1 Hg) a Ha) as [sl Hsl].
  apply wp_bind. eapply wp_slave; [by rec_simpl|]. cbv beta. apply wp_bind, wp_mod, wp_bind, wp_mod, wp_ret.
  apply (good_promisc still b0); [by_core|done].
Qed.

Lemma update_clients_ok b0 b :
  good still b0 b -> rlb_enabled b0 = true -> wp update_clients (fun _ b' => good still b0 b') b.
Proof.
  intros Hg Hen. unfold update_clients. apply wp_bind, wp_gets, when_wp; intros _; [|done].
  apply wp_bind, wp_gets. case_match; [|apply wp_mod; by_core]. apply wp_bind.
  eapply wp_mono; [apply (rlb_update_rx_clients_ok still b0); [done|done|]|].
  - by rewrite (same_enabled _ _ (sl_same _ _ (proj2 Hg))).
  - cbv beta. intros _ b1 Hg1. apply wp_bind, wp_gets. case_match; apply wp_mod; by_core.
Qed.

Lemma bond_alb_monitor_ok b : inv b -> wp bond_alb_monitor (fun _ b' => good still b b') b.
Proof.
  intros Hi. pose proof (good_begin b Hi) as Hg. unfold bond_alb_monitor. apply wp_bind, wp_gets.
  destruct (slave_list b) as [|x l]; [apply wp_mod; by_core|]. apply wp_bind, wp_mod.
  set (b1 := b <| tx_rebalance_counter ::= _ |> <| lp_counter ::= _ |>).
  assert (good still b b1) as Hg1 by by_core. clearbody b1. apply wp_bind, wp_gets, wp_bind.
  eapply (wp_mono _ (fun _ b' => good still b b')).
  { apply when_wp; intros _; [|done]. apply wp_bind. eapply wp_mono; [by apply send_learning_ok|].
    cbv beta. intros _ b2 Hg2. apply wp_mod. by_core. }
  cbv beta. intros _ b2 Hg2. apply wp_bind, wp_gets, wp_bind.
  eapply (wp_mono _ (fun _ b' => good still b b')).
  { apply when_wp; intros _; [|done]. apply wp_bind. eapply wp_mono; [by apply rebalance_tx_ok|].
    cbv beta. intros _ b3 Hg3. apply wp_mod. by_core. }
  cbv beta. intros _ b3 Hg3. apply wp_bind, wp_gets, when_wp; intros Hen; [|done].
  assert (rlb_enabled b = true) as Hen0 by (by rewrite <-(same_enabled _ _ (sl_same _ _ (proj2 Hg3)))).
  apply wp_bind. eapply wp_mono; [by apply promisc_timeout_ok|]. cbv beta. intros go b4 Hg4.
  apply when_wp; intros _; [|done]. apply wp_bind, wp_gets, wp_bind.
  eapply (wp_mono _ (fun _ b' => good still b b')); [|cbv beta; intros _ b5 Hg5; by apply update_clients_ok].
  apply when_wp; intros _; [|done]. apply wp_bind, wp_mod.
  apply (rlb_rebalance_clients_ok still b); [done|by_core|]. rec_simpl.
  by rewrite (same_enabled _ _ (sl_same _ _ (proj2 Hg4))).
Qed.
End xmit.
