(* ===== verification/AlbSlaves.v ===== *)
(** * Adaptive load balancing: slaves come and go

    The array of usable slaves, a new active slave, links that change, the address of the
    bond, and slaves that are added and released: all keep the invariant.  If devices let
    their address be changed, no two slaves have the same address. *)

From S2P Require Import Prelude.
From S2P Require Import AlbTypes.
From S2P Require Import AlbOps.
From S2P Require Import AlbEntry.
From S2P Require Import AlbInv.
From S2P Require Import AlbTlb.
From S2P Require Import AlbRlb.
From S2P Require Import AlbSide.
From S2P Require Import AlbServe.
From S2P Require Import AlbMac.
From S2P Require Import AlbXmit.

(** ** The array of usable slaves *)

Lemma index_of_some s l i : index_of s l = Some i -> l !! i = Some s.
Proof.
  revert i. induction l as [|x l IH]; intros i; cbn; [done|]. case_bool_decide as E; [by intros [= <-]; subst|].
  intros (j & Hj & ->)%fmap_Some. by apply IH.
Qed.

Lemma index_of_none s l : index_of s l = None -> s ∉ l.
Proof.
  induction l as [|x l IH]; cbn; [intros _; apply not_elem_of_nil|]. case_bool_decide as E; [done|].
  intros Hn%fmap_None. apply not_elem_of_cons. split; [done|]. by apply IH.
Qed.

(** Skipping a slave takes it out. *)
Lemma skip_slave_perm l s : s ∈ l -> l ≡ₚ s :: bond_skip_slave l s.
Proof.
  intros Hin. unfold bond_skip_slave. destruct (index_of s l) as [i|] eqn:Ei; [|by apply index_of_none in Ei].
  apply index_of_some in Ei. destruct l as [|z l0 _] using rev_ind; [done|]. rewrite last_snoc.
  assert (pred (length (l0 ++ [z])) = length l0) as -> by (rewrite length_app; cbn; lia).
  apply lookup_app_Some in Ei as [Hi|[Hge Hi]].
  - pose proof (lookup_lt_Some _ _ _ Hi) as Hlt. rewrite insert_app_l by done.
    rewrite take_app_length' by (by rewrite length_insert).
    rewrite insert_take_drop by done. rewrite <-(take_drop_middle l0 i s Hi) at 1.
    solve_Permutation.
  - apply list_lookup_singleton_Some in Hi as [Hz ->]. rewrite insert_app_r_alt by done.
    rewrite take_app_length. by rewrite Permutation_app_comm.
Qed.

Section slaves.
Context `{AlbLaws}.

Ltac by_core := first [done | eapply good_core; [done|done|unfold core; by rec_simpl]].

(** Everything but the array. *)
Definition but_array (b : bonding) :=
  (slaves b, slave_list b, curr_active_slave b, primary_is_promisc b, tx_hashtbl b, rx_hashtbl b,
   rx_hashtbl_used_head b, rlb_enabled b, mode_tlb b, rx_slave b, bond_addr b).

Lemma inv_array b b' l :
  inv b -> but_array b' = but_array b -> usable_slaves b' = Some l -> NoDup l ->
  (forall s, s ∈ l -> live (slaves b) s) -> inv b'.
Proof.
  unfold but_array. intros [] [= E1 E2 E3 E4 E5 E6 E7 E8 E9 E10 E11] Hu Hnd Hl.
  constructor; rewrite ?E1, ?E2, ?E3, ?E4, ?E5, ?E6, ?E7, ?E8, ?E9, ?E10; try done.
  intros l' Hl'. rewrite Hu in Hl'. by simplify_eq.
Qed.

Definition not_usable (b : bonding) (s : positive) : Prop := forall l, usable_slaves b = Some l -> s ∉ l.

Lemma bond_update_slave_arr_ok b skip :
  inv b -> wp (bond_update_slave_arr skip) (fun _ b' => inv b' /\ but_array b' = but_array b /\
    forall s, skip = Some s -> not_usable b' s) b.
Proof.
  intros Hi. unfold bond_update_slave_arr. apply wp_bind, wp_try_call. intros ok1. apply wp_bind, wp_try_call. intros ok2.
  set (b1 := b <| calls := _ |> <| calls := _ |>).
  assert (core b1 = core b) as Hc by (unfold core; by rec_simpl).
  assert (but_array b1 = but_array b /\ usable_slaves b1 = usable_slaves b /\ slave_list b1 = slave_list b) as (Hb & Hu & Hsl).
  { unfold but_array. by rec_simpl. }
  pose proof (inv_core _ _ Hc Hi) as Hi1. clearbody b1. destruct (ok1 && ok2).
  - apply wp_bind, wp_gets, wp_bind.
    eapply (wp_for_each (fun pre arr b' => b' = b1 /\ sublist arr pre /\ forall s, skip = Some s -> s ∉ arr)).
    + split_and!; [done|done|]. intros s _. apply not_elem_of_nil.
    + intros pre s post arr b' Hl (-> & Hsub & Hsk). case_bool_decide as Es.
      * apply wp_ret. split_and!; [done|by apply sublist_inserts_r|done].
      * destruct (inv_listed _ Hi1 s) as [sl Hs]; [rewrite Hl; set_solver|].
        apply wp_bind. eapply wp_slave; [done|]. cbv beta. apply wp_ret. destruct (can_tx sl).
        -- split_and!; [done|by apply sublist_app|]. intros s' Hs' [Hin|Hin%list_elem_of_singleton]%elem_of_app; [by eapply Hsk|congruence].
        -- split_and!; [done|by apply sublist_inserts_r|done].
    + cbv beta. intros arr b' (-> & Hsub & Hsk). apply wp_mod. split_and!.
      * eapply inv_array; [exact Hi1|unfold but_array; by rec_simpl|by rec_simpl| |].
        -- eapply sublist_NoDup; [apply Hi1|done].
        -- intros s Hs. apply (inv_listed _ Hi1). by eapply elem_of_sublist.
      * rewrite <-Hb. unfold but_array. by rec_simpl.
      * intros s Hs l. rec_simpl. intros [= <-]. by apply Hsk.
  - destruct skip as [s|]; [|by apply wp_ret]. apply wp_mod.
    assert (but_array (b1 <| usable_slaves ::= fmap (fun l => bond_skip_slave l s) |>) = but_array b) as Hb'.
    { rewrite <-Hb. unfold but_array. by rec_simpl. }
    destruct (usable_slaves b1) as [l|] eqn:El.
    + destruct (inv_usable _ Hi1 l El) as [Hnd Hlive].
      assert (NoDup (bond_skip_slave l s) /\ (s ∉ bond_skip_slave l s) /\ forall x, x ∈ bond_skip_slave l s -> x ∈ l) as (Hnd' & Hout & Hin).
      { destruct (decide (s ∈ l)) as [Hs|Hs].
        - pose proof (skip_slave_perm l s Hs) as Hp. rewrite Hp in Hnd. apply NoDup_cons in Hnd as [? ?].
          split_and!; [done|done|]. intros x Hx. rewrite Hp. by right.
        - assert (bond_skip_slave l s = l) as ->; [|done]. unfold bond_skip_slave.
          destruct (index_of s l) eqn:Ei; [|done]. apply index_of_some, list_elem_of_lookup_2 in Ei. done. }
      split_and!; [|done|].
      * eapply inv_array; [exact Hi1|by rewrite Hb'|rec_simpl; by rewrite El|done|auto].
      * intros s' [= <-] l'. rec_simpl. rewrite El. by intros [= <-].
    + split_and!; [|done|].
      * destruct Hi1. constructor; rec_simpl; try done. by rewrite El.
      * intros s' _ l'. rec_simpl. by rewrite El.
Qed.
(** ** Distinct addresses *)

Definition distinct_on (X : positive -> Prop) (b : bonding) : Prop :=
  forall s1 s2 a, X s1 -> X s2 -> addr_of b s1 = Some a -> addr_of b s2 = Some a -> s1 = s2.
Definition distinct (b : bonding) : Prop := distinct_on (fun s => s ∈ slave_list b) b.

Lemma distinct_addr X b b' : (forall s, addr_of b' s = addr_of b s) -> distinct_on X b -> distinct_on X b'.
Proof. intros Ha Hd s1 s2 a. rewrite !Ha. apply Hd. Qed.

Lemma distinct_swapped X b b' s1 s2 :
  swapped b b' s1 s2 -> reliable b -> X s1 -> X s2 -> distinct_on X b -> distinct_on X b'.
Proof.
  intros [_ Ho Ht] Hr H1 H2 Hd. destruct (Ht Hr) as [T1 T2].
  set (f := fun s => if decide (s = s1) then s2 else if decide (s = s2) then s1 else s).
  assert (forall s, addr_of b' s = addr_of b (f s) /\ (X s -> X (f s))) as Hf.
  { intros s. unfold f. repeat case_decide; subst; [done|done|]. split; [by apply Ho|done]. }
  intros s s' a Hs Hs'. destruct (Hf s) as [-> HX], (Hf s') as [-> HX']. intros Ha Ha'.
  specialize (Hd _ _ a (HX Hs) (HX' Hs') Ha Ha'). unfold f in Hd. repeat case_decide; subst; congruence.
Qed.

Lemma distinct_readdressed X b b' s a res :
  readdressed b b' s a res -> reliable b -> (forall s', X s' -> s' <> s -> addr_of b s' <> Some a) ->
  distinct_on X b -> distinct_on X b'.
Proof.
  intros [_ Ho Ht Hrel] Hr Hu Hd s1 s2 a' H1 H2. rewrite Hrel in Ht by done. cbn in Ht.
  destruct (decide (s1 = s)) as [->|N1], (decide (s2 = s)) as [->|N2]; [done|..].
  - rewrite Ht, Ho by done. intros [= <-] E. by destruct (Hu s2 H2 N2).
  - rewrite Ht, Ho by done. intros E [= <-]. by destruct (Hu s1 H1 N1).
  - rewrite !Ho by done. by apply Hd.
Qed.

(** ** A new active slave *)

Lemma leave_promisc_ok b :
  inv b -> wp leave_promisc (fun _ b' => good keep b b' /\ primary_is_promisc b' = false) b.
Proof.
  intros Hi. pose proof (good_start b Hi) as Hg. unfold leave_promisc. apply wp_bind, wp_gets, wp_bind, wp_gets.
  destruct (curr_active_slave b) as [a|] eqn:Ha.
  - apply when_wp; intros Hp; [|done]. destruct (inv_active _ Hi a Ha) as [sl Hsl].
    apply wp_bind. eapply wp_slave; [done|]. cbv beta. apply wp_bind, wp_mod, wp_mod. split; [|by rec_simpl].
    eapply (good_core keep b (b <| primary_is_promisc := false |>)); [done| |unfold core; by rec_simpl].
    by apply (good_promisc keep b).
  - apply wp_ret. split; [done|]. destruct (primary_is_promisc b) eqn:Hp; [|done].
    destruct (inv_promisc _ Hi Hp) as [x Hx]. congruence.
Qed.

Lemma inv_set_active b new :
  inv b -> primary_is_promisc b = false -> (forall s, new = Some s -> live (slaves b) s) ->
  inv (b <| curr_active_slave := new |>).
Proof. intros [] Hp Hn. constructor; rec_simpl; try done. congruence. Qed.

(** The same slaves and tables, with [new] the active slave. *)
Record activated (b b' : bonding) (new : option positive) : Prop := {
  ac_same : same (b <| curr_active_slave := new |>) b';
  ac_bond : bond_addr b' = bond_addr b;
  ac_none : new = None -> forall s, addr_of b' s = addr_of b s;
  ac_distinct : reliable b -> (forall c, curr_active_slave b = Some c -> c ∈ slave_list b) ->
    (forall n, new = Some n -> n ∈ slave_list b) -> distinct b -> distinct b'
}.

(** One step of the change: the state is as it was up to transmit load balancing. *)
Lemma clear_step b1 b s sv :
  good same b1 b -> live (slaves b1) s ->
  wp (tlb_clear_slave s sv) (fun _ b' => good same b1 b' /\ bond_addr b' = bond_addr b /\
    forall s', addr_of b' s' = addr_of b s') b.
Proof.
  intros Hg Hs. eapply wp_mono; [apply (tlb_clear_slave_ok still b); [done|apply good_begin, Hg|]|].
  - apply (same_live _ _ (proj2 Hg)). done.
  - cbv beta. intros _ b' [[Hi' [Hsame Ha Hb]] _]. split_and!; [|done|done]. split; [done|]. by eapply same_trans; [apply Hg|].
Qed.

Lemma take_bond_addr_ok b1 b w n :
  good same b1 b -> live (slaves b1) n -> (forall s, w = Some s -> live (slaves b1) s) ->
  (w = None -> unused b (bond_addr b)) ->
  wp (take_bond_addr w n) (fun _ b' => good same b1 b' /\ bond_addr b' = bond_addr b /\
    (reliable b -> n ∈ slave_list b -> (forall s, w = Some s -> s ∈ slave_list b) -> distinct b -> distinct b')) b.
Proof.
  intros Hg Hn Hw Hu. unfold take_bond_addr. apply wp_bind, wp_gets.
  assert (forall b', good same b1 b' -> forall s, live (slaves b') s <-> live (slaves b1) s) as Hlive.
  { intros b' [_ Hr]. by apply same_live. }
  assert (forall b', good same b1 b' -> slave_list b' = slave_list b) as Hlist.
  { intros b' [_ Hr]. by rewrite (same_list _ _ Hr), (same_list _ _ (proj2 Hg)). }
  destruct w as [w|].
  - apply wp_bind. eapply wp_mono; [eapply (alb_swap_mac_addr_ok same b1); try done; by apply Hw|].
    cbv beta. intros _ b2 [Hg2 Hsw].
    eapply wp_mono; [apply alb_fasten_mac_swap_ok; [apply Hg2|by apply Hlive; eauto|by apply Hlive]|].
    cbv beta. intros _ b3 Hg3'. pose proof (keep_good same b1 b2 b3 Hg2 Hg3') as Hg3.
    destruct Hg3' as [_ [[[_ Ha3 Hb3] _ _] _ _]]. split_and!; [done|rewrite Hb3; apply Hsw|].
    intros Hr Hin Hlw Hd. unfold distinct. rewrite (Hlist b3 Hg3). eapply distinct_addr; [exact Ha3|].
    eapply distinct_swapped; [exact Hsw|done|by apply Hlw|done|done].
  - apply wp_bind. eapply wp_mono; [by eapply (set_addr_ok same b1)|]. cbv beta. intros res b2 [Hg2 Hra].
    eapply wp_mono; [apply (alb_send_learning_packets_ok keep b2); [apply good_start, Hg2|by apply Hlive]|].
    cbv beta. intros _ b3 [Hg3' _]. pose proof (keep_good same b1 b2 b3 Hg2 Hg3') as Hg3.
    destruct Hg3' as [_ [[[_ Ha3 Hb3] _ _] _ _]]. split_and!; [done|rewrite Hb3; apply Hra|].
    intros Hr Hin _ Hd. unfold distinct. rewrite (Hlist b3 Hg3). eapply distinct_addr; [exact Ha3|].
    eapply distinct_readdressed; [exact Hra|done| |done]. intros s' Hs' _. by apply Hu.
Qed.
Lemma reliable_mode b b' : mode_tlb b' = mode_tlb b -> reliable b -> reliable b'.
Proof. intros E. unfold reliable. by rewrite E. Qed.

Lemma unused_same b b' a :
  slave_list b' = slave_list b -> (forall s, addr_of b' s = addr_of b s) -> unused b a -> unused b' a.
Proof. intros Hl Ha Hu s. rewrite Hl, Ha. apply Hu. Qed.

(** The slave whose address the new active slave takes. *)
Lemma swap_slave_ok b1 b c (Q : option positive -> bonding -> Prop) :
  good same b1 b -> (forall s, c = Some s -> live (slaves b1) s) ->
  (forall w, (forall s, w = Some s -> live (slaves b1) s /\ (c = Some s \/ s ∈ slave_list b)) ->
    (w = None -> unused b (bond_addr b)) -> Q w b) ->
  wp (match c with Some c => ret (Some c) | None => has_mac (bond_addr b) end) Q b.
Proof.
  intros Hg Hc HQ. destruct c as [c|].
  - apply wp_ret, HQ; [|done]. intros s [= <-]. auto.
  - apply has_mac_ok. intros w Hw. apply HQ.
    + intros s ->. destruct Hw as [Hin _]. split; [|by right]. apply (same_live _ _ (proj2 Hg)), Hg, Hin.
    + by intros ->.
Qed.

Lemma bond_alb_handle_active_change_ok b new :
  inv b -> (forall n, new = Some n -> n ∈ slave_list b) ->
  wp (bond_alb_handle_active_change new) (fun _ b' => inv b' /\ activated b b' new) b.
Proof.
  intros Hi Hn. unfold bond_alb_handle_active_change. apply wp_bind, wp_gets. case_bool_decide as Ec.
  { apply wp_ret. split; [done|]. constructor; [|done..]. constructor; rec_simpl; done. }
  apply wp_bind. eapply wp_mono; [by apply leave_promisc_ok|]. cbv beta. intros _ b1 [Hg1 Hp1].
  apply wp_bind, wp_mod. pose proof Hg1 as [Hi1 [[[Hs1 Ha1 Hb1] Hsl1 _] _ _]].
  set (b2 := b1 <| curr_active_slave := new |>).
  assert (inv b2) as Hi2.
  { apply inv_set_active; [done|done|]. intros n E. rewrite Hsl1. apply (inv_listed _ Hi), Hn, E. }
  assert (same (b <| curr_active_slave := new |>) b2) as Hs2.
  { destruct Hs1. subst b2. constructor; rec_simpl; done. }
  assert (slave_list b2 = slave_list b) as Hl2 by (subst b2; rec_simpl; apply Hs1).
  assert (bond_addr b2 = bond_addr b) as Hb2 by (subst b2; by rec_simpl).
  assert (forall s, addr_of b2 s = addr_of b s) as Ha2 by (intros s; rewrite <-Ha1; subst b2; unfold addr_of; by rec_simpl).
  assert (forall s, live (slaves b2) s <-> live (slaves b) s) as Hlv.
  { intros s. rewrite (same_live _ _ Hs2). by rec_simpl. }
  clearbody b2. pose proof (conj Hi2 (same_refl b2) : good same b2 b2) as Hg2.
  assert (activated b b2 new) as Hact2.
  { constructor; [done|done|done|]. intros _ _ _. unfold distinct. rewrite Hl2. by apply distinct_addr. }
  apply wp_bind, wp_gets. destruct new as [n|]; [|by apply wp_ret]. destruct (slave_list b2) as [|x l] eqn:El; [by apply wp_ret|].
  rewrite <-El in Hl2. clear El x l. specialize (Hn n eq_refl).
  assert (live (slaves b2) n) as Hln by (apply Hlv, (inv_listed _ Hi), Hn).
  apply wp_bind, wp_gets, wp_bind.
  eapply swap_slave_ok; [exact Hg2| |]; [intros s E; apply Hlv, (inv_active _ Hi), E|].
  intros w Hw Hu. apply wp_bind.
  eapply (wp_mono _ (fun _ b' => good same b2 b' /\ bond_addr b' = bond_addr b2 /\ forall s', addr_of b' s' = addr_of b2 s')).
  { destruct w as [w|]; [|by apply wp_ret]. apply clear_step; [done|]. by apply Hw. }
  cbv beta. intros _ b3 (Hg3 & B3 & A3). apply wp_bind. eapply wp_mono; [by eapply clear_step|].
  cbv beta. intros _ b4 (Hg4 & B4 & A4). apply wp_bind, wp_gets, wp_bind.
  eapply (wp_mono _ (fun _ b' => good same b2 b' /\ bond_addr b' = bond_addr b2 /\ forall s', addr_of b' s' = addr_of b2 s')).
  { apply when_wp; intros _; [|split_and!; congruence]. apply wp_bind.
    eapply wp_mono; [by eapply (set_hw_only_ok same b2)|]. cbv beta. intros ok b5 [Hg5 []]. apply wp_ret.
    split_and!; congruence. }
  cbv beta. intros _ b5 (Hg5 & B5 & A5). pose proof (same_list _ _ (proj2 Hg5)) as L5.
  eapply wp_mono; [eapply (take_bond_addr_ok b2 b5 w n); [done|done| |]|].
  - intros s E. by apply Hw.
  - intros E. rewrite B5. eapply unused_same; [exact L5|exact A5|]. by apply Hu.
  - cbv beta. intros _ b6 (Hg6 & B6 & D6). split; [apply Hg6|].
    constructor; [eapply same_trans; [done|apply Hg6]|congruence|done|].
    intros Hr Hcl _ Hd. apply D6.
    + eapply reliable_mode; [|exact Hr]. rewrite (same_mode _ _ (proj2 Hg5)), (same_mode _ _ Hs2). by rec_simpl.
    + by rewrite L5, Hl2.
    + intros s E. rewrite L5, Hl2. destruct (Hw s E) as [_ [Hc|Hin]]; [by apply Hcl|by rewrite <-Hl2].
    + unfold distinct. rewrite L5, Hl2. eapply distinct_addr; [|done]. congruence.
Qed.
(** ** Links *)

(** The same list, active slave and addresses. *)
Record calm (b b' : bonding) : Prop := {
  ca_list : slave_list b' = slave_list b;
  ca_active : curr_active_slave b' = curr_active_slave b;
  ca_mode : mode_tlb b' = mode_tlb b;
  ca_addr : forall s, addr_of b' s = addr_of b s
}.

Lemma calm_trans a b c : calm a b -> calm b c -> calm a c.
Proof. intros [] []. constructor; congruence. Qed.

Lemma still_calm b b' : still b b' -> calm b b'.
Proof. intros [[] Ha _]. by constructor. Qed.

Lemma array_calm b b' : but_array b' = but_array b -> calm b b'.
Proof.
  unfold but_array. intros [= E1 E2 E3 E4 E5 E6 E7 E8 E9 E10 E11].
  constructor; [done|done|done|]. intros s. unfold addr_of. by rewrite E1.
Qed.

Lemma order_rebalance_ok b :
  inv b -> wp order_rebalance (fun _ b' => core b' = core b) b.
Proof.
  intros Hi. unfold order_rebalance. apply wp_bind, wp_mod, wp_bind, wp_gets.
  apply when_wp; intros _; [apply wp_mod|]; unfold core; by rec_simpl.
Qed.

Lemma eligible_still b b' s : still b b' -> eligible b' s -> eligible b s.
Proof.
  intros [[He Hl] _ _] [Hin (sl & Hsl & Hc)]. split; [by rewrite <-Hl|]. specialize (He s). rewrite Hsl in He.
  destruct (slaves b !! s) as [sl'|]; [|done]. exists sl'. split; [done|]. unfold env in He. cbn in He. congruence.
Qed.

(** A slave whose link went down, and that is not used any more, keeps no flow and no client. *)
Lemma link_down_ok b s :
  inv b -> live (slaves b) s ->
  wp (tlb_clear_slave s false ;;; let* r := gets rlb_enabled in when_ r (rlb_clear_slave s))
    (fun _ b' => good still b b' /\ tx_free_of s b' /\ (~ eligible b s -> rx_free_of s b') /\
      (~ eligible b s -> rx_slave b <> Some s -> rx_slave b' <> Some s)) b.
Proof.
  intros Hi Hs. pose proof (good_begin b Hi) as Hg. apply wp_bind.
  eapply wp_mono; [by eapply (tlb_clear_slave_ok still b)|]. cbv beta. intros _ b1 (Hg1 & Hf1 & Hc1).
  assert (rx_slave b1 = rx_slave b) as Hx1 by (unfold tlb_core in Hc1; congruence). apply wp_bind, wp_gets, when_wp; intros Hen.
  - eapply wp_mono; [apply (rlb_clear_slave_ok still b); [done|done|done|by apply (good_live_iff b b1)]|].
    cbv beta. intros _ b2 (Hg2 & Hk2 & Hfr2 & Hl2). split_and!; [done| | |].
    + intros t i e. rewrite (rs_tx _ _ (kp_side _ _ Hk2)). apply Hf1.
    + intros Hne. apply Hfr2. intros He. apply Hne. eapply eligible_still; [apply Hg1|done].
    + intros Hne Hx. apply Hl2; [|congruence]. intros He. apply Hne. eapply eligible_still; [apply Hg1|done].
  - split_and!; [done|done| |congruence]. intros _ t i e Ht. exfalso.
    destruct (inv_rx_some _ (proj1 Hg1)) as [E _]; [by rewrite Ht|congruence].
Qed.
Lemma bond_alb_handle_link_change_ok b s l :
  inv b -> live (slaves b) s ->
  wp (bond_alb_handle_link_change s l) (fun _ b' => inv b' /\ calm b b' /\
    (l = BOND_LINK_DOWN -> tx_free_of s b' /\ (~ eligible b s -> rx_free_of s b'))) b.
Proof.
  intros Hi Hs. unfold bond_alb_handle_link_change. apply wp_bind.
  eapply (wp_mono _ (fun _ b' => good still b b' /\
    (l = BOND_LINK_DOWN -> tx_free_of s b' /\ (~ eligible b s -> rx_free_of s b')))).
  { pose proof (good_begin b Hi) as Hg. destruct l; [| |done].
    - eapply wp_mono; [by apply order_rebalance_ok|]. cbv beta. intros _ b' Hc. split; [|done]. by eapply good_core.
    - eapply wp_mono; [by apply link_down_ok|]. cbv beta. intros _ b' (? & ? & ? & _). done. }
  cbv beta. intros _ b1 [[Hi1 Hs1] Hd1]. apply wp_bind, wp_gets, when_wp; intros _.
  2: { split_and!; [done|by apply still_calm|done]. }
  eapply wp_mono; [by apply bond_update_slave_arr_ok|]. cbv beta. intros _ b2 (Hi2 & Ha2 & _).
  split_and!; [done|eapply calm_trans; [by apply still_calm|by apply array_calm]|].
  intros E. destruct (Hd1 E) as [Ht Hr]. unfold but_array in Ha2. split.
  - intros t i e Ht2. apply (Ht t i). congruence.
  - intros Hne t i e Ht2. apply (Hr Hne t i). congruence.
Qed.

(** ** The address of the bond *)

Lemma wp_unbind {A B} (m : M bonding A) (k : A -> M bonding B) Q b :
  wp (bind m k) Q b -> wp m (fun a b' => wp (k a) Q b') b.
Proof. unfold wp, bind. by destruct (m b) as [[]|]. Qed.

(** The active slave gets the new address of the bond. *)
Lemma give_address_ok b w c :
  inv b -> curr_active_slave b = Some c -> holder b (bond_addr b) w ->
  wp (match w with
      | Some w => alb_swap_mac_addr w c ;;; alb_fasten_mac_swap w c
      | None =>
          let* _ := alb_set_slave_mac_addr c (bond_addr b) in
          alb_send_learning_packets c (bond_addr b) false ;;;
          let* r := gets rlb_enabled in
          when_ r (rlb_req_update_slave_clients c)
      end)
  (fun _ b' => good same b b' /\ bond_addr b' = bond_addr b /\
    (reliable b -> c ∈ slave_list b -> distinct b -> distinct b')) b.
Proof.
  intros Hi Hc Hw. pose proof (conj Hi (same_refl b) : good same b b) as Hg.
  assert (live (slaves b) c) as Hlc by (by apply (inv_active _ Hi)).
  pose proof (take_bond_addr_ok b b w c Hg Hlc) as Htake. destruct w as [w|].
  - destruct Hw as [Hin Ha]. eapply wp_mono; [apply Htake|].
    + intros s [= <-]. by apply (inv_listed _ Hi).
    + done.
    + cbv beta. intros _ b' (Hg' & B' & D'). split_and!; [done|done|]. intros Hr Hcl Hd. apply D'; [done|done| |done].
      by intros s [= <-].
  - assert (wp (take_bond_addr None c) (fun _ b' => good same b b' /\ bond_addr b' = bond_addr b /\
      (reliable b -> c ∈ slave_list b -> distinct b -> distinct b')) b) as Ht.
    { eapply wp_mono; [apply Htake; done|]. cbv beta. intros _ b' (Hg' & B' & D'). split_and!; [done|done|].
      intros Hr Hcl Hd. by apply D'. }
    apply wp_unbind in Ht. change (wp (let* _ := alb_set_slave_mac_addr c (bond_addr b) in
      alb_send_learning_packets c (bond_addr b) false) (fun _ b' => good same b b' /\ bond_addr b' = bond_addr b /\
      (reliable b -> c ∈ slave_list b -> distinct b -> distinct b')) b) in Ht.
    apply wp_bind. eapply wp_mono; [exact (wp_unbind _ _ _ _ Ht)|]. cbv beta. intros _ b1 Hl1. apply wp_bind.
    eapply wp_mono; [exact Hl1|]. cbv beta. intros _ b2 (Hg2 & B2 & D2). apply wp_bind, wp_gets.
    apply when_wp; intros Hen; [|done].
    eapply wp_mono; [apply (rlb_req_update_slave_clients_ok keep b2); [done|apply good_start, Hg2|done]|].
    cbv beta. intros _ b3 Hg3'. pose proof (keep_good same b b2 b3 Hg2 Hg3') as Hg3.
    destruct Hg3' as [_ [[[Hs3 Ha3 Hb3] _ _] _ _]]. split_and!; [done|congruence|]. intros Hr Hcl Hd.
    unfold distinct. rewrite (same_list _ _ Hs3). eapply distinct_addr; [exact Ha3|]. by apply D2.
Qed.

Lemma bond_alb_set_mac_address_ok b a :
  inv b ->
  wp (bond_alb_set_mac_address a) (fun res b' => inv b' /\ slave_list b' = slave_list b /\
    curr_active_slave b' = curr_active_slave b /\ mode_tlb b' = mode_tlb b /\
    (res <> 0 -> bond_addr b' = bond_addr b) /\ (res = 0 -> bond_addr b' = a) /\
    (reliable b -> (forall c, curr_active_slave b = Some c -> c ∈ slave_list b) -> distinct b -> distinct b')) b.
Proof.
  intros Hi. pose proof (conj Hi (same_refl b) : good same b b) as Hg. destruct errors_nonzero as (_ & _ & _ & _ & He).
  unfold bond_alb_set_mac_address. destruct (is_valid_ether_addr a); cbn [negb].
  2: { apply wp_ret. split_and!; try done. lia. }
  apply wp_bind. eapply wp_mono; [by eapply (alb_set_mac_address_ok same b)|]. cbv beta. intros res b1 [Hg1 Hr1].
  assert ((forall s, addr_of b1 s = addr_of b s) /\ bond_addr b1 = bond_addr b) as [Ha1 Hb1].
  { destruct (rlb_enabled b); [destruct Hr1 as [-> _]; done|]. by destruct Hr1. }
  pose proof (proj2 Hg1) as Hs1.
  assert (distinct b -> distinct b1) as Hd1.
  { unfold distinct. rewrite (same_list _ _ Hs1). by apply distinct_addr. }
  destruct (Z.eqb_spec res 0) as [->|Hres]; cbn [negb].
  2: { apply wp_ret. split_and!; [apply Hg1|apply Hs1|apply Hs1|apply Hs1|done|done|auto]. }
  apply wp_bind, wp_mod. set (b2 := b1 <| bond_addr := a |>).
  assert (inv b2) as Hi2 by (destruct (proj1 Hg1); subst b2; constructor; rec_simpl; done).
  assert (same b b2) as Hs2 by (destruct Hs1; subst b2; constructor; rec_simpl; done).
  assert (bond_addr b2 = a) as Hb2 by (subst b2; by rec_simpl).
  assert (distinct b -> distinct b2) as Hd2 by (intros Hd; specialize (Hd1 Hd); subst b2; unfold distinct, distinct_on, addr_of in *; by rec_simpl).
  clearbody b2. clear dependent b1. pose proof (conj Hi2 (same_refl b2) : good same b2 b2) as Hg2.
  apply wp_bind, wp_gets. destruct (curr_active_slave b2) as [c|] eqn:Ec.
  2: { apply wp_ret. split_and!; [done|apply Hs2|by rewrite <-(same_active _ _ Hs2)|apply Hs2|done|done|auto]. }
  apply wp_bind, has_mac_ok. intros w Hw. apply wp_bind.
  eapply (wp_mono _ (fun _ b' => good same b2 b' /\ bond_addr b' = bond_addr b2 /\
    (reliable b2 -> c ∈ slave_list b2 -> distinct b2 -> distinct b'))).
  2: { cbv beta. intros _ b3 (Hg3 & B3 & D3). apply wp_ret. pose proof (same_trans _ _ _ Hs2 (proj2 Hg3)) as Hs3.
       split_and!; [apply Hg3|apply Hs3|apply Hs3|apply Hs3|done|congruence|]. intros Hr Hcl Hd. apply D3; [| |auto].
       - eapply reliable_mode; [apply Hs2|done].
       - rewrite (same_list _ _ Hs2). apply Hcl. by rewrite <-(same_active _ _ Hs2). }
  rewrite <-Hb2 in Hw |- *. by eapply (give_address_ok b2 w c).
Qed.
(** ** Adding a slave *)

Lemma live_insert_fresh (m : gmap positive slave) s sl s' : live m s' -> live (<[s := sl]> m) s'.
Proof.
  intros Hs. unfold live. destruct (decide (s' = s)) as [->|]; [rewrite lookup_insert_eq; by eexists|].
  by rewrite lookup_insert_ne.
Qed.

Lemma inv_add b s sl :
  inv b -> slaves b !! s = None -> tx_link (head sl) -> inv (b <| slaves ::= <[s := sl]> |>).
Proof.
  intros [] Hs Hh. constructor; rec_simpl; try done.
  - intros x Hx. by apply live_insert_fresh, inv_listed.
  - intros x Hx. by apply live_insert_fresh, inv_active.
  - intros l Hl. destruct (inv_usable l Hl). split; [done|]. intros x Hx. apply live_insert_fresh. auto.
  - by apply heads_insert.
  - intros t Ht. destruct (inv_tx t Ht) as [Hd Hn Hf Hp]. constructor; [done..|]. intros i e s' He Hs'.
    destruct (Hp i e s' He Hs') as (sl' & Hsl' & Hpath). exists sl'. split; [|done].
    rewrite lookup_insert_ne; [done|]. intros ->. congruence.
  - intros t Ht. eapply rx_ok_live; [|by apply inv_rx]. intros x. apply live_insert_fresh.
  - intros x Hx. destruct (inv_rx_slave x Hx). split; [|done]. by apply live_insert_fresh.
Qed.

Lemma inv_delete b s :
  inv b -> s ∉ slave_list b -> curr_active_slave b <> Some s -> not_usable b s -> tx_free_of s b ->
  rx_free_of s b -> rx_slave b <> Some s -> inv (b <| slaves ::= delete s |>).
Proof.
  intros [] Hl Ha Hu Ht Hr Hx.
  assert (forall s', live (slaves b) s' -> s' <> s -> live (delete s (slaves b)) s') as Hlive.
  { intros s' Hs' Hne. unfold live. by rewrite lookup_delete_ne. }
  constructor; rec_simpl; try done.
  - intros x Hx'. apply Hlive; [auto|]. by intros ->.
  - intros x Hx'. apply Hlive; [auto|]. by intros ->.
  - intros l El. destruct (inv_usable l El). split; [done|]. intros x Hx'. apply Hlive; [auto|]. intros ->. by apply (Hu l).
  - intros s' sl Hsl. apply lookup_delete_Some in Hsl as [_ Hsl]. eauto.
  - intros t Et. destruct (inv_tx t Et) as [Hd Hn Hf Hp]. constructor; [done..|]. intros i e s' He Hs'.
    destruct (Hp i e s' He Hs') as (sl & Hsl & Hpath). exists sl. split; [|done].
    rewrite lookup_delete_ne; [done|]. intros ->. by apply (Ht t i e).
  - intros t Et. destruct (inv_rx t Et) as (ul & sl & Hlk & He). exists ul, sl. split; [done|]. intros i e Hi.
    destruct (He i e Hi). constructor; [done..|]. intros s' Hs'. apply Hlive; [auto|]. intros ->. by apply (Hr t i e).
  - intros x Ex. destruct (inv_rx_slave x Ex). split; [|done]. apply Hlive; [done|]. by intros ->.
Qed.

(** A slave without flows starts with an empty list. *)
Lemma good_reset b0 b s sl sl' :
  good mac_side b0 b -> slaves b !! s = Some sl -> tx_free_of s b -> env sl' = env sl -> tx_link (head sl') ->
  good mac_side b0 (b <| slaves ::= <[s := sl']> |>).
Proof.
  intros Hg Hs Hf He Hh. pose proof (fmap_insert_same env (slaves b) s sl sl' Hs He) as Henv.
  eapply (good_step mac_side); [done|done| |].
  - constructor; [constructor|..]; rec_simpl; done.
  - eapply inv_tlb; [apply Hg|unfold tlb_core; by rec_simpl|..]; rec_simpl.
    + intros s'. unfold live. by rewrite <-!(fmap_is_Some env), Henv.
    + done.
    + apply heads_insert; [apply Hg|done].
    + intros t Ht. destruct (inv_tx _ (proj1 Hg) t Ht) as [Hd Hn Hfr Hp]. constructor; [done..|].
      intros i e s' Hi Hs'. destruct (Hp i e s' Hi Hs') as (sl0 & Hsl0 & Hpath). exists sl0. split; [|done].
      rewrite lookup_insert_ne; [done|]. intros ->. by apply (Hf t i e).
Qed.

Lemma bond_alb_init_slave_ok b s :
  inv b -> live (slaves b) s -> s ∉ slave_list b -> tx_free_of s b ->
  wp (bond_alb_init_slave s) (fun res b' => good mac_side b b' /\
    (forall s', s' <> s -> addr_of b' s' = addr_of b s') /\
    (reliable b -> res = 0 -> forall a, addr_of b' s = Some a -> unused b' a)) b.
Proof.
  intros Hi Hs Hout Hf. pose proof (conj Hi (mac_side_refl b) : good mac_side b b) as Hg. pose proof Hs as [sl Hsl].
  unfold bond_alb_init_slave. apply wp_bind. eapply wp_slave; [done|]. cbv beta.
  apply wp_bind. eapply wp_mono; [by eapply (set_addr_ok mac_side b)|]. cbv beta. intros r1 b1 [Hg1 [B1 O1 T1 R1]].
  destruct (Z.eqb_spec r1 0) as [->|Hr1]; cbn [negb]; [|by apply wp_ret].
  apply wp_bind. eapply wp_mono; [eapply (collision_ok mac_side b); [done..|]|].
  { by rewrite (readdressed_list mac_side b b b1). }
  cbv beta. intros r2 b2 (Hg2 & B2 & O2 & U2). destruct (Z.eqb_spec r2 0) as [->|Hr2]; cbn [negb].
  2: { apply wp_ret. split_and!; [done|intros s' Hne; by rewrite O2, O1|done]. }
  destruct (good_live mac_side _ _ _ _ Hg2 Hs) as [sl2 Hsl2]. apply wp_bind. eapply wp_mod_slave; [done|].
  assert (forall s', addr_of (b2 <| slaves ::= <[s := tlb_init_slave sl2]> |>) s' = addr_of b2 s') as A3.
  { intros s'. rewrite addr_of_insert. case_decide; [|done]. subst. unfold addr_of. rewrite Hsl2. unfold tlb_init_slave. by rec_simpl. }
  assert (good mac_side b (b2 <| slaves ::= <[s := tlb_init_slave sl2]> |>)) as Hg3.
  { eapply good_reset; [done|done| |unfold tlb_init_slave, env; by rec_simpl|left; unfold tlb_init_slave; by rec_simpl].
    intros t i e. rewrite (ms_tx _ _ (proj2 Hg2)). apply Hf. }
  set (b3 := b2 <| slaves ::= _ |>) in *. assert (slave_list b3 = slave_list b2) as L3 by (subst b3; by rec_simpl).
  clearbody b3. apply wp_bind. eapply wp_mono; [apply order_rebalance_ok, Hg3|]. cbv beta. intros _ b4 Hc4. apply wp_ret.
  assert (forall s', addr_of b4 s' = addr_of b2 s') as A4.
  { intros s'. rewrite <-A3. unfold addr_of, core in *. congruence. }
  split_and!.
  - eapply (good_step mac_side); [done|done| |eapply inv_core; [done|apply Hg3]].
    unfold core in Hc4. injection Hc4 as E1 E2 E3 E4 E5 E6 E7 E8 E9 E10 E11 E12.
    constructor; [constructor|..]; rewrite ?E1, ?E2, ?E3, ?E4, ?E6, ?E7, ?E9, ?E10, ?E11; done.
  - intros s' Hne. by rewrite A4, O2, O1.
  - intros Hr _ a Ha. rewrite A4 in Ha. eapply (unused_same b2); [|exact A4|].
    + unfold core in Hc4. congruence.
    + apply U2; [|..|done|done].
      * eapply reliable_mode; [|exact Hr]. apply Hg1.
      * rewrite T1. cbn. rewrite (good_perm mac_side b b b1 s) by done. unfold perm_of. by rewrite Hsl.
Qed.
(** Nothing refers to a slave that does not exist. *)
Record unreferenced (b : bonding) (s : positive) : Prop := {
  un_list : s ∉ slave_list b;
  un_active : curr_active_slave b <> Some s;
  un_usable : not_usable b s;
  un_tx : tx_free_of s b;
  un_rx : rx_free_of s b;
  un_rx_slave : rx_slave b <> Some s
}.

Lemma inv_unreferenced b s : inv b -> slaves b !! s = None -> unreferenced b s.
Proof.
  intros [] Hs. assert (~ live (slaves b) s) as Hn by (unfold live; rewrite Hs; by intros []). constructor.
  - intros ?%inv_listed. done.
  - intros ?%inv_active. done.
  - intros l Hl Hin. by apply (inv_usable l Hl) in Hin.
  - intros t i e Ht He Hs'. destruct (tx_path _ _ (inv_tx t Ht) i e s He Hs') as (sl & Hsl & _). congruence.
  - intros t i e Ht He Hs'. destruct (inv_rx t Ht) as (ul & sl & _ & Hent). by apply (rx_live _ _ _ _ _ (Hent i e He)) in Hs'.
  - intros Hx. by destruct (inv_rx_slave s Hx).
Qed.

Lemma unreferenced_mac b b' s : mac_side b b' -> unreferenced b s -> unreferenced b' s.
Proof.
  intros [Hs Ht Hr Hx] [U1 U2 U3 U4 U5 U6]. constructor.
  - by rewrite (same_list _ _ Hs).
  - by rewrite (same_active _ _ Hs).
  - intros l. rewrite (same_usable _ _ Hs). apply U3.
  - intros t i e. rewrite Ht. apply U4.
  - intros t i e. rewrite Hr. apply U5.
  - by rewrite Hx.
Qed.

Lemma inv_remove b s : inv b -> unreferenced b s -> inv (b <| slaves ::= delete s |>).
Proof. intros Hi []. by apply inv_delete. Qed.

Lemma distinct_snoc b b' s :
  slave_list b' = slave_list b ++ [s] -> s ∉ slave_list b ->
  (forall s', s' <> s -> addr_of b' s' = addr_of b s') -> distinct b ->
  (forall a, addr_of b' s = Some a -> unused b a) -> distinct b'.
Proof.
  intros Hl Hout Ho Hd Hu s1 s2 a. rewrite Hl.
  assert (forall x, x ∈ slave_list b -> x <> s) as Hne by (by intros x Hx ->).
  intros [H1|H1%list_elem_of_singleton]%elem_of_app [H2|H2%list_elem_of_singleton]%elem_of_app; subst; [| | |done].
  - rewrite !Ho by auto. by apply Hd.
  - rewrite Ho by auto. intros E1 E2. by destruct (Hu a E2 s1).
  - rewrite (Ho s2) by auto. intros E1 E2. by destruct (Hu a E1 s2).
Qed.

Lemma bond_enslave_alb_ok b s sl :
  inv b -> slaves b !! s = None ->
  wp (bond_enslave_alb s sl) (fun res b' => inv b' /\
    slave_list b' = (if res =? 0 then slave_list b ++ [s] else slave_list b) /\
    curr_active_slave b' = curr_active_slave b /\ mode_tlb b' = mode_tlb b /\
    (forall s', s' <> s -> addr_of b' s' = addr_of b s') /\
    (reliable b -> distinct b -> distinct b')) b.
Proof.
  intros Hi Hs. pose proof (inv_unreferenced b s Hi Hs) as Hun. unfold bond_enslave_alb. apply wp_bind, wp_mod.
  set (sl0 := sl <| load := 0 |> <| head := 0 |>). set (b1 := b <| slaves ::= <[s := sl0]> |>).
  assert (inv b1) as Hi1.
  { apply inv_add; [done|done|]. right. subst sl0. rec_simpl. unfold tx_index. pose proof tlb_size. lia. }
  assert (unreferenced b1 s) as Hun1.
  { destruct Hun. subst b1. constructor; unfold not_usable, tx_free_of, rx_free_of in *; rec_simpl; done. }
  assert (forall s', s' <> s -> addr_of b1 s' = addr_of b s') as A1.
  { intros s' Hne. subst b1. by rewrite addr_of_insert, decide_False. }
  assert (live (slaves b1) s) as Hl1 by (subst b1; rec_simpl; unfold live; rewrite lookup_insert_eq; by eexists).
  assert (slave_list b1 = slave_list b /\ curr_active_slave b1 = curr_active_slave b /\ mode_tlb b1 = mode_tlb b) as (L1 & C1 & M1)
    by (subst b1; by rec_simpl).
  clearbody b1. apply wp_bind. eapply wp_mono; [by apply bond_alb_init_slave_ok; try apply Hun1|]. cbv beta.
  intros res b2 (Hg2 & A2 & U2). pose proof (unreferenced_mac _ _ _ (proj2 Hg2) Hun1) as Hun2.
  pose proof (ms_same _ _ (proj2 Hg2)) as Hs2.
  assert (forall s', s' <> s -> addr_of b2 s' = addr_of b s') as A2' by (intros s' Hne; by rewrite A2, A1).
  assert (slave_list b2 = slave_list b) as L2 by (by rewrite (same_list _ _ Hs2)).
  assert (curr_active_slave b2 = curr_active_slave b) as C2 by (by rewrite (same_active _ _ Hs2)).
  assert (mode_tlb b2 = mode_tlb b) as M2 by (by rewrite (same_mode _ _ Hs2)).
  destruct (Z.eqb_spec res 0) as [->|Hres]; cbn [negb].
  - apply wp_bind, wp_mod. set (b3 := b2 <| slave_list ::= _ |>).
    assert (inv b3) as Hi3.
    { destruct (proj1 Hg2). subst b3. constructor; rec_simpl; try done.
      - apply NoDup_app. split_and!; [done| |apply NoDup_singleton]. intros x Hx ->%list_elem_of_singleton. by apply Hun2.
      - intros x [Hx|Hx%list_elem_of_singleton]%elem_of_app; [auto|]. subst. by apply (same_live _ _ Hs2). }
    assert (slave_list b3 = slave_list b ++ [s]) as L3 by (subst b3; rec_simpl; by rewrite L2).
    assert (forall s', addr_of b3 s' = addr_of b2 s') as A3 by (intros s'; subst b3; unfold addr_of; by rec_simpl).
    assert (curr_active_slave b3 = curr_active_slave b /\ mode_tlb b3 = mode_tlb b) as [C3 M3] by (subst b3; by rec_simpl).
    clearbody b3. apply wp_bind. eapply wp_mono; [by apply bond_update_slave_arr_ok|]. cbv beta.
    intros _ b4 (Hi4 & Ha4 & _). destruct (array_calm _ _ Ha4) as [L4 C4 M4 A4]. apply wp_ret.
    split_and!; [done|by rewrite Z.eqb_refl; congruence|congruence|congruence|intros s' Hne; by rewrite A4, A3, A2'|].
    intros Hr Hd. eapply (distinct_snoc b2 b4 s); [congruence|apply Hun2|intros s' _; by rewrite A4, A3| |].
    + intros s1 s2 a. rewrite L2. intros H1 H2. rewrite !A2'; [by apply Hd| |]; intros ->; by apply Hun.
    + intros a. rewrite A4, A3. apply U2; [|done]. eapply reliable_mode; [|exact Hr]. done.
  - apply wp_bind, wp_mod, wp_ret. rewrite (proj2 (Z.eqb_neq res 0)) by done.
    assert (forall s', s' <> s -> addr_of (b2 <| slaves ::= delete s |>) s' = addr_of b s') as A3.
    { intros s' Hne. rewrite <-A2' by done. unfold addr_of. rec_simpl. by rewrite lookup_delete_ne. }
    split_and!; [apply inv_remove; [apply Hg2|done]|by rec_simpl|by rec_simpl|by rec_simpl|done|].
    intros _ Hd s1 s2 a. rec_simpl. rewrite L2. intros H1 H2. rewrite !A3; [by apply Hd| |]; intros ->; by apply Hun.
Qed.
(** ** Releasing a slave *)

(** A slave that is not on the list, and is not used, is cleared from the tables. *)
Lemma clear_tables_ok b s :
  inv b -> live (slaves b) s -> s ∉ slave_list b ->
  wp (tlb_clear_slave s false ;;;
      let* r := gets rlb_enabled in
      when_ r (modify (fun b => b <| rx_slave := None |>) ;;; rlb_clear_slave s))
    (fun _ b' => inv b' /\ still b b' /\ tx_free_of s b' /\ rx_free_of s b' /\ rx_slave b' <> Some s) b.
Proof.
  intros Hi Hs Hout. pose proof (good_begin b Hi) as Hg. apply wp_bind.
  eapply wp_mono; [by eapply (tlb_clear_slave_ok still b)|]. cbv beta. intros _ b1 (Hg1 & Hf1 & _).
  apply wp_bind, wp_gets, when_wp; intros Hen.
  - apply wp_bind, wp_mod. set (b2 := b1 <| rx_slave := None |>).
    assert (good still b b2) as Hg2.
    { destruct Hg1 as [Hi1 Hs1]. split.
      - destruct Hi1. subst b2. constructor; rec_simpl; done.
      - eapply still_trans; [done|]. subst b2. constructor; [constructor|..]; unfold addr_of; by rec_simpl. }
    assert (tx_free_of s b2) as Hf2 by (subst b2; unfold tx_free_of in *; by rec_simpl).
    assert (rlb_enabled b2 = true /\ rx_slave b2 = None) as [Hen2 Hx2] by (subst b2; by rec_simpl). clearbody b2.
    assert (~ eligible b2 s) as Hne.
    { intros [Hin _]. rewrite (same_list _ _ (sl_same _ _ (proj2 Hg2))) in Hin. done. }
    eapply wp_mono; [apply (rlb_clear_slave_ok still b); [done|done|done|by apply (good_live_iff b b2)]|].
    cbv beta. intros _ b3 ([Hi3 Hs3] & Hk3 & Hfr3 & Hl3). split_and!; [done|done| |by apply Hfr3|].
    + intros t i e. rewrite (rs_tx _ _ (kp_side _ _ Hk3)). apply Hf2.
    + apply Hl3; [done|]. by rewrite Hx2.
  - destruct Hg1 as [Hi1 Hs1]. split_and!; [done|done|done| |].
    + intros t i e Ht. destruct (inv_rx_some _ Hi1) as [E _]; [by rewrite Ht|congruence].
    + intros Hx. destruct (inv_rx_slave _ Hi1 s Hx). congruence.
Qed.

Lemma detach_ok b s :
  inv b -> live (slaves b) s ->
  wp (let* l := gets slave_list in when_ (bool_decide (l <> [])) (alb_change_hw_addr_on_detach s))
    (fun _ b' => good same b b' /\ (reliable b -> distinct_on (fun x => (x = s) \/ (x ∈ slave_list b)) b ->
      distinct_on (fun x => (x = s) \/ (x ∈ slave_list b)) b')) b.
Proof.
  intros Hi Hs. pose proof (conj Hi (same_refl b) : good same b b) as Hg.
  apply wp_bind, wp_gets, when_wp; intros _; [|done].
  eapply wp_mono; [by eapply (alb_change_hw_addr_on_detach_ok same b)|]. cbv beta. intros _ b' (Hg' & f & Hsw & Hf).
  split; [done|]. intros Hr. eapply distinct_swapped; [exact Hsw|done|by left|done].
Qed.

(** The slave that is released stops being the active one. *)
Lemma deactivate_ok b s :
  inv b ->
  wp (let* active := is_active s in when_ active (bond_alb_handle_active_change None))
    (fun _ b' => inv b' /\ slave_list b' = slave_list b /\ usable_slaves b' = usable_slaves b /\
      mode_tlb b' = mode_tlb b /\ (forall s', live (slaves b') s' <-> live (slaves b) s') /\
      (forall s', addr_of b' s' = addr_of b s') /\
      curr_active_slave b' = (if decide (curr_active_slave b = Some s) then None else curr_active_slave b)) b.
Proof.
  intros Hi. unfold is_active. apply wp_bind, wp_bind, wp_gets, wp_ret, when_wp; intros Ha.
  - apply bool_decide_eq_true in Ha. rewrite decide_True by done.
    eapply wp_mono; [by apply bond_alb_handle_active_change_ok|]. cbv beta. intros _ b' [Hi' [Hs Hb Hn _]].
    split_and!; [done|apply Hs|apply Hs|apply Hs| |by apply Hn|apply Hs].
    intros s'. rewrite (same_live _ _ Hs). by rec_simpl.
  - apply bool_decide_eq_false in Ha. by rewrite decide_False.
Qed.

Lemma bond_release_alb_ok b s :
  inv b -> s ∈ slave_list b ->
  wp (bond_release_alb s) (fun _ b' => inv b' /\ slaves b' !! s = None /\
    slave_list b' = filter (fun x => x <> s) (slave_list b) /\ mode_tlb b' = mode_tlb b /\
    curr_active_slave b' = (if decide (curr_active_slave b = Some s) then None else curr_active_slave b) /\
    (reliable b -> distinct b -> distinct b')) b.
Proof.
  intros Hi Hin. unfold bond_release_alb. apply wp_bind, wp_mod. set (b1 := b <| slave_list ::= _ |>).
  assert (inv b1) as Hi1.
  { destruct Hi. subst b1. constructor; rec_simpl; try done; [by apply NoDup_filter|].
    intros x [_ Hx]%list_elem_of_filter. auto. }
  assert (live (slaves b1) s) as Hl1 by (subst b1; rec_simpl; by apply (inv_listed _ Hi)).
  assert (slave_list b1 = filter (fun x => x <> s) (slave_list b) /\ curr_active_slave b1 = curr_active_slave b /\
    mode_tlb b1 = mode_tlb b) as (L1 & C1 & M1) by (subst b1; by rec_simpl).
  assert (forall s', addr_of b1 s' = addr_of b s') as A1 by (intros s'; subst b1; unfold addr_of; by rec_simpl).
  clearbody b1. apply wp_bind. eapply wp_mono; [by apply bond_update_slave_arr_ok|]. cbv beta.
  intros _ b2 (Hi2 & Ha2 & Hu2). specialize (Hu2 s eq_refl). destruct (array_calm _ _ Ha2) as [L2 C2 M2 A2].
  assert (live (slaves b2) s) as Hl2 by (unfold but_array in Ha2; congruence).
  assert (wp (let* active := is_active s in when_ active (bond_alb_handle_active_change None)) _ b2) as Hde
    by (by apply (deactivate_ok b2 s)).
  apply wp_unbind in Hde. apply wp_bind. eapply wp_mono; [exact Hde|]. cbv beta. clear Hde. intros act b2' Hde.
  apply wp_bind. eapply wp_mono; [exact Hde|]. cbv beta. clear Hde b2' act.
  intros _ b3 (Hi3 & L3 & U3 & M3 & V3 & A3 & C3). apply wp_bind. unfold bond_alb_deinit_slave.
  assert (live (slaves b3) s) as Hl3 by (by apply V3).
  pose proof (detach_ok b3 s Hi3 Hl3) as Hdt. apply wp_unbind in Hdt.
  apply wp_bind. eapply wp_mono; [exact Hdt|]. cbv beta. clear Hdt. intros l b3' Hdt.
  apply wp_bind. eapply wp_mono; [exact Hdt|]. cbv beta. clear Hdt b3' l. intros _ b4 [[Hi4 Hs4] D4].
  assert (slave_list b4 = filter (fun x => x <> s) (slave_list b)) as L4 by (rewrite (same_list _ _ Hs4); congruence).
  assert (s ∉ slave_list b4) as Hout by (rewrite L4, list_elem_of_filter; by intros [? _]).
  eapply wp_mono; [apply clear_tables_ok; [done|by apply (same_live _ _ Hs4)|done]|]. cbv beta.
  intros _ b5 (Hi5 & [Hs5 A5 _] & Ft & Fr & Fx). apply wp_mod.
  assert (slave_list b5 = filter (fun x => x <> s) (slave_list b)) as L5 by (by rewrite (same_list _ _ Hs5)).
  assert (curr_active_slave b5 = (if decide (curr_active_slave b = Some s) then None else curr_active_slave b)) as C5.
  { rewrite (same_active _ _ Hs5), (same_active _ _ Hs4), C3, C2, C1. done. }
  split_and!; rec_simpl.
  - apply inv_delete; [done|by rewrite (same_list _ _ Hs5)| | |done|done|done].
    + rewrite C5. by case_decide.
    + intros u. rewrite (same_usable _ _ Hs5), (same_usable _ _ Hs4), U3. apply Hu2.
  - by rewrite lookup_delete_eq.
  - done.
  - rewrite (same_mode _ _ Hs5), (same_mode _ _ Hs4). congruence.
  - done.
  - intros Hr Hd. assert (reliable b3) as Hr3 by (eapply reliable_mode; [|exact Hr]; congruence).
    intros s1 s2 a. rec_simpl. rewrite L5. intros [N1 H1]%list_elem_of_filter [N2 H2]%list_elem_of_filter.
    unfold addr_of. rec_simpl. rewrite !lookup_delete_ne by done. fold (addr_of b5 s1) (addr_of b5 s2). rewrite !A5.
    assert (forall x, x ∈ slave_list b -> (x = s) \/ (x ∈ slave_list b3)) as HX.
    { intros x Hx. destruct (decide (x = s)); [by left|]. right. rewrite L3, L2, L1. by apply list_elem_of_filter. }
    apply D4; [done| |by apply HX|by apply HX].
    intros x y a' Hx Hy. rewrite !A3, !A2, !A1. apply Hd.
    + destruct Hx as [->|Hx]; [done|]. rewrite L3, L2, L1 in Hx. by apply list_elem_of_filter in Hx as [_ ?].
    + destruct Hy as [->|Hy]; [done|]. rewrite L3, L2, L1 in Hy. by apply list_elem_of_filter in Hy as [_ ?].
Qed.
End slaves.
