(* ===== verification/AlbReach.v ===== *)
(** * Adaptive load balancing: all calls of the driver

    The calls into [servers/bond_alb.c] in any order, with what the driver guarantees when
    it makes them, and the states that are reached. *)

From S2P Require Import Prelude.
From S2P Require Import BondHash.
From S2P Require Import BondSpec.
From S2P Require Import AlbTypes.
From S2P Require Import AlbOps.
From S2P Require Import AlbEntry.
From S2P Require Import AlbInv.
From S2P Require Import AlbTlb.
From S2P Require Import AlbRlb.
From S2P Require Import AlbSide.
From S2P Require Import AlbMac.
From S2P Require Import AlbXmit.
From S2P Require Import AlbSlaves.

(** What happens to a bond: the calls of the driver, packets, the monitor, and changes of
    the speed or the state of a slave. *)
Inductive alb_op :=
  | Open
  | Close
  | Enslave (s : positive) (sl : slave)
  | Release (s : positive)
  | LinkChange (s : positive) (l : link)
  | ActiveChange (new : option positive)
  | SetMac (a : mac_addr)
  | ClearVlan (vlan : Z)
  | UpdateArray
  | Monitor
  | SendTlb (skb : sk_buff)
  | SendAlb (skb : sk_buff)
  | RecvArp (arp : arp_pkt)
  | SlaveState (s : positive) (v : Z) (tx : bool).

Section reach.
Context `{Alb}.

Definition alb_run (o : alb_op) : M bonding Z :=
  match o with
  | Open => let* tlb := gets mode_tlb in bond_alb_initialize (negb tlb)
  | Close => bond_alb_deinitialize ;;; ret 0
  | Enslave s sl => bond_enslave_alb s sl
  | Release s => bond_release_alb s ;;; ret 0
  | LinkChange s l => bond_alb_handle_link_change s l ;;; ret 0
  | ActiveChange new => bond_alb_handle_active_change new ;;; ret 0
  | SetMac a => bond_alb_set_mac_address a
  | ClearVlan vlan => bond_alb_clear_vlan vlan ;;; ret 0
  | UpdateArray => bond_update_slave_arr None ;;; ret 0
  | Monitor => bond_alb_monitor ;;; ret 0
  | SendTlb skb => bond_tlb_xmit skb ;;; ret 0
  | SendAlb skb => bond_alb_xmit skb ;;; ret 0
  | RecvArp arp => rlb_arp_recv arp ;;; ret 0
  | SlaveState s v tx => mod_slave s (fun sl => sl <| speed := v |> <| can_tx := tx |>) ;;; ret 0
  end.

(** What the driver guarantees: a bond is opened when it is closed; packets are sent, and
    ARP packets handed over, while it is open; the headers that are hashed are not split;
    slaves that are named are on the list, new ones are not. *)
Definition alb_allowed (o : alb_op) (b : bonding) : Prop :=
  match o with
  | Open => tx_hashtbl b = None
  | Enslave s _ => slaves b !! s = None
  | Release s | LinkChange s _ | SlaveState s _ _ => s ∈ slave_list b
  | ActiveChange (Some s) => s ∈ slave_list b
  | SendTlb skb | SendAlb skb => is_Some (tx_hashtbl b) /\ skb_linear skb
  | RecvArp _ => is_Some (rx_hashtbl b)
  | _ => True
  end.

Inductive alb_step (b b' : bonding) : Prop :=
  | alb_step_op o res : alb_allowed o b -> alb_run o b = Ok (res, b') -> alb_step b b'.

(** A bond that was just made, in one of the two modes. *)
Definition alb_init (tlb dynamic : bool) (pol : policy) (addr : mac_addr) (dev : net_device) : bonding :=
  Bonding ∅ [] None None dev addr tlb dynamic pol None 0 0 0 false None 0 false None false 0 0 0 false [] 0.

Definition alb_reachable (b : bonding) : Prop :=
  exists tlb dynamic pol addr dev, rtc alb_step (alb_init tlb dynamic pol addr dev) b.
End reach.

Section safe.
Context `{AlbLaws}.

(** The active slave is on the list. *)
Definition active_listed (b : bonding) : Prop := forall c, curr_active_slave b = Some c -> c ∈ slave_list b.

Lemma alb_init_inv tlb dynamic pol addr dev : inv (alb_init tlb dynamic pol addr dev).
Proof.
  constructor; cbn; first [done | by intros [] | by intros ? ?%not_elem_of_nil | constructor].
Qed.

(** What a call keeps. *)
Record call_ok (b b' : bonding) : Prop := {
  co_inv : inv b';
  co_mode : mode_tlb b' = mode_tlb b;
  co_active : active_listed b';
  co_distinct : reliable b -> distinct b -> distinct b'
}.

Lemma calm_call b b' : inv b' -> calm b b' -> active_listed b -> call_ok b b'.
Proof.
  intros Hi [Hl Ha Hm Had] Hact. constructor; [done|done| |].
  - intros c. rewrite Ha, Hl. apply Hact.
  - intros _. unfold distinct. rewrite Hl. by apply distinct_addr.
Qed.

Lemma attached_calm b b' : attached b' = attached b -> calm b b'.
Proof.
  unfold attached. intros [= E1 E2 E3 E4]. constructor; [done|done|done|]. intros s. unfold addr_of. by rewrite E1.
Qed.

Lemma still_call b b' : good still b b' -> active_listed b -> call_ok b b'.
Proof. intros [Hi Hs]. apply calm_call; [done|]. by apply still_calm. Qed.

Lemma wp_ret_0 {A} (m : M bonding A) (Q : bonding -> Prop) b :
  wp m (fun _ b' => Q b') b -> wp (m ;;; ret 0) (fun _ b' => Q b') b.
Proof. intros Hm. by apply wp_bind. Qed.

Lemma slave_state_ok b s v tx :
  inv b -> s ∈ slave_list b ->
  wp (mod_slave s (fun sl => sl <| speed := v |> <| can_tx := tx |>)) (fun _ b' => inv b' /\ calm b b') b.
Proof.
  intros Hi Hs. destruct (inv_listed _ Hi s Hs) as [sl Hsl]. eapply wp_mod_slave; [done|]. split.
  - eapply inv_tlb; [done|unfold tlb_core; by rec_simpl|..]; rec_simpl.
    + intros s'. unfold live. rewrite <-!(fmap_is_Some dev_addr).
      erewrite (fmap_insert_same dev_addr); [done|exact Hsl|by rec_simpl].
    + done.
    + apply heads_insert; [apply Hi|]. rec_simpl. by apply (inv_heads _ Hi s).
    + intros t Ht. eapply tx_ok_slave; [by apply Hi|done|by rec_simpl].
  - constructor; [by rec_simpl..|]. intros s'. rewrite addr_of_insert. case_decide; [|done].
    subst. rec_simpl. unfold addr_of. by rewrite Hsl.
Qed.

Lemma alb_run_ok o b :
  inv b -> active_listed b -> alb_allowed o b -> wp (alb_run o) (fun _ b' => call_ok b b') b.
Proof.
  intros Hi Hact Hal. destruct o as [| |s sl|s|s l|new|a|vlan| | |skb|skb|arp|s v tx]; cbn in Hal |- *.
  - apply wp_bind, wp_gets. eapply wp_mono; [by apply open_ok|]. cbv beta. intros res b' [[Hi' _] Ha].
    apply calm_call; [done|by apply attached_calm|done].
  - apply wp_ret_0. eapply wp_mono; [by apply close_ok|]. cbv beta. intros _ b' [[Hi' _] Ha].
    apply calm_call; [done|by apply attached_calm|done].
  - eapply wp_mono; [by apply bond_enslave_alb_ok|]. cbv beta. intros res b' (Hi' & Hl & Ha & Hm & _ & Hd).
    constructor; [done|done| |done]. intros c Hc. rewrite Hl. rewrite Ha in Hc. specialize (Hact c Hc). case_match; set_solver.
  - apply wp_ret_0. eapply wp_mono; [by apply bond_release_alb_ok|]. cbv beta. intros _ b' (Hi' & _ & Hl & Hm & Ha & Hd).
    constructor; [done|done| |done]. intros c. rewrite Hl, Ha. case_decide as E; [done|]. intros Hc.
    apply list_elem_of_filter. split; [|by apply Hact]. by intros ->.
  - apply wp_ret_0. eapply wp_mono; [apply bond_alb_handle_link_change_ok; [done|by apply (inv_listed _ Hi)]|].
    cbv beta. intros _ b' (Hi' & Hc & _). by apply calm_call.
  - apply wp_ret_0. assert (forall n, new = Some n -> n ∈ slave_list b) as Hn by (by intros n ->).
    eapply wp_mono; [by apply bond_alb_handle_active_change_ok|]. cbv beta. intros _ b' [Hi' [Hs Hb _ Hd]].
    constructor; [done|rewrite (same_mode _ _ Hs); by rec_simpl| |by auto].
    intros c. rewrite (same_active _ _ Hs), (same_list _ _ Hs). rec_simpl. apply Hn.
  - eapply wp_mono; [by apply bond_alb_set_mac_address_ok|]. cbv beta. intros res b' (Hi' & Hl & Ha & Hm & _ & _ & Hd).
    constructor; [done|done| |by auto]. intros c. rewrite Ha, Hl. apply Hact.
  - apply wp_ret_0. unfold bond_alb_clear_vlan. apply wp_bind, wp_gets.
    apply when_wp; intros Hen; [|by apply still_call; [apply good_begin|]].
    eapply wp_mono; [apply (rlb_clear_vlan_ok still b); [done|by apply good_begin|done]|].
    cbv beta. intros _ b' [Hg _]. by apply still_call.
  - apply wp_ret_0. eapply wp_mono; [by apply bond_update_slave_arr_ok|]. cbv beta. intros _ b' (Hi' & Ha & _).
    apply calm_call; [done|by apply array_calm|done].
  - apply wp_ret_0. eapply wp_mono; [by apply bond_alb_monitor_ok|]. cbv beta. intros _ b' Hg. by apply still_call.
  - apply wp_ret_0. destruct Hal. eapply wp_mono; [by apply bond_tlb_xmit_ok|]. cbv beta. intros _ b' Hg. by apply still_call.
  - apply wp_ret_0. destruct Hal. eapply wp_mono; [by apply bond_alb_xmit_ok|]. cbv beta. intros _ b' Hg. by apply still_call.
  - apply wp_ret_0. eapply wp_mono; [by apply rlb_arp_recv_ok|]. cbv beta. intros _ b' Hg. by apply still_call.
  - apply wp_ret_0. eapply wp_mono; [by apply slave_state_ok|]. cbv beta. intros _ b' [Hi' Hc]. by apply calm_call.
Qed.

(** What holds in every reachable state. *)
Record alb_good (b : bonding) : Prop := {
  ag_inv : inv b;
  ag_active : active_listed b;
  ag_distinct : reliable b -> distinct b
}.

Lemma alb_reachable_good b : alb_reachable b -> alb_good b.
Proof.
  intros (tlb & dynamic & pol & addr & dev & Hr). revert b Hr. refine (rtc_ind_r alb_good _ _ _).
  - constructor; [apply alb_init_inv|done|]. intros _ s1 s2 a. cbn. by intros ?%not_elem_of_nil.
  - intros b1 b2 _ [o res Hal Hrun] [Hi Ha Hd]. pose proof (alb_run_ok o b1 Hi Ha Hal) as Hok.
    unfold wp in Hok. rewrite Hrun in Hok. destruct Hok as [Hi2 Hm2 Ha2 Hd2]. constructor; [done|done|].
    intros Hrel. assert (reliable b1) as Hr1 by (by eapply reliable_mode). auto.
Qed.

Lemma alb_run_succeeds o b :
  alb_reachable b -> alb_allowed o b -> exists res b', alb_run o b = Ok (res, b').
Proof.
  intros [Hi Ha _]%alb_reachable_good Hal. destruct (wp_inv _ _ _ (alb_run_ok o b Hi Ha Hal)) as (res & b' & Hrun & _). eauto.
Qed.
End safe.
