(* ===== verification/AlbSample.v ===== *)
(** * Adaptive load balancing: an instance, and a run of it

    [LinuxAlb] gives what [servers/bond_alb.c] takes from headers in the simplest way that
    has the documented behaviour, with the constants of Linux.  It shows that the laws can
    hold, and lets a run be evaluated. *)

From S2P Require Import Prelude.
From S2P Require Import BondHash.
From S2P Require Import BondSpec.
From S2P Require Import BondSample.
From S2P Require Import AlbTypes.
From S2P Require Import AlbOps.
From S2P Require Import AlbEntry.
From S2P Require Import AlbXmit.
From S2P Require Import AlbReach.

(** ** The kernel around the file *)

Definition zero_addr : mac_addr := [0; 0; 0; 0; 0; 0].
Definition broadcast_addr : mac_addr := [255; 255; 255; 255; 255; 255].
Definition multicast (a : mac_addr) : bool := match a with x :: _ => Z.odd x | [] => false end.

#[export] Instance LinuxAlb : Alb := {|
  alb_flow := LinuxFlow;
  TLB_NULL_INDEX := 0xffffffff;
  RLB_NULL_INDEX := 0xffffffff;
  TLB_HASH_TABLE_SIZE := 256;
  RLB_HASH_TABLE_SIZE := 256;
  BOND_TLB_REBALANCE_INTERVAL := 10;
  BOND_TLB_REBALANCE_TICKS := 100;
  BOND_ALB_LP_TICKS := 10;
  RLB_UPDATE_RETRY := 3;
  RLB_UPDATE_DELAY := 20;
  RLB_ARP_BURST_SIZE := 2;
  RLB_PROMISC_TIMEOUT := 100;
  ENOMEM := 12; EFAULT := 14; EOPNOTSUPP := 95; EADDRNOTAVAIL := 99; mac_errno := -95;
  ether_addr_equal := fun a b => bool_decide (a = b);
  is_valid_ether_addr := fun a => negb (multicast a) && negb (bool_decide (a = zero_addr));
  is_zero_ether_addr := fun a => bool_decide (a = zero_addr);
  is_broadcast_ether_addr := fun a => bool_decide (a = broadcast_addr);
  is_multicast_ether_addr := multicast;
  bond_slave_has_mac := fun l a => (fun p => p.2.1) <$> list_find (fun p => dev_addr p.2 = a) l;
  bond_is_nondyn_tlb := fun b => mode_tlb b && negb (tlb_dynamic_lb b);
  BOND_VLAN_PROTO_NONE := 0xffff;
  bridge_has_addr := fun _ => false;
  succeeds := fun _ => true
|}.

#[export] Instance LinuxAlbLaws : AlbLaws.
Proof.
  constructor; cbn; try lia.
  - apply LinuxFlowLaws.
  - intros a b. apply bool_decide_eq_true.
  - intros l a s ([i [s' sl]] & Hf & ->)%fmap_Some. apply list_find_Some in Hf as (Hl & Ha & _).
    exists sl. split; [by eapply list_elem_of_lookup_2|done].
  - intros l a Hn%fmap_None. intros s sl Hin Ha. apply list_find_None in Hn.
    rewrite Forall_forall in Hn. by apply (Hn (s, sl)).
Qed.

(** ** Runs *)

#[export] Instance skb_linear_dec skb : Decision (skb_linear skb).
Proof. unfold skb_linear, linear. apply _. Defined.

#[export] Instance alb_allowed_dec `{Alb} o b : Decision (alb_allowed o b).
Proof. destruct o as [| | | | |[]| | | | | | | |]; cbn; apply _. Defined.

(** A sequence of calls, up to the first one that is not allowed. *)
Fixpoint alb_play `{Alb} (ops : list alb_op) (b : bonding) : bonding :=
  match ops with
  | [] => b
  | o :: ops =>
      if bool_decide (alb_allowed o b) then
        match alb_run o b with Ok (_, b') => alb_play ops b' | Err _ => b end
      else b
  end.

Lemma alb_play_steps `{Alb} ops b : rtc alb_step b (alb_play ops b).
Proof.
  revert b. induction ops as [|o ops IH]; intros b; cbn; [done|].
  case_bool_decide as Hal; [|done]. destruct (alb_run o b) as [[res b']|] eqn:Hrun; [|done].
  eapply rtc_l; [by eapply alb_step_op|apply IH].
Qed.

(** Three slaves, the last of them slower, a VLAN and a macvlan device above the bond. *)
Definition hw (n : Z) : mac_addr := [2; 0; 0; 0; 0; n].
Definition port (n v : Z) : slave := Slave v true (hw n) (hw n) (hw n) 0 0.
Definition plain (n : Z) : dev_info := DevInfo n false 0 0 0 false (hw 1) false.
Definition sample_dev : net_device :=
  NetDevice (plain 10)
    [NetDevice (DevInfo 11 true 0x8100 42 1 true (hw 1) false)
       [NetDevice (DevInfo 12 false 0 0 2 false (hw 9) true) []]].

Definition sample_si : skb_info := SkbInfo BondHash.ETH_P_IP 14 None false 0.
Definition sample_mem : mem := Mem {[1%positive := replicate 60 0]} 1 [].
Definition arp_skb (op : arp_op) (src dst : Z) (to : mac_addr) : sk_buff :=
  Skb ETH_P_ARP to (hw 1) 42 None true [] false false false false false
    (ArpPkt op (hw 1) [10; 0; 0; src] to [10; 0; 0; dst]) sample_si sample_mem.
Definition ip_skb (dst len : Z) : sk_buff :=
  Skb ETH_P_IP (hw 20) (hw 1) len None true [10; 0; 0; dst] false false false false false
    (ArpPkt ARPOP_OTHER [] [] [] []) sample_si sample_mem.

(** Clients 7, 8 and 9 are known, and flows to 7 and 8 are balanced. *)
Definition sample_ops : list alb_op :=
  [Enslave 1 (port 1 1000); Enslave 2 (port 2 1000); Enslave 3 (port 3 100); Open;
   ActiveChange (Some 1%positive); UpdateArray; Monitor;
   SendAlb (arp_skb ARPOP_REPLY 1 7 (hw 27)); SendAlb (arp_skb ARPOP_REQUEST 1 8 broadcast_addr);
   SendAlb (arp_skb ARPOP_REPLY 1 9 (hw 29)); SendAlb (ip_skb 7 1000); SendAlb (ip_skb 8 500)].
Definition sample_bond : bonding := alb_play sample_ops (alb_init false true BOND_XMIT_POLICY_LAYER34 (hw 1) sample_dev).

Lemma sample_bond_reachable : alb_reachable sample_bond.
Proof. exists false, true, BOND_XMIT_POLICY_LAYER34, (hw 1), sample_dev. apply alb_play_steps. Qed.

(** The tables of the bond, and the entries of the flow and the client 7. *)
Definition sample_tx : gmap Z tlb_client_info := default ∅ (tx_hashtbl sample_bond).
Definition sample_rx : gmap Z rlb_client_info := default ∅ (rx_hashtbl sample_bond).

Lemma sample_tx_eq : tx_hashtbl sample_bond = Some sample_tx.
Proof.
  assert (bool_decide (is_Some (tx_hashtbl sample_bond)) = true) as Hs by (vm_compute; reflexivity).
  unfold sample_tx. destruct (tx_hashtbl sample_bond); [reflexivity|discriminate Hs].
Qed.
Lemma sample_rx_eq : rx_hashtbl sample_bond = Some sample_rx.
Proof.
  assert (bool_decide (is_Some (rx_hashtbl sample_bond)) = true) as Hs by (vm_compute; reflexivity).
  unfold sample_rx. destruct (rx_hashtbl sample_bond); [reflexivity|discriminate Hs].
Qed.

Lemma fmap_entry {A B} (f : A -> B) (o : option A) x : f <$> o = Some x -> exists e, o = Some e /\ f e = x.
Proof. intros (e & -> & ->)%fmap_Some. by exists e. Qed.

Lemma sample_tx_entry : exists e, sample_tx !! 13 = Some e /\ tx_slave e = Some 1%positive.
Proof. apply (fmap_entry tx_slave (sample_tx !! 13)). vm_compute. reflexivity. Qed.
Lemma sample_rx_entry :
  exists e, sample_rx !! 13 = Some e /\
    assigned e && conflicts (ArpPkt ARPOP_REPLY (hw 77) [10; 0; 0; 1] (hw 1) [10; 0; 0; 1]) e = true.
Proof.
  apply (fmap_entry (fun e => assigned e && conflicts (ArpPkt ARPOP_REPLY (hw 77) [10; 0; 0; 1] (hw 1) [10; 0; 0; 1]) e)
    (sample_rx !! 13)). vm_compute. reflexivity.
Qed.

(** The ARP packet that client 7 was learned from. *)
Definition sample_arp : arp_pkt := ArpPkt ARPOP_REPLY (hw 1) [10; 0; 0; 1] (hw 27) [10; 0; 0; 7].

(** Two slaves of the same speed, and a bond that balances only what it sends. *)
Definition sample_pair : bonding :=
  alb_play [Enslave 1 (port 1 1000); Enslave 2 (port 2 1000); Open] (alb_init false true BOND_XMIT_POLICY_LAYER34 (hw 1) sample_dev).
Definition sample_tlb : bonding :=
  alb_play [Enslave 1 (port 1 1000); Enslave 2 (port 2 1000); Open] (alb_init true true BOND_XMIT_POLICY_LAYER34 (hw 1) sample_dev).

Lemma sample_pair_reachable : alb_reachable sample_pair.
Proof. exists false, true, BOND_XMIT_POLICY_LAYER34, (hw 1), sample_dev. apply alb_play_steps. Qed.
Lemma sample_tlb_reachable : alb_reachable sample_tlb.
Proof. exists true, true, BOND_XMIT_POLICY_LAYER34, (hw 1), sample_dev. apply alb_play_steps. Qed.

Lemma sample_pair_speed s sl : slaves sample_pair !! s = Some sl -> speed sl = 1000.
Proof.
  assert (map_Forall (fun _ sl => speed sl = 1000) (slaves sample_pair)) as Hall.
  { apply (bool_decide_unpack _). vm_compute. exact I. }
  apply Hall.
Qed.
