(* ===== verification/AlbProps.v ===== *)
(** * Adaptive load balancing: properties

    What the calls into [servers/bond_alb.c] guarantee, in every state that a bond can
    reach. *)

From S2P Require Import Prelude.
From S2P Require Import AlbTypes.
From S2P Require Import AlbOps.
From S2P Require Import AlbEntry.
From S2P Require Import AlbLinks.
From S2P Require Import AlbInv.
From S2P Require Import AlbTlb.
From S2P Require Import AlbRlb.
From S2P Require Import AlbSide.
From S2P Require Import AlbServe.
From S2P Require Import AlbMac.
From S2P Require Import AlbXmit.
From S2P Require Import AlbSlaves.
From S2P Require Import AlbReach.
From S2P Require Import AlbSample.

Section props.
Context `{L : AlbLaws}.

Lemma wp_run_0 (m : M bonding unit) (Q : bonding -> Prop) b :
  wp m (fun _ b' => Q b') b -> exists b', (m ;;; ret 0) b = Ok (0, b') /\ Q b'.
Proof. intros ([] & b' & Hm & HQ)%wp_inv. exists b'. split; [|done]. unfold bind. by rewrite Hm. Qed.

(** C9. In every state that is reached by any sequence of calls of the driver, packets and
    runs of the monitor, the next call completes: no null or dangling slave is dereferenced,
    no entry outside a table is accessed, and every walk along a list of entries ends. *)
Theorem alb_no_fault o b :
  alb_reachable b -> alb_allowed o b -> exists res b', alb_run o b = Ok (res, b').
Proof. apply alb_run_succeeds. Qed.


(** C11. Releasing a slave succeeds and leaves no reference to it: it is not on the list, not
    the active slave, not in the array of usable slaves, not the last slave used for a
    client, and no entry of either table names it. *)
Theorem alb_release b s :
  alb_reachable b -> s ∈ slave_list b ->
  exists b', alb_run (Release s) b = Ok (0, b') /\ slaves b' !! s = None /\ unreferenced b' s /\
    slave_list b' = filter (fun x => x <> s) (slave_list b).
Proof.
  intros [Hi _ _]%alb_reachable_good Hs. apply wp_run_0.
  eapply wp_mono; [by apply bond_release_alb_ok|]. cbv beta. intros _ b' (Hi' & Hn & Hl & _).
  split_and!; [done|by apply inv_unreferenced|done].
Qed.

(** C22. If the devices let their address be changed, no two slaves of a bond ever have the
    same address, whatever slaves are added, released or made active and whatever address
    the bond is given. *)
Theorem alb_addresses_distinct b : alb_reachable b -> reliable b -> distinct b.
Proof. intros [_ _ Hd]%alb_reachable_good. exact Hd. Qed.

(** A flow keeps the slave it was assigned to; a flow without one gets the first of the
    slaves that can transmit with the largest gap between speed and load, or none if none
    can transmit, and keeps it; the slaves of other flows do not change. *)
Theorem tlb_flow b t i e len :
  alb_reachable b -> tx_hashtbl b = Some t -> t !! i = Some e ->
  exists r b', tlb_choose_channel i len b = Ok (r, b') /\ chosen b b' t i e r.
Proof.
  intros [Hi _ _]%alb_reachable_good Ht He.
  destruct (wp_inv _ _ _ (tlb_choose_channel_ok still b b t i e len (good_begin b Hi) Ht He)) as (r & b' & Hrun & _ & Hc & _).
  by exists r, b'.
Qed.


(** The slave for the next client is one of the fastest that can transmit, and the first of
    these after the slave used last; there is none exactly if no slave can transmit. *)
Theorem rlb_next_slave b :
  alb_reachable b -> exists r b', __rlb_next_rx_slave b = Ok (r, b') /\ turn b r /\
    b' = match r with Some s => b <| rx_slave := Some s |> | None => b end.
Proof.
  intros [Hi _ _]%alb_reachable_good. apply wp_inv, __rlb_next_rx_slave_run; [apply Hi|].
  split; [apply next_rx_turn|done].
Qed.

(** Clients are spread evenly: if the slaves that can transmit have the same speed, as many
    calls for the next slave as there are such slaves give each of them exactly once. *)
Theorem rlb_round_robin b v :
  alb_reachable b -> (forall s sl, eligible b s -> slaves b !! s = Some sl -> speed sl = v) ->
  exists l b', next_calls (length (candidates (slaves b) (slave_list b))) b = Ok (l, b') /\
    NoDup l /\ forall s, (Some s ∈ l) <-> eligible b s.
Proof.
  intros [Hi _ _]%alb_reachable_good Hv. by apply wp_inv, (next_calls_spread v); [apply Hi|apply Hi|].
Qed.

(** An ARP packet that shows a known source with another address removes exactly the
    clients that were told the old address: their entries are cleared, all others keep their
    content. *)
Theorem rlb_purge_exact b t arp :
  alb_reachable b -> rx_hashtbl b = Some t ->
  exists b' t', rlb_purge_src_ip arp b = Ok (tt, b') /\ rx_hashtbl b' = Some t' /\
    forall i e, t !! i = Some e -> exists e', t' !! i = Some e' /\
      content e' = if assigned e && conflicts arp e then content (rlb_init_table_entry_dst e) else content e.
Proof.
  intros [Hi _ _]%alb_reachable_good Ht.
  destruct (wp_inv _ _ _ (rlb_purge_src_ip_ok still b b t arp (good_begin b Hi) Ht)) as ([] & b' & Hrun & _ & t' & Ht' & Hc).
  by exists b', t'.
Qed.

(** When the link of a slave goes down all of its flows are taken from it, and all of its
    clients if it cannot transmit any more; no slave is added, removed or given another
    address. *)
Theorem link_down_moves b s :
  alb_reachable b -> s ∈ slave_list b ->
  exists b', alb_run (LinkChange s BOND_LINK_DOWN) b = Ok (0, b') /\ calm b b' /\
    tx_free_of s b' /\ (~ eligible b s -> rx_free_of s b').
Proof.
  intros [Hi _ _]%alb_reachable_good Hs. apply wp_run_0.
  eapply wp_mono; [apply bond_alb_handle_link_change_ok; [done|by apply Hi]|].
  cbv beta. intros _ b' (_ & Hc & Hd). destruct (Hd eq_refl). done.
Qed.

(** Giving all slaves of a TLB bond an address either succeeds, and they all listen to it;
    or a device refused, and then those that were changed before listen to the address of the
    bond again if their devices let them.  The addresses recorded for the slaves stay. *)
Theorem set_address_unwinds b a :
  alb_reachable b -> rlb_enabled b = false ->
  exists res b', alb_set_mac_address a b = Ok (res, b') /\ mac_result b b' a res.
Proof.
  intros [Hi _ _]%alb_reachable_good Hr.
  destruct (wp_inv _ _ _ (alb_set_mac_address_ok mac_side b b a (conj Hi (mac_side_refl b)))) as (res & b' & Hrun & _ & Hm).
  rewrite Hr in Hm. by exists res, b'.
Qed.

(** The VLAN tags of a device above the bond are those of the VLAN devices on the first way
    up to it, in order from the bond, with a mark at the end; there are none if no way leads
    to the device, and an error is returned if there is no memory. *)
Theorem device_path_tags dev end_dev b :
  bond_verify_device_path dev end_dev 0 b = Ok (path_result b 0 (find_path dev end_dev)).
Proof. apply verify_path_run. Qed.

(** The gap between speed and load is exact below 4096 Mb/s and 512 MB/s.  Above that the
    32-bit shift wraps: of two idle slaves the one with 25000 Mb/s seems to have less capacity
    left than the one with 10000 Mb/s, so that flows go to the slower one. *)
Theorem gap_exact_below sl :
  (0 <= speed sl < 4096 -> 0 <= load sl < 2 ^ 29 -> compute_gap sl = speed sl * 2 ^ 20 - load sl * 8) /\
  (forall s1 s2, speed s1 = 10000 -> speed s2 = 25000 -> load s1 = 0 -> load s2 = 0 ->
    compute_gap s2 < compute_gap s1).
Proof.
  split.
  - intros Hs Hl. unfold compute_gap. rewrite !Z.shiftl_mul_pow2 by lia. unfold u32. rewrite !Z.mod_small by lia. lia.
  - intros s1 s2 H1 H2 H3 H4. unfold compute_gap. rewrite H1, H2, H3, H4. vm_compute. done.
Qed.
End props.

(** ** The properties at a bond with three slaves *)

Lemma alb_no_fault_witness :
  alb_reachable sample_bond /\ exists res b', alb_run (RecvArp (ArpPkt ARPOP_REPLY (hw 27) [10; 0; 0; 7] (hw 1) [10; 0; 0; 1]))
    sample_bond = Ok (res, b').
Proof.
  split; [exact sample_bond_reachable|]. apply (alb_no_fault _ sample_bond sample_bond_reachable).
  apply (bool_decide_unpack _). vm_compute. exact I.
Defined.


Lemma alb_release_witness :
  exists b', alb_run (Release 1) sample_bond = Ok (0, b') /\ slaves b' !! 1%positive = None /\
    unreferenced b' 1 /\ slave_list b' = filter (fun x => x <> 1%positive) (slave_list sample_bond).
Proof.
  apply (alb_release sample_bond 1 sample_bond_reachable). apply (bool_decide_unpack _). vm_compute. exact I.
Defined.

Lemma alb_addresses_distinct_witness : alb_reachable sample_bond /\ distinct sample_bond.
Proof.
  split; [exact sample_bond_reachable|]. apply (alb_addresses_distinct sample_bond sample_bond_reachable).
  right. intros n. reflexivity.
Defined.

Lemma tlb_flow_witness :
  exists e r b', sample_tx !! 13 = Some e /\ tlb_choose_channel 13 100 sample_bond = Ok (r, b') /\
    chosen sample_bond b' sample_tx 13 e r.
Proof.
  destruct sample_tx_entry as (e & He & _).
  destruct (tlb_flow sample_bond sample_tx 13 e 100 sample_bond_reachable sample_tx_eq He) as (r & b' & Hr). exists e, r, b'. exact (conj He Hr).
Defined.


Lemma rlb_next_slave_witness :
  exists r b', __rlb_next_rx_slave sample_bond = Ok (r, b') /\ turn sample_bond r /\
    b' = match r with Some s => sample_bond <| rx_slave := Some s |> | None => sample_bond end.
Proof. apply (rlb_next_slave sample_bond sample_bond_reachable). Defined.

Lemma rlb_round_robin_witness :
  exists l b', next_calls 2 sample_pair = Ok (l, b') /\ NoDup l /\ forall s, (Some s ∈ l) <-> eligible sample_pair s.
Proof.
  apply (rlb_round_robin sample_pair 1000 sample_pair_reachable). intros s sl _. apply sample_pair_speed.
Defined.

Lemma rlb_purge_exact_witness :
  exists b' t', rlb_purge_src_ip (ArpPkt ARPOP_REPLY (hw 77) [10; 0; 0; 1] (hw 1) [10; 0; 0; 1]) sample_bond = Ok (tt, b') /\
    rx_hashtbl b' = Some t' /\ exists e, t' !! 13 = Some e /\ assigned e = false.
Proof.
  destruct (rlb_purge_exact sample_bond sample_rx (ArpPkt ARPOP_REPLY (hw 77) [10; 0; 0; 1] (hw 1) [10; 0; 0; 1])
    sample_bond_reachable sample_rx_eq) as (b' & t' & Hrun & Ht' & Hall).
  exists b', t'. split; [exact Hrun|]. split; [exact Ht'|]. destruct sample_rx_entry as (e & He & Ha).
  destruct (Hall 13 e He) as (e' & He' & Hcon). exists e'. split; [exact He'|].
  rewrite Ha in Hcon. unfold content, rlb_init_table_entry_dst in Hcon. cbn in Hcon. injection Hcon. done.
Defined.

Lemma link_down_moves_witness :
  exists b', alb_run (LinkChange 2 BOND_LINK_DOWN) sample_bond = Ok (0, b') /\ calm sample_bond b' /\
    tx_free_of 2 b' /\ (~ eligible sample_bond 2 -> rx_free_of 2 b').
Proof.
  apply (link_down_moves sample_bond 2 sample_bond_reachable). apply (bool_decide_unpack _). vm_compute. exact I.
Defined.

Lemma set_address_unwinds_witness :
  exists res b', alb_set_mac_address (hw 5) sample_tlb = Ok (res, b') /\ mac_result sample_tlb b' (hw 5) res.
Proof. apply (set_address_unwinds sample_tlb (hw 5) sample_tlb_reachable). vm_compute. reflexivity. Defined.
