(* ===== verification/BondXmit.v ===== *)
(** * Transmission through a bond

    How [servers/bonding.c] chooses the slaves for a packet in each mode, and the arrays of
    slaves that this is done with.  The state has the bond of [AlbTypes], whose slaves, list,
    active slave and array of usable slaves all modes share. *)

From S2P Require Import Prelude.
From S2P Require Import BondHash.
From S2P Require Import AlbTypes.
From S2P Require Import AlbOps.
From S2P Require Import AlbEntry.

Inductive bond_mode :=
  | BOND_MODE_ROUNDROBIN
  | BOND_MODE_ACTIVEBACKUP
  | BOND_MODE_XOR
  | BOND_MODE_BROADCAST
  | BOND_MODE_8023AD
  | BOND_MODE_TLB
  | BOND_MODE_ALB.
#[export] Instance bond_mode_eq_dec : EqDecision bond_mode.
Proof. solve_decision. Defined.

(** What the other modes look at in a slave: whether it and its link are up, the queue it is
    for, and the identifier of the aggregator of its port. *)
Record xslave := XSlave { link_up : bool; queue_id : Z; agg_id : option Z }.

(** What happens to the buffer of a packet: it, or a clone of it, is handed to a slave; it is
    freed. *)
Inductive fate := Handed (s : positive) (original : bool) | Freed.

(** The bond.  [active_agg] is the identifier of the active aggregator, [all_slaves] the array
    of all slaves, [rr_tx_counter] the counter of this CPU, [randoms] the random numbers to
    come. *)
Record xbond := XBond {
  xb : bonding;
  mode : bond_mode;
  xslaves : gmap positive xslave;
  active_agg : option Z;
  all_slaves : option (list positive);
  rr_tx_counter : Z;
  packets_per_slave : Z;
  broadcast_neighbor : bool;
  randoms : list Z;
  fates : list fate
}.
#[export] Instance eta_xbond : Eta xbond := fun x =>
  XBond (xb x) (mode x) (xslaves x) (active_agg x) (all_slaves x) (rr_tx_counter x)
    (packets_per_slave x) (broadcast_neighbor x) (randoms x) (fates x).

(** linux/reciprocal_div.h; the values that [netlink] and ICMPv6 give names to. *)
Class Xmit := {
  xmit_alb :: Alb;
  reciprocal_divide : Z -> Z -> Z;
  ENXIO : Z
}.
Class XmitLaws `{Xmit} : Prop := {
  xmit_alb_laws :: AlbLaws;
  reciprocal_divide_spec : forall n d, 0 <= n < 2 ^ 32 -> 1 < d < 2 ^ 31 -> reciprocal_divide n d = n / d;
  ENXIO_pos : 0 < ENXIO
}.

Section xmit.
Context `{Xmit}.
Abbreviation W := (M xbond).

(** A step on the bond that is shared. *)
Definition on_bond {A} (m : M bonding A) : W A := fun x =>
  match m (xb x) with
  | Ok (a, b) => Ok (a, x <| xb := b |>)
  | Err f => Err f
  end.

Definition get_xslave (s : positive) : W xslave :=
  let* m := gets xslaves in
  match m !! s with Some sl => ret sl | None => fail_with Dangling end.

Definition can_send (s : positive) : W bool := on_bond (let* sl := get_slave s in ret (can_tx sl)).

(** ** Handing over a buffer *)

Definition settle (f : fate) : W unit := modify (fun x => x <| fates ::= cons f |>).

Definition queue_xmit (s : positive) (original : bool) : W netdev_tx_t :=
  let* _ := on_bond (get_slave s) in
  settle (Handed s original) ;;;
  let* ok := on_bond try_call in
  ret (if ok then NETDEV_TX_OK else NET_XMIT_DROP).
Definition tx_drop : W netdev_tx_t := settle Freed ;;; ret NET_XMIT_DROP.

Definition send_or_drop (s : option positive) : W netdev_tx_t :=
  match s with
  | Some s => queue_xmit s true
  | None => tx_drop
  end.

(** ** Round robin *)

Definition bond_get_slave_by_id (slave_id : Z) : W (option positive) :=
  let* l := gets (fun x => slave_list (xb x)) in
  let* r := for_each l (slave_id, None) (fun '(i, _) s =>
    if i - 1 <? 0 then
      let* can := can_send s in
      ret (if can then Break (i - 1, Some s) else Continue (i - 1, None))
    else ret (Continue (i - 1, None))) in
  match r.2 with
  | Some s => ret (Some s)
  | None =>
      let* r := for_each l (slave_id, None) (fun '(i, _) s =>
        if i - 1 <? 0 then ret (Break (i - 1, None))
        else
          let* can := can_send s in
          ret (if can then Break (i - 1, Some s) else Continue (i - 1, None))) in
      ret r.2
  end.

Definition get_random_u32 : W Z :=
  let* l := gets randoms in
  match l with
  | [] => ret 0
  | z :: l => modify (fun x => x <| randoms := l |>) ;;; ret (u32 z)
  end.
Definition inc_rr_tx_counter : W Z :=
  modify (fun x => x <| rr_tx_counter := u32 (rr_tx_counter x + 1) |>) ;;;
  gets rr_tx_counter.

Definition bond_rr_gen_slave_id : W Z :=
  let* k := gets packets_per_slave in
  if k =? 0 then get_random_u32
  else if k =? 1 then inc_rr_tx_counter
  else
    let* slave_id := inc_rr_tx_counter in
    ret (reciprocal_divide slave_id k).

(** The slave in turn, or none if there is no slave. *)
Definition next_in_turn : W (option positive) :=
  let* slave_cnt := gets (fun x => Z.of_nat (length (slave_list (xb x)))) in
  if slave_cnt =? 0 then ret None
  else
    let* id := bond_rr_gen_slave_id in
    bond_get_slave_by_id (id mod slave_cnt).

Definition igmp_slave : W (option positive) :=
  let* active := gets (fun x => curr_active_slave (xb x)) in
  match active with
  | Some s => ret (Some s)
  | None => bond_get_slave_by_id 0
  end.

Definition is_ip (skb : sk_buff) : bool :=
  match skb_protocol skb with AlbTypes.ETH_P_IP => true | _ => false end.

Definition bond_xmit_roundrobin_slave_get (skb : sk_buff) : W (option positive) :=
  if is_ip skb && may_pull skb && ip_is_igmp skb then igmp_slave else next_in_turn.

(** A frame without a buffer: its bytes. *)
Definition frame_byte (frame : list Z) (i : nat) : W Z :=
  match frame !! i with Some b => ret b | None => fail_with Overrun end.

Definition IPPROTO_IGMP : Z := 2.

Definition bond_xdp_xmit_roundrobin_slave_get (frame : list Z) : W (option positive) :=
  let len := Z.of_nat (length frame) in
  if len <? 14 then next_in_turn
  else
    let* p1 := frame_byte frame 12 in
    let* p2 := frame_byte frame 13 in
    if be16 p1 p2 =? BondHash.ETH_P_IP then
      if len <? 14 + 20 then next_in_turn
      else
        let* proto := frame_byte frame (14 + 9) in
        if proto =? IPPROTO_IGMP then igmp_slave else next_in_turn
    else next_in_turn.

Definition bond_xmit_roundrobin (skb : sk_buff) : W netdev_tx_t :=
  let* s := bond_xmit_roundrobin_slave_get skb in
  send_or_drop s.

(** ** Active backup *)

Definition bond_xmit_activebackup_slave_get : W (option positive) := gets (fun x => curr_active_slave (xb x)).
Definition bond_xmit_activebackup : W netdev_tx_t :=
  let* s := bond_xmit_activebackup_slave_get in
  send_or_drop s.

(** ** The arrays of slaves *)

Definition bond_set_slave_arr (usable all : option (list positive)) : W unit :=
  modify (fun x => x <| all_slaves := all |>) ;;;
  let* md := gets mode in
  if bool_decide (md = BOND_MODE_BROADCAST) then ret tt
  else modify (fun x => x <| xb ::= fun b => b <| usable_slaves := usable |> |>).

Definition bond_reset_slave_arr : W unit := bond_set_slave_arr None None.

(** The slaves other than [skip], and those of them that can be used. *)
Definition fill_arrays (skip : option positive) (agg : option Z) : W (list positive * list positive) :=
  let* l := gets (fun x => slave_list (xb x)) in
  let* md := gets mode in
  for_each l ([], []) (fun '(usable, all) s =>
    if bool_decide (skip = Some s) then ret (Continue (usable, all))
    else
      let all := all ++ [s] in
      let* xs := get_xslave s in
      if bool_decide (md = BOND_MODE_8023AD) && negb (bool_decide (agg_id xs = agg))
      then ret (Continue (usable, all))
      else
        let* can := can_send s in
        ret (Continue (if can then usable ++ [s] else usable, all))).

(** [bond_update_slave_arr] for every mode. *)
Definition update_slave_arr (skip : option positive) : W Z :=
  let* ok1 := on_bond try_call in
  let* ok2 := on_bond try_call in
  if negb (ok1 && ok2) then
    match skip with
    | Some s =>
        modify (fun x => x <| all_slaves ::= fmap (fun l => bond_skip_slave l s) |>) ;;;
        modify (fun x => x <| xb ::= fun b => b <| usable_slaves ::= fmap (fun l => bond_skip_slave l s) |> |>)
    | None => ret tt
    end ;;;
    ret (- ENOMEM)
  else
    let* md := gets mode in
    let* agg := gets active_agg in
    if bool_decide (md = BOND_MODE_8023AD) && bool_decide (agg = None) then
      bond_reset_slave_arr ;;; ret 0
    else
      let* r := fill_arrays skip agg in
      bond_set_slave_arr (Some r.1) (Some r.2) ;;;
      ret 0.

(** The work that brings the arrays up to date; true if it is to be queued again. *)
Definition bond_slave_arr_handler : W bool :=
  let* locked := on_bond try_call in
  if negb locked then ret true
  else
    let* r := update_slave_arr None in
    ret (negb (r =? 0)).

(** ** By hash *)

Definition at_hash (slaves : option (list positive)) (hash : Z) : W (option positive) :=
  match default [] slaves with
  | [] => ret None
  | (_ :: _) as arr =>
      match arr !! Z.to_nat (hash mod Z.of_nat (length arr)) with
      | Some s => ret (Some s)
      | None => fail_with Overrun
      end
  end.

Definition bond_xmit_3ad_xor_slave_get (skb : sk_buff) (slaves : option (list positive)) : W (option positive) :=
  let* hash := on_bond (xmit_hash skb) in
  at_hash slaves hash.

(** The hash of a frame without a buffer. *)
Definition xdp_hash (frame : list Z) : W Z := fun x =>
  match bond_xmit_hash_xdp (xmit_policy (xb x)) 1 (Mem {[1%positive := frame]} 1 []) with
  | Ok (h, _) => Ok (h, x)
  | Err f => Err f
  end.

Definition bond_xdp_xmit_3ad_xor_slave_get (frame : list Z) : W (option positive) :=
  let* hash := xdp_hash frame in
  let* slaves := gets (fun x => usable_slaves (xb x)) in
  at_hash slaves hash.

(** [bcast_enabled] is the static branch; [ip6_nd] says that the packet is a neighbour
    solicitation or advertisement. *)
Definition bond_should_broadcast_neighbor (bcast_enabled : bool) (skb : sk_buff) : W bool :=
  let* b := gets broadcast_neighbor in
  if negb bcast_enabled || negb b then ret false
  else
    match skb_protocol skb with
    | ETH_P_ARP => ret true
    | AlbTypes.ETH_P_IPV6 => ret (may_pull_icmp skb && ip6_icmp skb && ip6_nd skb)
    | _ => ret false
    end.

Definition bond_3ad_xor_xmit (skb : sk_buff) : W netdev_tx_t :=
  let* slaves := gets (fun x => usable_slaves (xb x)) in
  let* s := bond_xmit_3ad_xor_slave_get skb slaves in
  send_or_drop s.

(** ** Broadcast *)

(** The number of slaves done, whether a slave took a copy, and whether the buffer itself has
    been handed over. *)
Definition broadcast_loop (slaves : list positive) : W (nat * bool * bool) :=
  for_each slaves (O, false, false) (fun '(i, xmit_suc, skb_used) s =>
    let* xs := get_xslave s in
    if negb (link_up xs) then ret (Continue (S i, xmit_suc, skb_used))
    else
      let is_last := (S i =? length slaves)%nat in
      let* cloned := if is_last then ret true else on_bond try_call in
      if negb cloned then ret (Continue (S i, xmit_suc, skb_used))
      else
        let* r := queue_xmit s is_last in
        ret (Continue (S i, xmit_suc || match r with NETDEV_TX_OK => true | _ => false end, skb_used || is_last))).

Definition bond_xmit_broadcast (all : bool) : W netdev_tx_t :=
  let* slaves := gets (fun x => if all then all_slaves x else usable_slaves (xb x)) in
  let* r := broadcast_loop (default [] slaves) in
  let '(_, xmit_suc, skb_used) := r in
  when_ (negb skb_used) (settle Freed) ;;;
  ret (if xmit_suc then NETDEV_TX_OK else NET_XMIT_DROP).

(** ** Entry points *)

(** [queue] is the queue of the packet, if one was recorded.  Zero if the packet was handed to
    the slave of that queue. *)
Definition bond_slave_override (queue : option Z) : W Z :=
  match queue with
  | None => ret 1
  | Some q =>
      let* l := gets (fun x => slave_list (xb x)) in
      let* found := for_each l None (fun _ s =>
        let* xs := get_xslave s in
        ret (if queue_id xs =? q then Break (Some s) else Continue None)) in
      match found with
      | None => ret 1
      | Some s =>
          let* xs := get_xslave s in
          if link_up xs then let* _ := queue_xmit s true in ret 0 else ret 1
      end
  end.

(** The loop takes [real_num_tx_queues] off the queue until it is below. *)
Fixpoint queue_loop (fuel : nat) (txq n : Z) : res Z :=
  match fuel with
  | O => Err OutOfFuel
  | S fuel => if n <=? txq then queue_loop fuel (txq - n) n else Ok txq
  end.
Definition bond_select_queue (queue : option Z) (real_num_tx_queues : Z) : res Z :=
  let txq := default 0 queue in
  queue_loop (S (Z.to_nat txq)) txq real_num_tx_queues.

Definition bond_xmit_get_slave (skb : sk_buff) (all : bool) : W (option positive) :=
  let* md := gets mode in
  match md with
  | BOND_MODE_ROUNDROBIN => bond_xmit_roundrobin_slave_get skb
  | BOND_MODE_ACTIVEBACKUP => bond_xmit_activebackup_slave_get
  | BOND_MODE_8023AD | BOND_MODE_XOR =>
      let* slaves := gets (fun x => if all then all_slaves x else usable_slaves (xb x)) in
      bond_xmit_3ad_xor_slave_get skb slaves
  | BOND_MODE_BROADCAST => ret None
  | BOND_MODE_ALB => on_bond (bond_xmit_alb_slave_get skb)
  | BOND_MODE_TLB => on_bond (bond_xmit_tlb_slave_get skb)
  end.

(** [override] says that queues may override the choice, [queue] is the queue of the packet. *)
Definition __bond_start_xmit (override bcast_enabled : bool) (queue : option Z) (skb : sk_buff) : W netdev_tx_t :=
  let* overridden := if override then (let* r := bond_slave_override queue in ret (r =? 0)) else ret false in
  if overridden then ret NETDEV_TX_OK
  else
    let* md := gets mode in
    match md with
    | BOND_MODE_ROUNDROBIN => bond_xmit_roundrobin skb
    | BOND_MODE_ACTIVEBACKUP => bond_xmit_activebackup
    | BOND_MODE_8023AD =>
        let* bc := bond_should_broadcast_neighbor bcast_enabled skb in
        if bc then bond_xmit_broadcast false else bond_3ad_xor_xmit skb
    | BOND_MODE_XOR => bond_3ad_xor_xmit skb
    | BOND_MODE_BROADCAST => bond_xmit_broadcast true
    | BOND_MODE_ALB => on_bond (bond_alb_xmit skb)
    | BOND_MODE_TLB => on_bond (bond_tlb_xmit skb)
    end.

Definition bond_start_xmit (blocked override bcast_enabled : bool) (queue : option Z) (skb : sk_buff) : W netdev_tx_t :=
  if blocked then ret NETDEV_TX_BUSY
  else
    let* l := gets (fun x => slave_list (xb x)) in
    match l with
    | [] => tx_drop
    | _ :: _ => __bond_start_xmit override bcast_enabled queue skb
    end.

Definition bond_xdp_get_xmit_slave (frame : list Z) : W (option positive) :=
  let* md := gets mode in
  match md with
  | BOND_MODE_ROUNDROBIN => bond_xdp_xmit_roundrobin_slave_get frame
  | BOND_MODE_ACTIVEBACKUP => bond_xmit_activebackup_slave_get
  | BOND_MODE_8023AD | BOND_MODE_XOR => bond_xdp_xmit_3ad_xor_slave_get frame
  | _ => ret None
  end.

(** [ndo_xdp_xmit] of the slaves: what it returns for a frame. *)
Definition bond_xdp_xmit (ndo_xdp_xmit : positive -> list Z -> Z) (frames : list (list Z)) : W Z :=
  let* r := for_each frames (0, - ENXIO) (fun '(nxmit, _) frame =>
    let* s := bond_xdp_get_xmit_slave frame in
    match s with
    | None => ret (Break (nxmit, - ENXIO))
    | Some s =>
        let* _ := on_bond (get_slave s) in
        let err := ndo_xdp_xmit s frame in
        if err <? 1 then ret (Break (nxmit, err))
        else settle (Handed s true) ;;; ret (Continue (nxmit + 1, err))
    end) in
  let '(nxmit, err) := r in
  ret (if err <? 0 then (if nxmit =? 0 then err else nxmit) else nxmit).

Definition __bond_sk_get_lower_dev (sk : sock) : W (option positive) :=
  let* slaves := gets (fun x => usable_slaves (xb x)) in
  match default [] slaves with
  | [] => ret None
  | _ :: _ => at_hash slaves (bond_sk_hash_l34 sk)
  end.
End xmit.
