(* ===== verification/BondTx.v ===== *)
(** * Transmission through a bond: what the modes do *)

From S2P Require Import Prelude.
From S2P Require Import BondHash.
From S2P Require Import BondSpec.
From S2P Require Import AlbTypes.
From S2P Require Import AlbOps.
From S2P Require Import AlbEntry.
From S2P Require Import AlbInv.
From S2P Require Import AlbXmit.
From S2P Require Import AlbSlaves.
From S2P Require Import BondXmit.

Section tx.
Context `{L : XmitLaws}.

(** ** The invariant: the slaves that the bond refers to exist *)

Definition known (x : xbond) (s : positive) : Prop := is_Some (slaves (xb x) !! s) /\ is_Some (xslaves x !! s).

Record xinv (x : xbond) : Prop := {
  xi_list : forall s, s ∈ slave_list (xb x) -> known x s;
  xi_active : forall s, curr_active_slave (xb x) = Some s -> known x s;
  xi_usable : forall l s, usable_slaves (xb x) = Some l -> s ∈ l -> known x s;
  xi_all : forall l s, all_slaves x = Some l -> s ∈ l -> known x s
}.

(** A slave can transmit. *)
Definition tx_of (x : xbond) (s : positive) : bool :=
  match slaves (xb x) !! s with Some sl => can_tx sl | None => false end.

Lemma can_send_run x s (Q : bool -> xbond -> Prop) : known x s -> Q (tx_of x s) x -> wp (can_send s) Q x.
Proof.
  intros [[sl Hs] _] HQ. unfold tx_of in HQ. rewrite Hs in HQ.
  unfold can_send, on_bond, get_slave, wp, gets, bind. rewrite Hs. cbn. by destruct x.
Qed.

Lemma wp_xslave x s xs (Q : xslave -> xbond -> Prop) : xslaves x !! s = Some xs -> Q xs x -> wp (get_xslave s) Q x.
Proof. intros Hs HQ. unfold get_xslave. apply wp_bind, wp_gets. by rewrite Hs. Qed.

(** ** The slave with a number *)

(** The first slave that can transmit, from the one with the number on and around. *)
Definition from_id (x : xbond) (id : nat) : option positive :=
  hd_error (filter (fun s => tx_of x s = true) (drop id (slave_list (xb x)) ++ take id (slave_list (xb x)))).

Lemma filter_none x l : (forall s, s ∈ l -> tx_of x s = false) -> filter (fun s => tx_of x s = true) l = [].
Proof.
  induction l as [|s l IH]; intros Hl; [done|]. rewrite filter_cons, decide_False.
  - apply IH. intros s' Hs'. apply Hl. by right.
  - rewrite Hl by left. done.
Qed.

Lemma filter_first x pre s post :
  (forall s, s ∈ pre -> tx_of x s = false) -> tx_of x s = true ->
  hd_error (filter (fun s => tx_of x s = true) (pre ++ s :: post)) = Some s.
Proof. intros Hp Hs. rewrite filter_app, filter_none by done. by rewrite filter_cons, decide_True. Qed.

Lemma by_id_run x (id : nat) (Q : option positive -> xbond -> Prop) :
  (forall s, s ∈ slave_list (xb x) -> known x s) -> Q (from_id x id) x ->
  wp (bond_get_slave_by_id (Z.of_nat id)) Q x.
Proof.
  intros Hk HQ. unfold bond_get_slave_by_id, from_id in *. apply wp_bind, wp_gets, wp_bind.
  set (l := slave_list (xb x)) in *.
  eapply (wp_for_each (fun pre a x' => x' = x /\ a = (Z.of_nat id - Z.of_nat (length pre), None) /\
    forall s, s ∈ drop id pre -> tx_of x s = false)).
  - split_and!; [done|f_equal; cbn; lia|]. rewrite drop_nil. by intros s ?%not_elem_of_nil.
  - intros pre s post a x' Hl (-> & -> & Hp). destruct (Z.ltb_spec (Z.of_nat id - Z.of_nat (length pre) - 1) 0) as [Hlt|Hge].
    + apply wp_bind, can_send_run; [apply Hk; rewrite Hl; set_solver|]. apply wp_ret. destruct (tx_of x s) eqn:Hs.
      * cbn. apply wp_ret. rewrite Hl, drop_app_le in HQ by lia. rewrite <-app_assoc in HQ. cbn in HQ.
        by rewrite filter_first in HQ.
      * split_and!; [done|rewrite length_app; f_equal; cbn; lia|]. rewrite drop_app_le by lia.
        intros s' [Hs'|Hs'%list_elem_of_singleton]%elem_of_app; [by apply Hp|by subst].
    + apply wp_ret. split_and!; [done|rewrite length_app; f_equal; cbn; lia|].
      rewrite drop_ge by (rewrite length_app; cbn; lia). by intros s' ?%not_elem_of_nil.
  - intros a x' (-> & -> & Hp). cbn. apply wp_bind. rewrite filter_app, filter_none in HQ by done. cbn in HQ.
    eapply (wp_for_each (fun pre a x' => x' = x /\ a = (Z.of_nat id - Z.of_nat (length pre), None) /\
      (length pre <= id)%nat /\ forall s, s ∈ pre -> tx_of x s = false)).
    + split_and!; [done|f_equal; cbn; lia|cbn; lia|]. by intros s ?%not_elem_of_nil.
    + intros pre s post a x' Hl (-> & -> & Hle & Hn).
      destruct (Z.ltb_spec (Z.of_nat id - Z.of_nat (length pre) - 1) 0) as [Hlt|Hge].
      * apply wp_ret. cbn. apply wp_ret. rewrite Hl, take_app_le, take_ge, filter_none in HQ by (done || lia). done.
      * apply wp_bind, can_send_run; [apply Hk; rewrite Hl; set_solver|]. apply wp_ret. destruct (tx_of x s) eqn:Hs.
        -- cbn. apply wp_ret. rewrite Hl, take_app_ge in HQ by lia.
           destruct (id - length pre)%nat as [|k] eqn:Ek; [lia|]. cbn in HQ. by rewrite filter_first in HQ.
        -- split_and!; [done|rewrite length_app; f_equal; cbn; lia|rewrite length_app; cbn; lia|].
           intros s' [Hs'|Hs'%list_elem_of_singleton]%elem_of_app; [by apply Hn|by subst].
    + intros a x' (-> & -> & Hle & Hn). cbn. apply wp_ret. rewrite take_ge, filter_none in HQ by done. done.
Qed.

Lemma from_id_listed x id s : from_id x id = Some s -> s ∈ slave_list (xb x).
Proof.
  unfold from_id. intros Hs. assert (s ∈ filter (fun s => tx_of x s = true)
    (drop id (slave_list (xb x)) ++ take id (slave_list (xb x)))) as Hin.
  { destruct (filter _ _); simplify_eq/=. by left. }
  apply list_elem_of_filter in Hin as [_ Hin]. rewrite <-(take_drop id (slave_list (xb x))). set_solver.
Qed.

(** ** Buffers *)

(** What no transmission changes, except in the balancing modes. *)
Definition frame (x : xbond) :=
  (slaves (xb x), slave_list (xb x), curr_active_slave (xb x), usable_slaves (xb x), xmit_policy (xb x),
   mode x, xslaves x, all_slaves x, packets_per_slave x, active_agg x).

(** Nothing is sent. *)
Definition unsent (x x' : xbond) : Prop := frame x' = frame x /\ fates x' = fates x.

Lemma frame_known x x' s : frame x' = frame x -> known x' s <-> known x s.
Proof. unfold frame, known. intros [= E1 _ _ _ _ _ E2 _ _ _]. by rewrite E1, E2. Qed.

Lemma frame_xinv x x' : frame x' = frame x -> xinv x -> xinv x'.
Proof.
  intros E [H1 H2 H3 H4]. pose proof (fun s => frame_known x x' s E) as Hk. unfold frame in E. injection E as E1 E2 E3 E4 _ _ E5 E6 _ _.
  constructor; intros; rewrite ?E2, ?E3, ?E4, ?E6 in *; apply Hk; eauto.
Qed.

(** The buffer itself is handed over or freed. *)
Definition consumes (f : fate) : bool := match f with Handed _ original => original | Freed => true end.

(** The buffer is consumed [n] times, and only slaves that exist get a copy. *)
Definition settled_times (n : nat) (x x' : xbond) : Prop :=
  frame x' = frame x /\ exists l, fates x' = l ++ fates x /\
    length (filter (fun f => consumes f = true) l) = n /\ forall s o, Handed s o ∈ l -> known x s.

Lemma settled_unsent n x y z : unsent x y -> settled_times n y z -> settled_times n x z.
Proof.
  intros [E1 E2] (F1 & l & F2 & Hn & Hk). split; [congruence|]. exists l. split_and!; [congruence|done|].
  intros s o Hs. apply (frame_known x y); [done|]. by eapply Hk.
Qed.

Lemma settled_one x x' f :
  frame x' = frame x -> fates x' = f :: fates x -> (forall s o, f = Handed s o -> known x s) ->
  settled_times (if consumes f then 1 else 0) x x'.
Proof.
  intros Hf E Hk. split; [done|]. exists [f]. split_and!; [done|rewrite filter_cons; by destruct (consumes f)|].
  intros s o Hs%list_elem_of_singleton. by eapply Hk.
Qed.

Lemma settled_app n k x y z : settled_times n x y -> settled_times k y z -> settled_times (n + k) x z.
Proof.
  intros (E1 & l1 & E2 & Hn & H1) (F1 & l2 & F2 & Hk & H2). split; [congruence|]. exists (l2 ++ l1). split_and!.
  - rewrite F2, E2. apply app_assoc.
  - rewrite filter_app, length_app. lia.
  - intros s o [Hs|Hs]%elem_of_app; [|by eapply H1]. apply (frame_known x y); [done|]. by eapply H2.
Qed.

Lemma try_call_run x (Q : bool -> xbond -> Prop) :
  (forall ok x', unsent x x' -> rr_tx_counter x' = rr_tx_counter x ->
    (ok = false -> ~ forall n, succeeds n = true) -> Q ok x') -> wp (on_bond try_call) Q x.
Proof.
  intros HQ. unfold on_bond, try_call, wp, bind, gets, modify, ret. apply HQ; [done|done|].
  intros Hf Hn. by rewrite Hn in Hf.
Qed.

Lemma get_slave_run x s (Q : slave -> xbond -> Prop) :
  known x s -> (forall sl, Q sl x) -> wp (on_bond (get_slave s)) Q x.
Proof.
  intros [[sl Hs] _] HQ. unfold on_bond, get_slave, wp, gets, bind. rewrite Hs. specialize (HQ sl). by destruct x.
Qed.

Lemma queue_xmit_run x s o (Q : netdev_tx_t -> xbond -> Prop) :
  known x s ->
  (forall r x', r <> NETDEV_TX_BUSY -> frame x' = frame x -> fates x' = Handed s o :: fates x ->
    rr_tx_counter x' = rr_tx_counter x -> ((forall n, succeeds n = true) -> r = NETDEV_TX_OK) -> Q r x') ->
  wp (queue_xmit s o) Q x.
Proof.
  intros Hk HQ. unfold queue_xmit. apply wp_bind, get_slave_run; [done|]. intros _. apply wp_bind, wp_mod, wp_bind, try_call_run.
  intros ok x' [Hf Hfa] Hrr Hok. apply wp_ret. apply HQ; [by destruct ok|..].
  - rewrite Hf. unfold frame. by rec_simpl.
  - rewrite Hfa. by rec_simpl.
  - rewrite Hrr. by rec_simpl.
  - destruct ok; [done|]. intros Hn. by destruct (Hok eq_refl).
Qed.

Lemma send_or_drop_ok x r :
  (forall s, r = Some s -> known x s) ->
  wp (send_or_drop r) (fun res x' => res <> NETDEV_TX_BUSY /\ settled_times 1 x x') x.
Proof.
  intros Hr. destruct r as [s|]; cbn [send_or_drop].
  - apply queue_xmit_run; [by apply Hr|]. intros res x' Hb Hf Hfa _ _. split; [done|].
    apply (settled_one x x' (Handed s true)); [done|done|]. intros ? ? [= <- _]. by apply Hr.
  - unfold tx_drop. apply wp_bind, wp_mod, wp_ret. split; [done|].
    apply (settled_one x _ Freed); [unfold frame; by rec_simpl|by rec_simpl|done].
Qed.

(** ** Choosing a slave *)

(** A choice sends nothing, and gives a slave that exists. *)
Definition choice (x : xbond) (r : option positive) (x' : xbond) : Prop :=
  unsent x x' /\ forall s, r = Some s -> known x s.

Lemma by_id_ok x id : xinv x -> 0 <= id -> wp (bond_get_slave_by_id id) (choice x) x.
Proof.
  intros Hi Hid. rewrite <-(Z2Nat.id id) by done. apply by_id_run; [apply Hi|]. split; [done|].
  intros s Hs%from_id_listed. by apply Hi.
Qed.

Lemma gen_id_ok x : wp bond_rr_gen_slave_id (fun _ x' => unsent x x') x.
Proof.
  unfold bond_rr_gen_slave_id, get_random_u32, inc_rr_tx_counter. apply wp_bind, wp_gets.
  case_match; [apply wp_bind, wp_gets; case_match; [done|by apply wp_bind, wp_mod, wp_ret]|].
  case_match; [by apply wp_bind, wp_mod, wp_gets|]. by apply wp_bind, wp_bind, wp_mod, wp_gets, wp_ret.
Qed.

Lemma choice_unsent x y r z : unsent x y -> choice y r z -> choice x r z.
Proof.
  intros [E1 E2] [[F1 F2] Hk]. split; [split; congruence|]. intros s Hs. apply (frame_known x y); [done|]. by apply Hk.
Qed.

Lemma next_in_turn_ok x : xinv x -> wp next_in_turn (choice x) x.
Proof.
  intros Hi. unfold next_in_turn. apply wp_bind, wp_gets.
  destruct (Z.eqb_spec (Z.of_nat (length (slave_list (xb x)))) 0) as [|Hn]; [by apply wp_ret|].
  apply wp_bind. eapply wp_mono; [apply gen_id_ok|]. cbv beta. intros id x' Hu.
  eapply wp_mono; [apply by_id_ok; [eapply frame_xinv; [apply Hu|done]|apply Z.mod_pos_bound; lia]|].
  intros r x2. by apply choice_unsent.
Qed.

Lemma igmp_slave_ok x : xinv x -> wp igmp_slave (choice x) x.
Proof.
  intros Hi. unfold igmp_slave. apply wp_bind, wp_gets. destruct (curr_active_slave (xb x)) as [s|] eqn:Ha.
  - apply wp_ret. split; [done|]. intros s' [= <-]. by apply (xi_active _ Hi).
  - by apply by_id_ok.
Qed.

Lemma roundrobin_get_ok x skb : xinv x -> wp (bond_xmit_roundrobin_slave_get skb) (choice x) x.
Proof. intros Hi. unfold bond_xmit_roundrobin_slave_get. case_match; [by apply igmp_slave_ok|by apply next_in_turn_ok]. Qed.

Lemma activebackup_get_ok x : xinv x -> wp bond_xmit_activebackup_slave_get (choice x) x.
Proof. intros Hi. apply wp_gets. split; [done|]. apply (xi_active _ Hi). Qed.

Lemma at_hash_ok x slaves hash :
  (forall l s, slaves = Some l -> s ∈ l -> known x s) -> wp (at_hash slaves hash) (choice x) x.
Proof.
  intros Hk. unfold at_hash. destruct (default [] slaves) as [|s0 l] eqn:E; [by apply wp_ret|].
  destruct (lookup_lt_is_Some_2 (s0 :: l) (Z.to_nat (hash mod Z.of_nat (length (s0 :: l))))) as [s Hs].
  { pose proof (Z.mod_pos_bound hash (Z.of_nat (length (s0 :: l)))). cbn [length] in *. lia. }
  rewrite Hs. apply wp_ret. split; [done|]. intros ? [= <-]. destruct slaves as [a|]; [|done]. cbn in E. subst a.
  eapply Hk; [done|]. by eapply list_elem_of_lookup_2.
Qed.

Lemma xor_get_ok x skb slaves :
  skb_linear skb -> (forall l s, slaves = Some l -> s ∈ l -> known x s) ->
  wp (bond_xmit_3ad_xor_slave_get skb slaves) (choice x) x.
Proof.
  intros [Hl Hn] Hk. unfold bond_xmit_3ad_xor_slave_get. apply wp_bind.
  unfold on_bond, xmit_hash, wp at 1. rewrite bond_xmit_hash_run by done.
  destruct x. by apply at_hash_ok.
Qed.

(** ** Broadcast *)

Definition up_of (x : xbond) (s : positive) : bool :=
  match xslaves x !! s with Some xs => link_up xs | None => false end.

Definition up_slaves (x : xbond) (l : list positive) : list positive := filter (fun s => up_of x s = true) l.

(** The slaves that get a copy, the last one first. *)
Definition copies (l : list fate) : list positive :=
  omap (fun f => match f with Handed s _ => Some s | Freed => None end) l.

(** After the slaves [pre]: they got copies if they are up, but for want of memory some may
    not have. *)
Record broadcast_to (x : xbond) (pre : list positive) (x' : xbond) (l : list fate) : Prop := {
  bt_fates : fates x' = l ++ fates x;
  bt_some : copies l `sublist_of` reverse (up_slaves x pre);
  bt_all : (forall n, succeeds n = true) -> copies l = reverse (up_slaves x pre)
}.

Lemma broadcast_skip x pre s x1 x2 l :
  up_of x s = false \/ ~ (forall n, succeeds n = true) -> fates x2 = fates x1 ->
  broadcast_to x pre x1 l -> broadcast_to x (pre ++ [s]) x2 l.
Proof.
  intros Hs E [H1 H2 H3]. split; [congruence|unfold up_slaves in *; rewrite filter_app, reverse_app..].
  - etrans; [done|]. by apply sublist_inserts_l.
  - intros Hn. destruct Hs as [Hs|Hs]; [|done]. rewrite H3 by done.
    rewrite filter_cons, decide_False by (by rewrite Hs). done.
Qed.

Lemma broadcast_hand x pre s o x1 x2 l :
  up_of x s = true -> fates x2 = Handed s o :: fates x1 ->
  broadcast_to x pre x1 l -> broadcast_to x (pre ++ [s]) x2 (Handed s o :: l).
Proof.
  intros Hs E [H1 H2 H3]. split; unfold up_slaves in *.
  - by rewrite E, H1.
  - rewrite filter_app, reverse_app, filter_cons, decide_True by done. cbn. by apply sublist_skip.
  - intros Hn. rewrite filter_app, reverse_app, filter_cons, decide_True by done. cbn. f_equal. by apply H3.
Qed.

Lemma broadcast_loop_ok x arr :
  (forall s, s ∈ arr -> known x s) ->
  wp (broadcast_loop arr) (fun r x' => settled_times (if r.2 then 1 else 0) x x' /\
    exists l, broadcast_to x arr x' l /\ ((forall n, succeeds n = true) -> r.1.2 = negb (bool_decide (copies l = [])))) x.
Proof.
  intros Hk. unfold broadcast_loop.
  eapply (wp_for_each (fun pre a x1 => a.1.1 = length pre /\ (a.2 = true -> pre = arr) /\
    settled_times (if a.2 then 1 else 0) x x1 /\
    exists l, broadcast_to x pre x1 l /\ ((forall n, succeeds n = true) -> a.1.2 = negb (bool_decide (copies l = []))))).
  - split_and!; [done|done|split; [done|]; exists []; split_and!; [done|done|by intros ? ? ?%not_elem_of_nil]|].
    exists []. by split.
  - intros pre s post [[i suc] used] x1 Harr (Hi & Hu & Hst & l & Hb & Hsuc). cbn in Hi, Hu, Hst, Hsuc. subst i.
    assert (used = false) as ->.
    { destruct used; [|done]. specialize (Hu eq_refl). subst pre. apply (f_equal length) in Harr.
      rewrite length_app in Harr. cbn in Harr. lia. }
    assert (s ∈ arr) as Hsa by (rewrite Harr; set_solver). destruct (Hk s Hsa) as [_ [xs Hxs]].
    assert (xslaves x1 = xslaves x) as Ex by (destruct Hst as [[= _ _ _ _ _ _ Ex _ _ _] _]; done).
    apply wp_bind. eapply wp_xslave; [by rewrite Ex|]. destruct (link_up xs) eqn:Hup; cbn [negb].
    2: { apply wp_ret. split_and!; [rewrite length_app; cbn; lia|done|done|]. exists l. split; [|done].
      eapply broadcast_skip; [left; unfold up_of; by rewrite Hxs|done|done]. }
    assert (up_of x s = true) as Hups by (unfold up_of; by rewrite Hxs).
    cbv zeta. apply wp_bind. set (is_last := (S (length pre) =? length arr)%nat).
    eapply (wp_mono _ (fun ok x2 => unsent x1 x2 /\ (ok = false -> is_last = false /\ ~ forall n, succeeds n = true))).
    { destruct is_last; [by apply wp_ret|]. apply try_call_run. intros ok x2 Hx2 _ Hok. split; [done|]. auto. }
    cbv beta. intros [] x2 [Hx2 Hok]; cbn [negb].
    2: { apply wp_ret. split_and!; [rewrite length_app; cbn; lia|done| |].
      - rewrite <-(Nat.add_0_r 0). eapply settled_app; [done|]. destruct Hx2 as [E1 E2]. split; [done|].
        exists []. split_and!; [done|done|by intros ? ? ?%not_elem_of_nil].
      - exists l. split; [|done]. eapply broadcast_skip; [right; by apply Hok|by apply Hx2|done]. }
    apply wp_bind. apply queue_xmit_run.
    { destruct Hst as [E _]. destruct Hx2 as [E2 _]. apply (frame_known x x2); [congruence|]. by apply Hk. }
    intros r x3 Hr Hf Hfa Hrr Hrok. apply wp_ret. split_and!.
    + rewrite length_app. cbn. lia.
    + cbn [snd orb]. intros Hl%Nat.eqb_eq. rewrite Harr in Hl |- *. rewrite length_app in Hl. cbn in Hl.
      destruct post; [done|]. cbn in Hl. lia.
    + cbn [snd orb]. change (if is_last then 1%nat else 0%nat) with (0 + if consumes (Handed s is_last) then 1 else 0)%nat.
      eapply settled_app; [exact Hst|]. eapply settled_unsent; [done|]. apply settled_one; [done|done|].
      intros s' o [= <- _]. destruct Hst as [E _]. destruct Hx2 as [E2 _]. apply (frame_known x x2); [congruence|]. by apply Hk.
    + exists (Handed s is_last :: l). split; [|cbn; intros Hn; rewrite Hrok by done; apply orb_true_r].
      apply (broadcast_hand x pre s is_last x1); [done|by rewrite Hfa, (proj2 Hx2)|done].
  - intros [[i suc] used] x1 (_ & _ & Hst & Hl). done.
Qed.
End tx.

(** * Round robin: every slave gets its share

    In round robin mode [packets_per_slave] packets go to a slave before the next one has its
    turn.  Over a whole round every slave gets exactly that many. *)

(** ** Counting *)

(** How many of the [n] numbers from [c] on satisfy [f]. *)
Fixpoint cnt (f : Z -> bool) (c : Z) (n : nat) : nat :=
  match n with
  | O => O
  | S n => ((if f c then 1 else 0) + cnt f (c + 1) n)%nat
  end.

Lemma cnt_app f c a b : cnt f c (a + b) = (cnt f c a + cnt f (c + Z.of_nat a) b)%nat.
Proof.
  revert c. induction a as [|a IH]; intros c; cbn [cnt Nat.add]; [by rewrite Z.add_0_r|].
  rewrite IH. replace (c + Z.of_nat (S a)) with (c + 1 + Z.of_nat a) by lia. lia.
Qed.

Lemma cnt_ext f g c n : (forall z, c <= z < c + Z.of_nat n -> f z = g z) -> cnt f c n = cnt g c n.
Proof.
  revert c. induction n as [|n IH]; intros c Hfg; cbn; [done|]. rewrite Hfg by lia. f_equal. apply IH.
  intros z Hz. apply Hfg. lia.
Qed.

Lemma cnt_const b c n : cnt (fun _ => b) c n = if b then n else O.
Proof. revert c. induction n as [|n IH]; intros c; cbn; [by destruct b|]. rewrite IH. by destruct b. Qed.

(** A window of the length of the period has the same count everywhere. *)
Lemma cnt_period f n c : (forall z, f (z + Z.of_nat n) = f z) -> 0 <= c -> cnt f c n = cnt f 0 n.
Proof.
  intros Hp. revert c. apply natlike_ind; [done|]. intros c Hc <-.
  pose proof (cnt_app f c 1 n) as H1. pose proof (cnt_app f c n 1) as H2. cbn in H1, H2.
  rewrite (Nat.add_comm n 1) in H2. cbn in H2. rewrite Hp in H2. unfold Z.succ. lia.
Qed.

(** Of [k * n] numbers, [k] have a given quotient by [k] modulo [n]. *)
Lemma cnt_quotient k n r :
  (0 < k)%nat -> (r < n)%nat ->
  cnt (fun z => z / Z.of_nat k mod Z.of_nat n =? Z.of_nat r) 0 (k * n) = k.
Proof.
  intros Hk Hr. rewrite (cnt_ext _ (fun z => z / Z.of_nat k =? Z.of_nat r)).
  2: { intros z Hz. rewrite Z.mod_small; [done|]. split; [apply Z.div_pos; lia|]. apply Z.div_lt_upper_bound; lia. }
  assert (forall m, cnt (fun z => z / Z.of_nat k =? Z.of_nat r) 0 (k * m) = if decide (r < m)%nat then k else O) as Hm.
  { intros m. induction m as [|m IH]; [by rewrite Nat.mul_0_r|].
    replace (k * S m)%nat with (k * m + k)%nat by lia. rewrite cnt_app, IH.
    rewrite (cnt_ext _ (fun _ => bool_decide (m = r)) (0 + _)), cnt_const.
    - repeat case_decide; case_bool_decide; lia.
    - intros z Hz. assert (z / Z.of_nat k = Z.of_nat m) as ->.
      { symmetry. apply (Z.div_unique_pos _ _ _ (z - Z.of_nat (k * m))); lia. }
      case_bool_decide as E; [subst; apply Z.eqb_refl|apply Z.eqb_neq; lia]. }
  rewrite Hm. by rewrite decide_True.
Qed.

Section turn.
Context `{L : XmitLaws}.

(** ** A packet *)

Definition is_igmp (skb : sk_buff) : bool := is_ip skb && may_pull skb && ip_is_igmp skb.

(** Every slave can transmit. *)
Definition all_send (x : xbond) : Prop := forall s, s ∈ slave_list (xb x) -> tx_of x s = true.

Lemma filter_all x (l : list positive) : (forall s, s ∈ l -> tx_of x s = true) -> filter (fun s => tx_of x s = true) l = l.
Proof.
  induction l as [|s l IH]; intros Hl; [done|]. rewrite filter_cons, decide_True by (apply Hl; by left).
  f_equal. apply IH. intros s' Hs'. apply Hl. by right.
Qed.

Lemma from_id_all x id : all_send x -> (id < length (slave_list (xb x)))%nat -> from_id x id = slave_list (xb x) !! id.
Proof.
  intros Ha Hid. unfold from_id. rewrite filter_all.
  - destruct (lookup_lt_is_Some_2 _ _ Hid) as [s Hs]. by rewrite (drop_S _ _ _ Hs), Hs.
  - intros s Hs. apply Ha. rewrite <-(take_drop id (slave_list (xb x))). set_solver.
Qed.

(** The number of the slave for the packet with count [c]. *)
Definition turn_of (x : xbond) (c : Z) : Z :=
  c / packets_per_slave x mod Z.of_nat (length (slave_list (xb x))).

Lemma rr_step x skb (Q : netdev_tx_t -> xbond -> Prop) :
  xinv x -> all_send x -> slave_list (xb x) <> [] -> is_igmp skb = false ->
  1 <= packets_per_slave x < 2 ^ 31 -> 0 <= rr_tx_counter x < 2 ^ 32 - 1 ->
  (forall r x' s, frame x' = frame x -> rr_tx_counter x' = rr_tx_counter x + 1 ->
    slave_list (xb x) !! Z.to_nat (turn_of x (rr_tx_counter x + 1)) = Some s ->
    fates x' = Handed s true :: fates x -> Q r x') ->
  wp (bond_xmit_roundrobin skb) Q x.
Proof.
  intros Hi Ha Hne Hig Hk Hc HQ. set (n := Z.of_nat (length (slave_list (xb x)))).
  assert (0 < n) as Hn by (subst n; destruct (slave_list (xb x)); [done|cbn; lia]).
  set (x1 := x <| rr_tx_counter := u32 (rr_tx_counter x + 1) |>).
  assert (rr_tx_counter x1 = rr_tx_counter x + 1) as Hrr by (subst x1; rec_simpl; apply u32_id; lia).
  unfold bond_xmit_roundrobin, bond_xmit_roundrobin_slave_get. unfold is_igmp in Hig. rewrite Hig.
  unfold next_in_turn. apply wp_bind, wp_bind, wp_gets. fold n. rewrite (proj2 (Z.eqb_neq _ _)) by lia. apply wp_bind.
  eapply (wp_mono _ (fun id x' => x' = x1 /\ id = (rr_tx_counter x + 1) / packets_per_slave x)).
  { unfold bond_rr_gen_slave_id. apply wp_bind, wp_gets. rewrite (proj2 (Z.eqb_neq _ 0)) by lia.
    unfold inc_rr_tx_counter. destruct (Z.eqb_spec (packets_per_slave x) 1) as [->|].
    - apply wp_bind, wp_mod, wp_gets. split; [done|]. fold x1. by rewrite Z.div_1_r.
    - apply wp_bind, wp_bind, wp_mod, wp_gets, wp_ret. split; [done|]. fold x1.
      rewrite Hrr. apply reciprocal_divide_spec; lia. }
  cbv beta. intros id x' [-> ->]. fold n. change (_ mod n) with (turn_of x (rr_tx_counter x + 1)).
  pose proof (Z.mod_pos_bound ((rr_tx_counter x + 1) / packets_per_slave x) n Hn) as Hb.
  rewrite <-(Z2Nat.id (turn_of x _)) by apply Hb. apply by_id_run; [apply Hi|].
  assert ((Z.to_nat (turn_of x (rr_tx_counter x + 1)) < length (slave_list (xb x)))%nat) as Hidx
    by (unfold turn_of; fold n; lia).
  rewrite from_id_all by done.
  destruct (lookup_lt_is_Some_2 (slave_list (xb x1)) (Z.to_nat (turn_of x (rr_tx_counter x + 1))) Hidx) as [s Hs].
  rewrite Hs. cbn [send_or_drop]. apply queue_xmit_run.
  { apply (xi_list _ Hi). by eapply list_elem_of_lookup_2. }
  intros r x2 _ Hf Hfa Hrr2 _. apply (HQ r x2 s); [by rewrite Hf|congruence|done|by rewrite Hfa].
Qed.

(** ** A round *)

Fixpoint send_all (skbs : list sk_buff) : M xbond unit :=
  match skbs with
  | [] => ret tt
  | skb :: skbs => let* _ := bond_xmit_roundrobin skb in send_all skbs
  end.

Definition handed (s : positive) (f : fate) : bool :=
  match f with Handed s' _ => bool_decide (s' = s) | Freed => false end.
Definition handed_to (s : positive) (l : list fate) : nat := length (filter (fun f => handed s f = true) l).

Lemma handed_one s s1 o : handed_to s [Handed s1 o] = if bool_decide (Some s1 = Some s) then 1%nat else 0%nat.
Proof.
  unfold handed_to. rewrite filter_bool_cons. cbn.
  destruct (decide (s1 = s)); [rewrite !bool_decide_true by congruence|rewrite !bool_decide_false by congruence]; done.
Qed.

Lemma send_all_run x skbs s :
  xinv x -> all_send x -> slave_list (xb x) <> [] -> (forall skb, skb ∈ skbs -> is_igmp skb = false) ->
  1 <= packets_per_slave x < 2 ^ 31 -> 0 <= rr_tx_counter x -> rr_tx_counter x + Z.of_nat (length skbs) < 2 ^ 32 ->
  wp (send_all skbs) (fun _ x' => exists l, fates x' = l ++ fates x /\ handed_to s l =
    cnt (fun c => bool_decide (slave_list (xb x) !! Z.to_nat (turn_of x c) = Some s)) (rr_tx_counter x + 1) (length skbs)) x.
Proof.
  revert x. induction skbs as [|skb skbs IH]; intros x Hi Ha Hne Hig Hk H0 Hc; cbn [send_all].
  { apply wp_ret. by exists []. }
  cbn [length] in Hc. apply wp_bind, rr_step; try done; [apply Hig; by left|lia|].
  intros r x1 s1 Hf Hrr Hs1 Hfa. pose proof Hf as [= E1 E2 E3 E4 E5 E6 E7 E8 E9 _].
  eapply wp_mono; [apply IH|].
  - by eapply frame_xinv.
  - intros s' Hs'. unfold tx_of. rewrite E1. apply Ha. by rewrite <-E2.
  - by rewrite E2.
  - intros skb' Hs'. apply Hig. by right.
  - by rewrite E9.
  - lia.
  - lia.
  - cbv beta. intros _ x2 (l & Hl & Hcnt). exists (l ++ [Handed s1 true]). split.
    + rewrite Hl, Hfa. by rewrite <-app_assoc.
    + pose proof (handed_one s s1 true) as H1. unfold handed_to in *. rewrite filter_app, length_app, Hcnt, H1.
      cbn [cnt length]. rewrite Hs1, Hrr. unfold turn_of. rewrite E2, E9. lia.
Qed.

(** A round of [packets_per_slave] packets for every slave gives every slave that many. *)
Lemma round_run x skbs s :
  xinv x -> all_send x -> NoDup (slave_list (xb x)) -> (forall skb, skb ∈ skbs -> is_igmp skb = false) ->
  1 <= packets_per_slave x < 2 ^ 31 -> 0 <= rr_tx_counter x -> rr_tx_counter x + Z.of_nat (length skbs) < 2 ^ 32 ->
  length skbs = (Z.to_nat (packets_per_slave x) * length (slave_list (xb x)))%nat -> s ∈ slave_list (xb x) ->
  wp (send_all skbs) (fun _ x' => exists l, fates x' = l ++ fates x /\
    handed_to s l = Z.to_nat (packets_per_slave x)) x.
Proof.
  intros Hi Ha Hnd Hig Hk H0 Hc Hlen Hs. apply list_elem_of_lookup in Hs as [r Hr].
  pose proof (lookup_lt_Some _ _ _ Hr) as Hlt.
  assert (slave_list (xb x) <> []) as Hne by (intros E; by rewrite E in Hr).
  eapply wp_mono; [by apply (send_all_run x skbs s)|]. cbv beta. intros _ x' (l & Hl & Hcnt). exists l. split; [done|]. rewrite Hcnt.
  set (k := Z.to_nat (packets_per_slave x)) in *. set (n := length (slave_list (xb x))) in *.
  rewrite Hlen, (cnt_ext _ (fun z => z / Z.of_nat k mod Z.of_nat n =? Z.of_nat r)).
  - rewrite cnt_period; [apply cnt_quotient; lia| |lia]. intros z. f_equal.
    rewrite Nat2Z.inj_mul, (Z.mul_comm (Z.of_nat k)), Z.div_add by lia.
    rewrite <-(Z.mul_1_l (Z.of_nat n)) at 1. apply Z.mod_add. lia.
  - intros z Hz. unfold turn_of. fold n. replace (packets_per_slave x) with (Z.of_nat k) by lia.
    pose proof (Z.mod_pos_bound (z / Z.of_nat k) (Z.of_nat n)) as Hb.
    case_bool_decide as E.
    + pose proof (NoDup_lookup _ _ _ _ Hnd E Hr). symmetry. apply Z.eqb_eq. lia.
    + symmetry. apply Z.eqb_neq. intros Eq. apply E. rewrite Eq, Nat2Z.id. done.
Qed.
End turn.
