(* ===== verification/BondModes.v ===== *)
(** * Transmission through a bond: entry points, turns and arrays *)

From S2P Require Import Prelude.
From S2P Require Import BondHash.
From S2P Require Import BondSpec.
From S2P Require Import AlbTypes.
From S2P Require Import AlbOps.
From S2P Require Import AlbEntry.
From S2P Require Import AlbXmit.
From S2P Require Import AlbSlaves.
From S2P Require Import BondXmit.
From S2P Require Import BondTx.

Section modes.
Context `{L : XmitLaws}.

(** ** Every buffer is consumed once *)

Lemma settled_none x : settled_times 0 x x.
Proof. split; [done|]. exists []. split_and!; [done|done|by intros ? ? ?%not_elem_of_nil]. Qed.

Lemma broadcast_ok x (all : bool) :
  xinv x -> let arr := default [] (if all then all_slaves x else usable_slaves (xb x)) in
  wp (bond_xmit_broadcast all) (fun r x' => r <> NETDEV_TX_BUSY /\ settled_times 1 x x' /\
    exists l, copies l `sublist_of` reverse (up_slaves x arr) /\ fates x' = l ++ fates x /\
      ((forall n, succeeds n = true) -> copies l = reverse (up_slaves x arr) /\
        (r = NETDEV_TX_OK <-> copies l <> []))) x.
Proof.
  intros Hi arr. unfold bond_xmit_broadcast. apply wp_bind, wp_gets, wp_bind.
  assert (forall s, s ∈ arr -> known x s) as Hk.
  { intros s Hs. subst arr. destruct all; [destruct (all_slaves x) eqn:E|destruct (usable_slaves (xb x)) eqn:E].
    - by eapply (xi_all _ Hi).
    - by apply not_elem_of_nil in Hs.
    - by eapply (xi_usable _ Hi).
    - by apply not_elem_of_nil in Hs. }
  eapply wp_mono; [by apply broadcast_loop_ok|]. cbv beta.
  intros [[i suc] used] x1 [Hst (l & [H1 H2 H3] & Hsuc)]. cbn in Hst, Hsuc. apply wp_bind.
  assert (forall l', copies l' = copies l -> ((forall n, succeeds n = true) ->
    copies l' = reverse (up_slaves x arr) /\
      ((if suc then NETDEV_TX_OK else NET_XMIT_DROP) = NETDEV_TX_OK <-> copies l' <> []))) as Hrel.
  { intros l' -> Hn. split; [by apply H3|]. rewrite Hsuc by done. by case_bool_decide. }
  unfold when_. destruct (negb used) eqn:Hused; [apply wp_mod, wp_ret|apply wp_ret, wp_ret]; (split; [by destruct suc|]).
  - apply negb_true_iff in Hused. subst used. split.
    + change 1%nat with (0 + if consumes Freed then 1 else 0)%nat. eapply settled_app; [done|].
      apply settled_one; [unfold frame; by rec_simpl|by rec_simpl|done].
    + exists (Freed :: l). split_and!; [done|rec_simpl; by rewrite H1|by apply Hrel].
  - apply negb_false_iff in Hused. subst used. split; [done|]. exists l. split_and!; [done|done|by apply Hrel].
Qed.

Lemma choose_send x (get : M xbond (option positive)) :
  wp get (choice x) x ->
  wp (let* s := get in send_or_drop s) (fun r x' => r <> NETDEV_TX_BUSY /\ settled_times 1 x x') x.
Proof.
  intros Hget. apply wp_bind. eapply wp_mono; [done|]. cbv beta. intros r x1 [Hu Hk].
  eapply wp_mono; [apply send_or_drop_ok|].
  - intros s Hs. apply (frame_known x x1); [apply Hu|]. by apply Hk.
  - cbv beta. intros res x2 [Hr Hst]. split; [done|]. by eapply settled_unsent.
Qed.

(** The slave of a queue takes the packet, or nothing has happened. *)
Lemma override_ok x queue :
  xinv x -> wp (bond_slave_override queue) (fun r x' =>
    if r =? 0 then settled_times 1 x x' else x' = x) x.
Proof.
  intros Hi. unfold bond_slave_override. destruct queue as [q|]; [|done]. apply wp_bind, wp_gets, wp_bind.
  eapply (wp_for_each (fun _ a x1 => x1 = x /\ a = None)).
  - done.
  - intros pre s post a x1 Hl [-> ->]. destruct (xi_list _ Hi s) as [Hs [xs Hxs]]; [rewrite Hl; set_solver|].
    apply wp_bind. eapply wp_xslave; [done|]. apply wp_ret. destruct (queue_id xs =? q); [|done].
    apply wp_bind. eapply wp_xslave; [done|]. destruct (link_up xs); [|done]. apply wp_bind, queue_xmit_run; [by split; [|eexists]|].
    intros r x' _ Hf Hfa _ _. apply wp_ret. cbn. apply (settled_one x x' (Handed s true)); [done|done|].
    intros ? ? [= <- _]. by split; [|eexists].
  - by intros a x1 [-> ->].
Qed.

Lemma start_xmit_ok x blocked override bcast queue skb :
  xinv x -> skb_linear skb -> mode x <> BOND_MODE_TLB -> mode x <> BOND_MODE_ALB ->
  wp (bond_start_xmit blocked override bcast queue skb) (fun r x' =>
    settled_times (match r with NETDEV_TX_BUSY => 0 | _ => 1 end) x x') x.
Proof.
  intros Hi Hlin Ht Ha. unfold bond_start_xmit. destruct blocked; [apply wp_ret, settled_none|].
  apply wp_bind, wp_gets.
  assert (forall m, wp m (fun r x' => r <> NETDEV_TX_BUSY /\ settled_times 1 x x') x ->
    wp m (fun r x' => settled_times (match r with NETDEV_TX_BUSY => 0 | _ => 1 end) x x') x) as Hdone.
  { intros m Hm. eapply wp_mono; [done|]. intros [] x' []; done. }
  destruct (slave_list (xb x)); [apply Hdone, (send_or_drop_ok x None); done|].
  unfold __bond_start_xmit. apply wp_bind.
  eapply (wp_mono _ (fun r x' => if r : bool then settled_times 1 x x' else x' = x)).
  { destruct override; [|done]. apply wp_bind. eapply wp_mono; [by apply override_ok|]. by intros r x'. }
  cbv beta. intros [] x' Hx'; [by apply wp_ret|]. subst x'. apply Hdone, wp_bind, wp_gets.
  assert (wp (bond_3ad_xor_xmit skb) (fun r x' => r <> NETDEV_TX_BUSY /\ settled_times 1 x x') x) as Hxor.
  { unfold bond_3ad_xor_xmit. apply wp_bind, wp_gets, choose_send, xor_get_ok; [done|apply (xi_usable _ Hi)]. }
  assert (forall all, wp (bond_xmit_broadcast all) (fun r x' => r <> NETDEV_TX_BUSY /\ settled_times 1 x x') x) as Hbc.
  { intros all. eapply wp_mono; [by apply broadcast_ok|]. by intros r x' (? & ? & _). }
  destruct (mode x); try done.
  - by apply choose_send, roundrobin_get_ok.
  - by apply choose_send, activebackup_get_ok.
  - apply wp_bind. unfold bond_should_broadcast_neighbor. apply wp_bind, wp_gets.
    case_match; [by apply wp_ret|]. destruct (skb_protocol skb); apply wp_ret; try done. by case_match.
Qed.

(** ** The arrays *)

(** In 802.3ad mode only slaves of the active aggregator are used. *)
Definition usable_in (x : xbond) (s : positive) : bool :=
  tx_of x s && (negb (bool_decide (mode x = BOND_MODE_8023AD)) ||
    bool_decide ((xs ← xslaves x !! s; agg_id xs) = active_agg x)).

Definition others (x : xbond) (skip : option positive) : list positive :=
  filter (fun s => skip <> Some s) (slave_list (xb x)).

Record arrays_after (x : xbond) (skip : option positive) (r : Z) (x' : xbond) : Prop := {
  aa_fates : fates x' = fates x;
  aa_all : r = 0 -> mode x <> BOND_MODE_8023AD \/ active_agg x <> None -> all_slaves x' = Some (others x skip);
  aa_usable : r = 0 -> mode x <> BOND_MODE_BROADCAST -> mode x <> BOND_MODE_8023AD \/ active_agg x <> None ->
    usable_slaves (xb x') = Some (filter (fun s => usable_in x s = true) (others x skip));
  aa_none : r = 0 -> mode x = BOND_MODE_8023AD -> active_agg x = None ->
    all_slaves x' = None /\ usable_slaves (xb x') = None;
  aa_failed : r <> 0 -> forall s, skip = Some s ->
    all_slaves x' = (fun l => bond_skip_slave l s) <$> all_slaves x /\
    usable_slaves (xb x') = (fun l => bond_skip_slave l s) <$> usable_slaves (xb x)
}.

Lemma fill_arrays_run x skip agg (Q : list positive * list positive -> xbond -> Prop) :
  xinv x -> (mode x = BOND_MODE_8023AD -> agg = active_agg x /\ agg <> None) ->
  Q (filter (fun s => usable_in x s = true) (others x skip), others x skip) x -> wp (fill_arrays skip agg) Q x.
Proof.
  intros Hi Hagg HQ. unfold fill_arrays. apply wp_bind, wp_gets, wp_bind, wp_gets. unfold others in HQ.
  eapply (wp_for_each (fun pre a x1 => x1 = x /\ a = (filter (fun s => usable_in x s = true) (filter (fun s => skip <> Some s) pre),
    filter (fun s => skip <> Some s) pre))).
  - done.
  - intros pre s post a x1 Hl [-> ->]. destruct (xi_list _ Hi s) as [Hs [xs Hxs]]; [rewrite Hl; set_solver|].
    case_bool_decide as Hsk.
    { apply wp_ret. rewrite filter_app, (filter_cons _ s), decide_False by (intros Hn; by apply Hn). by rewrite app_nil_r. }
    assert (filter (fun s => skip <> Some s) (pre ++ [s]) = filter (fun s => skip <> Some s) pre ++ [s]) as ->.
    { by rewrite filter_app, (filter_cons _ s), decide_True. }
    rewrite (filter_app _ _ [s]), filter_bool_cons, filter_nil.
    apply wp_bind. eapply wp_xslave; [done|].
    assert (usable_in x s = tx_of x s && (negb (bool_decide (mode x = BOND_MODE_8023AD)) || bool_decide (agg_id xs = agg))) as ->.
    { unfold usable_in. rewrite Hxs. cbn. destruct (decide (mode x = BOND_MODE_8023AD)) as [Hmd|Hmd].
      - by destruct (Hagg Hmd) as [-> _].
      - by rewrite bool_decide_false. }
    destruct (bool_decide (mode x = BOND_MODE_8023AD)), (bool_decide (agg_id xs = agg)); cbn [andb negb orb];
      rewrite ?andb_false_r, ?andb_true_r;
      first [ apply wp_ret; by rewrite app_nil_r
            | apply wp_bind, can_send_run; [by split; [|eexists]|]; apply wp_ret;
              split; [done|]; destruct (tx_of x s); by rewrite ?app_nil_r ].
  - intros a x1 [-> ->]. done.
Qed.

Lemma set_arr_run x usable all (Q : unit -> xbond -> Prop) :
  (forall x', fates x' = fates x -> all_slaves x' = all ->
    (mode x <> BOND_MODE_BROADCAST -> usable_slaves (xb x') = usable) -> Q tt x') ->
  wp (bond_set_slave_arr usable all) Q x.
Proof.
  intros HQ. unfold bond_set_slave_arr. apply wp_bind, wp_mod, wp_bind, wp_gets. rec_simpl.
  case_bool_decide; [apply wp_ret|apply wp_mod]; apply HQ; rec_simpl; done.
Qed.

Lemma update_arr_ok x skip : xinv x -> wp (update_slave_arr skip) (fun r x' => arrays_after x skip r x') x.
Proof.
  intros Hi. unfold update_slave_arr. apply wp_bind, try_call_run. intros ok1 x1 Hu1 _ _.
  apply wp_bind, try_call_run. intros ok2 x2 Hu2 _ _.
  assert (frame x2 = frame x /\ fates x2 = fates x) as [Hf Hfa] by (destruct Hu1, Hu2; split; congruence).
  pose proof Hf as [= E1 E2 E3 E4 E5 E6 E7 E8 E9 E10].
  destruct errors_nonzero as (Hmem & _). destruct (ok1 && ok2); cbn [negb].
  - apply wp_bind, wp_gets, wp_bind, wp_gets. rewrite E6, E10.
    destruct (bool_decide (mode x = BOND_MODE_8023AD) && bool_decide (active_agg x = None)) eqn:Eb.
    + apply andb_true_iff in Eb as [Em%bool_decide_eq_true Ea%bool_decide_eq_true].
      apply wp_bind, set_arr_run. intros x3 F1 F2 F3. apply wp_ret. rewrite E6, Em in F3.
      constructor; [congruence|intros _ []; done|intros _ _ []; done|intros; split; [done|by apply F3]|done].
    + assert (mode x <> BOND_MODE_8023AD \/ active_agg x <> None) as Hok.
      { apply andb_false_iff in Eb as [Eb|Eb]; apply bool_decide_eq_false in Eb; auto. }
      apply wp_bind, fill_arrays_run; [by eapply frame_xinv|rewrite E6, E10; by destruct Hok|]. cbn [fst snd].
      assert (others x2 skip = others x skip) as -> by (unfold others; by rewrite E2).
      apply wp_bind, set_arr_run. intros x3 F1 F2 F3. apply wp_ret. rewrite E6 in F3.
      assert (forall s, usable_in x2 s = usable_in x s) as Hus.
      { intros s. unfold usable_in, tx_of. by rewrite E1, E6, E7, E10. }
      constructor; [congruence|done| |intros _ Hm Ha; by destruct Hok|done].
      intros _ Hb _. rewrite F3 by done. f_equal. apply list_filter_iff. intros s. by rewrite Hus.
  - apply wp_bind. destruct skip as [s|]; [apply wp_bind, wp_mod, wp_mod|apply wp_ret]; apply wp_ret;
      (constructor; rec_simpl; [done|lia|lia|lia|]); [|done].
    intros _ ? [= <-]. by rewrite E4, E8.
Qed.

(** ** Frames without a buffer *)

(** What [bond_xdp_xmit] returns: the number of frames sent, or an error if there is none. *)
Lemma xdp_hash_run x frame (Q : Z -> xbond -> Prop) : (forall h, Q h x) -> wp (xdp_hash frame) Q x.
Proof.
  intros HQ. unfold xdp_hash, wp. erewrite bond_xmit_hash_xdp_run by (cbn; apply lookup_insert_eq). done.
Qed.

Lemma frame_byte_run x frame i (Q : Z -> xbond -> Prop) :
  (i < length frame)%nat -> (forall b, Q b x) -> wp (frame_byte frame i) Q x.
Proof. intros Hi HQ. unfold frame_byte. destruct (lookup_lt_is_Some_2 _ _ Hi) as [b ->]. by apply wp_ret. Qed.

Lemma xdp_get_ok x frame : xinv x -> wp (bond_xdp_get_xmit_slave frame) (choice x) x.
Proof.
  intros Hi. unfold bond_xdp_get_xmit_slave. apply wp_bind, wp_gets.
  destruct (mode x); try (apply wp_ret; by split).
  - unfold bond_xdp_xmit_roundrobin_slave_get. cbv zeta. destruct (Z.ltb_spec (Z.of_nat (length frame)) 14); [by apply next_in_turn_ok|].
    apply wp_bind, frame_byte_run; [lia|]. intros p1. apply wp_bind, frame_byte_run; [lia|]. intros p2.
    case_match; [|by apply next_in_turn_ok]. destruct (Z.ltb_spec (Z.of_nat (length frame)) (14 + 20)); [by apply next_in_turn_ok|].
    apply wp_bind, frame_byte_run; [lia|]. intros proto. case_match; [by apply igmp_slave_ok|by apply next_in_turn_ok].
  - by apply activebackup_get_ok.
  - apply wp_bind, xdp_hash_run. intros h. apply wp_bind, wp_gets, at_hash_ok, (xi_usable _ Hi).
  - apply wp_bind, xdp_hash_run. intros h. apply wp_bind, wp_gets, at_hash_ok, (xi_usable _ Hi).
Qed.

Lemma xdp_xmit_ok x ndo frames :
  xinv x -> wp (bond_xdp_xmit ndo frames) (fun r x' => exists l, fates x' = l ++ fates x /\
    (length l <= length frames)%nat /\ (forall f, f ∈ l -> exists s, f = Handed s true /\ known x s) /\
    (0 <= r -> r = Z.of_nat (length l)) /\ (r < 0 -> l = [])) x.
Proof.
  intros Hi. unfold bond_xdp_xmit. pose proof ENXIO_pos as Hnx. apply wp_bind.
  set (I := fun (n : nat) (a : Z * Z) (x1 : xbond) => frame x1 = frame x /\ exists l, fates x1 = l ++ fates x /\
    (length l <= n)%nat /\ (forall f, f ∈ l -> exists s, f = Handed s true /\ known x s) /\ a.1 = Z.of_nat (length l)).
  eapply (wp_mono _ (fun a x1 => I (length frames) a x1)).
  2: { intros [n err] x1 (_ & l & Hl & Hle & Hk & En). cbn in En. apply wp_ret. exists l. split_and!; [done..| |].
    - repeat case_match; lia.
    - intros Hr. destruct l; [done|]. cbn in En. repeat case_match; lia. }
  eapply (wp_for_each (fun pre a x1 => I (length pre) a x1)).
  - split; [done|]. exists []. split_and!; [done|done|by intros f ?%not_elem_of_nil|done].
  - intros pre fr post [n err] x1 Hfr (Hf & l & Hl & Hle & Hk & En). cbn in En.
    assert (length pre <= length frames)%nat as Hpre by (rewrite Hfr, length_app; lia).
    apply wp_bind. eapply wp_mono; [apply xdp_get_ok; by eapply frame_xinv|]. intros r x2 [[F1 F2] Hr].
    assert (forall e, I (length frames) (n, e) x2) as Hstop.
    { intros e. split; [congruence|]. exists l. split_and!; [congruence|lia|done|done]. }
    destruct r as [s|]; [|by apply wp_ret].
    assert (known x2 s) as Hs2 by (apply (frame_known x1 x2); [done|by apply Hr]).
    apply wp_bind, get_slave_run; [done|]. intros _. cbv zeta. case_match; [by apply wp_ret|].
    apply wp_bind, wp_mod, wp_ret. split; [rewrite <-Hf, <-F1; unfold frame; by rec_simpl|].
    exists (Handed s true :: l). split_and!.
    + rec_simpl. by rewrite F2, Hl.
    + rewrite length_app. cbn. lia.
    + intros f [->|Hin]%elem_of_cons; [|by apply Hk]. exists s. split; [done|].
      apply (frame_known x x2); [congruence|done].
    + cbn. lia.
  - intros a x1 HI. exact HI.
Qed.

Lemma select_queue_mod q n :
  0 < n -> 0 <= default 0 q -> bond_select_queue q n = Ok (default 0 q mod n).
Proof.
  intros Hn Hq. unfold bond_select_queue. cbv zeta. set (t := default 0 q) in *. clearbody t.
  assert (forall fuel t, 0 <= t -> (Z.to_nat t < fuel)%nat -> queue_loop fuel t n = Ok (t mod n)) as Hloop.
  { clear t Hq. intros fuel. induction fuel as [|fuel IH]; intros t Ht Hf; [lia|]. cbn.
    destruct (Z.leb_spec n t).
    - rewrite IH by lia. f_equal. rewrite <-(Z.mod_add (t - n) 1 n) by lia. f_equal. lia.
    - by rewrite Z.mod_small by lia. }
  apply Hloop; lia.
Qed.
End modes.
