(* ===== verification/BondProps.v ===== *)
(** * Transmission through a bond: properties *)

From S2P Require Import Prelude.
From S2P Require Import BondHash.
From S2P Require Import BondSpec.
From S2P Require Import AlbTypes.
From S2P Require Import AlbOps.
From S2P Require Import AlbEntry.
From S2P Require Import AlbXmit.
From S2P Require Import AlbSlaves.
From S2P Require Import BondXmit.
From S2P Require Import BondTx.
From S2P Require Import BondModes.

Section hash.
Context `{FL : FlowLaws}.


(** A frame without a buffer hashes like the packet with the same bytes, so that both take
    the same slave. *)
Theorem xdp_hash_agrees pol si m :
  linear m -> fits (packet m) 14 = true -> network_offset si = 14 -> vlan_tag si = None -> l4_hash si = false ->
  l2_protocol si = be16 (byte (packet m) 12) (byte (packet m) 13) ->
  exists h, bond_xmit_hash pol si m = Ok (h, m) /\
    bond_xmit_hash_xdp pol 1 (Mem {[1%positive := packet m]} 1 []) = Ok (h, Mem {[1%positive := packet m]} 1 []).
Proof.
  intros Hl Hf Hn Hv H4 Hp. exists (skb_hash_of pol si (packet m)). split; [apply bond_xmit_hash_run; [done|lia]|].
  erewrite bond_xmit_hash_xdp_run by (cbn; apply lookup_insert_eq). rewrite Hf. unfold skb_hash_of.
  by rewrite H4, Hv, Hn, Hp, andb_false_r.
Qed.

(** A packet with the IPv4 header of a fragment. *)
Definition fragment (si : skb_info) (m : mem) : Prop :=
  fits (packet m) (network_offset si + 20) = true /\
  ip_is_fragment (be16 (byte (packet m) (network_offset si + 6)) (byte (packet m) (network_offset si + 7))) = true.

(** The fragments of a datagram, which do not all have the ports, are not spread: under the
    policy of layers 3 and 4, fragments with the same addresses have the same hash. *)
Theorem fragments_together si m1 m2 :
  linear m1 -> linear m2 -> 0 <= network_offset si -> l2_protocol si = BondHash.ETH_P_IP -> fragment si m1 -> fragment si m2 ->
  slice (packet m1) (network_offset si + 12) 4 = slice (packet m2) (network_offset si + 12) 4 ->
  slice (packet m1) (network_offset si + 16) 4 = slice (packet m2) (network_offset si + 16) 4 ->
  exists h, bond_xmit_hash BOND_XMIT_POLICY_LAYER34 si m1 = Ok (h, m1) /\
    bond_xmit_hash BOND_XMIT_POLICY_LAYER34 si m2 = Ok (h, m2).
Proof.
  intros H1 H2 Hn Hp [F1 G1] [F2 G2] Es Ed. exists (skb_hash_of BOND_XMIT_POLICY_LAYER34 si (packet m1)).
  split; [by apply bond_xmit_hash_run|]. rewrite bond_xmit_hash_run by done. do 2 f_equal.
  unfold skb_hash_of, hash_of, flow_of, ip_of. rewrite Hp, Z.eqb_refl, F1, F2, G1, G2, Es, Ed. reflexivity.
Qed.
End hash.

Section tx.
Context `{XL : XmitLaws}.



(** A broadcast gives a copy only to slaves of the array that are up, to each at most once;
    if there is memory for the copies and the devices take them, to each of them in order, and
    it reports success exactly if there is one. *)
Theorem broadcast_reaches x (all : bool) :
  xinv x ->
  exists r x' l, bond_xmit_broadcast all x = Ok (r, x') /\ fates x' = l ++ fates x /\
    copies l `sublist_of` reverse (up_slaves x (default [] (if all then all_slaves x else usable_slaves (xb x)))) /\
    ((forall n, succeeds n = true) ->
      copies l = reverse (up_slaves x (default [] (if all then all_slaves x else usable_slaves (xb x)))) /\ (r = NETDEV_TX_OK <-> copies l <> [])).
Proof.
  intros Hi. destruct (wp_inv _ _ _ (broadcast_ok x all Hi)) as (r & x' & Hrun & _ & _ & l & H1 & H2 & H3).
  exists r, x', l. exact (conj Hrun (conj H2 (conj H1 H3))).
Qed.

(** When the arrays of slaves are brought up to date, that of all slaves has every slave but
    the one to be skipped, and that of usable slaves those of them that can transmit and, in
    802.3ad mode, belong to the active aggregator; without an active aggregator there are no
    arrays.  For want of memory the old arrays are kept, without the slave to be skipped. *)
Theorem arrays_updated x skip :
  xinv x -> exists r x', update_slave_arr skip x = Ok (r, x') /\ arrays_after x skip r x' /\
    (r <> 0 -> forall s l, skip = Some s -> all_slaves x = Some l -> s ∈ l ->
      exists l', all_slaves x' = Some l' /\ l ≡ₚ s :: l').
Proof.
  intros Hi. destruct (wp_inv _ _ _ (update_arr_ok x skip Hi)) as (r & x' & Hrun & Ha). exists r, x'.
  split_and!; [done|done|]. intros Hr s l -> Hl Hs. exists (bond_skip_slave l s).
  destruct (aa_failed _ _ _ _ Ha Hr s eq_refl) as [-> _]. rewrite Hl. split; [done|]. by apply skip_slave_perm.
Qed.

(** Sending frames without a buffer returns how many of them were sent, an error only if
    none was, and sends them to slaves that exist. *)
Theorem xdp_xmit_counts x ndo frames :
  xinv x -> exists r x' l, bond_xdp_xmit ndo frames x = Ok (r, x') /\ fates x' = l ++ fates x /\
    (length l <= length frames)%nat /\ (forall f, f ∈ l -> exists s, f = Handed s true /\ known x s) /\
    (0 <= r -> r = Z.of_nat (length l)) /\ (r < 0 -> l = []).
Proof.
  intros Hi. destruct (wp_inv _ _ _ (xdp_xmit_ok x ndo frames Hi)) as (r & x' & Hrun & l & Hl & Hrest). by exists r, x', l.
Qed.
End tx.

(** ** The properties at concrete packets and bonds *)

From S2P Require Import BondSample.
From S2P Require Import AlbSample.


#[export] Instance LinuxXmit : Xmit := {| xmit_alb := LinuxAlb; reciprocal_divide := Z.div; ENXIO := 6 |}.
#[export] Instance LinuxXmitLaws : XmitLaws.
Proof. constructor; [apply LinuxAlbLaws|done|done]. Qed.

(** A UDP packet, and two fragments of a datagram. *)
Definition eth_header : list Z := [2;0;0;0;0;9; 2;0;0;0;0;1; 8;0].
Definition ip_header (f1 f2 : Z) : list Z := [0x45;0;0;100; 0;1;f1;f2; 64;17;0;0; 10;0;0;1; 10;0;0;7].
Definition udp_packet : mem := Mem {[1%positive := eth_header ++ ip_header 0 0 ++ [0x12;0x34;0;80;0;80;0;0]]} 1 [].
Definition first_fragment : mem := Mem {[1%positive := eth_header ++ ip_header 0x20 0 ++ [0x12;0x34;0;80;0;80;0;0]]} 1 [].
Definition next_fragment : mem := Mem {[1%positive := eth_header ++ ip_header 0 5 ++ [1;2;3;4]]} 1 [].

Lemma linear_area d l : linear (Mem {[d := l]} d []).
Proof. split; [|done]. exists l. apply lookup_insert_eq. Qed.


Lemma xdp_hash_agrees_witness :
  exists h, bond_xmit_hash BOND_XMIT_POLICY_LAYER23 sample_si udp_packet = Ok (h, udp_packet) /\
    bond_xmit_hash_xdp BOND_XMIT_POLICY_LAYER23 1 (Mem {[1%positive := packet udp_packet]} 1 []) =
      Ok (h, Mem {[1%positive := packet udp_packet]} 1 []).
Proof. apply (xdp_hash_agrees BOND_XMIT_POLICY_LAYER23 sample_si udp_packet); [apply linear_area|reflexivity..]. Defined.

Lemma fragments_together_witness :
  exists h, bond_xmit_hash BOND_XMIT_POLICY_LAYER34 sample_si first_fragment = Ok (h, first_fragment) /\
    bond_xmit_hash BOND_XMIT_POLICY_LAYER34 sample_si next_fragment = Ok (h, next_fragment).
Proof.
  apply (fragments_together sample_si first_fragment next_fragment);
    [apply linear_area|apply linear_area|cbn; lia|reflexivity|split; reflexivity|split; reflexivity|reflexivity..].
Defined.

(** The bond of three slaves, in another mode. *)
Definition up_slave (q : Z) : xslave := XSlave true q (Some 1).
Definition sample_xbond (md : bond_mode) (k : Z) : xbond :=
  XBond sample_bond md {[1%positive := up_slave 1; 2%positive := up_slave 2; 3%positive := up_slave 3]}
    (Some 1) (Some [1; 2; 3]%positive) 7 k false [] [].

#[export] Instance known_dec x s : Decision (known x s).
Proof. unfold known. apply _. Defined.

Lemma sample_xinv md k : xinv (sample_xbond md k).
Proof.
  assert (forall s, s ∈ [1; 2; 3]%positive -> known (sample_xbond md k) s) as Hk.
  { apply Forall_forall, (bool_decide_unpack _). vm_compute. exact I. }
  assert (slave_list sample_bond = [1; 2; 3]%positive) as El by (vm_compute; reflexivity).
  assert (curr_active_slave sample_bond = Some 1%positive) as Ea by (vm_compute; reflexivity).
  assert (usable_slaves sample_bond = Some [1; 2; 3]%positive) as Eu by (vm_compute; reflexivity).
  constructor; cbn [sample_xbond xb all_slaves].
  - rewrite El. apply Hk.
  - rewrite Ea. intros s [= <-]. apply Hk. by left.
  - rewrite Eu. intros l s [= <-]. apply Hk.
  - intros l s [= <-]. apply Hk.
Qed.





Lemma broadcast_reaches_witness :
  exists r x' l, bond_xmit_broadcast true (sample_xbond BOND_MODE_BROADCAST 1) = Ok (r, x') /\ fates x' = l ++ [] /\
    copies l = reverse (up_slaves (sample_xbond BOND_MODE_BROADCAST 1) [1; 2; 3]%positive).
Proof.
  destruct (broadcast_reaches (sample_xbond BOND_MODE_BROADCAST 1) true (sample_xinv _ _)) as (r & x' & l & Hrun & Hl & _ & Hall).
  exists r, x', l. split; [exact Hrun|]. split; [exact Hl|]. apply Hall. intros n. reflexivity.
Defined.

Lemma arrays_updated_witness :
  exists r x', update_slave_arr (Some 2%positive) (sample_xbond BOND_MODE_8023AD 1) = Ok (r, x') /\
    arrays_after (sample_xbond BOND_MODE_8023AD 1) (Some 2%positive) r x'.
Proof.
  destruct (arrays_updated (sample_xbond BOND_MODE_8023AD 1) (Some 2%positive) (sample_xinv _ _)) as (r & x' & Hrun & Ha & _).
  exists r, x'. exact (conj Hrun Ha).
Defined.

Lemma xdp_xmit_counts_witness :
  exists r x' l, bond_xdp_xmit (fun _ _ => 1) [packet udp_packet; []] (sample_xbond BOND_MODE_XOR 1) = Ok (r, x') /\
    fates x' = l ++ [] /\ (0 <= r -> r = Z.of_nat (length l)).
Proof.
  destruct (xdp_xmit_counts (sample_xbond BOND_MODE_XOR 1) (fun _ _ => 1) [packet udp_packet; []] (sample_xinv _ _))
    as (r & x' & l & Hrun & Hl & _ & _ & Hr & _).
  exists r, x', l. exact (conj Hrun (conj Hl Hr)).
Defined.
