(* ===== verification/MonTypes.v ===== *)
(** * Failover and link monitoring of [servers/bonding.c]: data

    The slaves of a bond with the state of their links, the active slave, and what the
    monitors read.  What the code takes from headers that are not part of the repository
    (net/bonding.h, linux/jiffies.h, linux/netdevice.h) is a field of the class [Mon]; what it
    relies on is stated in [MonLaws]. *)

From S2P Require Import Prelude.
From S2P Require Import BondXmit.

(** The bytes of an address, and of a name without its terminator. *)
Abbreviation mac := (list Z).
Abbreviation ifname := (list Z).

(** [slave->link] and [slave->link_new_state] *)
Inductive link_state :=
  | BOND_LINK_UP
  | BOND_LINK_FAIL
  | BOND_LINK_DOWN
  | BOND_LINK_BACK
  | BOND_LINK_NOCHANGE.
#[export] Instance link_state_eq_dec : EqDecision link_state.
Proof. solve_decision. Defined.

(** [struct slave].  [active] is [bond_is_active_slave].  What the device says: [is_up] is
    [bond_slave_is_up], [running] and [carrier] are [netif_running] and [netif_carrier_ok],
    [ksettings] the speed and duplex that its driver reports, [last_rx_of] is [slave_last_rx],
    [last_tx_of] is [slave_last_tx], [linkwatch_pending] a bit of its state, [xdp_ops] whether
    its driver has the two operations for XDP, [xdp_count] its XDP programs. *)
Record mslave := MSlave {
  link : link_state;
  link_new_state : link_state;
  delay : Z;
  active : bool;
  should_notify : bool;
  should_notify_link : bool;
  prio : Z;
  speed : Z;
  duplex : Z;
  link_failure_count : Z;
  last_link_up : Z;
  last_rx : Z;
  last_tx : Z;
  last_rx_of : Z;
  last_tx_of : Z;
  is_up : bool;
  running : bool;
  carrier : bool;
  linkwatch_pending : bool;
  ksettings : option (Z * Z);
  dev_mac : mac;
  dev_name : ifname;
  xdp_ops : bool;
  xdp_count : Z
}.
#[export] Instance eta_mslave : Eta mslave := fun s =>
  MSlave (link s) (link_new_state s) (delay s) (active s) (should_notify s) (should_notify_link s)
    (prio s) (speed s) (duplex s) (link_failure_count s) (last_link_up s) (last_rx s) (last_tx s)
    (last_rx_of s) (last_tx_of s) (is_up s) (running s) (carrier s) (linkwatch_pending s) (ksettings s)
    (dev_mac s) (dev_name s) (xdp_ops s) (xdp_count s).

Inductive primary_reselect := BOND_PRI_RESELECT_ALWAYS | BOND_PRI_RESELECT_BETTER | BOND_PRI_RESELECT_FAILURE.
Inductive fail_over_mac := BOND_FOM_NONE | BOND_FOM_ACTIVE | BOND_FOM_FOLLOW.

(** What the driver asks of its other parts and of the rest of the kernel. *)
Inductive mon_event :=
  | AdBind (s : positive) (first : bool)
  | AdUnbind (s : positive)
  | AdLinkChange (s : positive) (l : link_state)
  | AdSpeedChange (s : positive)
  | AdSetCarrier
  | AdSelection
  | AlbInitialize
  | AlbDeinitialize
  | AlbDeinitSlave (s : positive)
  | AlbLinkChange (s : positive) (l : link_state)
  | AlbActiveChange (new : option positive)
  | UpdateArray (skip : option positive)
  | HwAddrSwap (new old : option positive)
  | HwAddrFlush (s : positive)
  | SetPromisc (s : positive) (n : Z)
  | SetAllmulti (s : positive) (n : Z)
  | Failover
  | NotifyPeers
  | ResendIgmp
  | SendValidate (s : positive).
#[export] Instance mon_event_eq_dec : EqDecision mon_event.
Proof. solve_decision. Defined.

(** [struct bonding] with its parameters.  [usable_count] is the length of the array of usable
    slaves, if there is one; [primary_name] is [params.primary]; [miimon] and
    [arp_interval] are the intervals of the monitors in milliseconds, 0 if a monitor is off;
    [rr_counter] says that the counter of round robin mode is allocated; [dev_running],
    [dev_carrier], [dev_promisc], [dev_allmulti] are [netif_running], [netif_carrier_ok] and two
    flags of the device of the bond; [calls] counts the calls whose outcome the rest of the
    kernel decides. *)
Record mbond := MBond {
  mslaves : gmap positive mslave;
  slave_list : list positive;
  slave_cnt : Z;
  curr_active_slave : option positive;
  primary_slave : option positive;
  current_arp_slave : option positive;
  bmode : bond_mode;
  usable_count : option Z;
  primary_name : ifname;
  force_primary : bool;
  reselect : primary_reselect;
  updelay : Z;
  downdelay : Z;
  miimon : Z;
  arp_interval : Z;
  missed_max : Z;
  fom : fail_over_mac;
  bond_mac : mac;
  dev_running : bool;
  dev_carrier : bool;
  dev_promisc : bool;
  dev_allmulti : bool;
  xdp_prog : bool;
  send_peer_notif : Z;
  num_peer_notif : Z;
  peer_notif_delay : Z;
  resend_igmp : Z;
  igmp_retrans : Z;
  rr_counter : bool;
  jiffies : Z;
  mevents : list mon_event;
  calls : Z
}.
#[export] Instance eta_mbond : Eta mbond := fun b =>
  MBond (mslaves b) (slave_list b) (slave_cnt b) (curr_active_slave b) (primary_slave b)
    (current_arp_slave b) (bmode b) (usable_count b) (primary_name b) (force_primary b) (reselect b)
    (updelay b) (downdelay b) (miimon b) (arp_interval b) (missed_max b) (fom b) (bond_mac b)
    (dev_running b) (dev_carrier b) (dev_promisc b) (dev_allmulti b) (xdp_prog b) (send_peer_notif b)
    (num_peer_notif b) (peer_notif_delay b) (resend_igmp b) (igmp_retrans b) (rr_counter b)
    (jiffies b) (mevents b) (calls b).

(** Whether the ARP monitor is on. *)
Definition arp (b : mbond) : bool := negb (arp_interval b =? 0).

(** When a monitor runs again. *)
Inductive rearm := NoRearm | AfterInterval | AfterOne.

Class Mon := {
  (* net/bonding.h: proposing and setting the state of the link of a slave, and whether it is
     active; the flag says whether to tell others at once *)
  bond_propose_link_state : link_state -> mslave -> mslave;
  bond_commit_link_state : bool -> mslave -> mslave;
  bond_set_slave_link_state : link_state -> bool -> mslave -> mslave;
  bond_set_slave_active_flags : bool -> mslave -> mslave;
  bond_set_slave_inactive_flags : bond_mode -> bool -> mslave -> mslave;
  bond_set_active_slave : mslave -> mslave;
  bond_set_backup_slave : mslave -> mslave;
  bond_slave_state_change : mslave -> mslave;
  bond_slave_state_notify : mslave -> mslave;
  bond_slave_link_notify : mslave -> mslave;
  bond_uses_primary : bond_mode -> bool;
  bond_is_lb : bond_mode -> bool;
  bond_needs_speed_duplex : bond_mode -> bool;
  bond_mode_can_use_xmit_hash : bond_mode -> bool;
  SPEED_UNKNOWN : Z;
  DUPLEX_UNKNOWN : Z;
  (* the values that [bond->send_peer_notif] can take *)
  peer_notif_mod : Z;
  (* linux/jiffies.h *)
  msecs_to_jiffies : Z -> Z;
  time_in_range : Z -> Z -> Z -> bool;
  (* the outcome of the calls, and the addresses that [eth_hw_addr_random] chooses *)
  succeeds : Z -> bool;
  random_mac : Z -> mac
}.

(** Each function changes what it is named after, and what records that others are to be told. *)
Class MonLaws `{Mon} : Prop := {
  propose_spec : forall l s, bond_propose_link_state l s = s <| link_new_state := l |>;
  commit_spec : forall now s, exists n,
    bond_commit_link_state now s =
      if bool_decide (link_new_state s = BOND_LINK_NOCHANGE) then s
      else s <| link := link_new_state s |> <| should_notify_link := n |>;
  set_link_spec : forall l now s, exists n,
    bond_set_slave_link_state l now s =
      s <| link_new_state := l |> <| link := l |> <| should_notify_link := n |>;
  active_flags_spec : forall now s, exists n,
    bond_set_slave_active_flags now s = s <| active := true |> <| should_notify := n |>;
  inactive_flags_spec : forall m now s, exists a n,
    bond_set_slave_inactive_flags m now s = s <| active := a |> <| should_notify := n |> /\
    (bond_is_lb m = false -> a = false);
  active_slave_spec : forall s, exists n,
    bond_set_active_slave s = s <| active := true |> <| should_notify := n |>;
  backup_slave_spec : forall s, exists n,
    bond_set_backup_slave s = s <| active := false |> <| should_notify := n |>;
  state_change_spec : forall s, exists a n,
    bond_slave_state_change s = s <| active := a |> <| should_notify := n |>;
  state_notify_spec : forall s, exists n, bond_slave_state_notify s = s <| should_notify := n |>;
  link_notify_spec : forall s, exists n, bond_slave_link_notify s = s <| should_notify_link := n |>;
  uses_primary_spec : forall m, bond_uses_primary m = true <->
    m = BOND_MODE_ACTIVEBACKUP \/ m = BOND_MODE_TLB \/ m = BOND_MODE_ALB;
  is_lb_spec : forall m, bond_is_lb m = true <-> m = BOND_MODE_TLB \/ m = BOND_MODE_ALB;
  needs_speed_spec : forall m, bond_needs_speed_duplex m = true <->
    m = BOND_MODE_8023AD \/ m = BOND_MODE_TLB \/ m = BOND_MODE_ALB;
  notif_mod_spec : 2 ^ 8 <= peer_notif_mod
}.
