(* ===== verification/MonOps.v ===== *)
(** * Link monitoring and failover: the active slave

    Choosing the active slave of a bond and changing to it, as in [bonding.c]. *)

From S2P Require Import Prelude.
From S2P Require Import BondXmit.
From S2P Require Import MonTypes.

Section ops.
Context `{Mon}.
Abbreviation W := (M mbond).

Definition get_s (s : positive) : W mslave :=
  let* m := gets mslaves in
  match m !! s with Some sl => ret sl | None => fail_with Dangling end.
Definition mod_s (s : positive) (f : mslave -> mslave) : W unit :=
  let* sl := get_s s in
  modify (fun b => b <| mslaves ::= <[s := f sl]> |>).

Definition tell (e : mon_event) : W unit := modify (fun b => b <| mevents ::= cons e |>).

(** A call whose outcome the rest of the kernel decides. *)
Definition attempt : W bool :=
  let* n := gets calls in
  modify (fun b => b <| calls := n + 1 |>) ;;;
  ret (succeeds n).

(** Tell others at once, or later. *)
Definition BOND_SLAVE_NOTIFY_NOW : bool := true.
Definition BOND_SLAVE_NOTIFY_LATER : bool := false.

Definition set_link (s : positive) (l : link_state) (now : bool) : W unit :=
  mod_s s (bond_set_slave_link_state l now).
Definition set_active_flags (s : positive) (now : bool) : W unit :=
  mod_s s (bond_set_slave_active_flags now).
Definition set_inactive_flags (s : positive) (now : bool) : W unit :=
  let* md := gets bmode in
  mod_s s (bond_set_slave_inactive_flags md now).

(** Whether a pointer is this slave. *)
Definition is_ptr (p : option positive) (s : positive) : bool := bool_decide (p = Some s).

(** ** Carrier *)

(** Whether some slave is up. *)
Definition some_up : W bool :=
  let* l := gets slave_list in
  for_each l false (fun _ s =>
    let* sl := get_s s in
    ret (if bool_decide (link sl = BOND_LINK_UP) then Break true else Continue false)).

(** [bond_3ad_set_carrier] is called for 802.3ad; it sets the carrier and returns 1 if there are
    slaves. *)
Definition bond_set_carrier : W Z :=
  let* l := gets slave_list in
  let* md := gets bmode in
  if bool_decide (l <> []) && bool_decide (md = BOND_MODE_8023AD) then
    tell AdSetCarrier ;;;
    let* c := attempt in
    modify (fun b => b <| dev_carrier := c |>) ;;;
    ret 1
  else
    let* up := some_up in
    let* c := gets dev_carrier in
    if Bool.eqb up c then ret 0
    else modify (fun b => b <| dev_carrier := up |>) ;;; ret 1.

(** ** Addresses *)

Definition bond_get_old_active (new_active : positive) : W (option positive) :=
  let* l := gets slave_list in
  let* a := gets bond_mac in
  for_each l None (fun _ s =>
    if bool_decide (s = new_active) then ret (Continue None)
    else
      let* sl := get_s s in
      ret (if bool_decide (a = dev_mac sl) then Break (Some s) else Continue None)).

Definition bond_set_dev_addr (s : positive) : W bool :=
  let* sl := get_s s in
  let* ok := attempt in
  when_ ok (modify (fun b => b <| bond_mac := dev_mac sl |>)) ;;;
  ret ok.

Definition dev_set_mac (s : positive) (a : mac) : W bool :=
  let* sl := get_s s in
  let* ok := attempt in
  when_ ok (mod_s s (fun sl => sl <| dev_mac := a |>)) ;;;
  ret ok.

(** With [BOND_FOM_FOLLOW] the new active slave takes the address of the old one, and gives it
    its own. *)
Definition follow_mac (new_active : positive) (old_active : option positive) : W unit :=
  let* old_active :=
    match old_active with
    | Some o => ret (Some o)
    | None => bond_get_old_active new_active
    end in
  match old_active with
  | Some o =>
      let* new := get_s new_active in
      let* old := get_s o in
      let tmp_mac := dev_mac new in
      let* ok := dev_set_mac new_active (dev_mac old) in
      when_ ok (let* _ := dev_set_mac o tmp_mac in ret tt)
  | None =>
      let* a := gets bond_mac in
      let* _ := dev_set_mac new_active a in
      ret tt
  end.

Definition bond_do_fail_over_mac (new_active old_active : option positive) : W unit :=
  let* f := gets fom in
  match f, new_active with
  | BOND_FOM_ACTIVE, Some new => let* _ := bond_set_dev_addr new in ret tt
  | BOND_FOM_FOLLOW, Some new => follow_mac new old_active
  | _, _ => ret tt
  end.

(** ** The best slave *)

Definition link_of (s : option positive) : W link_state :=
  match s with
  | None => ret BOND_LINK_DOWN
  | Some s => let* sl := get_s s in ret (link sl)
  end.

(** The first slave of the highest priority that is up. *)
Definition highest_prio : W (option positive) :=
  let* l := gets slave_list in
  let* r := for_each l None (fun hprio s =>
    let* sl := get_s s in
    ret (Continue (if bool_decide (link sl = BOND_LINK_UP) then
      match hprio with
      | None => Some (s, prio sl)
      | Some (_, p) => if p <? prio sl then Some (s, prio sl) else hprio
      end else hprio))) in
  ret (fst <$> r).

Definition link_reselect (prim : positive) (curr : option positive) : W (option positive) :=
  let* cl := link_of curr in
  match curr with
  | None => ret (Some prim)
  | Some c =>
      if negb (bool_decide (cl = BOND_LINK_UP)) then ret (Some prim)
      else
        let* r := gets reselect in
        match r with
        | BOND_PRI_RESELECT_ALWAYS => ret (Some prim)
        | BOND_PRI_RESELECT_BETTER =>
            let* p := get_s prim in
            let* sl := get_s c in
            ret (Some (if speed p <? speed sl then c
              else if (speed p =? speed sl) && (duplex p <=? duplex sl) then c
              else prim))
        | BOND_PRI_RESELECT_FAILURE => ret (Some c)
        end
  end.

Definition keep_current (curr : option positive) : W (option positive) :=
  let* cl := link_of curr in
  ret (if bool_decide (cl = BOND_LINK_UP) then curr else None).

(** Without a primary slave that is up. *)
Definition choose_by_prio (curr : option positive) : W (option positive) :=
  let* hprio := highest_prio in
  match hprio with
  | Some h => if bool_decide (curr = Some h) then keep_current curr else link_reselect h curr
  | None => keep_current curr
  end.

Definition bond_choose_primary_or_current : W (option positive) :=
  let* prim := gets primary_slave in
  let* curr := gets curr_active_slave in
  let* pl := link_of prim in
  match prim with
  | Some p =>
      if bool_decide (pl = BOND_LINK_UP) then
        let* force := gets force_primary in
        if force then modify (fun b => b <| force_primary := false |>) ;;; ret (Some p)
        else link_reselect p curr
      else choose_by_prio curr
  | None => choose_by_prio curr
  end.

(** A slave that is up, or else the one that will be up first. *)
Definition first_usable : W (option positive) :=
  let* l := gets slave_list in
  let* mintime := gets updelay in
  let* r := for_each l (None, mintime) (fun '(bestslave, mintime) s =>
    let* sl := get_s s in
    if bool_decide (link sl = BOND_LINK_UP) then ret (Break (Some s, mintime))
    else if bool_decide (link sl = BOND_LINK_BACK) && is_up sl && (delay sl <? mintime)
    then ret (Continue (Some s, delay sl))
    else ret (Continue (bestslave, mintime))) in
  ret r.1.

Definition bond_find_best_slave : W (option positive) :=
  let* s := bond_choose_primary_or_current in
  match s with
  | Some s => ret (Some s)
  | None => first_usable
  end.

(** ** Notifying peers *)

Definition bond_should_notify_peers : W bool :=
  let* n := gets send_peer_notif in
  let* d := gets peer_notif_delay in
  let* c := gets dev_carrier in
  if (n =? 0) || negb (n mod Z.max 1 d =? 0) || negb c then ret false
  else
    let* md := gets bmode in
    if bool_decide (md = BOND_MODE_8023AD) then
      let* u := gets usable_count in
      ret (negb (default 0 u =? 0))
    else
      let* curr := gets curr_active_slave in
      match curr with
      | None => ret false
      | Some s => let* sl := get_s s in ret (negb (linkwatch_pending sl))
      end.

Definition bond_peer_notify_reset : W unit :=
  modify (fun b => b <| send_peer_notif :=
    (num_peer_notif b * Z.max 1 (peer_notif_delay b)) mod peer_notif_mod |>).

(** True if the work is to be queued again. *)
Definition bond_peer_notify_handler : W bool :=
  let* locked := attempt in
  if negb locked then ret true else bond_peer_notify_reset ;;; ret false.

Definition bond_peer_notify_may_events (force : bool) : W unit :=
  let* notified := bond_should_notify_peers in
  when_ notified (tell NotifyPeers) ;;;
  when_ (notified || force) (modify (fun b => b <| send_peer_notif := (send_peer_notif b - 1) mod peer_notif_mod |>)).

(** ** Changing the active slave *)

(** The new active slave is up, earlier than its delay says. *)
Definition bring_up (new_active : positive) : W unit :=
  let* now := gets jiffies in
  mod_s new_active (fun sl => sl <| last_link_up := now |>) ;;;
  let* sl := get_s new_active in
  when_ (bool_decide (link sl = BOND_LINK_BACK))
    (mod_s new_active (fun sl => sl <| delay := 0 |>) ;;;
     set_link new_active BOND_LINK_UP BOND_SLAVE_NOTIFY_NOW ;;;
     let* md := gets bmode in
     when_ (bool_decide (md = BOND_MODE_8023AD)) (tell (AdLinkChange new_active BOND_LINK_UP)) ;;;
     when_ (bond_is_lb md) (tell (AlbLinkChange new_active BOND_LINK_UP))).

Definition optionally (s : option positive) (f : positive -> W unit) : W unit :=
  match s with Some s => f s | None => ret tt end.

(** In active backup mode: the flags, the addresses, and the notifications. *)
Definition switch_backup (new_active old_active : option positive) : W unit :=
  optionally old_active (fun s => set_inactive_flags s BOND_SLAVE_NOTIFY_NOW) ;;;
  optionally new_active (fun s =>
    set_active_flags s BOND_SLAVE_NOTIFY_NOW ;;;
    bond_do_fail_over_mac new_active old_active ;;;
    tell Failover ;;;
    let* r := gets dev_running in
    when_ r (bond_peer_notify_reset ;;; bond_peer_notify_may_events false)).

Definition bond_change_active_slave (new_active : option positive) : W unit :=
  let* old_active := gets curr_active_slave in
  if bool_decide (old_active = new_active) then ret tt
  else
    optionally new_active bring_up ;;;
    let* md := gets bmode in
    when_ (bond_uses_primary md) (tell (HwAddrSwap new_active old_active)) ;;;
    (if bond_is_lb md then
       tell (AlbActiveChange new_active) ;;;
       modify (fun b => b <| curr_active_slave := new_active |>) ;;;
       optionally old_active (fun s => set_inactive_flags s BOND_SLAVE_NOTIFY_NOW) ;;;
       optionally new_active (fun s => set_active_flags s BOND_SLAVE_NOTIFY_NOW)
     else modify (fun b => b <| curr_active_slave := new_active |>)) ;;;
    when_ (bool_decide (md = BOND_MODE_ACTIVEBACKUP)) (switch_backup new_active old_active) ;;;
    let* r := gets dev_running in
    let* n := gets resend_igmp in
    when_ (r && (0 <? n) && ((bond_uses_primary md && bool_decide (is_Some new_active)) ||
             bool_decide (md = BOND_MODE_ROUNDROBIN)))
      (modify (fun b => b <| igmp_retrans := n |>) ;;; tell ResendIgmp).

Definition bond_select_active_slave : W unit :=
  let* best_slave := bond_find_best_slave in
  let* curr := gets curr_active_slave in
  when_ (negb (bool_decide (best_slave = curr)))
    (bond_change_active_slave best_slave ;;;
     let* _ := bond_set_carrier in
     ret tt).

(** ** Speed *)

(** True if speed or duplex are not known. *)
Definition DUPLEX_HALF : Z := 0.
Definition DUPLEX_FULL : Z := 1.
Definition bond_update_speed_duplex (s : positive) : W bool :=
  let* sl := get_s s in
  match ksettings sl with
  | Some (v, d) =>
      if (v =? 0) || (v =? 2 ^ 32 - 1) || negb ((d =? DUPLEX_FULL) || (d =? DUPLEX_HALF)) then
        mod_s s (fun sl => sl <| speed := SPEED_UNKNOWN |> <| duplex := DUPLEX_UNKNOWN |>) ;;; ret true
      else mod_s s (fun sl => sl <| speed := v |> <| duplex := d |>) ;;; ret false
  | None => mod_s s (fun sl => sl <| speed := SPEED_UNKNOWN |> <| duplex := DUPLEX_UNKNOWN |>) ;;; ret true
  end.
End ops.
