(* ===== verification/MonLinks.v ===== *)
(** * Link monitoring: the MII monitor

    The monitor that watches the carrier of the slaves, as in [bonding.c]: an inspection, which
    needs no lock, and a commit. *)

From S2P Require Import Prelude.
From S2P Require Import BondXmit.
From S2P Require Import MonTypes.
From S2P Require Import MonOps.

Section mii.
Context `{Mon}.
Abbreviation W := (M mbond).

(** ** Inspection

    One slave: the slave, by how much [commit] goes up, and the new [ignore_updelay].  The cases
    of the [switch] that are fallen into are functions of their own. *)

Definition inspect_fail (now : Z) (link_state ignore_updelay : bool) (commit : Z) (sl : mslave)
    : mslave * Z * bool :=
  if link_state then
    (bond_propose_link_state BOND_LINK_UP sl <| last_link_up := now |>, commit + 1, ignore_updelay)
  else if delay sl <=? 0 then (bond_propose_link_state BOND_LINK_DOWN sl, commit + 1, ignore_updelay)
  else (sl <| delay ::= Z.pred |>, commit, ignore_updelay).

Definition inspect_back (link_state ignore_updelay : bool) (commit : Z) (sl : mslave)
    : mslave * Z * bool :=
  if negb link_state then (bond_propose_link_state BOND_LINK_DOWN sl, commit + 1, ignore_updelay)
  else
    let sl := if ignore_updelay then sl <| delay := 0 |> else sl in
    if delay sl <=? 0 then (bond_propose_link_state BOND_LINK_UP sl, commit + 1, false)
    else (sl <| delay ::= Z.pred |>, commit, ignore_updelay).

Definition inspect_slave (b : mbond) (ignore_updelay : bool) (commit : Z) (sl : mslave)
    : mslave * Z * bool :=
  let sl := bond_propose_link_state BOND_LINK_NOCHANGE sl in
  let link_state := running sl && carrier sl in
  match link sl with
  | BOND_LINK_UP =>
      if link_state then (sl, commit, ignore_updelay)
      else inspect_fail (jiffies b) link_state ignore_updelay (commit + 1)
             (bond_propose_link_state BOND_LINK_FAIL sl <| delay := downdelay b |>)
  | BOND_LINK_FAIL => inspect_fail (jiffies b) link_state ignore_updelay commit sl
  | BOND_LINK_DOWN =>
      if negb link_state then (sl, commit, ignore_updelay)
      else inspect_back link_state ignore_updelay (commit + 1)
             (bond_propose_link_state BOND_LINK_BACK sl <| delay := updelay b |>)
  | BOND_LINK_BACK => inspect_back link_state ignore_updelay commit sl
  | BOND_LINK_NOCHANGE => (sl, commit, ignore_updelay)
  end.

Definition ignores_updelay (b : mbond) : bool :=
  if bool_decide (bmode b = BOND_MODE_ACTIVEBACKUP) then negb (bool_decide (is_Some (curr_active_slave b)))
  else bool_decide (usable_count b = Some 0).

Definition bond_miimon_inspect : W Z :=
  let* ignore_updelay := gets ignores_updelay in
  let* l := gets slave_list in
  let* r := for_each l (0, ignore_updelay) (fun '(commit, ignore_updelay) s =>
    let* b := get in
    let* sl := get_s s in
    let '(sl', commit', ignore') := inspect_slave b ignore_updelay commit sl in
    mod_s s (fun _ => sl') ;;;
    ret (Continue (commit', ignore'))) in
  ret r.1.

(** ** Commit *)

Definition bond_miimon_link_change (s : positive) (l : link_state) : W unit :=
  let* md := gets bmode in
  match md with
  | BOND_MODE_8023AD => tell (AdLinkChange s l)
  | BOND_MODE_TLB | BOND_MODE_ALB => tell (AlbLinkChange s l)
  | BOND_MODE_XOR => tell (UpdateArray None)
  | _ => ret tt
  end.

(** Whether a slave that came up should be considered for the active one. *)
Definition wins_over (s : positive) : W bool :=
  let* curr := gets curr_active_slave in
  let* prim := gets primary_slave in
  match curr with
  | None => ret true
  | Some a =>
      let* sl := get_s s in
      let* act := get_s a in
      ret (is_ptr prim s || (prio act <? prio sl))
  end.

(** The result says whether to select the active slave again. *)
Definition commit_up (s : positive) : W bool :=
  let* md := gets bmode in
  let* unknown := bond_update_speed_duplex s in
  if unknown && bond_needs_speed_duplex md then
    mod_s s (fun sl => sl <| link := BOND_LINK_DOWN |>) ;;; ret false
  else
    set_link s BOND_LINK_UP BOND_SLAVE_NOTIFY_NOW ;;;
    let* now := gets jiffies in
    mod_s s (fun sl => sl <| last_link_up := now |>) ;;;
    (if bool_decide (md = BOND_MODE_8023AD) then mod_s s bond_set_backup_slave
     else when_ (negb (bool_decide (md = BOND_MODE_ACTIVEBACKUP))) (mod_s s bond_set_active_slave)) ;;;
    bond_miimon_link_change s BOND_LINK_UP ;;;
    wins_over s.

Definition UINT_MAX : Z := 2 ^ 32 - 1.
Definition count_failure (sl : mslave) : mslave :=
  if link_failure_count sl <? UINT_MAX then sl <| link_failure_count ::= Z.succ |> else sl.

Definition commit_down (s : positive) : W bool :=
  let* md := gets bmode in
  mod_s s count_failure ;;;
  set_link s BOND_LINK_DOWN BOND_SLAVE_NOTIFY_NOW ;;;
  when_ (bool_decide (md = BOND_MODE_ACTIVEBACKUP) || bool_decide (md = BOND_MODE_8023AD))
    (set_inactive_flags s BOND_SLAVE_NOTIFY_NOW) ;;;
  bond_miimon_link_change s BOND_LINK_DOWN ;;;
  let* curr := gets curr_active_slave in
  ret (is_ptr curr s).

Definition commit_slave (s : positive) : W bool :=
  let* md := gets bmode in
  let* sl := get_s s in
  match link_new_state sl with
  | BOND_LINK_NOCHANGE =>
      when_ (bool_decide (md = BOND_MODE_8023AD) && bool_decide (link sl = BOND_LINK_UP))
        (tell (AdSpeedChange s)) ;;;
      ret false
  | BOND_LINK_UP => commit_up s
  | BOND_LINK_DOWN => commit_down s
  | BOND_LINK_FAIL | BOND_LINK_BACK => ret false
  end.

Definition bond_miimon_commit : W unit :=
  let* l := gets slave_list in
  let* do_failover := for_each l false (fun do_failover s =>
    let* again := commit_slave s in
    ret (Continue (do_failover || again))) in
  when_ do_failover bond_select_active_slave ;;;
  let* _ := bond_set_carrier in
  ret tt.

(** ** The monitor *)

Definition commit_all : W unit :=
  let* l := gets slave_list in
  for_each l tt (fun _ s => mod_s s (bond_commit_link_state BOND_SLAVE_NOTIFY_LATER) ;;; ret (Continue tt)).

(** The part under the lock. *)
Definition mii_locked (commit : bool) : W unit :=
  when_ commit (commit_all ;;; bond_miimon_commit) ;;;
  let* n := gets send_peer_notif in
  when_ (negb (n =? 0)) (bond_peer_notify_may_events true).

Definition mii_rearm (again : rearm) : W rearm :=
  let* m := gets miimon in
  ret (if negb (m =? 0) then again else NoRearm).

Definition bond_mii_monitor : W rearm :=
  let* l := gets slave_list in
  if bool_decide (l = []) then mii_rearm AfterInterval
  else
    let* c := bond_miimon_inspect in
    let commit := negb (c =? 0) in
    let* n := gets send_peer_notif in
    if commit || negb (n =? 0) then
      let* locked := attempt in
      if negb locked then mii_rearm AfterOne
      else mii_locked commit ;;; mii_rearm AfterInterval
    else mii_rearm AfterInterval.
End mii.

(** * Link monitoring: the ARP monitors

    The monitors that watch the traffic of the slaves, as in [bonding.c]: one for active backup
    mode, one for the other modes.  The probes themselves ([bond_send_validate]) are recorded. *)

Section arp.
Context `{Mon}.
Abbreviation W := (M mbond).

Definition bond_time_in_interval (b : mbond) (last_act mod_ : Z) : bool :=
  let delta_in_ticks := msecs_to_jiffies (arp_interval b) in
  time_in_range (jiffies b) (u64 (last_act - delta_in_ticks))
    (u64 (last_act + mod_ * delta_in_ticks + delta_in_ticks / 2)).

Definition arp_rearm (again : rearm) : W rearm :=
  let* a := gets arp in
  ret (if a then again else NoRearm).

(** ** Load balancing modes *)

(** One slave: the slave, [slave_state_changed] and [do_failover]. *)
Definition lb_inspect_slave (b : mbond) (s : positive) (oldcurrent : option positive) (sl : mslave)
    (flags : bool * bool) : mslave * (bool * bool) :=
  let '(slave_state_changed, do_failover) := flags in
  let sl := bond_propose_link_state BOND_LINK_NOCHANGE sl in
  if negb (bool_decide (link sl = BOND_LINK_UP)) then
    if bond_time_in_interval b (last_tx_of sl) 1 && bond_time_in_interval b (last_rx sl) 1 then
      (bond_propose_link_state BOND_LINK_UP sl, (true, do_failover || bool_decide (oldcurrent = None)))
    else (sl, flags)
  else if negb (bond_time_in_interval b (last_tx_of sl) (missed_max b)) ||
          negb (bond_time_in_interval b (last_rx sl) (missed_max b)) then
    (count_failure (bond_propose_link_state BOND_LINK_DOWN sl), (true, do_failover || is_ptr oldcurrent s))
  else (sl, flags).

Definition lb_arp_inspect : W (bool * bool) :=
  let* oldcurrent := gets curr_active_slave in
  let* l := gets slave_list in
  for_each l (false, false) (fun flags s =>
    let* b := get in
    let* sl := get_s s in
    let '(sl', flags') := lb_inspect_slave b s oldcurrent sl flags in
    mod_s s (fun _ => sl') ;;;
    when_ (is_up sl) (tell (SendValidate s)) ;;;
    ret (Continue flags')).

(** The part under the lock. *)
Definition lb_take (sl : mslave) : mslave :=
  if bool_decide (link_new_state sl = BOND_LINK_NOCHANGE) then sl else sl <| link := link_new_state sl |>.

Definition each_slave (f : mslave -> mslave) : W unit :=
  let* l := gets slave_list in
  for_each l tt (fun _ s => mod_s s f ;;; ret (Continue tt)).

Definition lb_arp_locked (slave_state_changed do_failover : bool) : W unit :=
  each_slave lb_take ;;;
  when_ slave_state_changed
    (each_slave bond_slave_state_change ;;;
     let* md := gets bmode in
     when_ (bool_decide (md = BOND_MODE_XOR)) (tell (UpdateArray None))) ;;;
  when_ do_failover bond_select_active_slave.

Definition bond_loadbalance_arp_mon : W rearm :=
  let* l := gets slave_list in
  if bool_decide (l = []) then arp_rearm AfterInterval
  else
    let* '(slave_state_changed, do_failover) := lb_arp_inspect in
    when_ (do_failover || slave_state_changed)
      (let* locked := attempt in
       when_ locked (lb_arp_locked slave_state_changed do_failover)) ;;;
    arp_rearm AfterInterval.

(** ** Active backup mode *)

(** One slave, and by how much [commit] goes up. *)
Definition ab_inspect_slave (b : mbond) (commit : Z) (sl : mslave) : mslave * Z :=
  let sl := bond_propose_link_state BOND_LINK_NOCHANGE sl in
  let rx := last_rx_of sl in
  if negb (bool_decide (link sl = BOND_LINK_UP)) then
    if bond_time_in_interval b rx 1 then (bond_propose_link_state BOND_LINK_UP sl, commit + 1)
    else if bool_decide (link sl = BOND_LINK_BACK) then (bond_propose_link_state BOND_LINK_FAIL sl, commit + 1)
    else (sl, commit)
  else if bond_time_in_interval b (last_link_up sl) 2 then (sl, commit)
  else
    let '(sl, commit) :=
      if negb (active sl) && bool_decide (current_arp_slave b = None) &&
         negb (bond_time_in_interval b rx (missed_max b + 1))
      then (bond_propose_link_state BOND_LINK_DOWN sl, commit + 1) else (sl, commit) in
    if active sl && (negb (bond_time_in_interval b (last_tx_of sl) (missed_max b)) ||
                     negb (bond_time_in_interval b rx (missed_max b)))
    then (bond_propose_link_state BOND_LINK_DOWN sl, commit + 1) else (sl, commit).

Definition bond_ab_arp_inspect : W Z :=
  let* l := gets slave_list in
  for_each l 0 (fun commit s =>
    let* b := get in
    let* sl := get_s s in
    let '(sl', commit') := ab_inspect_slave b commit sl in
    mod_s s (fun _ => sl') ;;;
    ret (Continue commit')).

Definition ab_commit_up (s : positive) : W bool :=
  let* b := get in
  let* sl := get_s s in
  let curr := curr_active_slave b in
  if negb (is_ptr curr s) ||
     (bool_decide (curr = None) && bond_time_in_interval b (last_tx_of sl) 1) then
    set_link s BOND_LINK_UP BOND_SLAVE_NOTIFY_NOW ;;;
    optionally (current_arp_slave b) (fun c =>
      set_inactive_flags c BOND_SLAVE_NOTIFY_NOW ;;;
      modify (fun b => b <| current_arp_slave := None |>)) ;;;
    wins_over s
  else ret false.

Definition ab_commit_down (s : positive) : W bool :=
  mod_s s count_failure ;;;
  set_link s BOND_LINK_DOWN BOND_SLAVE_NOTIFY_NOW ;;;
  set_inactive_flags s BOND_SLAVE_NOTIFY_NOW ;;;
  let* curr := gets curr_active_slave in
  when_ (is_ptr curr s) (modify (fun b => b <| current_arp_slave := None |>)) ;;;
  ret (is_ptr curr s).

Definition ab_commit_fail (s : positive) : W bool :=
  set_link s BOND_LINK_FAIL BOND_SLAVE_NOTIFY_NOW ;;;
  set_inactive_flags s BOND_SLAVE_NOTIFY_NOW ;;;
  let* curr := gets curr_active_slave in
  when_ (bool_decide (is_Some curr)) (modify (fun b => b <| current_arp_slave := None |>)) ;;;
  ret false.

Definition ab_commit_slave (s : positive) : W bool :=
  let* sl := get_s s in
  match link_new_state sl with
  | BOND_LINK_NOCHANGE | BOND_LINK_BACK => ret false
  | BOND_LINK_UP => ab_commit_up s
  | BOND_LINK_DOWN => ab_commit_down s
  | BOND_LINK_FAIL => ab_commit_fail s
  end.

Definition bond_ab_arp_commit : W unit :=
  let* l := gets slave_list in
  let* do_failover := for_each l false (fun do_failover s =>
    let* again := ab_commit_slave s in
    ret (Continue (do_failover || again))) in
  when_ do_failover bond_select_active_slave ;;;
  let* _ := bond_set_carrier in
  ret tt.

(** *** Probing: the next slave after the candidate *)

(** A slave that is marked up but is not is marked down. *)
Definition probe_mark (s : positive) : W unit :=
  let* sl := get_s s in
  when_ (negb (is_up sl) && bool_decide (link sl = BOND_LINK_UP))
    (set_link s BOND_LINK_DOWN BOND_SLAVE_NOTIFY_LATER ;;;
     mod_s s count_failure ;;;
     set_inactive_flags s BOND_SLAVE_NOTIFY_LATER).

(** The accumulator has [found], [before] and [new_slave]. *)
Definition probe_step (curr_arp_slave : positive) (acc : bool * option positive * option positive)
    (s : positive) : W (ctl (bool * option positive * option positive)) :=
  let '(found, before, new_slave) := acc in
  let* sl := get_s s in
  let before := if negb found && bool_decide (before = None) && is_up sl then Some s else before in
  let new_slave := if found && bool_decide (new_slave = None) && is_up sl then Some s else new_slave in
  probe_mark s ;;;
  ret (Continue (found || bool_decide (s = curr_arp_slave), before, new_slave)).

Definition probe_next (curr_arp_slave : positive) : W (option positive) :=
  let* l := gets slave_list in
  let* '(_, before, new_slave) := for_each l (false, None, None) (probe_step curr_arp_slave) in
  ret (match new_slave with Some n => Some n | None => before end).

Definition probe_candidate (s : positive) : W unit :=
  set_link s BOND_LINK_BACK BOND_SLAVE_NOTIFY_LATER ;;;
  set_active_flags s BOND_SLAVE_NOTIFY_LATER ;;;
  tell (SendValidate s) ;;;
  let* now := gets jiffies in
  mod_s s (fun sl => sl <| last_link_up := now |>) ;;;
  modify (fun b => b <| current_arp_slave := Some s |>).

Definition must_notify : W bool :=
  let* l := gets slave_list in
  for_each l BOND_SLAVE_NOTIFY_LATER (fun _ s =>
    let* sl := get_s s in
    ret (if should_notify sl || should_notify_link sl then Break BOND_SLAVE_NOTIFY_NOW
         else Continue BOND_SLAVE_NOTIFY_LATER)).

Definition bond_ab_arp_probe : W bool :=
  let* curr := gets curr_active_slave in
  match curr with
  | Some s => tell (SendValidate s) ;;; ret BOND_SLAVE_NOTIFY_LATER
  | None =>
      let* a := gets current_arp_slave in
      let* l := gets slave_list in
      match (match a with Some c => Some c | None => head l end) with
      | None => ret BOND_SLAVE_NOTIFY_LATER
      | Some c =>
          let* new_slave := probe_next c in
          optionally new_slave probe_candidate ;;;
          must_notify
      end
  end.

(** The part under the second lock. *)
Definition ab_notify_locked (should_notify_rtnl : bool) : W unit :=
  let* n := gets send_peer_notif in
  when_ (negb (n =? 0)) (bond_peer_notify_may_events true) ;;;
  when_ should_notify_rtnl
    (each_slave bond_slave_state_notify ;;; each_slave bond_slave_link_notify).

Definition ab_arp_rest : W rearm :=
  let* should_notify_rtnl := bond_ab_arp_probe in
  let* n := gets send_peer_notif in
  if negb (n =? 0) || should_notify_rtnl then
    let* locked := attempt in
    if negb locked then arp_rearm AfterOne
    else ab_notify_locked should_notify_rtnl ;;; arp_rearm AfterInterval
  else arp_rearm AfterInterval.

Definition bond_activebackup_arp_mon : W rearm :=
  let* l := gets slave_list in
  if bool_decide (l = []) then arp_rearm AfterInterval
  else
    let* c := bond_ab_arp_inspect in
    if negb (c =? 0) then
      let* locked := attempt in
      if negb locked then arp_rearm AfterOne
      else bond_ab_arp_commit ;;; ab_arp_rest
    else ab_arp_rest.

Definition bond_arp_monitor : W rearm :=
  let* md := gets bmode in
  if bool_decide (md = BOND_MODE_ACTIVEBACKUP) then bond_activebackup_arp_mon else bond_loadbalance_arp_mon.
End arp.
