(* ===== verification/MonEntry.v ===== *)
(** * Failover: the operations on a bond

    Enslaving and releasing a slave, opening and closing the bond, events of the slaves
    ([bonding.c]) and the options that concern the active slave ([bond_options.c]), as far as
    they concern links and the active slave. *)

From S2P Require Import Prelude.
From S2P Require Import BondXmit.
From S2P Require Import MonTypes.
From S2P Require Import MonOps.
From S2P Require Import MonLinks.

Section entry.
Context `{Mon}.
Abbreviation W := (M mbond).

(** ** Enslaving *)

(** The state of the link of the new slave. *)
Definition enslave_link (s : positive) : W unit :=
  let* b := get in
  mod_s s (fun sl => sl <| delay := 0 |> <| link_failure_count := 0 |>) ;;;
  let* unknown := bond_update_speed_duplex s in
  when_ (unknown && bond_needs_speed_duplex (bmode b)) (mod_s s (fun sl => sl <| link := BOND_LINK_DOWN |>)) ;;;
  let long_ago := u64 (jiffies b - (msecs_to_jiffies (arp_interval b) + 1)) in
  mod_s s (fun sl => sl <| last_rx := long_ago |> <| last_tx := long_ago |> <| link := BOND_LINK_NOCHANGE |>) ;;;
  let* sl := get_s s in
  (if negb (miimon b =? 0) then
     if running sl && carrier sl then
       if negb (updelay b =? 0) then
         set_link s BOND_LINK_BACK BOND_SLAVE_NOTIFY_NOW ;;;
         mod_s s (fun sl => sl <| delay := updelay b |>)
       else set_link s BOND_LINK_UP BOND_SLAVE_NOTIFY_NOW
     else set_link s BOND_LINK_DOWN BOND_SLAVE_NOTIFY_NOW
   else if arp b then
     set_link s (if carrier sl then BOND_LINK_UP else BOND_LINK_DOWN) BOND_SLAVE_NOTIFY_NOW
   else set_link s BOND_LINK_UP BOND_SLAVE_NOTIFY_NOW) ;;;
  let* sl := get_s s in
  when_ (negb (bool_decide (link sl = BOND_LINK_DOWN)))
    (mod_s s (fun sl => sl <| last_link_up := jiffies b |>)).

Definition enslave_primary (s : positive) : W unit :=
  let* b := get in
  let* sl := get_s s in
  when_ (bond_uses_primary (bmode b) && negb (bool_decide (primary_name b = [])) &&
         bool_decide (primary_name b = dev_name sl))
    (modify (fun b => b <| primary_slave := Some s |> <| force_primary := true |>)).

Definition enslave_mode (s : positive) : W unit :=
  let* md := gets bmode in
  let* l := gets slave_list in
  match md with
  | BOND_MODE_ACTIVEBACKUP => set_inactive_flags s BOND_SLAVE_NOTIFY_NOW
  | BOND_MODE_8023AD =>
      set_inactive_flags s BOND_SLAVE_NOTIFY_NOW ;;;
      tell (AdBind s (bool_decide (l = [])))
  | BOND_MODE_TLB | BOND_MODE_ALB =>
      mod_s s bond_set_active_slave ;;;
      set_inactive_flags s BOND_SLAVE_NOTIFY_NOW
  | _ =>
      mod_s s bond_set_active_slave ;;;
      let* curr := gets curr_active_slave in
      let* sl := get_s s in
      when_ (bool_decide (curr = None) && bool_decide (link sl = BOND_LINK_UP))
        (modify (fun b => b <| curr_active_slave := Some s |>))
  end.

(** [bond_upper_dev_unlink] takes the slave out of the list of slaves. *)
Definition unlink_slave (s : positive) : W unit :=
  modify (fun b => b <| slave_list ::= filter (fun x => x <> s) |>).

(** The label err_detach and what follows; at the end the slave is freed. *)
Definition enslave_undo (s : positive) : W unit :=
  let* prim := gets primary_slave in
  when_ (is_ptr prim s) (modify (fun b => b <| primary_slave := None |>)) ;;;
  let* curr := gets curr_active_slave in
  when_ (is_ptr curr s)
    (bond_change_active_slave None ;;;
     bond_select_active_slave) ;;;
  modify (fun b => b <| mslaves ::= delete s |>).

(** The flags that a new slave takes over; true if a call failed. *)
Definition enslave_flags (s : positive) : W bool :=
  let* b := get in
  if bond_uses_primary (bmode b) then ret false
  else
    let* ok1 := (if dev_promisc b then attempt else ret true) in
    if negb ok1 then ret true
    else
      when_ (dev_promisc b) (tell (SetPromisc s 1)) ;;;
      let* ok2 := (if dev_allmulti b then attempt else ret true) in
      if negb ok2 then when_ (dev_promisc b) (tell (SetPromisc s (-1))) ;;; ret true
      else when_ (dev_allmulti b) (tell (SetAllmulti s 1)) ;;; ret false.

(** The XDP program of the bond; true if the slave cannot take it. *)
Definition enslave_xdp (s : positive) : W bool :=
  let* prog := gets xdp_prog in
  let* sl := get_s s in
  if negb prog then ret false
  else if negb (xdp_ops sl) then ret true
  else if 0 <? xdp_count sl then ret true
  else let* ok := attempt in ret (negb ok).

Definition enslave_select : W unit :=
  modify (fun b => b <| slave_cnt ::= Z.succ |>) ;;;
  let* _ := bond_set_carrier in
  let* md := gets bmode in
  when_ (bond_uses_primary md) bond_select_active_slave.

Definition enslave_array : W unit :=
  let* md := gets bmode in
  when_ (bond_mode_can_use_xmit_hash md || bool_decide (md = BOND_MODE_BROADCAST)) (tell (UpdateArray None)).

Definition enslave_prepare (s : positive) (new : mslave) : W unit :=
  modify (fun b => b <| mslaves ::= <[s := new]> |>) ;;;
  enslave_link s ;;;
  enslave_primary s ;;;
  enslave_mode s.

(** The calls that can fail are those that register the handler of received frames, link the
    devices, and create the files of the slave. *)
Definition enslave_attach (s : positive) : W bool :=
  let* handler := attempt in
  if negb handler then enslave_undo s ;;; ret false
  else
    let* linked := attempt in
    if negb linked then enslave_undo s ;;; ret false
    else
      modify (fun b => b <| slave_list ::= fun l => l ++ [s] |>) ;;;
      let* files := attempt in
      if negb files then unlink_slave s ;;; enslave_undo s ;;; ret false
      else
        let* failed := enslave_flags s in
        if failed then unlink_slave s ;;; enslave_undo s ;;; ret false
        else
          enslave_select ;;;
          let* failed := enslave_xdp s in
          if failed then unlink_slave s ;;; enslave_undo s ;;; ret false
          else enslave_array ;;; ret true.

(** A device with the state [new] is enslaved; true if it is a slave afterwards. *)
Definition bond_enslave (s : positive) (new : mslave) : W bool :=
  enslave_prepare s new ;;;
  enslave_attach s.

(** ** Releasing *)

(** Not the device's own state, which is restored at the end; false if it is not a slave. *)
Definition bond_release_one (s : positive) (all : bool) : W bool :=
  let* l := gets slave_list in
  if negb (bool_decide (s ∈ l)) then ret false
  else
    let* md := gets bmode in
    set_inactive_flags s BOND_SLAVE_NOTIFY_NOW ;;;
    when_ (bool_decide (md = BOND_MODE_8023AD)) (tell (AdUnbind s)) ;;;
    unlink_slave s ;;;
    when_ (bond_mode_can_use_xmit_hash md || bool_decide (md = BOND_MODE_BROADCAST))
      (tell (UpdateArray (Some s))) ;;;
    let* oldcurrent := gets curr_active_slave in
    modify (fun b => b <| current_arp_slave := None |>) ;;;
    let* prim := gets primary_slave in
    when_ (is_ptr prim s) (modify (fun b => b <| primary_slave := None |>)) ;;;
    when_ (is_ptr oldcurrent s) (bond_change_active_slave None) ;;;
    when_ (bond_is_lb md) (tell (AlbDeinitSlave s)) ;;;
    (if all then modify (fun b => b <| curr_active_slave := None |>)
     else when_ (is_ptr oldcurrent s) bond_select_active_slave) ;;;
    let* _ := bond_set_carrier in
    let* l := gets slave_list in
    when_ (bool_decide (l = []))
      (let* n := gets calls in
       modify (fun b => b <| calls := n + 1 |> <| bond_mac := random_mac n |>)) ;;;
    modify (fun b => b <| slave_cnt ::= Z.pred |>) ;;;
    modify (fun b => b <| mslaves ::= delete s |>) ;;;
    ret true.

(** ** Opening and closing the bond *)

Definition open_slave (md : bond_mode) (curr : option positive) (s : positive) : W unit :=
  if bond_uses_primary md && negb (is_ptr curr s) then set_inactive_flags s BOND_SLAVE_NOTIFY_NOW
  else when_ (negb (bool_decide (md = BOND_MODE_8023AD))) (set_active_flags s BOND_SLAVE_NOTIFY_NOW).

(** [bond->rr_tx_counter], once allocated, stays. *)
Definition open_counter : W bool :=
  let* b := get in
  if bool_decide (bmode b = BOND_MODE_ROUNDROBIN) && negb (rr_counter b) then
    let* memory := attempt in
    when_ memory (modify (fun b => b <| rr_counter := true |>)) ;;;
    ret memory
  else ret true.

(** False if there is no memory, for the counter of round robin mode or for the tables. *)
Definition bond_open : W bool :=
  let* memory := open_counter in
  if negb memory then ret false
  else
    let* b := get in
    let md := bmode b in
    for_each (slave_list b) tt (fun _ s => open_slave md (curr_active_slave b) s ;;; ret (Continue tt)) ;;;
    let* tables := (if bond_is_lb md then tell AlbInitialize ;;; attempt else ret true) in
    if negb tables then ret false
    else
      when_ (bool_decide (md = BOND_MODE_8023AD)) (tell AdSelection) ;;;
      when_ (bond_mode_can_use_xmit_hash md) (tell (UpdateArray None)) ;;;
      ret true.

(** [bond_hw_addr_flush] takes the addresses of the bond off a slave. *)
Definition flush_slave (s : positive) : W unit :=
  let* _ := get_s s in
  tell (HwAddrFlush s).

Definition flush_slaves (md : bond_mode) : W unit :=
  if bond_uses_primary md then
    let* curr := gets curr_active_slave in
    optionally curr flush_slave
  else
    let* l := gets slave_list in
    for_each l tt (fun _ s => flush_slave s ;;; ret (Continue tt)).

Definition bond_close : W unit :=
  modify (fun b => b <| send_peer_notif := 0 |>) ;;;
  let* md := gets bmode in
  when_ (bond_is_lb md) (tell AlbDeinitialize) ;;;
  flush_slaves md.

(** ** Events of a slave *)

Inductive slave_event := NETDEV_UNREGISTER | NETDEV_UP | NETDEV_CHANGE | NETDEV_DOWN | NETDEV_CHANGEMTU | NETDEV_CHANGENAME.

Definition event_change (s : positive) : W unit :=
  let* md := gets bmode in
  let* unknown := bond_update_speed_duplex s in
  when_ (unknown && bool_decide (md = BOND_MODE_8023AD))
    (mod_s s (fun sl => sl <| link := if last_link_up sl =? 0 then BOND_LINK_DOWN else BOND_LINK_FAIL |>)) ;;;
  when_ (bool_decide (md = BOND_MODE_8023AD)) (tell (AdSpeedChange s)).

Definition event_array : W unit :=
  let* md := gets bmode in
  when_ (bond_mode_can_use_xmit_hash md) (tell (UpdateArray None)).

Definition event_rename (s : positive) : W unit :=
  let* b := get in
  let* sl := get_s s in
  if negb (bond_uses_primary (bmode b)) || bool_decide (primary_name b = []) then ret tt
  else if is_ptr (primary_slave b) s then
    modify (fun b => b <| primary_slave := None |>) ;;; bond_select_active_slave
  else if bool_decide (dev_name sl = primary_name b) then
    modify (fun b => b <| primary_slave := Some s |>) ;;; bond_select_active_slave
  else ret tt.

(** Of an Ethernet bond: otherwise the bond goes with the device. *)
Definition bond_slave_netdev_event (e : slave_event) (s : positive) : W unit :=
  match e with
  | NETDEV_UNREGISTER => let* _ := bond_release_one s false in ret tt
  | NETDEV_UP | NETDEV_CHANGE => event_change s ;;; event_array
  | NETDEV_DOWN => event_array
  | NETDEV_CHANGEMTU => ret tt
  | NETDEV_CHANGENAME => event_rename s
  end.

(** ** Options *)

(** The name is that of a slave of the bond, or empty; false for [-EINVAL]. *)
Definition bond_option_active_slave_set (new : option positive) : W bool :=
  match new with
  | None => bond_change_active_slave None ;;; bond_select_active_slave ;;; ret true
  | Some s =>
      let* old_active := gets curr_active_slave in
      let* sl := get_s s in
      if is_ptr old_active s then ret true
      else if bool_decide (is_Some old_active) && bool_decide (link sl = BOND_LINK_UP) && is_up sl then
        bond_change_active_slave (Some s) ;;; ret true
      else ret false
  end.

Definition bond_option_prio_set (s : positive) (value : Z) : W unit :=
  mod_s s (fun sl => sl <| prio := value |>) ;;;
  let* prim := gets primary_slave in
  when_ (bool_decide (prim = None)) bond_select_active_slave.

Definition IFNAMSIZ : nat := 16.
Definition newline : Z := 10.

(** The text up to a newline. *)
Fixpoint cut_newline (l : ifname) : ifname :=
  match l with
  | [] => []
  | c :: l => if c =? newline then [] else c :: cut_newline l
  end.

Definition slave_named (name : ifname) : W (option positive) :=
  let* l := gets slave_list in
  for_each l None (fun _ s =>
    let* sl := get_s s in
    ret (if bool_decide (take IFNAMSIZ (dev_name sl) = take IFNAMSIZ name) then Break (Some s) else Continue None)).

Definition bond_option_primary_set (value : ifname) : W unit :=
  let primary := cut_newline value in
  if bool_decide (primary = []) then
    modify (fun b => b <| primary_slave := None |> <| primary_name := [] |>) ;;; bond_select_active_slave
  else
    let* found := slave_named primary in
    match found with
    | Some s =>
        let* sl := get_s s in
        modify (fun b => b <| primary_slave := Some s |> <| primary_name := dev_name sl |>
                           <| force_primary := true |>) ;;;
        bond_select_active_slave
    | None =>
        let* prim := gets primary_slave in
        when_ (bool_decide (is_Some prim))
          (modify (fun b => b <| primary_slave := None |>) ;;; bond_select_active_slave) ;;;
        modify (fun b => b <| primary_name := take (IFNAMSIZ - 1) primary |>)
    end.

Definition bond_option_primary_reselect_set (value : primary_reselect) : W unit :=
  modify (fun b => b <| reselect := value |>) ;;;
  bond_select_active_slave.
End entry.
