(* ===== verification/MonSwitch.v ===== *)
(** * Failover: states that agree on links and pointers

    Much of what the driver does when the active slave changes leaves the links and the pointers
    as they are.  [calm b b'] says so, and the lemmas here show it of those operations. *)

From S2P Require Import Prelude.
From S2P Require Import BondXmit.
From S2P Require Import MonTypes.
From S2P Require Import MonOps.
From S2P Require Import MonLinks.

Definition alive (b : mbond) (s : positive) : Prop := is_Some (mslaves b !! s).

(** Two states of a slave with the same link. *)
Record soft (x y : mslave) : Prop := {
  soft_link : link y = link x;
  soft_new : link_new_state y = link_new_state x;
  soft_active : active y = active x;
  soft_delay : delay y = delay x;
  soft_running : running y = running x;
  soft_carrier : carrier y = carrier x
}.

Record calm (b b' : mbond) : Prop := {
  calm_list : slave_list b' = slave_list b;
  calm_curr : curr_active_slave b' = curr_active_slave b;
  calm_prim : primary_slave b' = primary_slave b;
  calm_arps : current_arp_slave b' = current_arp_slave b;
  calm_mode : bmode b' = bmode b;
  calm_arp : arp b' = arp b;
  calm_miimon : miimon b' = miimon b;
  calm_updelay : updelay b' = updelay b;
  calm_downdelay : downdelay b' = downdelay b;
  calm_carrier : dev_carrier b' = dev_carrier b;
  calm_xdp : xdp_prog b' = xdp_prog b;
  calm_slaves : forall s, option_Forall2 soft (mslaves b !! s) (mslaves b' !! s)
}.

#[export] Instance soft_preorder : PreOrder soft.
Proof. split; [done|]. intros x y z [] []. split; congruence. Qed.

#[export] Instance calm_preorder : PreOrder calm.
Proof.
  split.
  - intros b. by split.
  - intros x y z [] []. split; try congruence.
    intros s. specialize (calm_slaves0 s). specialize (calm_slaves1 s).
    destruct calm_slaves0; inversion calm_slaves1; simplify_eq; constructor. by etrans.
Qed.

Lemma soft_sym x y : soft x y -> soft y x.
Proof. intros []. by split. Qed.

Lemma calm_sym b b' : calm b b' -> calm b' b.
Proof.
  intros []. split; try done. intros s. specialize (calm_slaves0 s).
  destruct calm_slaves0; constructor. by apply soft_sym.
Qed.

Lemma calm_lookup b b' s sl :
  calm b b' -> mslaves b !! s = Some sl -> exists sl', mslaves b' !! s = Some sl' /\ soft sl sl'.
Proof. intros Hc Hs. destruct Hc. specialize (calm_slaves0 s). rewrite Hs in calm_slaves0. inversion calm_slaves0. eauto. Qed.

Lemma calm_lookup_r b b' s sl' :
  calm b b' -> mslaves b' !! s = Some sl' -> exists sl, mslaves b !! s = Some sl /\ soft sl sl'.
Proof.
  intros Hc Hs. destruct (calm_lookup b' b s sl' (calm_sym _ _ Hc) Hs) as (sl & ? & ?).
  exists sl. split; [done|]. by apply soft_sym.
Qed.

Lemma calm_alive b b' s : calm b b' -> alive b s -> alive b' s.
Proof. intros Hc [sl Hs]. destruct (calm_lookup b b' s sl Hc Hs) as (sl' & ? & _). by exists sl'. Qed.

(** The pointers of the bond are to slaves in memory. *)
Record mem_ok (b : mbond) : Prop := {
  mem_list : forall s, s ∈ slave_list b -> alive b s;
  mem_curr : forall s, curr_active_slave b = Some s -> alive b s;
  mem_prim : forall s, primary_slave b = Some s -> alive b s;
  mem_arps : forall s, current_arp_slave b = Some s -> alive b s
}.

Lemma calm_mem_ok b b' : calm b b' -> mem_ok b -> mem_ok b'.
Proof.
  intros Hc []. pose proof Hc as [].
  split; intros s Hs; apply (calm_alive b b' s Hc); rewrite ?calm_list0, ?calm_curr0, ?calm_prim0, ?calm_arps0 in Hs; auto.
Qed.

(** An update of a slave that keeps its link. *)
Lemma calm_insert b s sl sl' :
  mslaves b !! s = Some sl -> soft sl sl' -> calm b (b <| mslaves ::= <[s := sl']> |>).
Proof.
  intros Hs Hsoft. split; try done. rec_simpl. intros k.
  destruct (decide (k = s)) as [->|Hk].
  - rewrite lookup_insert_eq, Hs. by constructor.
  - rewrite lookup_insert_ne by done. destruct (mslaves b !! k); by constructor.
Qed.

Section calm.
Context `{Mon}.
Abbreviation W := (M mbond).

Lemma wp_get_s b s sl (Q : mslave -> mbond -> Prop) :
  mslaves b !! s = Some sl -> Q sl b -> wp (get_s s) Q b.
Proof. intros Hs HQ. unfold wp, get_s, bind, gets. rewrite Hs. done. Qed.

Lemma wp_mod_s b s sl f (Q : unit -> mbond -> Prop) :
  mslaves b !! s = Some sl -> Q tt (b <| mslaves ::= <[s := f sl]> |>) -> wp (mod_s s f) Q b.
Proof. intros Hs HQ. unfold mod_s. apply wp_bind. by eapply wp_get_s. Qed.

Lemma wp_calm {A B} (m : W A) (k : A -> W B) Q b :
  wp m (fun _ b' => calm b b') b ->
  (forall a b', calm b b' -> wp (k a) Q b') ->
  wp (bind m k) Q b.
Proof. intros Hm Hk. apply wp_bind. eapply wp_mono; [done|]. auto. Qed.

(** A calm operation, wherever it stands. *)
Definition keeps {A} (m : W A) : Prop := forall b, mem_ok b -> wp m (fun _ b' => calm b b') b.

Lemma keeps_ret {A} (a : A) : keeps (ret a).
Proof. intros b _. apply wp_ret. done. Qed.

Lemma keeps_mod f : (forall b, calm b (f b)) -> keeps (modify f).
Proof. intros Hf b _. by apply wp_mod. Qed.

Lemma keeps_bind {A B} (m : W A) (k : A -> W B) : keeps m -> (forall a, keeps (k a)) -> keeps (bind m k).
Proof.
  intros Hm Hk b Hok. eapply wp_calm; [by apply Hm|]. intros a b' Hc.
  eapply wp_mono; [apply Hk; by eapply calm_mem_ok|]. simpl. intros _ b'' Hc'. by etrans.
Qed.

Lemma keeps_gets {A B} (f : mbond -> A) (k : A -> W B) : (forall a, keeps (k a)) -> keeps (bind (gets f) k).
Proof. intros Hk. apply keeps_bind; [|done]. intros b _. by apply wp_gets. Qed.

Lemma keeps_when c m : keeps m -> keeps (when_ c m).
Proof. intros Hm. destruct c; [done|apply keeps_ret]. Qed.

Lemma keeps_tell e : keeps (tell e).
Proof. by apply keeps_mod. Qed.

Lemma keeps_attempt : keeps attempt.
Proof.
  apply keeps_gets. intros n. apply keeps_bind; [|intros; apply keeps_ret]. by apply keeps_mod.
Qed.

Lemma keeps_optionally o f : (forall s, keeps (f s)) -> keeps (optionally o f).
Proof. intros Hf. destruct o; [apply Hf|apply keeps_ret]. Qed.
End calm.

Create HintDb mon.
#[export] Hint Resolve keeps_ret keeps_mod keeps_bind keeps_when keeps_tell keeps_attempt keeps_optionally : mon.

(** * Failover: what changing the active slave does

    [pure_change new b] is the state after the change, up to [calm]. *)

(** ** Pure updates of a slave *)

Definition upd (s : positive) (f : mslave -> mslave) (b : mbond) : mbond := b <| mslaves ::= alter f s |>.

Definition core_link (l : link_state) (sl : mslave) : mslave := sl <| link_new_state := l |> <| link := l |>.
Definition core_active (a : bool) (sl : mslave) : mslave := sl <| active := a |>.
(** A slave that is coming back is up when it becomes the active one. *)
Definition core_up (sl : mslave) : mslave :=
  if bool_decide (link sl = BOND_LINK_BACK) then core_link BOND_LINK_UP (sl <| delay := 0 |>) else sl.

Definition at_ptr (o : option positive) (f : mslave -> mslave) (b : mbond) : mbond :=
  match o with Some s => upd s f b | None => b end.

Definition pure_flags (new old : option positive) (b : mbond) : mbond :=
  if bool_decide (bmode b = BOND_MODE_ACTIVEBACKUP)
  then at_ptr new (core_active true) (at_ptr old (core_active false) b) else b.

Definition pure_change (new : option positive) (b : mbond) : mbond :=
  if bool_decide (curr_active_slave b = new) then b
  else pure_flags new (curr_active_slave b) ((at_ptr new core_up b) <| curr_active_slave := new |>).

Definition respects (f : mslave -> mslave) : Prop := forall x y, soft x y -> soft (f x) (f y).

Lemma respects_link l : respects (core_link l).
Proof. intros x y []. by split. Qed.
Lemma respects_active a : respects (core_active a).
Proof. intros x y []. by split. Qed.
Lemma respects_up : respects core_up.
Proof.
  intros x y Hs. pose proof Hs as [Hl _ _ _ _ _]. unfold core_up. rewrite Hl.
  case_bool_decide; [|done]. destruct Hs. by split.
Qed.
#[export] Hint Resolve respects_link respects_active respects_up : mon.

Lemma upd_calm s f b b' : respects f -> calm b b' -> calm (upd s f b) (upd s f b').
Proof.
  intros Hf []. split; try done. unfold upd. rec_simpl. intros k. specialize (calm_slaves0 k).
  destruct (decide (k = s)) as [->|Hk].
  - rewrite !lookup_alter_eq. destruct calm_slaves0; constructor. by apply Hf.
  - by rewrite !lookup_alter_ne by done.
Qed.

Lemma upd_insert b s sl f :
  mslaves b !! s = Some sl -> calm (upd s f b) (b <| mslaves ::= <[s := f sl]> |>).
Proof.
  intros Hs. split; try done. unfold upd. rec_simpl. intros k.
  destruct (decide (k = s)) as [->|Hk].
  - rewrite lookup_alter_eq, lookup_insert_eq, Hs. by constructor.
  - rewrite lookup_alter_ne, lookup_insert_ne by done. destruct (mslaves b !! k); by constructor.
Qed.

Lemma upd_at_calm b s f g :
  (forall sl, mslaves b !! s = Some sl -> soft (f sl) (g sl)) -> calm (upd s f b) (upd s g b).
Proof.
  intros Hfg. split; try done. unfold upd. rec_simpl. intros k.
  destruct (decide (k = s)) as [->|Hk].
  - rewrite !lookup_alter_eq. destruct (mslaves b !! s); constructor. by apply Hfg.
  - rewrite !lookup_alter_ne by done. destruct (mslaves b !! k); by constructor.
Qed.

Lemma upd_soft_calm b s f g : (forall sl, soft (f sl) (g sl)) -> calm (upd s f b) (upd s g b).
Proof. intros Hfg. apply upd_at_calm. auto. Qed.

Lemma upd_id_calm b s f : (forall sl, mslaves b !! s = Some sl -> soft sl (f sl)) -> calm b (upd s f b).
Proof.
  intros Hf. etrans; [|by apply (upd_at_calm b s id)]. split; try done. unfold upd. rec_simpl. intros k.
  destruct (decide (k = s)) as [->|Hk].
  - rewrite lookup_alter_eq. destruct (mslaves b !! s); by constructor.
  - rewrite lookup_alter_ne by done. destruct (mslaves b !! k); by constructor.
Qed.

Lemma upd_compose_calm b s f g : calm (upd s (g ∘ f) b) (upd s g (upd s f b)).
Proof.
  split; try done. unfold upd. rec_simpl. intros k.
  destruct (decide (k = s)) as [->|Hk].
  - rewrite !lookup_alter_eq. destruct (mslaves b !! s); by constructor.
  - rewrite !lookup_alter_ne by done. destruct (mslaves b !! k); by constructor.
Qed.

Lemma alive_upd b s f k : alive (upd s f b) k <-> alive b k.
Proof.
  unfold alive, upd. rec_simpl. destruct (decide (k = s)) as [->|Hk].
  - rewrite lookup_alter_eq. by rewrite fmap_is_Some.
  - by rewrite lookup_alter_ne.
Qed.

Lemma mem_ok_upd b s f : mem_ok b -> mem_ok (upd s f b).
Proof. intros []. split; intros k Hk; apply alive_upd; auto. Qed.

Lemma alive_at b o f k : alive (at_ptr o f b) k <-> alive b k.
Proof. destruct o; [apply alive_upd|done]. Qed.

Lemma at_ptr_calm o f b b' : respects f -> calm b b' -> calm (at_ptr o f b) (at_ptr o f b').
Proof. intros Hf Hc. destruct o; [by apply upd_calm|done]. Qed.

Lemma curr_calm b b' new :
  calm b b' -> calm (b <| curr_active_slave := new |>) (b' <| curr_active_slave := new |>).
Proof. by intros []. Qed.

Lemma mem_ok_at b o f : mem_ok b -> mem_ok (at_ptr o f b).
Proof. destruct o; [apply mem_ok_upd|done]. Qed.

Lemma mem_ok_curr b new :
  mem_ok b -> (forall s, new = Some s -> alive b s) -> mem_ok (b <| curr_active_slave := new |>).
Proof. intros [] Hn. split; rec_simpl; auto. Qed.

(** ** The operations on one slave *)

Section switch.
Context `{MonLaws}.
Abbreviation W := (M mbond).

Lemma mod_upd b s f g :
  alive b s -> (forall sl, soft (f sl) (g sl)) -> wp (mod_s s g) (fun _ b' => calm (upd s f b) b') b.
Proof.
  intros [sl Hs] Hfg. eapply wp_mod_s; [done|].
  etrans; [by apply upd_soft_calm|]. by apply upd_insert.
Qed.

Lemma mod_soft b s g :
  alive b s -> (forall sl, soft sl (g sl)) -> wp (mod_s s g) (fun _ b' => calm b b') b.
Proof. intros [sl Hs] Hg. eapply wp_mod_s; [done|]. by eapply calm_insert. Qed.

Lemma set_link_upd b s l now :
  alive b s -> wp (set_link s l now) (fun _ b' => calm (upd s (core_link l) b) b') b.
Proof.
  intros Ha. apply mod_upd; [done|]. intros sl.
  destruct (set_link_spec l now sl) as [n ->]. by split.
Qed.

Lemma set_active_upd b s now :
  alive b s -> wp (set_active_flags s now) (fun _ b' => calm (upd s (core_active true) b) b') b.
Proof.
  intros Ha. apply mod_upd; [done|]. intros sl.
  destruct (active_flags_spec now sl) as [n ->]. by split.
Qed.

Lemma set_inactive_upd b s now :
  bond_is_lb (bmode b) = false -> alive b s ->
  wp (set_inactive_flags s now) (fun _ b' => calm (upd s (core_active false) b) b') b.
Proof.
  intros Hlb Ha. unfold set_inactive_flags. apply wp_bind, wp_gets. apply mod_upd; [done|]. intros sl.
  destruct (inactive_flags_spec (bmode b) now sl) as (a & n & -> & Hf). rewrite Hf by done. by split.
Qed.

(** ** Calm operations *)

Lemma update_speed_calm b s : alive b s -> wp (bond_update_speed_duplex s) (fun _ b' => calm b b') b.
Proof.
  intros [sl Hs]. unfold bond_update_speed_duplex. apply wp_bind. eapply wp_get_s; [done|].
  destruct (ksettings sl) as [[v d]|]; [case_match|];
    (apply wp_bind; eapply wp_mono; [apply mod_soft; [by exists sl|done]|]; simpl; intros; by apply wp_ret).
Qed.

Lemma keeps_should_notify : keeps bond_should_notify_peers.
Proof.
  intros b Hok. unfold bond_should_notify_peers. do 3 apply wp_bind, wp_gets.
  case_match; [by apply wp_ret|]. apply wp_bind, wp_gets. case_bool_decide.
  - apply wp_bind, wp_gets. by apply wp_ret.
  - apply wp_bind, wp_gets. destruct (curr_active_slave b) as [s|] eqn:Hc; [|by apply wp_ret].
    destruct (mem_curr b Hok s Hc) as [sl Hs]. apply wp_bind. eapply wp_get_s; [done|]. by apply wp_ret.
Qed.

Lemma keeps_reset : keeps bond_peer_notify_reset.
Proof. apply keeps_mod. done. Qed.

Lemma keeps_may_events force : keeps (bond_peer_notify_may_events force).
Proof.
  apply keeps_bind; [apply keeps_should_notify|]. intros n.
  apply keeps_bind; [by auto with mon|]. intros _. apply keeps_when, keeps_mod. done.
Qed.

Lemma keeps_handler : keeps bond_peer_notify_handler.
Proof.
  apply keeps_bind; [apply keeps_attempt|]. intros []; [|apply keeps_ret].
  apply keeps_bind; [apply keeps_reset|]. intros. apply keeps_ret.
Qed.

Lemma dev_set_mac_calm b s a : alive b s -> wp (dev_set_mac s a) (fun _ b' => calm b b') b.
Proof.
  intros [sl Hs]. unfold dev_set_mac. apply wp_bind. eapply wp_get_s; [done|].
  do 2 apply wp_bind. apply wp_gets. apply wp_bind, wp_mod, wp_ret.
  destruct (succeeds _); [|by apply wp_bind, wp_ret, wp_ret].
  apply wp_bind. simpl. eapply wp_mod_s; [done|]. apply wp_ret.
  etrans; [|by eapply (calm_insert _ s sl)]. done.
Qed.

Lemma get_old_active_ok b new :
  mem_ok b ->
  wp (bond_get_old_active new) (fun o b' => b' = b /\ forall s, o = Some s -> s ∈ slave_list b) b.
Proof.
  intros Hok. unfold bond_get_old_active. do 2 apply wp_bind, wp_gets.
  apply (wp_for_each (fun _ o b' => o = None /\ b' = b)); [done| |naive_solver].
  intros pre s post o b' Hl [-> ->]. case_bool_decide; [by apply wp_ret|].
  assert (Hin : s ∈ slave_list b) by (rewrite Hl; set_solver).
  destruct (mem_list b Hok s Hin) as [sl Hs]. apply wp_bind. eapply wp_get_s; [done|].
  apply wp_ret. case_bool_decide; naive_solver.
Qed.

Lemma follow_mac_calm b new old :
  mem_ok b -> alive b new -> (forall s, old = Some s -> alive b s) ->
  wp (follow_mac new old) (fun _ b' => calm b b') b.
Proof.
  intros Hok Hn Ho. unfold follow_mac. apply wp_bind.
  apply (wp_mono _ (fun o b' => b' = b /\ forall s, o = Some s -> alive b s)).
  { destruct old as [o|]; [by apply wp_ret|].
    eapply wp_mono; [by apply get_old_active_ok|]. intros o b' [-> Hin]. split; [done|].
    intros s Hs. by apply (mem_list b Hok), Hin. }
  intros o b' [-> Ho']. destruct o as [o|].
  - destruct Hn as [n Hn]. destruct (Ho' o eq_refl) as [sl Hs].
    apply wp_bind. eapply wp_get_s; [done|]. apply wp_bind. eapply wp_get_s; [done|].
    apply wp_bind. eapply wp_mono; [apply dev_set_mac_calm; by exists n|].
    intros ok b1 Hc. destruct ok; [|by apply wp_ret]. apply wp_bind.
    eapply wp_mono; [apply dev_set_mac_calm; eapply calm_alive; [done|by exists sl]|].
    intros ok2 b2 Hc2. apply wp_ret. by etrans.
  - apply wp_bind, wp_gets. apply wp_bind. eapply wp_mono; [by apply dev_set_mac_calm|].
    intros. by apply wp_ret.
Qed.

Lemma fail_over_mac_calm b new old :
  mem_ok b -> (forall s, new = Some s -> alive b s) -> (forall s, old = Some s -> alive b s) ->
  wp (bond_do_fail_over_mac new old) (fun _ b' => calm b b') b.
Proof.
  intros Hok Hn Ho. unfold bond_do_fail_over_mac. apply wp_bind, wp_gets.
  destruct (fom b); [by apply wp_ret| |].
  - destruct new as [n|]; [|by apply wp_ret]. destruct (Hn n eq_refl) as [sl Hs].
    unfold bond_set_dev_addr. do 2 apply wp_bind. eapply wp_get_s; [done|].
    do 2 apply wp_bind. apply wp_gets. apply wp_bind, wp_mod, wp_ret.
    destruct (succeeds _); by apply wp_bind, wp_ret, wp_ret.
  - destruct new as [n|]; [|by apply wp_ret]. apply follow_mac_calm; auto.
Qed.

(** ** Changing the active slave *)

Definition no_delay (sl : mslave) : mslave := sl <| delay := 0 |>.

Lemma tell_mode_calm b (c d : bond_mode -> bool) e f :
  mem_ok b ->
  wp (let* md := gets bmode in when_ (c md) (tell e) ;;; when_ (d md) (tell f)) (fun _ b' => calm b b') b.
Proof.
  intros Hok. apply (keeps_gets bmode); [|done]. intros md. apply keeps_bind; auto with mon.
Qed.

Lemma bring_up_ok b n : alive b n -> mem_ok b -> wp (bring_up n) (fun _ b' => calm (upd n core_up b) b') b.
Proof.
  intros Ha Hok. unfold bring_up. apply wp_bind, wp_gets. apply wp_bind.
  eapply wp_mono; [by apply mod_soft|]. intros ? b1 Hc1. pose proof (calm_alive _ _ n Hc1 Ha) as Ha1.
  pose proof Ha1 as [sl1 Hs1]. pose proof (calm_mem_ok _ _ Hc1 Hok) as Hok1.
  apply wp_bind. eapply wp_get_s; [done|].
  apply (wp_mono _ (fun _ b' => calm (upd n core_up b1) b')); [|intros ? b'; apply transitivity, upd_calm; auto with mon].
  case_bool_decide as Hl; simpl.
  - apply wp_bind. eapply wp_mono; [by apply (mod_upd b1 n no_delay)|]. intros ? b2 Hc2.
    apply wp_bind. eapply wp_mono; [apply set_link_upd, (calm_alive _ _ _ Hc2); by apply alive_upd|].
    intros ? b3 Hc3.
    assert (Hc : calm (upd n core_up b1) b3).
    { etrans; [|exact Hc3]. etrans; [|apply upd_calm; [auto with mon|exact Hc2]].
      etrans; [|apply upd_compose_calm]. apply upd_at_calm. intros sl Hsl. simplify_eq.
      unfold core_up. by rewrite bool_decide_true. }
    eapply wp_mono; [apply tell_mode_calm, (calm_mem_ok _ _ Hc); by apply mem_ok_upd|].
    simpl. intros ? b4 Hc4. by etrans.
  - apply wp_ret. apply calm_sym, upd_id_calm. intros sl Hsl. simplify_eq. unfold core_up.
    by rewrite bool_decide_false.
Qed.

Lemma at_ptr_wp b o f (m : positive -> W unit) :
  (forall s, o = Some s -> wp (m s) (fun _ b' => calm (upd s f b) b') b) ->
  wp (optionally o m) (fun _ b' => calm (at_ptr o f b) b') b.
Proof. intros Hm. destruct o as [s|]; [by apply Hm|by apply wp_ret]. Qed.

Lemma keeps_announce : keeps (let* r := gets dev_running in
  when_ r (bond_peer_notify_reset ;;; bond_peer_notify_may_events false)).
Proof.
  apply keeps_gets. intros r. apply keeps_when, keeps_bind; [apply keeps_reset|]. intros _. apply keeps_may_events.
Qed.

Lemma switch_backup_ok b new old :
  bond_is_lb (bmode b) = false -> mem_ok b ->
  (forall s, new = Some s -> alive b s) -> (forall s, old = Some s -> alive b s) ->
  wp (switch_backup new old)
    (fun _ b' => calm (at_ptr new (core_active true) (at_ptr old (core_active false) b)) b') b.
Proof.
  intros Hlb Hok Hn Ho. unfold switch_backup. apply wp_bind.
  eapply wp_mono; [apply (at_ptr_wp b old); intros s Hs; apply set_inactive_upd; auto|].
  intros ? b1 Hc1. destruct new as [n|]; [|by apply wp_ret].
  assert (Hok1 : mem_ok b1) by (apply (calm_mem_ok _ _ Hc1); by apply mem_ok_at).
  assert (Hal : forall s, alive b s -> alive b1 s) by (intros s Hs; apply (calm_alive _ _ _ Hc1); by apply alive_at).
  apply wp_bind. eapply wp_mono; [apply set_active_upd; auto|]. intros ? b2 Hc2.
  assert (Hc : calm (upd n (core_active true) (at_ptr old (core_active false) b)) b2).
  { etrans; [|exact Hc2]. apply upd_calm; auto with mon. }
  assert (Hok2 : mem_ok b2) by (apply (calm_mem_ok _ _ Hc); by apply mem_ok_upd, mem_ok_at).
  assert (Hal2 : forall s, alive b s -> alive b2 s).
  { intros s Hs. apply (calm_alive _ _ _ Hc). by apply alive_upd, alive_at. }
  apply wp_bind. eapply wp_mono; [apply fail_over_mac_calm; [done| |]; intros s Hs; auto|].
  intros ? b3 Hc3. apply wp_bind. apply wp_mod.
  assert (Hc3' : calm b2 (b3 <| mevents ::= cons Failover |>)) by (etrans; [exact Hc3|done]).
  eapply wp_mono; [apply keeps_announce, (calm_mem_ok _ _ Hc3' Hok2)|]. simpl.
  intros ? b4 Hc4. etrans; [exact Hc|]. by etrans; [exact Hc3'|].
Qed.

Lemma keeps_igmp c : keeps (let* r := gets dev_running in let* n := gets resend_igmp in
  when_ (c r n) (modify (fun b => b <| igmp_retrans := n |>) ;;; tell ResendIgmp)).
Proof.
  do 2 (apply keeps_gets; intros ?). apply keeps_when, keeps_bind; [by apply keeps_mod|auto with mon].
Qed.

(** [bond_change_active_slave] does what [pure_change] says, in the modes without load
    balancing. *)
Lemma change_active_ok b new :
  bond_is_lb (bmode b) = false -> mem_ok b -> (forall s, new = Some s -> alive b s) ->
  wp (bond_change_active_slave new) (fun _ b' => calm (pure_change new b) b') b.
Proof.
  intros Hlb Hok Hn. unfold bond_change_active_slave, pure_change. apply wp_bind, wp_gets.
  case_bool_decide as Hcn; [by apply wp_ret|]. apply wp_bind.
  eapply wp_mono; [apply (at_ptr_wp b new core_up); intros s Hs; apply bring_up_ok; auto|].
  intros ? b1 Hc1. apply wp_bind, wp_gets. apply wp_bind.
  assert (Hm1 : bmode b1 = bmode b) by (rewrite (calm_mode _ _ Hc1); by destruct new).
  assert (Hok1 : mem_ok b1) by (apply (calm_mem_ok _ _ Hc1); by apply mem_ok_at).
  assert (Hal1 : forall s, alive b s -> alive b1 s) by (intros s Hs; apply (calm_alive _ _ _ Hc1); by apply alive_at).
  eapply wp_mono; [apply (keeps_when (bond_uses_primary (bmode b1)) _ (keeps_tell _)); done|].
  intros ? b2 Hc2. rewrite Hm1, Hlb. apply wp_bind, wp_mod. apply wp_bind.
  set (b3 := b2 <| curr_active_slave := new |>).
  assert (Hc3 : calm ((at_ptr new core_up b) <| curr_active_slave := new |>) b3).
  { apply curr_calm. etrans; [exact Hc1|exact Hc2]. }
  assert (Hok3 : mem_ok b3).
  { apply mem_ok_curr; [by apply (calm_mem_ok _ _ Hc2)|]. intros s Hs. apply (calm_alive _ _ _ Hc2). auto. }
  assert (Hal3 : forall s, alive b s -> alive b3 s) by (intros s Hs; apply (calm_alive _ _ _ Hc2); auto).
  assert (Hm3 : bmode b3 = bmode b) by (rewrite <- Hm1; apply (calm_mode _ _ Hc2)).
  apply (wp_mono _ (fun _ b' => calm (pure_flags new (curr_active_slave b) b3) b')).
  { unfold pure_flags. rewrite Hm3. case_bool_decide; [|by apply wp_ret].
    apply switch_backup_ok; [by rewrite Hm3|done| |]; intros s Hs; auto.
    apply Hal3. by apply (mem_curr b Hok). }
  intros ? b4 Hc4.
  assert (Hc : calm (pure_flags new (curr_active_slave b) ((at_ptr new core_up b) <| curr_active_slave := new |>)) b4).
  { etrans; [|exact Hc4]. unfold pure_flags. rewrite Hm3.
    replace (bmode _) with (bmode b) by (by destruct new).
    case_bool_decide; [|done]. apply at_ptr_calm; [auto with mon|]. by apply at_ptr_calm; [auto with mon|]. }
  eapply wp_mono; [apply keeps_igmp, (calm_mem_ok _ _ Hc4); unfold pure_flags; case_match; auto using mem_ok_at|].
  simpl. intros ? b5 Hc5. by etrans; [exact Hc|].
Qed.
End switch.
