(* ===== verification/MonBest.v ===== *)
(** * Failover: the best slave

    [choice_ok b r] says which slave is the best one to be active, and [bond_find_best_slave]
    finds it. *)

From S2P Require Import Prelude.
From S2P Require Import BondXmit.
From S2P Require Import MonTypes.
From S2P Require Import MonOps.
From S2P Require Import MonLinks.
From S2P Require Import MonSwitch.

Definition up (b : mbond) (s : positive) : Prop := link <$> mslaves b !! s = Some BOND_LINK_UP.
#[export] Instance up_dec b s : Decision (up b s).
Proof. unfold up. apply _. Defined.

Definition field {A} (b : mbond) (f : mslave -> A) (d : A) (s : positive) : A := from_option f d (mslaves b !! s).
Definition prio_of (b : mbond) (s : positive) : Z := field b prio 0 s.
Definition delay_of (b : mbond) (s : positive) : Z := field b delay 0 s.
Definition speed_of (b : mbond) (s : positive) : Z := field b speed 0 s.
Definition duplex_at (b : mbond) (s : positive) : Z := field b duplex 0 s.

(** A slave that waits until it is up. *)
Definition coming_back (b : mbond) (s : positive) : Prop :=
  exists sl, mslaves b !! s = Some sl /\ link sl = BOND_LINK_BACK /\ is_up sl = true.

Definition primary_up (b : mbond) : Prop := exists p, primary_slave b = Some p /\ up b p.

#[export] Instance primary_up_dec b : Decision (primary_up b).
Proof.
  destruct (primary_slave b) as [p|] eqn:Hp; [destruct (decide (up b p)) as [Hu|Hu]|].
  - left. by exists p.
  - right. intros (q & ? & ?). naive_solver.
  - right. intros (q & ? & ?). naive_solver.
Defined.

(** The slave that the bond should use if nothing speaks against a change: the primary slave,
    or the first one of the highest priority. *)
Definition preferred (b : mbond) (w : positive) : Prop :=
  (primary_slave b = Some w /\ up b w) \/
  (~ primary_up b /\ up b w /\
   (forall s, s ∈ slave_list b -> up b s -> prio_of b s <= prio_of b w) /\
   exists before after, slave_list b = before ++ w :: after /\
     forall s, s ∈ before -> up b s -> prio_of b s < prio_of b w).

(** The policy [primary_reselect] says when to leave an active slave that is up. *)
Definition prefer (b : mbond) (w : positive) : positive :=
  match curr_active_slave b with
  | Some c =>
      if bool_decide (up b c) then
        match reselect b with
        | BOND_PRI_RESELECT_ALWAYS => w
        | BOND_PRI_RESELECT_BETTER =>
            if (speed_of b c <? speed_of b w) ||
               ((speed_of b w =? speed_of b c) && (duplex_at b c <? duplex_at b w)) then w else c
        | BOND_PRI_RESELECT_FAILURE => c
        end
      else w
  | None => w
  end.

(** A primary slave that was just set is taken whatever the policy is. *)
Definition forced (b : mbond) : Prop := force_primary b = true /\ primary_up b.

#[export] Instance forced_dec b : Decision (forced b).
Proof. unfold forced. apply _. Defined.

(** Without a slave that is up, the one that will be up first. *)
Definition soonest (b : mbond) (r : option positive) : Prop :=
  match r with
  | Some s => s ∈ slave_list b /\ coming_back b s /\ delay_of b s < updelay b /\
      forall s', s' ∈ slave_list b -> coming_back b s' -> delay_of b s <= delay_of b s'
  | None => forall s', s' ∈ slave_list b -> coming_back b s' -> updelay b <= delay_of b s'
  end.

Record choice_ok (b : mbond) (r : option positive) : Prop := {
  choice_forced : forced b -> r = primary_slave b;
  choice_wanted : ~ forced b -> forall w, preferred b w -> r = Some (prefer b w);
  choice_some : (exists s, s ∈ slave_list b /\ up b s) -> exists w, preferred b w;
  choice_none : (forall s, s ∈ slave_list b -> ~ up b s) -> ~ primary_up b -> soonest b r
}.

(** At most the flag of a new primary slave is cleared. *)
Definition unforced (b b' : mbond) : Prop := b' = b \/ b' = b <| force_primary := false |>.

Section best.
Context `{Mon}.
Abbreviation W := (M mbond).

Lemma up_link b s sl : mslaves b !! s = Some sl -> up b s <-> link sl = BOND_LINK_UP.
Proof. intros Hs. unfold up. rewrite Hs. simpl. split; [by intros [=]|by intros ->]. Qed.

Lemma field_eq {A} b (f : mslave -> A) d s sl : mslaves b !! s = Some sl -> field b f d s = f sl.
Proof. intros Hs. unfold field. by rewrite Hs. Qed.

(** ** The loops *)

Definition top_of (b : mbond) (pre : list positive) (acc : option (positive * Z)) : Prop :=
  match acc with
  | None => forall s, s ∈ pre -> ~ up b s
  | Some (h, p) => up b h /\ prio_of b h = p /\ (forall s, s ∈ pre -> up b s -> prio_of b s <= p) /\
      exists before after, pre = before ++ h :: after /\ forall s, s ∈ before -> up b s -> prio_of b s < p
  end.

Lemma top_of_step b pre acc s sl :
  top_of b pre acc -> mslaves b !! s = Some sl ->
  top_of b (pre ++ [s]) (if bool_decide (link sl = BOND_LINK_UP) then
      match acc with
      | None => Some (s, prio sl)
      | Some (_, p) => if p <? prio sl then Some (s, prio sl) else acc
      end else acc).
Proof.
  intros Htop Hs. pose proof (up_link b s sl Hs) as Hup.
  pose proof (field_eq b prio 0 s sl Hs) as Hp. fold (prio_of b s) in Hp.
  case_bool_decide as Hl.
  - destruct acc as [[h p]|]; simpl in Htop.
    + destruct Htop as (Hh & Hhp & Hmax & before & after & -> & Hbef).
      case_match eqn:Hlt; simpl.
      * split; [by apply Hup|]. split; [done|]. apply Z.ltb_lt in Hlt. split.
        -- intros s' [Hin|Hin]%elem_of_app Hs'; [specialize (Hmax s' Hin Hs'); lia|].
           apply list_elem_of_singleton in Hin as ->. lia.
        -- eexists _, []. split; [done|]. intros s' Hin Hs'. specialize (Hmax s' Hin Hs'). lia.
      * apply Z.ltb_ge in Hlt. split; [done|]. split; [done|]. split.
        -- intros s' [Hin|Hin]%elem_of_app Hs'; [auto|]. apply list_elem_of_singleton in Hin as ->. lia.
        -- exists before, (after ++ [s]). by rewrite <- app_assoc.
    + split; [by apply Hup|]. split; [done|]. split.
      * intros s' [Hin|Hin]%elem_of_app Hs'; [by apply Htop in Hs'|].
        apply list_elem_of_singleton in Hin as ->. lia.
      * exists pre, []. split; [done|]. intros s' Hin Hs'. by apply Htop in Hs'.
  - assert (Hn : ~ up b s) by tauto. destruct acc as [[h p]|]; simpl in *.
    + destruct Htop as (Hh & Hhp & Hmax & before & after & -> & Hbef). split; [done|]. split; [done|]. split.
      * intros s' [Hin|Hin]%elem_of_app Hs'; [auto|]. by apply list_elem_of_singleton in Hin as ->.
      * exists before, (after ++ [s]). by rewrite <- app_assoc.
    + intros s' [Hin|Hin]%elem_of_app; [auto|]. by apply list_elem_of_singleton in Hin as ->.
Qed.

Lemma highest_prio_ok b :
  mem_ok b ->
  wp highest_prio (fun r b' => b' = b /\ exists acc, r = fst <$> acc /\ top_of b (slave_list b) acc) b.
Proof.
  intros Hok. unfold highest_prio. apply wp_bind, wp_gets. apply wp_bind.
  apply (wp_for_each (fun pre acc b' => b' = b /\ top_of b pre acc)).
  - split; [done|]. simpl. set_solver.
  - intros pre s post acc b' Hl [-> Htop].
    destruct (mem_list b Hok s) as [sl Hs]; [rewrite Hl; set_solver|].
    apply wp_bind. eapply wp_get_s; [done|]. apply wp_ret. split; [done|]. by apply top_of_step.
  - intros acc b' [-> Htop]. apply wp_ret. eauto.
Qed.

Definition soon_of (b : mbond) (pre : list positive) (best : option positive) (mintime : Z) : Prop :=
  match best with
  | None => mintime = updelay b /\ forall s, s ∈ pre -> coming_back b s -> updelay b <= delay_of b s
  | Some s => s ∈ pre /\ coming_back b s /\ delay_of b s = mintime /\ mintime < updelay b /\
      forall s', s' ∈ pre -> coming_back b s' -> mintime <= delay_of b s'
  end.

Lemma soon_of_step b pre best mintime s sl :
  soon_of b pre best mintime -> mslaves b !! s = Some sl ->
  let c := bool_decide (link sl = BOND_LINK_BACK) && is_up sl && (delay sl <? mintime) in
  soon_of b (pre ++ [s]) (if c then Some s else best) (if c then delay sl else mintime).
Proof.
  intros Hsoon Hs c. assert (Hb : coming_back b s <-> link sl = BOND_LINK_BACK /\ is_up sl = true).
  { unfold coming_back. rewrite Hs. naive_solver. }
  pose proof (field_eq b delay 0 s sl Hs) as Hd. fold (delay_of b s) in Hd.
  assert (Hle : mintime <= updelay b) by (destruct best; simpl in Hsoon; [|]; lia).
  assert (Hall : forall s', s' ∈ pre -> coming_back b s' -> mintime <= delay_of b s').
  { destruct best; simpl in Hsoon; [naive_solver|]. destruct Hsoon as [-> Hs0]. auto. }
  destruct c eqn:Hc; subst c; simpl.
  - apply andb_true_iff in Hc as [[Hl Hu]%andb_true_iff Hlt%Z.ltb_lt]. apply bool_decide_eq_true in Hl.
    split; [set_solver|]. split; [tauto|]. split; [done|]. split; [lia|].
    intros s' [Hin|Hin]%elem_of_app Hs'; [specialize (Hall s' Hin Hs'); lia|].
    apply list_elem_of_singleton in Hin as ->. lia.
  - assert (Hnew : coming_back b s -> mintime <= delay_of b s).
    { intros [Hl Hu]%Hb. rewrite bool_decide_true, Hu in Hc by done. apply Z.ltb_ge in Hc. lia. }
    destruct best as [s0|]; simpl in Hsoon |- *.
    + destruct Hsoon as (? & ? & ? & ? & _). split; [set_solver|]. split_and!; try done.
      intros s' [Hin|Hin]%elem_of_app Hs'; [auto|]. apply list_elem_of_singleton in Hin as ->. auto.
    + destruct Hsoon as [-> _]. split; [done|].
      intros s' [Hin|Hin]%elem_of_app Hs'; [auto|]. apply list_elem_of_singleton in Hin as ->. auto.
Qed.

Lemma first_usable_ok b :
  mem_ok b -> (forall s, s ∈ slave_list b -> ~ up b s) ->
  wp first_usable (fun r b' => b' = b /\ soonest b r) b.
Proof.
  intros Hok Hnone. unfold first_usable. do 2 apply wp_bind, wp_gets. apply wp_bind.
  apply (wp_for_each (fun pre '(best, mintime) b' => b' = b /\ soon_of b pre best mintime)).
  - split; [done|]. simpl. split; [done|]. set_solver.
  - intros pre s post [best mintime] b' Hl [-> Hsoon].
    assert (Hin : s ∈ slave_list b) by (rewrite Hl; set_solver).
    destruct (mem_list b Hok s Hin) as [sl Hs]. apply wp_bind. eapply wp_get_s; [done|].
    case_bool_decide as Hup; [by apply (up_link b s sl Hs), (Hnone s Hin) in Hup|].
    pose proof (soon_of_step b pre best mintime s sl Hsoon Hs) as Hstep. simpl in Hstep.
    destruct (_ && _ && _); by apply wp_ret.
  - intros [best mintime] b' [-> Hsoon]. apply wp_ret. split; [done|]. simpl.
    destruct best as [s|]; simpl in Hsoon |- *; [|naive_solver].
    destruct Hsoon as (? & ? & <- & ? & ?). done.
Qed.

(** ** The choice *)

Lemma link_of_ok b o (Q : link_state -> mbond -> Prop) :
  (forall s, o = Some s -> alive b s) ->
  (forall l, (l = BOND_LINK_UP <-> exists s, o = Some s /\ up b s) -> Q l b) -> wp (link_of o) Q b.
Proof.
  intros Ha HQ. destruct o as [s|]; simpl.
  - destruct (Ha s eq_refl) as [sl Hs]. apply wp_bind. eapply wp_get_s; [done|]. apply wp_ret, HQ.
    rewrite <- (up_link b s sl Hs). naive_solver.
  - apply wp_ret, HQ. naive_solver.
Qed.

Lemma link_reselect_ok b w :
  mem_ok b -> alive b w ->
  wp (link_reselect w (curr_active_slave b)) (fun r b' => b' = b /\ r = Some (prefer b w)) b.
Proof.
  intros Hok [wl Hw]. unfold link_reselect, prefer. apply wp_bind. apply link_of_ok; [apply (mem_curr b Hok)|].
  intros l Hl. destruct (curr_active_slave b) as [c|] eqn:Hc; [|by apply wp_ret].
  destruct (mem_curr b Hok c Hc) as [cl Hcl]. case_bool_decide as Hup; simpl.
  - rewrite bool_decide_true by naive_solver. apply wp_bind, wp_gets.
    destruct (reselect b); [by apply wp_ret| |by apply wp_ret].
    apply wp_bind. eapply wp_get_s; [done|]. apply wp_bind. eapply wp_get_s; [done|]. apply wp_ret.
    split; [done|]. f_equal. unfold speed_of, duplex_at. rewrite !(field_eq b _ _ w wl), !(field_eq b _ _ c cl) by done.
    destruct (Z.ltb_spec (speed wl) (speed cl)), (Z.ltb_spec (speed cl) (speed wl)),
      (Z.eqb_spec (speed wl) (speed cl)), (Z.leb_spec (duplex wl) (duplex cl)),
      (Z.ltb_spec (duplex cl) (duplex wl)); simpl; (done || lia).
  - rewrite bool_decide_false by naive_solver. by apply wp_ret.
Qed.

Lemma app_two_splits {A} (l1 l2 r1 r2 : list A) (x y : A) :
  l1 ++ x :: r1 = l2 ++ y :: r2 -> x = y \/ x ∈ l2 \/ y ∈ l1.
Proof.
  revert l2. induction l1 as [|a l1 IH]; intros [|c l2]; simpl; intros [= Heq1 Heq2].
  - by left.
  - subst. right. left. set_solver.
  - subst. right. right. set_solver.
  - destruct (IH l2 Heq2) as [?|[?|?]]; [by left|right; left; set_solver|right; right; set_solver].
Qed.

Lemma app_two_splits_nodup {A} (l1 l2 r1 r2 : list A) (x : A) :
  NoDup (l1 ++ x :: r1) -> l1 ++ x :: r1 = l2 ++ x :: r2 -> l2 = l1.
Proof.
  revert l2. induction l1 as [|a l1 IH]; intros [|c l2] Hnd Heq; simpl in *; simplify_eq; [done| | |];
    apply NoDup_cons in Hnd as [Hn Hnd].
  - destruct Hn. set_solver.
  - destruct Hn. set_solver.
  - f_equal. by apply IH.
Qed.

Lemma wanted_unique b v w : preferred b v -> preferred b w -> v = w.
Proof.
  assert (Hp : forall p, primary_slave b = Some p /\ up b p -> primary_up b) by (unfold primary_up; eauto).
  intros [Hv|(Hnv & Hv & Hmv & bv & av & Hlv & Hbv)] [Hw|(Hnw & Hw & Hmw & bw & aw & Hlw & Hbw)].
  - naive_solver.
  - by apply Hp in Hv.
  - by apply Hp in Hw.
  - assert (Hiv : v ∈ slave_list b) by (rewrite Hlv; set_solver).
    assert (Hiw : w ∈ slave_list b) by (rewrite Hlw; set_solver).
    specialize (Hmv w Hiw Hw). specialize (Hmw v Hiv Hv). rewrite Hlv in Hlw.
    apply app_two_splits in Hlw as [?|[Hin|Hin]]; [done| |].
    + specialize (Hbw v Hin Hv). lia.
    + specialize (Hbv w Hin Hw). lia.
Qed.

Lemma top_wanted b h p : ~ primary_up b -> top_of b (slave_list b) (Some (h, p)) -> preferred b h.
Proof. intros Hnp (? & <- & ? & ?). right. split_and!; done. Qed.

Lemma choice_wanted_ok b w : ~ forced b -> preferred b w -> choice_ok b (Some (prefer b w)).
Proof.
  intros Hnf Hw. split; [done| |by eauto|].
  - intros _ v Hv. by rewrite (wanted_unique b v w).
  - intros Hnone Hnp. destruct Hw as [Hw|(_ & Hw & _ & bw & aw & Hl & _)].
    + destruct Hnp. by exists w.
    + destruct (Hnone w); [|done]. rewrite Hl. set_solver.
Qed.

(** The answer when no slave is up: none, so that the slaves that come back are asked. *)
Lemma by_prio_ok b :
  mem_ok b -> (forall s, curr_active_slave b = Some s -> s ∈ slave_list b) -> ~ primary_up b ->
  wp (choose_by_prio (curr_active_slave b)) (fun r b' => b' = b /\
    ((exists w, preferred b w /\ r = Some (prefer b w)) \/
     (r = None /\ forall s, s ∈ slave_list b -> ~ up b s))) b.
Proof.
  intros Hok Hcl Hnp. unfold choose_by_prio. apply wp_bind.
  eapply wp_mono; [by apply highest_prio_ok|]. intros r b' (-> & acc & -> & Htop).
  destruct acc as [[h p]|]; simpl.
  - pose proof (top_wanted b h p Hnp Htop) as Hw.
    assert (Hal : alive b h).
    { apply (mem_list b Hok). destruct Htop as (_ & _ & _ & bw & aw & -> & _). set_solver. }
    case_bool_decide as Hc.
    + unfold keep_current. apply wp_bind. apply link_of_ok; [apply (mem_curr b Hok)|]. intros l Hl. apply wp_ret.
      split; [done|]. left. exists h. split; [done|]. rewrite bool_decide_true by (apply Hl; exists h; split; [done|]; apply Htop).
      rewrite Hc. f_equal. unfold prefer. rewrite Hc. by repeat case_match.
    + eapply wp_mono; [by apply link_reselect_ok|]. naive_solver.
  - unfold keep_current. apply wp_bind. apply link_of_ok; [apply (mem_curr b Hok)|]. intros l Hl. apply wp_ret.
    split; [done|]. right. split; [|done]. rewrite bool_decide_false; [done|].
    intros (s & Hs & Hu)%Hl. by apply (Htop s (Hcl s Hs)).
Qed.

Lemma find_best_ok b :
  mem_ok b -> (forall s, curr_active_slave b = Some s -> s ∈ slave_list b) ->
  wp bond_find_best_slave (fun r b' => choice_ok b r /\ unforced b b') b.
Proof.
  intros Hok Hcl. unfold bond_find_best_slave, bond_choose_primary_or_current.
  apply wp_bind. do 2 apply wp_bind, wp_gets. apply wp_bind. apply link_of_ok; [apply (mem_prim b Hok)|].
  intros l Hl. destruct (decide (l = BOND_LINK_UP)) as [Hup|Hup].
  - apply Hl in Hup as Hp. destruct Hp as (p & Hp & Hpu). rewrite Hp. rewrite bool_decide_true by done.
    assert (Hpr : primary_up b) by (by exists p). apply wp_bind, wp_gets. destruct (force_primary b) eqn:Hf.
    + apply wp_bind, wp_mod, wp_ret, wp_ret. split; [|by right]. split; [done| | |done].
      * intros []. by split.
      * intros _. exists p. by left.
    + eapply wp_mono; [apply link_reselect_ok; [done|by apply (mem_prim b Hok)]|]. intros r b' [-> ->]. apply wp_ret.
      split; [|by left]. apply choice_wanted_ok; [|by left]. intros [? _]. congruence.
  - assert (Hnp : ~ primary_up b) by (intros (p & ? & ?); naive_solver).
    apply (wp_mono _ (fun r b' => b' = b /\
      ((exists w, preferred b w /\ r = Some (prefer b w)) \/ (r = None /\ forall s, s ∈ slave_list b -> ~ up b s)))).
    { destruct (primary_slave b); [rewrite bool_decide_false by done|]; by apply by_prio_ok. }
    intros r b' (-> & [(w & Hw & ->)|(-> & Hnone)]).
    + apply wp_ret. split; [|by left]. apply choice_wanted_ok; [|done]. by intros [_ ?].
    + eapply wp_mono; [by apply first_usable_ok|]. intros r b' [-> Hr]. split; [|by left]. split; [| | |done].
      * by intros [_ ?].
      * intros _ w [Hw|(_ & Hw & _ & bw & aw & Hll & _)]; [destruct Hnp; by exists w|].
        destruct (Hnone w); [|done]. rewrite Hll. set_solver.
      * intros (s & Hs & Hu). by destruct (Hnone s).
Qed.

(** What a choice gives for sure. *)
Lemma choice_usable b r :
  choice_ok b r -> (forall s, curr_active_slave b = Some s -> s ∈ slave_list b) ->
  (forall s, primary_slave b = Some s -> s ∈ slave_list b) ->
  match r with
  | Some s => s ∈ slave_list b /\ (up b s \/ (coming_back b s /\ delay_of b s < updelay b))
  | None => forall s, s ∈ slave_list b -> ~ up b s
  end.
Proof.
  intros [Hfo Hwa Hso Hno] Hcl Hpl. destruct (decide (forced b)) as [Hf|Hf].
  { rewrite (Hfo Hf). destruct Hf as (_ & p & Hp & Hu). rewrite Hp. split; [by apply Hpl|by left]. }
  assert (Hprefer : forall w, preferred b w -> prefer b w ∈ slave_list b /\ up b (prefer b w)).
  { intros w Hw. assert (Hwl : w ∈ slave_list b /\ up b w).
    { destruct Hw as [[? ?]|(_ & ? & _ & bw & aw & -> & _)]; [auto|]. set_solver. }
    unfold prefer. destruct (curr_active_slave b) as [c|]; [|done]. case_bool_decide; [|done].
    repeat case_match; auto. }
  destruct (decide (primary_up b)) as [(p & Hp & Hu)|Hnp].
  { assert (Hw : preferred b p) by (by left). rewrite (Hwa Hf p Hw). apply Hprefer in Hw. naive_solver. }
  destruct (decide (Exists (up b) (slave_list b))) as [Hex|Hex].
  - apply Exists_exists in Hex as (s & Hs & Hu). destruct Hso as [w Hw]; [by exists s|].
    rewrite (Hwa Hf w Hw). apply Hprefer in Hw. naive_solver.
  - assert (Hnone : forall s, s ∈ slave_list b -> ~ up b s) by (intros s Hs Hu; apply Hex, Exists_exists; eauto).
    specialize (Hno Hnone Hnp). destruct r as [s|]; [|done]. destruct Hno as (? & ? & ? & _). auto.
Qed.
End best.
