(* ===== verification/MonInv.v ===== *)
(** * Failover: the invariant of active backup mode

    In active backup mode a bond has an active slave whenever the link of some slave is up, and
    the active slave is up, or has lost its link for less than [downdelay].  [ab_inv] says this
    of a state; [ab_base] is the part that holds while a commit is under way. *)

From S2P Require Import Prelude.
From S2P Require Import BondXmit.
From S2P Require Import MonTypes.
From S2P Require Import MonOps.
From S2P Require Import MonLinks.
From S2P Require Import MonSwitch.
From S2P Require Import MonBest.

Definition any_up (b : mbond) : bool := bool_decide (Exists (up b) (slave_list b)).

(** A proposed state fits the state of the link. *)
Definition link_ok (a : bool) (sl : mslave) : Prop :=
  link sl <> BOND_LINK_NOCHANGE /\
  (link_new_state sl = BOND_LINK_BACK -> link sl = BOND_LINK_BACK \/ link sl = BOND_LINK_DOWN) /\
  (a = true -> link_new_state sl = BOND_LINK_FAIL -> link sl = BOND_LINK_BACK \/ link sl = BOND_LINK_FAIL).

Record ab_base (b : mbond) : Prop := {
  base_mode : bmode b = BOND_MODE_ACTIVEBACKUP;
  base_nodup : NoDup (slave_list b);
  base_alive : forall s, s ∈ slave_list b -> alive b s;
  base_curr : forall s, curr_active_slave b = Some s -> s ∈ slave_list b;
  base_prim : forall s, primary_slave b = Some s -> s ∈ slave_list b;
  base_arps : forall s, current_arp_slave b = Some s -> s ∈ slave_list b;
  base_link : forall s sl, s ∈ slave_list b -> mslaves b !! s = Some sl -> link_ok (arp b) sl;
  base_single : arp b = false ->
    forall s sl, s ∈ slave_list b -> mslaves b !! s = Some sl -> active sl = true -> curr_active_slave b = Some s;
  base_mii : arp b = false -> current_arp_slave b = None;
  base_delay : arp b = true ->
    updelay b = 0 /\ forall s sl, s ∈ slave_list b -> mslaves b !! s = Some sl -> 0 <= delay sl;
  base_cand : forall s, current_arp_slave b = Some s -> ~ up b s
}.

(** The active slave is up, or waits for the end of the delay. *)
Definition good (b : mbond) (c : positive) : Prop :=
  exists sl, mslaves b !! c = Some sl /\ active sl = true /\
    (link sl = BOND_LINK_UP \/ (arp b = false /\ link sl = BOND_LINK_FAIL)).

Definition curr_good (b : mbond) : Prop :=
  match curr_active_slave b with
  | Some c => good b c
  | None => forall s, s ∈ slave_list b -> ~ up b s
  end.

(** As it is before a new active slave is selected. *)
Definition curr_loose (b : mbond) : Prop :=
  forall c, curr_active_slave b = Some c ->
    good b c \/ exists sl, mslaves b !! c = Some sl /\ link sl = BOND_LINK_DOWN.

Definition carrier_right (b : mbond) : Prop := dev_carrier b = any_up b.

Record ab_inv (b : mbond) : Prop := {
  inv_base : ab_base b;
  inv_curr : curr_good b;
  inv_carrier : xdp_prog b = false -> carrier_right b
}.

(** ** The invariant and [calm] *)

Lemma base_mem b : ab_base b -> mem_ok b.
Proof. intros []. split; auto. Qed.

Lemma up_calm b b' s : calm b b' -> up b' s <-> up b s.
Proof.
  intros Hc. unfold up. destruct (calm_slaves b b' Hc s) as [x y Hs|]; [|done]. simpl. by rewrite (soft_link _ _ Hs).
Qed.

Lemma good_calm b b' c : calm b b' -> good b c -> good b' c.
Proof.
  intros Hc (sl & Hs & Ha & Hl). destruct (calm_lookup _ _ _ _ Hc Hs) as (sl' & Hs' & Hsoft).
  exists sl'. split; [done|]. rewrite (soft_active _ _ Hsoft), (soft_link _ _ Hsoft), (calm_arp _ _ Hc). done.
Qed.

(** The invariant is about the slaves of the list only. *)
Record agree (b b' : mbond) : Prop := {
  agree_list : slave_list b' = slave_list b;
  agree_curr : curr_active_slave b' = curr_active_slave b;
  agree_prim : primary_slave b' = primary_slave b;
  agree_arps : current_arp_slave b' = current_arp_slave b;
  agree_mode : bmode b' = bmode b;
  agree_arp : arp b' = arp b;
  agree_updelay : updelay b' = updelay b;
  agree_carrier : dev_carrier b' = dev_carrier b;
  agree_xdp : xdp_prog b' = xdp_prog b;
  agree_slaves : forall s, s ∈ slave_list b -> option_Forall2 soft (mslaves b !! s) (mslaves b' !! s)
}.

Lemma calm_agree b b' : calm b b' -> agree b b'.
Proof. intros []. by split. Qed.

Lemma agree_lookup b b' s sl :
  agree b b' -> s ∈ slave_list b -> mslaves b !! s = Some sl -> exists sl', mslaves b' !! s = Some sl' /\ soft sl sl'.
Proof. intros Ha Hin Hs. pose proof (agree_slaves _ _ Ha s Hin) as Hf. rewrite Hs in Hf. inversion Hf. eauto. Qed.

Lemma agree_lookup_r b b' s sl' :
  agree b b' -> s ∈ slave_list b -> mslaves b' !! s = Some sl' -> exists sl, mslaves b !! s = Some sl /\ soft sl sl'.
Proof. intros Ha Hin Hs. pose proof (agree_slaves _ _ Ha s Hin) as Hf. rewrite Hs in Hf. inversion Hf. eauto. Qed.

Lemma agree_up b b' s : agree b b' -> s ∈ slave_list b -> up b' s <-> up b s.
Proof.
  intros Ha Hin. unfold up. destruct (agree_slaves b b' Ha s Hin) as [x y Hs|]; [|done]. simpl.
  by rewrite (soft_link _ _ Hs).
Qed.

Lemma base_agree b b' : agree b b' -> ab_base b -> ab_base b'.
Proof.
  intros Ha Hb. pose proof Ha as []. destruct Hb.
  split; rewrite ?agree_list0, ?agree_mode0, ?agree_curr0, ?agree_prim0, ?agree_arps0, ?agree_arp0, ?agree_updelay0; auto.
  - intros s Hin. destruct (base_alive0 s Hin) as [sl Hs]. destruct (agree_lookup _ _ _ _ Ha Hin Hs) as (sl' & ? & _). by exists sl'.
  - intros s sl' Hin Hs'. destruct (agree_lookup_r _ _ _ _ Ha Hin Hs') as (sl & Hs & Hsoft).
    unfold link_ok. rewrite (soft_link _ _ Hsoft), (soft_new _ _ Hsoft). by eapply base_link0.
  - intros Hna s sl' Hin Hs'. destruct (agree_lookup_r _ _ _ _ Ha Hin Hs') as (sl & Hs & Hsoft).
    rewrite (soft_active _ _ Hsoft). by eapply base_single0.
  - intros Hat. destruct (base_delay0 Hat) as [Hu Hd]. split; [done|].
    intros s sl' Hin Hs'. destruct (agree_lookup_r _ _ _ _ Ha Hin Hs') as (sl & Hs & Hsoft).
    rewrite (soft_delay _ _ Hsoft). by eapply Hd.
  - intros s Hs. rewrite (agree_up b b' s Ha); auto.
Qed.

Lemma curr_good_agree b b' : agree b b' -> ab_base b -> curr_good b -> curr_good b'.
Proof.
  intros Ha Hb. unfold curr_good. rewrite (agree_curr _ _ Ha), (agree_list _ _ Ha).
  destruct (curr_active_slave b) as [c|] eqn:Hc.
  - intros (sl & Hs & Hact & Hl).
    destruct (agree_lookup _ _ _ _ Ha (base_curr b Hb c Hc) Hs) as (sl' & Hs' & Hsoft). exists sl'.
    by rewrite (soft_active _ _ Hsoft), (soft_link _ _ Hsoft), (agree_arp _ _ Ha).
  - intros Hn s Hin. rewrite (agree_up b b' s Ha); auto.
Qed.

Lemma any_up_agree b b' : agree b b' -> any_up b' = any_up b.
Proof.
  intros Ha. unfold any_up. apply bool_decide_ext. rewrite (agree_list _ _ Ha), !Exists_exists.
  split; intros (s & Hin & Hup); exists s; (split; [done|]); by apply (agree_up b b' s Ha).
Qed.

Lemma carrier_agree b b' : agree b b' -> carrier_right b -> carrier_right b'.
Proof. intros Ha. unfold carrier_right. by rewrite (agree_carrier _ _ Ha), (any_up_agree _ _ Ha). Qed.

Lemma inv_agree b b' : agree b b' -> ab_inv b -> ab_inv b'.
Proof.
  intros Ha []. split; [by eapply base_agree|by eapply curr_good_agree|].
  rewrite (agree_xdp _ _ Ha). intros Hx. eapply carrier_agree; [done|auto].
Qed.

Lemma base_calm b b' : calm b b' -> ab_base b -> ab_base b'.
Proof. intros Hc. apply base_agree. by apply calm_agree. Qed.

Lemma curr_good_calm b b' : calm b b' -> curr_good b -> curr_good b'.
Proof.
  intros Hc. unfold curr_good. rewrite (calm_curr _ _ Hc), (calm_list _ _ Hc).
  destruct (curr_active_slave b); [by apply good_calm|]. intros Hn s. rewrite (up_calm b b' s Hc). auto.
Qed.

Lemma curr_loose_calm b b' : calm b b' -> curr_loose b -> curr_loose b'.
Proof.
  intros Hc Hl c. rewrite (calm_curr _ _ Hc). intros Hcu. destruct (Hl c Hcu) as [Hg|(sl & Hs & Hd)].
  - left. by eapply good_calm.
  - right. destruct (calm_lookup _ _ _ _ Hc Hs) as (sl' & ? & Hsoft). exists sl'. by rewrite (soft_link _ _ Hsoft).
Qed.

Lemma any_up_calm b b' : calm b b' -> any_up b' = any_up b.
Proof. intros Hc. by apply any_up_agree, calm_agree. Qed.

Lemma carrier_calm b b' : calm b b' -> carrier_right b -> carrier_right b'.
Proof. intros Hc. by apply carrier_agree, calm_agree. Qed.

Lemma inv_calm b b' : calm b b' -> ab_inv b -> ab_inv b'.
Proof. intros Hc. by apply inv_agree, calm_agree. Qed.

Lemma good_loose b : curr_good b -> curr_loose b.
Proof. intros Hg c Hc. unfold curr_good in Hg. rewrite Hc in Hg. by left. Qed.

(** ** The new active slave *)

Lemma lookup_upd b s f k : mslaves (upd s f b) !! k = if decide (k = s) then f <$> mslaves b !! s else mslaves b !! k.
Proof.
  unfold upd. rec_simpl. case_decide as Hk; [subst; by rewrite lookup_alter_eq|by rewrite lookup_alter_ne].
Qed.

(** What becomes of a slave in [pure_change] in active backup mode. *)
Definition changed (new old : option positive) (s : positive) (sl : mslave) : mslave :=
  let sl := if bool_decide (new = Some s) then core_up sl else sl in
  let sl := if bool_decide (old = Some s) then core_active false sl else sl in
  if bool_decide (new = Some s) then core_active true sl else sl.

Lemma lookup_at o f b k :
  mslaves (at_ptr o f b) !! k = (fun sl => if bool_decide (o = Some k) then f sl else sl) <$> mslaves b !! k.
Proof.
  destruct o as [s|]; unfold at_ptr.
  - rewrite lookup_upd. case_decide as Hk.
    + subst. by rewrite bool_decide_true.
    + rewrite bool_decide_false by naive_solver. by destruct (mslaves b !! k).
  - rewrite bool_decide_false by done. by destruct (mslaves b !! k).
Qed.

Lemma lookup_change new b s :
  bmode b = BOND_MODE_ACTIVEBACKUP -> curr_active_slave b <> new ->
  mslaves (pure_change new b) !! s = changed new (curr_active_slave b) s <$> mslaves b !! s.
Proof.
  intros Hm Hne. unfold pure_change, pure_flags. rewrite bool_decide_false by done.
  rewrite bool_decide_true by (by destruct new). rewrite !lookup_at. rec_simpl. rewrite lookup_at.
  by destruct (mslaves b !! s).
Qed.

Lemma change_fields new b :
  let b' := pure_change new b in
  slave_list b' = slave_list b /\ curr_active_slave b' = new /\ primary_slave b' = primary_slave b /\
  current_arp_slave b' = current_arp_slave b /\ bmode b' = bmode b /\ arp b' = arp b /\
  updelay b' = updelay b /\ dev_carrier b' = dev_carrier b /\ xdp_prog b' = xdp_prog b.
Proof.
  unfold pure_change, pure_flags. case_bool_decide as Hc; [done|].
  destruct new as [n|], (curr_active_slave b) as [o|]; simpl; case_bool_decide; done.
Qed.

Lemma alive_change new b s : alive (pure_change new b) s <-> alive b s.
Proof.
  assert (Hx : alive ((at_ptr new core_up b) <| curr_active_slave := new |>) s <-> alive b s) by apply (alive_at b new).
  unfold pure_change, pure_flags. case_bool_decide; [done|]. case_bool_decide; [|done]. by rewrite !alive_at.
Qed.

(** A slave that may become the active one. *)
Definition eligible (b : mbond) (s : positive) : Prop :=
  s ∈ slave_list b /\ (up b s \/ (arp b = false /\ exists sl, mslaves b !! s = Some sl /\ link sl = BOND_LINK_BACK)).

Lemma changed_cases new old s sl :
  (new <> Some s /\ link (changed new old s sl) = link sl /\ link_new_state (changed new old s sl) = link_new_state sl /\
   delay (changed new old s sl) = delay sl /\
   active (changed new old s sl) = if bool_decide (old = Some s) then false else active sl) \/
  (new = Some s /\ active (changed new old s sl) = true /\
   link (changed new old s sl) = (if bool_decide (link sl = BOND_LINK_BACK) then BOND_LINK_UP else link sl) /\
   link_new_state (changed new old s sl) =
     (if bool_decide (link sl = BOND_LINK_BACK) then BOND_LINK_UP else link_new_state sl) /\
   delay (changed new old s sl) = if bool_decide (link sl = BOND_LINK_BACK) then 0 else delay sl).
Proof.
  unfold changed. destruct (decide (new = Some s)) as [Hn|Hn].
  - right. rewrite !bool_decide_true by done. unfold core_up, core_link.
    destruct (bool_decide (old = Some s)); case_bool_decide; done.
  - left. rewrite !bool_decide_false by done. by destruct (bool_decide (old = Some s)).
Qed.

Lemma changed_ok a new old s sl : link_ok a sl -> link_ok a (changed new old s sl).
Proof.
  intros Hok. unfold link_ok in *.
  destruct (changed_cases new old s sl) as [(_ & -> & -> & _)|(_ & _ & -> & -> & _)]; [done|].
  by case_bool_decide.
Qed.

Lemma change_base new b :
  ab_base b -> (forall s, new = Some s -> eligible b s) -> ab_base (pure_change new b).
Proof.
  intros Hb He. destruct (decide (curr_active_slave b = new)) as [Hc|Hc].
  { unfold pure_change. by rewrite bool_decide_true. }
  pose proof (fun s => lookup_change new b s (base_mode b Hb) Hc) as Hlk.
  destruct (change_fields new b) as (Hl & Hcu & Hp & Hcs & Hm & Ha & Hu & _).
  assert (Hlk' : forall s sl', mslaves (pure_change new b) !! s = Some sl' ->
    exists sl, mslaves b !! s = Some sl /\ sl' = changed new (curr_active_slave b) s sl).
  { intros s sl' Hs. rewrite Hlk in Hs. apply fmap_Some in Hs. naive_solver. }
  split; rewrite ?Hl, ?Hcu, ?Hp, ?Hcs, ?Hm, ?Ha, ?Hu.
  - apply Hb.
  - apply Hb.
  - intros s Hs. unfold alive. rewrite Hlk, fmap_is_Some. by apply (base_alive b Hb).
  - intros s Hs. by apply He.
  - apply Hb.
  - apply Hb.
  - intros s sl' Hin (sl & Hs & ->)%Hlk'. eapply changed_ok, (base_link b Hb); done.
  - intros Hna s sl' Hin (sl & Hs & ->)%Hlk' Hact.
    destruct (changed_cases new (curr_active_slave b) s sl) as [(_ & _ & _ & _ & Hac)|(-> & _)]; [|done].
    rewrite Hac in Hact. case_bool_decide as Hold; [done|].
    by apply (base_single b Hb Hna s sl) in Hact.
  - apply (base_mii b Hb).
  - intros Hat. destruct (base_delay b Hb Hat) as [Hu0 Hd]. split; [done|].
    intros s sl' Hin (sl & Hs & ->)%Hlk'. specialize (Hd s sl Hin Hs).
    destruct (changed_cases new (curr_active_slave b) s sl) as [(_ & _ & _ & -> & _)|(_ & _ & _ & _ & ->)]; [done|].
    by case_bool_decide.
  - intros s Hs Hup. apply (base_cand b Hb s Hs). unfold up in *. rewrite Hlk in Hup.
    destruct (mslaves b !! s) as [sl|] eqn:Hsl; [|done]. simpl in *.
    destruct (changed_cases new (curr_active_slave b) s sl) as [(_ & Hlink & _)|(-> & _)]; [by rewrite <- Hlink|].
    destruct (He s eq_refl) as [_ [Hu'|(Hna & _)]]; [unfold up in Hu'; by rewrite Hsl in Hu'|].
    rewrite (base_mii b Hb Hna) in Hs. done.
Qed.

(** Changing to a slave that is eligible, or to none if none is up. *)
Lemma change_good new b :
  ab_base b -> curr_loose b ->
  match new with Some s => eligible b s | None => forall s, s ∈ slave_list b -> ~ up b s end ->
  curr_good (pure_change new b).
Proof.
  intros Hb Hl Hn. destruct (change_fields new b) as (Hll & Hcu & _ & _ & _ & Ha & _).
  unfold curr_good. rewrite Hcu, Hll. destruct (decide (curr_active_slave b = new)) as [Hc|Hc].
  - unfold pure_change. rewrite bool_decide_true by done. destruct new as [s|]; [|done].
    destruct (Hl s Hc) as [Hg|(sl & Hs & Hd)]; [done|]. destruct Hn as [_ [Hup|(_ & sl' & Hs' & Hb')]].
    + unfold up in Hup. rewrite Hs in Hup. simpl in Hup. congruence.
    + congruence.
  - pose proof (fun s => lookup_change new b s (base_mode b Hb) Hc) as Hlk. destruct new as [s|].
    + destruct Hn as [Hin Hn]. destruct (base_alive b Hb s Hin) as [sl Hs].
      exists (changed (Some s) (curr_active_slave b) s sl). rewrite Hlk, Hs, Ha. split; [done|].
      destruct (changed_cases (Some s) (curr_active_slave b) s sl) as [(? & _)|(_ & -> & -> & _)]; [done|].
      split; [done|]. left. destruct Hn as [Hup|(_ & sl' & Hs' & Hb')].
      * apply (up_link b s sl Hs) in Hup. rewrite Hup. done.
      * simplify_eq. by rewrite bool_decide_true.
    + intros s Hin Hup. apply (Hn s Hin). unfold up in *. rewrite Hlk in Hup.
      destruct (mslaves b !! s) as [sl|] eqn:Hsl; [|done]. simpl in *.
      destruct (changed_cases None (curr_active_slave b) s sl) as [(_ & Hlink & _)|(? & _)]; [|done].
      by rewrite <- Hlink.
Qed.

(** What a commit does not touch. *)
Definition framed (b b' : mbond) : Prop :=
  slave_list b' = slave_list b /\ arp b' = arp b /\ xdp_prog b' = xdp_prog b.

#[export] Instance framed_preorder : PreOrder framed.
Proof. split; [done|]. unfold framed. intros x y z (? & ? & ?) (? & ? & ?). split_and!; congruence. Qed.

Lemma calm_framed b b' : calm b b' -> framed b b'.
Proof. by intros []. Qed.

Lemma upd_framed b s f b' : calm (upd s f b) b' -> framed b b'.
Proof. intros Hc. by apply calm_framed in Hc. Qed.

(** What selecting the active slave does to the slaves: at most one that was coming back is up. *)
Record moved (x y : mslave) : Prop := {
  moved_running : running y = running x;
  moved_carrier : carrier y = carrier x;
  moved_link : (link y = link x /\ link_new_state y = link_new_state x /\ delay y = delay x) \/
    (link x = BOND_LINK_BACK /\ link y = BOND_LINK_UP /\ link_new_state y = BOND_LINK_UP)
}.

Record moves (b b' : mbond) : Prop := {
  moves_updelay : updelay b' = updelay b;
  moves_downdelay : downdelay b' = downdelay b;
  moves_slaves : forall s sl, mslaves b !! s = Some sl -> exists sl', mslaves b' !! s = Some sl' /\ moved sl sl'
}.

Lemma calm_moves b b' : calm b b' -> moves b b'.
Proof.
  intros Hc. split; [apply Hc|apply Hc|]. intros s sl Hs. destruct (calm_lookup _ _ _ _ Hc Hs) as (sl' & ? & []).
  exists sl'. split; [done|]. split; [done|done|by left].
Qed.

Lemma moves_calm x y z : moves x y -> calm y z -> moves x z.
Proof.
  intros [Hu Hd Hs] Hc. split; [by rewrite (calm_updelay _ _ Hc)|by rewrite (calm_downdelay _ _ Hc)|].
  intros s sl Hsl. destruct (Hs s sl Hsl) as (sl1 & Hs1 & [Hr Hca Hl]).
  destruct (calm_lookup _ _ _ _ Hc Hs1) as (sl2 & Hs2 & []). exists sl2. split; [done|].
  split; [congruence|congruence|]. destruct Hl as [(? & ? & ?)|(? & ? & ?)]; [left|right]; split_and!; congruence.
Qed.

Lemma calm_moves_trans x y z : calm x y -> moves y z -> moves x z.
Proof.
  intros Hc [Hu Hd Hs]. split; [by rewrite Hu, (calm_updelay _ _ Hc)|by rewrite Hd, (calm_downdelay _ _ Hc)|].
  intros s sl Hsl. destruct (calm_lookup _ _ _ _ Hc Hsl) as (sl1 & Hs1 & []).
  destruct (Hs s sl1 Hs1) as (sl2 & Hs2 & [Hr Hca Hl]). exists sl2. split; [done|].
  split; [congruence|congruence|]. destruct Hl as [(? & ? & ?)|(? & ? & ?)]; [left|right]; split_and!; congruence.
Qed.

Lemma moves_alive b b' s : moves b b' -> alive b s -> alive b' s.
Proof. intros Hm [sl Hs]. destruct (moves_slaves _ _ Hm s sl Hs) as (sl' & ? & _). by exists sl'. Qed.

Lemma changed_device new old s sl :
  running (changed new old s sl) = running sl /\ carrier (changed new old s sl) = carrier sl.
Proof. unfold changed, core_up, core_link. repeat case_bool_decide; done. Qed.

Lemma change_moves new b : bmode b = BOND_MODE_ACTIVEBACKUP -> moves b (pure_change new b).
Proof.
  intros Hm. destruct (decide (curr_active_slave b = new)) as [Hc|Hc].
  { unfold pure_change. rewrite bool_decide_true by done. by apply calm_moves. }
  split; [apply (change_fields new b)| |].
  { unfold pure_change, pure_flags. rewrite bool_decide_false by done. repeat case_match; by destruct new, (curr_active_slave b). }
  intros s sl Hs. exists (changed new (curr_active_slave b) s sl). rewrite lookup_change, Hs by done. split; [done|].
  destruct (changed_device new (curr_active_slave b) s sl). split; [done|done|].
  destruct (changed_cases new (curr_active_slave b) s sl) as [(_ & ? & ? & ? & _)|(_ & _ & Hl & Hn & Hd)]; [by left|].
  case_bool_decide; [by right|by left].
Qed.

Section select.
Context `{MonLaws}.

Lemma set_carrier_ok b :
  mem_ok b -> bmode b <> BOND_MODE_8023AD ->
  wp bond_set_carrier (fun _ b' => calm (b <| dev_carrier := any_up b |>) b') b.
Proof.
  intros Hok Hm. unfold bond_set_carrier. do 2 apply wp_bind, wp_gets.
  rewrite (bool_decide_false (bmode b = _)), andb_false_r by done. apply wp_bind.
  apply (wp_mono _ (fun r b' => b' = b /\ r = any_up b)).
  { unfold some_up. apply wp_bind, wp_gets.
    apply (wp_for_each (fun pre a b' => b' = b /\ a = false /\ forall s, s ∈ pre -> ~ up b s)).
    - split_and!; [done|done|set_solver].
    - intros pre s post a b' Hl (-> & -> & Hpre).
      assert (Hin : s ∈ slave_list b) by (rewrite Hl; set_solver).
      destruct (mem_list b Hok s Hin) as [sl Hs]. apply wp_bind. eapply wp_get_s; [done|]. apply wp_ret.
      pose proof (up_link b s sl Hs). case_bool_decide as Hup.
      + split; [done|]. symmetry. apply bool_decide_eq_true, Exists_exists. exists s. tauto.
      + split_and!; [done|done|]. intros s' [Hs'|Hs']%elem_of_app; [auto|].
        apply list_elem_of_singleton in Hs' as ->. tauto.
    - intros a b' (-> & -> & Hpre). split; [done|]. symmetry. apply bool_decide_eq_false. rewrite Exists_exists.
      naive_solver. }
  intros r b' [-> ->]. apply wp_bind, wp_gets. destruct (Bool.eqb _ _) eqn:He.
  - apply Bool.eqb_prop in He. apply wp_ret. rewrite He. split; done.
  - apply wp_bind, wp_mod, wp_ret. done.
Qed.

Lemma unforced_calm b b' : unforced b b' -> calm b b'.
Proof. by intros [->| ->]. Qed.

Lemma not_lb b : ab_base b -> bond_is_lb (bmode b) = false.
Proof.
  intros Hb. rewrite (base_mode b Hb). destruct (bond_is_lb _) eqn:E; [|done].
  apply is_lb_spec in E. by destruct E.
Qed.

Lemma choice_eligible b r :
  ab_base b -> choice_ok b r ->
  match r with Some s => eligible b s | None => forall s, s ∈ slave_list b -> ~ up b s end.
Proof.
  intros Hb Hr. pose proof (choice_usable b r Hr (base_curr b Hb) (base_prim b Hb)) as Hu.
  destruct r as [s|]; [|done]. destruct Hu as (Hin & Hu). split; [done|]. destruct Hu as [Hu|((sl & Hs & Hl & _) & Hd)]; [by left|].
  right. split; [|eauto]. destruct (arp b) eqn:Ha; [|done].
  destruct (base_delay b Hb Ha) as [Hud Hdel]. specialize (Hdel s sl Hin Hs).
  unfold delay_of, field in Hd. rewrite Hs in Hd. simpl in Hd. lia.
Qed.

(** Selecting the active slave restores what the invariant says of it. *)
Lemma select_ok b :
  ab_base b -> curr_loose b ->
  wp bond_select_active_slave (fun _ b' => ab_base b' /\ curr_good b' /\ framed b b' /\
    current_arp_slave b' = current_arp_slave b /\ moves b b' /\
    (carrier_right b -> carrier_right b')) b.
Proof.
  intros Hb Hl. unfold bond_select_active_slave. apply wp_bind.
  eapply wp_mono; [apply find_best_ok; [by apply base_mem|apply (base_curr b Hb)]|].
  intros r b1 [Hr Hc1%unforced_calm]. pose proof (choice_eligible b r Hb Hr) as He.
  apply wp_bind, wp_gets. rewrite (calm_curr _ _ Hc1).
  assert (Hb1 : ab_base b1) by (by eapply base_calm). assert (Hl1 : curr_loose b1) by (by eapply curr_loose_calm).
  assert (He1 : match r with Some s => eligible b1 s | None => forall s, s ∈ slave_list b1 -> ~ up b1 s end).
  { destruct r as [s|].
    - destruct He as [Hin He]. split; [by rewrite (calm_list _ _ Hc1)|]. rewrite (up_calm _ _ _ Hc1), (calm_arp _ _ Hc1).
      destruct He as [He|(Ha & sl & Hs & Hbk)]; [by left|right]. split; [done|].
      destruct (calm_lookup _ _ _ _ Hc1 Hs) as (sl' & ? & Hsoft). exists sl'. by rewrite (soft_link _ _ Hsoft).
    - intros s. rewrite (calm_list _ _ Hc1), (up_calm _ _ _ Hc1). auto. }
  pose proof (change_good r b1 Hb1 Hl1 He1) as Hg.
  case_bool_decide as Heq; simpl.
  - apply wp_ret. unfold pure_change in Hg. rewrite bool_decide_true in Hg by (rewrite (calm_curr _ _ Hc1); done).
    split_and!; [done|done|by apply calm_framed|apply (calm_arps _ _ Hc1)|by apply calm_moves|].
    by apply carrier_calm.
  - assert (Hb2 : ab_base (pure_change r b1)).
    { apply change_base; [done|]. intros s ->. done. }
    apply wp_bind. eapply wp_mono; [apply change_active_ok; [by apply not_lb|by apply base_mem|]|].
    { intros s ->. apply (base_alive b1 Hb1). apply He1. }
    intros ? b2 Hc2. apply wp_bind.
    assert (Hb2' : ab_base b2) by (exact (base_calm _ _ Hc2 Hb2)).
    eapply wp_mono; [apply set_carrier_ok; [by apply base_mem|by rewrite (base_mode _ Hb2')]|].
    intros ? b3 Hc3. apply wp_ret.
    destruct (change_fields r b1) as (Hll & _ & _ & Hcs & _ & Har & _ & _ & Hx).
    split_and!.
    + apply (base_calm _ _ Hc3). by destruct Hb2'.
    + apply (curr_good_calm _ _ Hc3). by apply (curr_good_calm _ _ Hc2).
    + etrans; [apply calm_framed, Hc1|]. etrans; [|apply (calm_framed _ _ Hc3)].
      etrans; [|apply (calm_framed _ _ Hc2)]. done.
    + rewrite (calm_arps _ _ Hc3). rec_simpl. by rewrite (calm_arps _ _ Hc2), Hcs, (calm_arps _ _ Hc1).
    + eapply moves_calm; [|exact Hc3]. assert (Hmv : moves b b2).
      { eapply calm_moves_trans; [exact Hc1|]. eapply moves_calm; [|exact Hc2]. apply change_moves. apply Hb1. }
      by destruct Hmv.
    + intros _. unfold carrier_right. rewrite (calm_carrier _ _ Hc3). by rewrite (any_up_calm _ _ Hc3).
Qed.
End select.
