(* ===== verification/MonKeep.v ===== *)
(** * Failover: the monitors keep the invariant *)

From S2P Require Import Prelude.
From S2P Require Import BondXmit.
From S2P Require Import MonTypes.
From S2P Require Import MonOps.
From S2P Require Import MonLinks.
From S2P Require Import MonSwitch.
From S2P Require Import MonBest.
From S2P Require Import MonInv.

(** ** Inspections

    An inspection changes what is proposed and the delays. *)

Record quiet_slave (a : bool) (x y : mslave) : Prop := {
  quiet_link : link y = link x;
  quiet_active : active y = active x;
  quiet_ok : link_ok a x -> link_ok a y;
  quiet_delay : a = true -> 0 <= delay x -> 0 <= delay y
}.

Record quiet (b b' : mbond) : Prop := {
  quiet_list : slave_list b' = slave_list b;
  quiet_curr : curr_active_slave b' = curr_active_slave b;
  quiet_prim : primary_slave b' = primary_slave b;
  quiet_arps : current_arp_slave b' = current_arp_slave b;
  quiet_mode : bmode b' = bmode b;
  quiet_arp : arp b' = arp b;
  quiet_updelay : updelay b' = updelay b;
  quiet_carrier : dev_carrier b' = dev_carrier b;
  quiet_xdp : xdp_prog b' = xdp_prog b;
  quiet_slaves : forall s, option_Forall2 (quiet_slave (arp b)) (mslaves b !! s) (mslaves b' !! s)
}.

#[export] Instance quiet_slave_preorder a : PreOrder (quiet_slave a).
Proof. split; [by intros x; split|]. intros x y z [] []. split; try congruence; auto. Qed.

#[export] Instance quiet_preorder : PreOrder quiet.
Proof.
  split; [by intros b; split|]. intros x y z [] []. split; try congruence.
  rewrite quiet_arp0 in quiet_slaves1. intros s. specialize (quiet_slaves0 s). specialize (quiet_slaves1 s).
  destruct quiet_slaves0; inversion quiet_slaves1; simplify_eq; constructor. by etrans.
Qed.

Lemma quiet_lookup_r b b' s sl' :
  quiet b b' -> mslaves b' !! s = Some sl' -> exists sl, mslaves b !! s = Some sl /\ quiet_slave (arp b) sl sl'.
Proof. intros Hq Hs. pose proof (quiet_slaves _ _ Hq s) as Hf. rewrite Hs in Hf. inversion Hf. eauto. Qed.

Lemma quiet_lookup b b' s sl :
  quiet b b' -> mslaves b !! s = Some sl -> exists sl', mslaves b' !! s = Some sl' /\ quiet_slave (arp b) sl sl'.
Proof. intros Hq Hs. pose proof (quiet_slaves _ _ Hq s) as Hf. rewrite Hs in Hf. inversion Hf. eauto. Qed.

Lemma quiet_up b b' s : quiet b b' -> up b' s <-> up b s.
Proof.
  intros Hq. unfold up. destruct (quiet_slaves _ _ Hq s) as [x y Hs|]; [|done]. simpl. by rewrite (quiet_link _ _ _ Hs).
Qed.

Lemma quiet_alive b b' s : quiet b b' -> alive b s -> alive b' s.
Proof. intros Hq [sl Hs]. destruct (quiet_lookup _ _ _ _ Hq Hs) as (sl' & ? & _). by exists sl'. Qed.

Lemma quiet_inv b b' : quiet b b' -> ab_inv b -> ab_inv b'.
Proof.
  intros Hq [Hb Hg Hc]. pose proof Hq as [Hl Hcu Hp Has Hm Ha Hu Hca Hx _].
  assert (Hany : any_up b' = any_up b).
  { unfold any_up. apply bool_decide_ext. rewrite Hl, !Exists_exists. by setoid_rewrite (quiet_up b b' _ Hq). }
  split.
  - destruct Hb. split; rewrite ?Hl, ?Hcu, ?Hp, ?Has, ?Hm, ?Ha, ?Hu; auto.
    + intros s Hs. apply (quiet_alive _ _ _ Hq). auto.
    + intros s sl' Hin Hs'. destruct (quiet_lookup_r _ _ _ _ Hq Hs') as (sl & Hs & Hsl).
      apply (quiet_ok _ _ _ Hsl). by eapply base_link.
    + intros Hna s sl' Hin Hs'. destruct (quiet_lookup_r _ _ _ _ Hq Hs') as (sl & Hs & Hsl).
      rewrite (quiet_active _ _ _ Hsl). by eapply base_single.
    + intros Hat. destruct (base_delay Hat) as [Hu0 Hd]. split; [done|].
      intros s sl' Hin Hs'. destruct (quiet_lookup_r _ _ _ _ Hq Hs') as (sl & Hs & Hsl).
      eapply (quiet_delay _ _ _ Hsl); [done|]. by eapply Hd.
    + intros s Hs. rewrite (quiet_up _ _ _ Hq). auto.
  - unfold curr_good in *. rewrite Hcu, Hl. destruct (curr_active_slave b) as [c|].
    + destruct Hg as (sl & Hs & Hact & Hlk). destruct (quiet_lookup _ _ _ _ Hq Hs) as (sl' & Hs' & Hsl).
      exists sl'. by rewrite (quiet_active _ _ _ Hsl), (quiet_link _ _ _ Hsl), Ha.
    + intros s. rewrite (quiet_up _ _ _ Hq). auto.
  - rewrite Hx. intros Hx0. unfold carrier_right. rewrite Hca, Hany. by apply Hc.
Qed.

Lemma quiet_insert b s sl sl' :
  mslaves b !! s = Some sl -> quiet_slave (arp b) sl sl' -> quiet b (b <| mslaves ::= <[s := sl']> |>).
Proof.
  intros Hs Hq. split; try done. rec_simpl. intros k. destruct (decide (k = s)) as [->|Hk].
  - rewrite lookup_insert_eq, Hs. by constructor.
  - rewrite lookup_insert_ne by done. by destruct (mslaves b !! k); constructor.
Qed.

Lemma calm_quiet b b' : calm b b' -> quiet b b'.
Proof.
  intros []. split; try done. intros s. destruct (calm_slaves s) as [x y []|]; constructor.
  split; [done|done| |]; unfold link_ok; rewrite ?soft_link, ?soft_new, ?soft_delay; done.
Qed.

(** ** Commits

    The state in the middle of a commit: the slaves of [todo] are still to come, [flag] says that
    the active slave will be selected again. *)

Record mid (flag : bool) (todo : list positive) (b : mbond) : Prop := {
  mid_base : ab_base b;
  mid_curr : forall c, curr_active_slave b = Some c -> good b c \/
    exists sl, mslaves b !! c = Some sl /\ link sl = BOND_LINK_DOWN /\
      ((flag = true /\ c ∉ todo) \/ (c ∈ todo /\ link_new_state sl = BOND_LINK_DOWN));
  mid_none : curr_active_slave b = None -> flag = true \/
    forall s, s ∈ slave_list b -> up b s -> s ∈ todo /\
      exists sl, mslaves b !! s = Some sl /\ link_new_state sl = BOND_LINK_UP
}.

Lemma mid_calm flag todo b b' : calm b b' -> mid flag todo b -> mid flag todo b'.
Proof.
  intros Hc [Hb Hcu Hno]. split.
  - by eapply base_calm.
  - intros c. rewrite (calm_curr _ _ Hc). intros Hcc. destruct (Hcu c Hcc) as [Hg|(sl & Hs & Hl & Hr)].
    + left. by eapply good_calm.
    + right. destruct (calm_lookup _ _ _ _ Hc Hs) as (sl' & Hs' & Hsoft). exists sl'.
      by rewrite (soft_link _ _ Hsoft), (soft_new _ _ Hsoft).
  - rewrite (calm_curr _ _ Hc). intros Hcc. destruct (Hno Hcc) as [?|Hn]; [by left|]. right.
    intros s. rewrite (calm_list _ _ Hc), (up_calm _ _ _ Hc). intros Hin Hup.
    destruct (Hn s Hin Hup) as (? & sl & Hs & Hl). split; [done|].
    destruct (calm_lookup _ _ _ _ Hc Hs) as (sl' & Hs' & Hsoft). exists sl'. by rewrite (soft_new _ _ Hsoft).
Qed.

Lemma mid_end flag b : mid flag [] b -> ab_base b /\ curr_loose b /\ (flag = false -> curr_good b).
Proof.
  intros [Hb Hc Hn]. split; [done|]. split.
  - intros c Hcc. destruct (Hc c Hcc) as [?|(sl & ? & ? & _)]; [by left|right; eauto].
  - intros ->. unfold curr_good. destruct (curr_active_slave b) as [c|].
    + destruct (Hc c eq_refl) as [?|(sl & _ & _ & [[? _]|[? _]])]; [done|done|set_solver].
    + destruct (Hn eq_refl) as [?|Hn']; [done|]. intros s Hin Hup. destruct (Hn' s Hin Hup). set_solver.
Qed.

Lemma mid_start b : ab_inv b -> mid false (slave_list b) b.
Proof.
  intros [Hb Hg _]. split; [done| |]; unfold curr_good in Hg.
  - intros c Hc. rewrite Hc in Hg. by left.
  - intros Hc. rewrite Hc in Hg. right. intros s Hin Hup. by apply Hg in Hup.
Qed.

Lemma up_upd b s f k sl :
  mslaves b !! s = Some sl -> up (upd s f b) k <-> (k = s /\ link (f sl) = BOND_LINK_UP) \/ (k <> s /\ up b k).
Proof.
  intros Hs. unfold up. rewrite lookup_upd. case_decide as Hk.
  - subst. rewrite Hs. simpl. split; [intros [= ?]; by left|intros [[_ ->]|[? _]]; done].
  - naive_solver.
Qed.

(** An update of one slave. *)
Lemma base_upd b s f sl :
  ab_base b -> mslaves b !! s = Some sl -> link_ok (arp b) (f sl) ->
  (arp b = false -> active (f sl) = true -> active sl = true) ->
  (arp b = true -> 0 <= delay sl -> 0 <= delay (f sl)) ->
  (current_arp_slave b = Some s -> link (f sl) <> BOND_LINK_UP) ->
  ab_base (upd s f b).
Proof.
  intros Hb Hs Hok Hac Hde Hca. destruct Hb.
  assert (Hlk : forall k sl', mslaves (upd s f b) !! k = Some sl' ->
    (k = s /\ sl' = f sl) \/ (k <> s /\ mslaves b !! k = Some sl')).
  { intros k sl'. rewrite lookup_upd. case_decide; [|by right]. subst. rewrite Hs. intros [= <-]. by left. }
  split; try done.
  - intros k Hk. apply alive_upd. auto.
  - intros k sl' Hin [[-> ->]|[_ Hk]]%Hlk; [done|]. by eapply base_link.
  - intros Ha k sl' Hin [[-> ->]|[_ Hk]]%Hlk Hact; [|by eapply base_single]. eapply base_single; eauto.
  - intros Ha. destruct (base_delay Ha) as [Hu Hd]. split; [done|].
    intros k sl' Hin [[-> ->]|[_ Hk]]%Hlk; [|by eapply Hd]. apply Hde; [done|]. by eapply Hd.
  - intros k Hk. rewrite (up_upd b s f k sl Hs). intros [[-> Hup]|[_ Hup]]; [by apply Hca|]. by apply (base_cand k).
Qed.

Lemma mid_upd flag flag' todo b s f sl :
  mid flag (s :: todo) b -> s ∉ todo -> mslaves b !! s = Some sl -> ab_base (upd s f b) ->
  (flag = true -> flag' = true) ->
  (curr_active_slave b = Some s -> good (upd s f b) s \/ (link (f sl) = BOND_LINK_DOWN /\ flag' = true)) ->
  (curr_active_slave b = None -> flag' = true \/ link (f sl) <> BOND_LINK_UP) ->
  mid flag' todo (upd s f b).
Proof.
  intros [Hb Hc Hn] Hnin Hs Hb' Hflag Hcu Hno. split; [done| |].
  - intros c Hcc. destruct (decide (c = s)) as [->|Hne].
    + destruct (Hcu Hcc) as [?|[Hl Hf]]; [by left|]. right. exists (f sl).
      rewrite lookup_upd, decide_True, Hs by done. split; [done|]. split; [done|]. by left.
    + unfold good. setoid_rewrite lookup_upd. rewrite decide_False by done.
      destruct (Hc c Hcc) as [?|(cl & Hcl & Hd & Hr)]; [by left|]. right. exists cl. split; [done|]. split; [done|].
      destruct Hr as [[? ?]|[Hr ?]]; [left; set_solver|]. right. apply elem_of_cons in Hr as [?|?]; done.
  - intros Hcc. destruct (Hno Hcc) as [?|Hd]; [by left|]. destruct (Hn Hcc) as [?|Hn']; [left; auto|]. right.
    intros k Hin. rewrite (up_upd b s f k sl Hs). intros [[_ ?]|[Hne Hup]]; [done|].
    rewrite lookup_upd, decide_False by done. destruct (Hn' k Hin Hup) as [Hk ?]. split; [|done].
    by apply elem_of_cons in Hk as [?|?].
Qed.

(** *** All slaves at once *)

Definition each (l : list positive) (f : mslave -> mslave) (b : mbond) : mbond :=
  b <| mslaves ::= map_imap (fun s sl => Some (if bool_decide (s ∈ l) then f sl else sl)) |>.

Lemma lookup_each l f b s :
  mslaves (each l f b) !! s = (fun sl => if bool_decide (s ∈ l) then f sl else sl) <$> mslaves b !! s.
Proof. unfold each. rec_simpl. rewrite map_lookup_imap. by destruct (mslaves b !! s). Qed.

Lemma each_nil f b : calm (each [] f b) b.
Proof.
  split; try done. intros s. rewrite lookup_each, bool_decide_false by set_solver.
  by destruct (mslaves b !! s); constructor.
Qed.

Lemma each_step l f b s : s ∉ l -> calm (each (l ++ [s]) f b) (upd s f (each l f b)).
Proof.
  intros Hn. split; try done. intros k. rewrite lookup_upd, !lookup_each. case_decide as Hk.
  - subst. rewrite bool_decide_true, bool_decide_false by set_solver. destruct (mslaves b !! s); by constructor.
  - destruct (mslaves b !! k); [|by constructor]. simpl. constructor.
    destruct (decide (k ∈ l)); [rewrite !bool_decide_true by set_solver|rewrite !bool_decide_false by set_solver]; done.
Qed.

Lemma lookup_alive_each l f b s : alive (each l f b) s <-> alive b s.
Proof. unfold alive. by rewrite lookup_each, fmap_is_Some. Qed.

Lemma each_base l f b :
  ab_base b -> (forall s sl, s ∈ slave_list b -> mslaves b !! s = Some sl ->
    link_ok (arp b) (f sl) /\ (active (f sl) = true -> active sl = true) /\ (arp b = true -> delay (f sl) = delay sl) /\
    (current_arp_slave b = Some s -> link (f sl) <> BOND_LINK_UP)) ->
  ab_base (each l f b).
Proof.
  intros Hb Hf.
  assert (Hlk : forall s sl', mslaves (each l f b) !! s = Some sl' ->
    exists sl, mslaves b !! s = Some sl /\ (sl' = sl \/ sl' = f sl)).
  { intros s sl'. rewrite lookup_each. intros (sl & ? & ->)%fmap_Some. exists sl. case_bool_decide; auto. }
  pose proof Hb as []. split; try done.
  - intros s Hs. apply lookup_alive_each. auto.
  - intros s sl' Hin (sl & Hs & Hsl)%Hlk. destruct (Hf s sl Hin Hs) as (? & _).
    destruct Hsl as [->| ->]; [by eapply base_link|done].
  - intros Ha s sl' Hin (sl & Hs & Hsl)%Hlk Hact. destruct (Hf s sl Hin Hs) as (_ & Hac & _).
    eapply base_single; [done..|]. destruct Hsl as [->| ->]; auto.
  - intros Ha. destruct (base_delay Ha) as [Hu Hd]. split; [done|].
    intros s sl' Hin (sl & Hs & Hsl)%Hlk. destruct (Hf s sl Hin Hs) as (_ & _ & Hde & _).
    destruct Hsl as [->| ->]; [|rewrite (Hde Ha)]; by eapply Hd.
  - intros s Hs Hup. unfold up in Hup. destruct (mslaves (each l f b) !! s) as [sl'|] eqn:E; [|done].
    apply Hlk in E as (sl & Hsl & Hor). destruct (Hf s sl (base_arps s Hs) Hsl) as (_ & _ & _ & Hc).
    simpl in Hup. destruct Hor as [->| ->].
    + apply (base_cand s Hs). unfold up. by rewrite Hsl.
    + apply (Hc Hs). congruence.
Qed.

(** The proposed states are taken over. *)
Lemma take_mid b : ab_inv b -> arp b = false -> mid false (slave_list b) (each (slave_list b) lb_take b).
Proof.
  intros [Hb Hg _] Ha. split.
  - apply each_base; [done|]. intros s sl Hin Hs. pose proof (base_link b Hb s sl Hin Hs) as Hok.
    rewrite Ha in *. unfold lb_take, link_ok in *. rewrite (base_mii b Hb Ha).
    case_bool_decide as Hn; simpl; [by destruct Hok as (? & ? & _)|]. destruct Hok as (? & Hbk & _).
    split_and!; try done. by left.
  - intros c Hc. unfold curr_good in Hg. unfold each in Hc. rec_simpl_all. rewrite Hc in Hg.
    destruct Hg as (sl & Hs & Hact & Hl). pose proof (base_curr b Hb c Hc) as Hin.
    pose proof (base_link b Hb c sl Hin Hs) as (Hn & Hbk & _).
    assert (Hs' : mslaves (each (slave_list b) lb_take b) !! c = Some (lb_take sl)).
    { rewrite lookup_each, Hs. simpl. by rewrite bool_decide_true. }
    unfold good. rewrite Hs'. unfold lb_take. case_bool_decide as Hnew.
    + left. exists sl. split; [done|]. by split.
    + destruct (link_new_state sl) eqn:E; try done.
      * left. eexists. split; [done|]. split; [done|]. by left.
      * left. eexists. split; [done|]. split; [done|]. by right.
      * right. eexists. split; [done|]. split; [done|]. by right.
      * destruct Hbk as [?|?]; [done| |]; destruct Hl as [?|[_ ?]]; congruence.
  - intros Hc. right. intros s Hin Hup. split; [done|]. unfold curr_good in Hg. unfold each in Hc. rec_simpl_all.
    rewrite Hc in Hg. specialize (Hg s Hin). unfold up in *. rewrite lookup_each in *.
    destruct (mslaves b !! s) as [sl|]; [|done]. simpl in *. rewrite bool_decide_true in * by done.
    unfold lb_take in *. case_bool_decide; [done|]. eexists. split; [done|]. simpl in *. congruence.
Qed.

Section keep.
Context `{MonLaws}.
Abbreviation W := (M mbond).

(** A loop over the slaves whose steps are quiet. *)
Lemma quiet_loop {A} (body : A -> positive -> W (ctl A)) a b :
  (forall s, s ∈ slave_list b -> alive b s) ->
  (forall a s sl b', quiet b b' -> s ∈ slave_list b -> mslaves b' !! s = Some sl ->
     wp (body a s) (fun c b'' => quiet b' b'' /\ exists a', c = Continue a') b') ->
  wp (for_each (slave_list b) a body) (fun _ b' => quiet b b') b.
Proof.
  intros Hal Hbody. apply (wp_for_each (fun _ _ b' => quiet b b')); [done| |done].
  intros pre s post a' b' Hl Hq. assert (Hin : s ∈ slave_list b) by (rewrite Hl; set_solver).
  destruct (quiet_alive _ _ _ Hq (Hal s Hin)) as [sl Hs].
  eapply wp_mono; [by eapply Hbody|]. intros c b'' [Hq' [a'' ->]]. by etrans.
Qed.

Lemma inspect_slave_quiet b i c sl : quiet_slave false sl (inspect_slave b i c sl).1.1.
Proof.
  unfold inspect_slave, inspect_fail, inspect_back. rewrite !propose_spec. rec_simpl.
  destruct (link sl) eqn:Hl; repeat case_match; (split; unfold link_ok; simpl; rec_simpl; rewrite ?Hl; naive_solver).
Qed.

Lemma mii_inspect_quiet b :
  arp b = false -> (forall s, s ∈ slave_list b -> alive b s) ->
  wp bond_miimon_inspect (fun _ b' => quiet b b') b.
Proof.
  intros Ha Hal. unfold bond_miimon_inspect. do 2 apply wp_bind, wp_gets. apply wp_bind.
  apply (wp_mono _ (fun _ b' => quiet b b')); [|intros; by apply wp_ret].
  apply quiet_loop; [done|]. intros [c i] s sl b' Hq Hin Hs. apply wp_bind, wp_gets.
  apply wp_bind. eapply wp_get_s; [done|]. pose proof (inspect_slave_quiet b' i c sl) as Hsl.
  destruct (inspect_slave b' i c sl) as [[sl' c'] i']. apply wp_bind. eapply wp_mod_s; [done|]. apply wp_ret.
  split; [|eauto]. eapply quiet_insert; [done|]. by rewrite (quiet_arp _ _ Hq), Ha.
Qed.

Lemma ab_inspect_slave_quiet b c sl : quiet_slave true sl (ab_inspect_slave b c sl).1.
Proof.
  unfold ab_inspect_slave. rewrite !propose_spec. rec_simpl.
  case_bool_decide as Hl; repeat case_match; rewrite ?bool_decide_eq_true in *; try simplify_eq; rewrite ?propose_spec;
    (split; unfold link_ok; simpl; rec_simpl; naive_solver).
Qed.

Lemma ab_inspect_quiet b :
  arp b = true -> (forall s, s ∈ slave_list b -> alive b s) ->
  wp bond_ab_arp_inspect (fun _ b' => quiet b b') b.
Proof.
  intros Ha Hal. unfold bond_ab_arp_inspect. apply wp_bind, wp_gets.
  apply quiet_loop; [done|]. intros c s sl b' Hq Hin Hs. apply wp_bind, wp_gets.
  apply wp_bind. eapply wp_get_s; [done|]. pose proof (ab_inspect_slave_quiet b' c sl) as Hsl.
  destruct (ab_inspect_slave b' c sl) as [sl' c']. apply wp_bind. eapply wp_mod_s; [done|]. apply wp_ret.
  split; [|eauto]. eapply quiet_insert; [done|]. by rewrite (quiet_arp _ _ Hq), Ha.
Qed.

(** *** The MII monitor *)

Lemma each_loop f (body : positive -> W unit) b :
  NoDup (slave_list b) -> (forall s, s ∈ slave_list b -> alive b s) -> respects f ->
  (forall s b', alive b' s -> bmode b' = bmode b -> curr_active_slave b' = curr_active_slave b ->
     wp (body s) (fun _ b'' => calm (upd s f b') b'') b') ->
  wp (for_each (slave_list b) tt (fun _ s => body s ;;; ret (Continue tt)))
    (fun _ b' => calm (each (slave_list b) f b) b') b.
Proof.
  intros Hnd Hal Hf Hbody.
  apply (wp_for_each (fun pre _ b' => calm (each pre f b) b')); [apply each_nil| |done].
  intros pre s post a b' Hl Hc. assert (Hin : s ∈ slave_list b) by (rewrite Hl; set_solver).
  assert (Ha : alive b' s) by (apply (calm_alive _ _ _ Hc), lookup_alive_each; auto).
  apply wp_bind. eapply wp_mono; [apply Hbody; [done|apply (calm_mode _ _ Hc)|apply (calm_curr _ _ Hc)]|].
  intros ? b'' Hc'. apply wp_ret. etrans; [|exact Hc']. etrans; [apply each_step|by apply upd_calm].
  rewrite Hl in Hnd. apply NoDup_app in Hnd as (_ & Hd & _). intros Hs. apply (Hd s Hs). set_solver.
Qed.

Lemma respects_take : respects lb_take.
Proof. intros x y []. unfold lb_take. rewrite soft_new. case_bool_decide; by split. Qed.

Lemma commit_all_each b : ab_base b -> wp commit_all (fun _ b' => calm (each (slave_list b) lb_take b) b') b.
Proof.
  intros Hb. unfold commit_all. apply wp_bind, wp_gets.
  apply (each_loop lb_take (fun s => mod_s s (bond_commit_link_state BOND_SLAVE_NOTIFY_LATER)));
    [apply Hb|apply Hb|apply respects_take|].
  intros s b' Hs _ _. apply mod_upd; [done|]. intros sl.
  destruct (commit_spec BOND_SLAVE_NOTIFY_LATER sl) as [n ->]. unfold lb_take. by case_bool_decide.
Qed.

Lemma commit_all_ok b :
  ab_inv b -> arp b = false ->
  wp commit_all (fun _ b' => mid false (slave_list b) b' /\ framed b b') b.
Proof.
  intros Hi Ha. eapply wp_mono; [apply commit_all_each, Hi|].
  intros ? b' Hc. split; [|by apply calm_framed in Hc]. apply (mid_calm _ _ _ _ Hc). by apply take_mid.
Qed.

Lemma wins_over_ok b s :
  alive b s -> (forall c, curr_active_slave b = Some c -> alive b c) ->
  wp (wins_over s) (fun r b' => b' = b /\ (curr_active_slave b = None -> r = true)) b.
Proof.
  intros [sl Hs] Hc. unfold wins_over. do 2 apply wp_bind, wp_gets.
  destruct (curr_active_slave b) as [c|]; [|by apply wp_ret]. destruct (Hc c eq_refl) as [cl Hcl].
  apply wp_bind. eapply wp_get_s; [done|]. apply wp_bind. eapply wp_get_s; [done|]. by apply wp_ret.
Qed.

Lemma link_change_ab b s l :
  bmode b = BOND_MODE_ACTIVEBACKUP -> wp (bond_miimon_link_change s l) (fun _ b' => b' = b) b.
Proof. intros Hm. unfold bond_miimon_link_change. apply wp_bind, wp_gets. rewrite Hm. by apply wp_ret. Qed.

Lemma needs_speed_ab : bond_needs_speed_duplex BOND_MODE_ACTIVEBACKUP = false.
Proof. destruct (bond_needs_speed_duplex _) eqn:E; [|done]. apply needs_speed_spec in E. by destruct E as [?|[?|?]]. Qed.

(** The slave that comes up: the state, and the flag. *)
Lemma commit_up_ok b s :
  ab_base b -> s ∈ slave_list b ->
  wp (commit_up s) (fun again b' => calm (upd s (core_link BOND_LINK_UP) b) b' /\
    (curr_active_slave b = None -> again = true)) b.
Proof.
  intros Hb Hin. unfold commit_up. apply wp_bind, wp_gets. rewrite (base_mode b Hb), needs_speed_ab. apply wp_bind.
  pose proof (base_alive b Hb s Hin) as Hal.
  eapply wp_mono; [by apply update_speed_calm|]. intros r b1 Hc1. rewrite andb_false_r.
  pose proof (calm_alive _ _ _ Hc1 Hal) as Hal1.
  apply wp_bind. eapply wp_mono; [by apply set_link_upd|]. intros ? b2 Hc2.
  assert (Hal2 : alive b2 s) by (by apply (calm_alive _ _ _ Hc2), alive_upd).
  apply wp_bind, wp_gets. apply wp_bind. eapply wp_mono; [by apply mod_soft|]. intros ? b3 Hc3.
  assert (Hc : calm (upd s (core_link BOND_LINK_UP) b) b3).
  { etrans; [|exact Hc3]. etrans; [|exact Hc2]. apply upd_calm; auto with mon. }
  rewrite (bool_decide_false (_ = BOND_MODE_8023AD)), (bool_decide_true (_ = BOND_MODE_ACTIVEBACKUP)) by done.
  apply wp_bind, wp_ret. apply wp_bind.
  eapply wp_mono; [apply link_change_ab; rewrite (calm_mode _ _ Hc); apply Hb|]. intros ? b4 ->.
  eapply wp_mono; [apply wins_over_ok|].
  - by apply (calm_alive _ _ _ Hc3).
  - intros c. rewrite (calm_curr _ _ Hc). intros Hcc. apply (calm_alive _ _ _ Hc), alive_upd.
    by apply (base_alive b Hb), (base_curr b Hb).
  - intros r' b5 [-> Hr]. split; [done|]. by rewrite (calm_curr _ _ Hc) in Hr.
Qed.

Definition core_down (sl : mslave) : mslave := core_active false (core_link BOND_LINK_DOWN sl).

Lemma soft_count sl : soft sl (count_failure sl).
Proof. unfold count_failure. by case_match. Qed.

(** The slave that goes down. *)
Lemma down_ok {A} b s now (k : W A) Q :
  ab_base b -> alive b s ->
  (forall b', calm (upd s core_down b) b' -> wp k Q b') ->
  wp (mod_s s count_failure ;;; set_link s BOND_LINK_DOWN now ;;; set_inactive_flags s now ;;; k) Q b.
Proof.
  intros Hb Hal Hk. apply wp_bind. eapply wp_mono; [apply mod_soft; [done|apply soft_count]|]. intros ? b1 Hc1.
  apply wp_bind. eapply wp_mono; [apply set_link_upd; by apply (calm_alive _ _ _ Hc1)|]. intros ? b2 Hc2.
  assert (Hm2 : bmode b2 = bmode b) by (rewrite (calm_mode _ _ Hc2); apply (calm_mode _ _ Hc1)).
  apply wp_bind. eapply wp_mono; [apply set_inactive_upd|].
  - rewrite Hm2. by apply not_lb.
  - by apply (calm_alive _ _ _ Hc2), alive_upd, (calm_alive _ _ _ Hc1).
  - simpl. intros ? b3 Hc3. apply Hk. etrans; [|exact Hc3]. etrans; [|apply upd_calm; [auto with mon|exact Hc2]].
    etrans; [|apply upd_calm; [auto with mon|apply upd_calm; [auto with mon|exact Hc1]]].
    apply (upd_compose_calm b s (core_link BOND_LINK_DOWN) (core_active false)).
Qed.

Lemma commit_down_ok b s :
  ab_base b -> s ∈ slave_list b ->
  wp (commit_down s) (fun again b' => calm (upd s core_down b) b' /\ again = is_ptr (curr_active_slave b) s) b.
Proof.
  intros Hb Hin. unfold commit_down. apply wp_bind, wp_gets. rewrite (base_mode b Hb).
  rewrite (bool_decide_true (_ = BOND_MODE_ACTIVEBACKUP)) by done. simpl.
  apply down_ok; [done|by apply (base_alive b Hb)|]. intros b1 Hc.
  apply wp_bind. eapply wp_mono; [apply link_change_ab; rewrite (calm_mode _ _ Hc); apply Hb|]. intros ? b2 ->.
  apply wp_bind, wp_gets, wp_ret. split; [done|]. by rewrite (calm_curr _ _ Hc).
Qed.

(** Nothing to do for this slave. *)
Lemma mid_skip flag todo b s sl :
  mid flag (s :: todo) b -> s ∉ todo -> mslaves b !! s = Some sl ->
  (link_new_state sl = BOND_LINK_UP -> curr_active_slave b <> None) -> link_new_state sl <> BOND_LINK_DOWN ->
  mid flag todo b.
Proof.
  intros [Hb Hc Hn] Hnin Hs Hu Hd. split; [done| |].
  - intros c Hcc. destruct (Hc c Hcc) as [?|(cl & Hcl & Hl & Hr)]; [by left|]. right. exists cl. split; [done|].
    split; [done|]. destruct Hr as [[? ?]|[Hr ?]]; [left; set_solver|]. apply elem_of_cons in Hr as [->|?]; [congruence|by right].
  - intros Hcc. destruct (Hn Hcc) as [?|Hn']; [by left|]. right. intros k Hin Hup.
    destruct (Hn' k Hin Hup) as (Hk & kl & Hkl & Hnew). split; [|eauto].
    apply elem_of_cons in Hk as [->|?]; [simplify_eq; by destruct (Hu Hnew)|done].
Qed.

Lemma mid_down flag todo b s :
  mid flag (s :: todo) b -> s ∉ todo -> s ∈ slave_list b ->
  mid (flag || is_ptr (curr_active_slave b) s) todo (upd s core_down b).
Proof.
  intros Hm Hnin Hin. pose proof (mid_base _ _ _ Hm) as Hb. destruct (base_alive b Hb s Hin) as [sl Hs].
  eapply mid_upd; [done..| | | |].
  - by eapply base_upd.
  - intros ->. done.
  - intros Hc. right. split; [done|]. unfold is_ptr. rewrite bool_decide_true by done. apply orb_true_r.
  - intros _. by right.
Qed.

Lemma commit_slave_mid flag todo b s :
  arp b = false -> mid flag (s :: todo) b -> s ∉ todo -> s ∈ slave_list b ->
  wp (commit_slave s) (fun again b' => mid (flag || again) todo b' /\ framed b b') b.
Proof.
  intros Ha Hm Hnin Hin. pose proof (mid_base _ _ _ Hm) as Hb. destruct (base_alive b Hb s Hin) as [sl Hs].
  assert (Hskip : link_new_state sl <> BOND_LINK_UP -> link_new_state sl <> BOND_LINK_DOWN ->
    mid (flag || false) todo b /\ framed b b).
  { intros Hu Hd. rewrite orb_false_r. split; [by eapply mid_skip|done]. }
  unfold commit_slave. apply wp_bind, wp_gets. apply wp_bind. eapply wp_get_s; [done|].
  destruct (link_new_state sl) eqn:Hnew; try by apply wp_ret, Hskip.
  - eapply wp_mono; [by apply commit_up_ok|]. intros again b' [Hc Hag]. split; [|by eapply upd_framed].
    apply (mid_calm _ _ _ _ Hc). eapply mid_upd; [done..| | | |].
    + eapply base_upd; [done..|]. by rewrite (base_mii b Hb Ha).
    + by intros ->.
    + intros Hcc. destruct (mid_curr _ _ _ Hm s Hcc) as [(sl' & Hs' & Hact & _)|(sl' & Hs' & Hl & Hr)].
      * left. exists (core_link BOND_LINK_UP sl). rewrite lookup_upd, decide_True, Hs by done. simplify_eq. split_and!; [done|done|by left].
      * simplify_eq. destruct Hr as [[_ Hr]|[_ Hr]]; [set_solver|congruence].
    + intros Hcc. left. rewrite (Hag Hcc). apply orb_true_r.
  - eapply wp_mono; [by apply commit_down_ok|]. intros again b' [Hc ->]. split; [|by eapply upd_framed].
    apply (mid_calm _ _ _ _ Hc). by apply mid_down.
  - rewrite (base_mode b Hb). rewrite (bool_decide_false (_ = BOND_MODE_8023AD)) by done.
    apply wp_bind, wp_ret, wp_ret, Hskip; done.
Qed.

(** A commit: the loop over the slaves, the selection, the carrier.  [R] is what else the
    steps keep. *)
Lemma commit_rest (R : mbond -> Prop) (body : positive -> W bool) b :
  mid false (slave_list b) b -> R b -> (forall x y, moves x y -> R x -> R y) ->
  (forall flag todo b' s, framed b b' -> mid flag (s :: todo) b' -> s ∉ todo -> s ∈ slave_list b' -> R b' ->
     wp (body s) (fun again b'' => (mid (flag || again) todo b'' /\ framed b' b'') /\ R b'') b') ->
  wp (let* l := gets slave_list in
      let* do_failover := for_each l false (fun do_failover s =>
        let* again := body s in ret (Continue (do_failover || again))) in
      when_ do_failover bond_select_active_slave ;;;
      let* _ := bond_set_carrier in
      ret tt) (fun _ b' => (ab_inv b' /\ framed b b') /\ R b') b.
Proof.
  intros Hm HR HRm Hbody. apply wp_bind, wp_gets. apply wp_bind.
  apply (wp_for_each (fun pre flag b' => framed b b' /\ R b' /\ exists todo, slave_list b = pre ++ todo /\ mid flag todo b')).
  - split_and!; [done|done|]. by exists (slave_list b).
  - intros pre s post flag b' Hl (Hf & HR' & todo & Hl' & Hm'). rewrite Hl in Hl'. apply app_inv_head in Hl' as <-.
    pose proof (base_nodup _ (mid_base _ _ _ Hm)) as Hnd. rewrite Hl in Hnd.
    apply NoDup_app in Hnd as (_ & _ & [Hs _]%NoDup_cons). apply wp_bind.
    eapply wp_mono; [apply Hbody; [done|exact Hm'|done| |done]|].
    + destruct Hf as (-> & _). rewrite Hl. set_solver.
    + intros again b'' [[Hm'' Hf'] HR'']. apply wp_ret. split_and!; [by etrans|done|]. exists post. by rewrite <- app_assoc.
  - intros flag b' (Hf & HR' & todo & Hl & Hm'). rewrite <- (app_nil_r (slave_list b)) in Hl at 1.
    apply app_inv_head in Hl as <-. destruct (mid_end _ _ Hm') as (Hb & Hlo & Hg). apply wp_bind.
    apply (wp_mono _ (fun _ b'' => ab_base b'' /\ curr_good b'' /\ framed b' b'' /\ R b'')).
    + destruct flag; simpl; [|apply wp_ret; split_and!; [done|auto|done|done]].
      eapply wp_mono; [by apply select_ok|]. intros ? b'' (? & ? & ? & _ & Hmv & _). split_and!; try done. by eapply HRm.
    + intros ? b'' (Hb' & Hg' & Hf' & HR''). apply wp_bind.
      eapply wp_mono; [apply set_carrier_ok; [by apply base_mem|by rewrite (base_mode _ Hb')]|].
      intros ? b3 Hc. apply wp_ret. split; [split|].
      * apply (inv_calm _ _ Hc). split; [by destruct Hb'|done|done].
      * etrans; [exact Hf|]. etrans; [exact Hf'|]. by apply calm_framed in Hc.
      * apply (HRm b''); [|done]. pose proof (calm_moves _ _ Hc) as Hmv. by destruct Hmv.
Qed.
End keep.
