(* ===== verification/MonMon.v ===== *)
(** * Failover: the monitors keep the invariant of active backup mode *)

From S2P Require Import Prelude.
From S2P Require Import BondXmit.
From S2P Require Import MonTypes.
From S2P Require Import MonOps.
From S2P Require Import MonLinks.
From S2P Require Import MonSwitch.
From S2P Require Import MonBest.
From S2P Require Import MonInv.
From S2P Require Import MonKeep.

(** The candidate is given up. *)
Definition no_candidate (b : mbond) : mbond := b <| current_arp_slave := None |>.

Lemma no_candidate_calm b b' : calm b b' -> calm (no_candidate b) (no_candidate b').
Proof. by intros []. Qed.

Lemma base_no_candidate b : ab_base b -> ab_base (no_candidate b).
Proof. intros []. by split. Qed.

Lemma mid_no_candidate flag todo b : mid flag todo b -> mid flag todo (no_candidate b).
Proof. intros [Hb Hc Hn]. split; [by apply base_no_candidate|done|done]. Qed.

(** The flag of the candidate is cleared, as it is not the active slave. *)
Lemma mid_clear flag todo b :
  arp b = true -> mid flag todo b -> mid flag todo (at_ptr (current_arp_slave b) (core_active false) b).
Proof.
  intros Ha Hm. destruct (current_arp_slave b) as [a|] eqn:Hca; [|done]. pose proof Hm as [Hb Hc Hn]. simpl.
  destruct (base_alive b Hb a (base_arps b Hb a Hca)) as [al Hal].
  assert (Hlk : forall k sl, mslaves b !! k = Some sl -> exists sl', mslaves (upd a (core_active false) b) !! k = Some sl' /\
    link sl' = link sl /\ link_new_state sl' = link_new_state sl /\ (k <> a -> sl' = sl)).
  { intros k sl Hk. rewrite lookup_upd. case_decide; [subst; rewrite Hk; simpl; by eexists|by eexists]. }
  split.
  - eapply base_upd; [done..| | | |]; simpl.
    + apply (base_link b Hb a al); [by apply (base_arps b Hb)|done].
    + done.
    + done.
    + intros _ Hl. apply (base_cand b Hb a Hca). by apply (up_link b a al Hal).
  - intros c Hcc. destruct (Hc c Hcc) as [(cl & Hcl & Hact & Hl)|(cl & Hcl & Hl & Hr)].
    + left. destruct (Hlk c cl Hcl) as (cl' & Hcl' & _ & _ & Heq).
      assert (cl' = cl) as ->; [|by exists cl]. apply Heq.
      intros ->. apply (base_cand b Hb a Hca), (up_link b a cl Hcl). destruct Hl as [?|[? _]]; [done|congruence].
    + right. destruct (Hlk c cl Hcl) as (cl' & Hcl' & Hl' & Hn' & _). exists cl'. by rewrite Hl', Hn'.
  - intros Hcc. destruct (Hn Hcc) as [?|Hn']; [by left|]. right. intros s Hin Hup.
    apply (up_upd b a _ s al Hal) in Hup. assert (Hup' : up b s).
    { destruct Hup as [[-> Hup]|[_ ?]]; [|done]. by apply (up_link b a al Hal). }
    destruct (Hn' s Hin Hup') as (Hs & sl & Hsl & Hnew). split; [done|].
    destruct (Hlk s sl Hsl) as (sl' & Hsl' & _ & Hnew' & _). exists sl'. by rewrite Hnew'.
Qed.

Lemma link_active_comm b s l o a :
  calm (upd s (core_link l) (at_ptr o (core_active a) b)) (at_ptr o (core_active a) (upd s (core_link l) b)).
Proof.
  split; try (by destruct o). intros k. rewrite lookup_upd, !lookup_at, lookup_upd.
  case_decide as Hk; [subst|]; destruct (mslaves b !! _); simpl; constructor; by case_bool_decide.
Qed.

Section mon.
Context `{MonLaws}.
Abbreviation W := (M mbond).

(** An operation that keeps the invariant, with the ARP monitor or without it. *)
Definition stable {A} (a : bool) (m : W A) : Prop :=
  forall b, ab_inv b -> arp b = a -> wp m (fun _ b' => ab_inv b' /\ framed b b') b.

Lemma stable_of_keeps {A} a (m : W A) : keeps m -> stable a m.
Proof.
  intros Hm b Hi _. eapply wp_mono; [apply Hm, base_mem, Hi|]. simpl. intros ? b' Hc.
  split; [by apply (inv_calm _ _ Hc)|by apply calm_framed].
Qed.

Lemma stable_bind {A B} a (m : W A) (k : A -> W B) : stable a m -> (forall x, stable a (k x)) -> stable a (bind m k).
Proof.
  intros Hm Hk b Hi Ha. apply wp_bind. eapply wp_mono; [by apply Hm|]. intros x b1 [Hi1 Hf1].
  eapply wp_mono; [apply Hk; [done|]|].
  - destruct Hf1 as (_ & -> & _). done.
  - intros ? b2 [? ?]. split; [done|by etrans].
Qed.

Lemma stable_gets {A B} a (f : mbond -> A) (k : A -> W B) : (forall x, stable a (k x)) -> stable a (bind (gets f) k).
Proof. intros Hk. apply stable_bind; [|done]. intros b Hi _. by apply wp_gets. Qed.

Lemma stable_ret {A} a (x : A) : stable a (ret x).
Proof. apply stable_of_keeps, keeps_ret. Qed.

Lemma stable_when a c m : stable a m -> stable a (when_ c m).
Proof. intros Hm. destruct c; [done|apply stable_ret]. Qed.

(** ** The MII monitor *)

Lemma keeps_pending : keeps (let* n := gets send_peer_notif in when_ (negb (n =? 0)) (bond_peer_notify_may_events true)).
Proof. apply keeps_gets. intros n. apply keeps_when, keeps_may_events. Qed.

Lemma keeps_rearm r : keeps (mii_rearm r).
Proof. apply keeps_gets. intros. apply keeps_ret. Qed.

Lemma mii_commit_ok : stable false (commit_all ;;; bond_miimon_commit).
Proof.
  intros b Hi Ha. apply wp_bind. eapply wp_mono; [by apply commit_all_ok|].
  intros ? b1 [Hm Hf]. pose proof Hf as (Hl & Ha1 & _). rewrite <- Hl in Hm.
  eapply wp_mono; [apply (commit_rest (fun _ => True) commit_slave b1 Hm); [done|done|]|].
  - intros flag todo b2 s (_ & Ha2 & _) Hm2 Hn Hin _.
    eapply wp_mono; [apply commit_slave_mid; try done; congruence|]. done.
  - intros ? b2 [[Hi2 Hf2] _]. split; [done|by etrans].
Qed.

Lemma mii_locked_ok c : stable false (mii_locked c).
Proof.
  apply stable_bind; [apply stable_when, mii_commit_ok|]. intros _. apply stable_of_keeps, keeps_pending.
Qed.

Lemma mii_inspect_ok : stable false bond_miimon_inspect.
Proof.
  intros b Hi Ha. eapply wp_mono; [apply mii_inspect_quiet; [done|apply Hi]|].
  intros ? b' Hq. split; [by apply (quiet_inv _ _ Hq)|]. by destruct Hq.
Qed.

Lemma mii_monitor_ok : stable false bond_mii_monitor.
Proof.
  pose proof (fun r => stable_of_keeps false _ (keeps_rearm r)) as Hre.
  apply stable_gets. intros l. case_match; [apply Hre|]. apply stable_bind; [apply mii_inspect_ok|]. intros c.
  apply stable_gets. intros n. destruct (_ || _); [|apply Hre].
  apply stable_bind; [apply stable_of_keeps, keeps_attempt|]. intros [|]; simpl; [|apply Hre].
  apply stable_bind; [apply mii_locked_ok|done].
Qed.

(** ** The ARP monitor *)

Lemma ab_inspect_ok : stable true bond_ab_arp_inspect.
Proof.
  intros b Hi Ha. eapply wp_mono; [apply ab_inspect_quiet; [done|apply Hi]|].
  intros ? b' Hq. split; [by apply (quiet_inv _ _ Hq)|]. by destruct Hq.
Qed.

Lemma clear_ok b a :
  bond_is_lb (bmode b) = false -> (forall s, a = Some s -> alive b s) -> current_arp_slave b = a ->
  wp (optionally a (fun c =>
      set_inactive_flags c BOND_SLAVE_NOTIFY_NOW ;;; modify (fun b => b <| current_arp_slave := None |>)))
    (fun _ b' => calm (no_candidate (at_ptr a (core_active false) b)) b') b.
Proof.
  intros Hlb Hal Hca. destruct a as [a|]; simpl.
  - apply wp_bind. eapply wp_mono; [apply set_inactive_upd; auto|]. intros ? b1 Hc. apply wp_mod.
    exact (no_candidate_calm _ _ Hc).
  - apply wp_ret. unfold no_candidate. rewrite <- Hca. split; done.
Qed.

Lemma ab_commit_up_mid flag todo b s sl :
  arp b = true -> mid flag (s :: todo) b -> s ∉ todo -> s ∈ slave_list b ->
  mslaves b !! s = Some sl -> link_new_state sl = BOND_LINK_UP ->
  wp (ab_commit_up s) (fun again b' => mid (flag || again) todo b' /\ framed b b') b.
Proof.
  intros Ha Hm Hnin Hin Hs Hnew. pose proof (mid_base _ _ _ Hm) as Hb. unfold ab_commit_up.
  apply wp_bind, wp_gets. apply wp_bind. eapply wp_get_s; [done|].
  destruct (decide (curr_active_slave b = Some s)) as [Hcs|Hcs].
  { unfold is_ptr. rewrite bool_decide_true, (bool_decide_false (_ = None)) by congruence. simpl. apply wp_ret.
    rewrite orb_false_r. split; [|done]. eapply mid_skip; [done..| |]; congruence. }
  unfold is_ptr. rewrite bool_decide_false by done. simpl.
  assert (Hal : alive b s) by (by exists sl).
  apply wp_bind. eapply wp_mono; [by apply set_link_upd|]. intros ? b1 Hc1. apply wp_bind.
  eapply wp_mono; [apply clear_ok|].
  - rewrite (calm_mode _ _ Hc1). exact (not_lb b Hb).
  - intros x Hx. apply (calm_alive _ _ _ Hc1), alive_upd. by apply (base_alive b Hb), (base_arps b Hb).
  - by rewrite (calm_arps _ _ Hc1).
  - intros ? b2 Hc2. set (b0 := no_candidate (at_ptr (current_arp_slave b) (core_active false) b)).
    assert (Hc : calm (upd s (core_link BOND_LINK_UP) b0) b2).
    { etrans; [|exact Hc2].
      etrans; [|apply no_candidate_calm, at_ptr_calm; [auto with mon|exact Hc1]].
      apply (no_candidate_calm _ _ (link_active_comm b s BOND_LINK_UP (current_arp_slave b) false)). }
    assert (Hm0 : mid flag (s :: todo) b0) by (by apply mid_no_candidate, mid_clear).
    assert (Hf0 : framed b b0) by (unfold b0; by destruct (current_arp_slave b)).
    assert (Hcu0 : curr_active_slave b0 = curr_active_slave b) by (unfold b0; by destruct (current_arp_slave b)).
    pose proof (mid_base _ _ _ Hm0) as Hb0.
    assert (Hin0 : s ∈ slave_list b0) by (by rewrite (proj1 Hf0)).
    destruct (base_alive b0 Hb0 s Hin0) as [sl0 Hs0].
    assert (Hcu2 : curr_active_slave b2 = curr_active_slave b) by (by rewrite (calm_curr _ _ Hc)).
    eapply wp_mono; [apply wins_over_ok|].
    + apply (calm_alive _ _ _ Hc), alive_upd. by exists sl0.
    + intros c. rewrite Hcu2, <- Hcu0. intros Hcc. apply (calm_alive _ _ _ Hc), alive_upd.
      by apply (base_alive b0 Hb0), (base_curr b0 Hb0).
    + intros again b3 [-> Hag]. rewrite Hcu2 in Hag. split; [|etrans; [exact Hf0|by eapply upd_framed]].
      apply (mid_calm _ _ _ _ Hc). eapply mid_upd; [exact Hm0|done|done| | | |].
      * eapply base_upd; [done..|]. unfold b0, no_candidate. by rec_simpl.
      * by intros ->.
      * rewrite Hcu0. done.
      * rewrite Hcu0. intros Hcc. left. rewrite (Hag Hcc). apply orb_true_r.
Qed.

Definition core_fail (sl : mslave) : mslave := core_active false (core_link BOND_LINK_FAIL sl).

Lemma mid_candidate flag todo b c :
  mid flag todo b -> wp (when_ c (modify (fun b => b <| current_arp_slave := None |>)))
    (fun _ b' => mid flag todo b' /\ framed b b') b.
Proof. intros Hm. destruct c; [apply wp_mod|by apply wp_ret]. split; [by apply mid_no_candidate|done]. Qed.

Lemma ab_commit_fail_mid flag todo b s sl :
  arp b = true -> mid flag (s :: todo) b -> s ∉ todo -> s ∈ slave_list b ->
  mslaves b !! s = Some sl -> link_new_state sl = BOND_LINK_FAIL ->
  wp (ab_commit_fail s) (fun again b' => mid (flag || again) todo b' /\ framed b b') b.
Proof.
  intros Ha Hm Hnin Hin Hs Hnew. pose proof (mid_base _ _ _ Hm) as Hb. unfold ab_commit_fail.
  assert (Hal : alive b s) by (by exists sl).
  apply wp_bind. eapply wp_mono; [by apply set_link_upd|]. intros ? b1 Hc1.
  apply wp_bind. eapply wp_mono; [apply set_inactive_upd|].
  - rewrite (calm_mode _ _ Hc1). exact (not_lb b Hb).
  - by apply (calm_alive _ _ _ Hc1), alive_upd.
  - intros ? b2 Hc2. assert (Hc : calm (upd s core_fail b) b2).
    { etrans; [|exact Hc2]. etrans; [|apply upd_calm; [auto with mon|exact Hc1]].
      apply (upd_compose_calm b s (core_link BOND_LINK_FAIL) (core_active false)). }
    pose proof (base_link b Hb s sl Hin Hs) as (_ & _ & Hfl). specialize (Hfl Ha Hnew).
    assert (Hm2 : mid flag todo b2).
    { apply (mid_calm _ _ _ _ Hc). eapply mid_upd; [exact Hm|done|done| |done| |].
      - eapply base_upd; [done..| |done|done|done]. split_and!; [done|done|by right].
      - intros Hcc. destruct (mid_curr _ _ _ Hm s Hcc) as [(sl' & Hs' & _ & Hl)|(sl' & Hs' & Hl & _)]; simplify_eq.
        + destruct Hl as [Hl|[Hl _]]; [|congruence]. rewrite Hl in Hfl. by destruct Hfl.
        + rewrite Hl in Hfl. by destruct Hfl.
      - by right. }
    apply wp_bind, wp_gets. apply wp_bind. eapply wp_mono; [by apply mid_candidate|].
    intros ? b3 [Hm3 Hf3]. apply wp_ret. rewrite orb_false_r. split; [done|].
    etrans; [by eapply upd_framed|done].
Qed.

Lemma ab_commit_slave_mid flag todo b s :
  arp b = true -> mid flag (s :: todo) b -> s ∉ todo -> s ∈ slave_list b ->
  wp (ab_commit_slave s) (fun again b' => mid (flag || again) todo b' /\ framed b b') b.
Proof.
  intros Ha Hm Hnin Hin. pose proof (mid_base _ _ _ Hm) as Hb. destruct (base_alive b Hb s Hin) as [sl Hs].
  assert (Hskip : link_new_state sl <> BOND_LINK_UP -> link_new_state sl <> BOND_LINK_DOWN ->
    mid (flag || false) todo b /\ framed b b).
  { intros Hu Hd. rewrite orb_false_r. split; [|done]. by eapply mid_skip. }
  unfold ab_commit_slave. apply wp_bind. eapply wp_get_s; [done|].
  destruct (link_new_state sl) eqn:Hnew; try by apply wp_ret, Hskip.
  - by eapply ab_commit_up_mid.
  - by eapply ab_commit_fail_mid.
  - apply down_ok; [done|by exists sl|]. intros b1 Hc. apply wp_bind, wp_gets. rewrite (calm_curr _ _ Hc).
    apply wp_bind. eapply wp_mono; [apply mid_candidate, (mid_calm _ _ _ _ Hc), mid_down; [exact Hm|done|done]|].
    intros ? b2 [Hm2 Hf2]. apply wp_ret. split; [done|]. etrans; [by eapply upd_framed|done].
Qed.

Lemma ab_commit_ok : stable true bond_ab_arp_commit.
Proof.
  intros b Hi Ha. eapply wp_mono; [apply (commit_rest (fun _ => True) ab_commit_slave b); [by apply mid_start|done|done|]|].
  - intros flag todo b2 s (_ & Ha2 & _) Hm2 Hn Hin _.
    eapply wp_mono; [apply ab_commit_slave_mid; try done; congruence|]. done.
  - by intros ? b' [? _].
Qed.

(** *** Probes *)

Definition core_probe (sl : mslave) : mslave := core_active true (core_link BOND_LINK_BACK sl).

(** A new candidate, while no slave is active. *)
Lemma candidate_inv b s :
  ab_inv b -> arp b = true -> curr_active_slave b = None -> s ∈ slave_list b ->
  ab_inv (upd s core_probe b <| current_arp_slave := Some s |>).
Proof.
  intros [Hb Hg Hx] Ha Hc Hin. unfold curr_good in Hg. rewrite Hc in Hg.
  destruct (base_alive b Hb s Hin) as [sl Hs].
  assert (Hb' : ab_base (upd s core_probe b)).
  { eapply base_upd; [done..| | |done|done]; [|congruence]. split_and!; [done|by left|done]. }
  assert (Hup : forall k, ~ up (upd s core_probe b) k <-> k = s \/ ~ up b k).
  { intros k. rewrite (up_upd b s _ k sl Hs). simpl. split; [|naive_solver].
    destruct (decide (k = s)); [by left|]. intros Hn. right. intros Hk. apply Hn. by right. }
  split.
  - destruct Hb'. split; try done; rec_simpl.
    + by intros k [= ->].
    + intros Hna. change (arp b = false) in Hna. congruence.
    + intros k [= ->]. apply Hup. by left.
  - unfold curr_good. rec_simpl. unfold upd. rec_simpl. rewrite Hc. intros k Hk. apply (Hup k). right. auto.
  - intros Hxp. specialize (Hx Hxp). unfold carrier_right in *. unfold any_up in *. rec_simpl.
    change (dev_carrier (upd s core_probe b)) with (dev_carrier b). rewrite Hx. apply bool_decide_ext.
    change (slave_list (upd s core_probe b)) with (slave_list b). rewrite !Exists_exists.
    split; [intros (k & Hk & Hku); by apply Hg in Hku|].
    intros (k & Hk & Hku). exfalso. apply (proj2 (Hup k)); [|exact Hku]. right. auto.
Qed.

Lemma probe_candidate_ok b s :
  alive b s ->
  wp (probe_candidate s) (fun _ b' => calm (upd s core_probe b <| current_arp_slave := Some s |>) b') b.
Proof.
  intros Hal. unfold probe_candidate. apply wp_bind. eapply wp_mono; [by apply set_link_upd|]. intros ? b1 Hc1.
  assert (Hal1 : alive b1 s) by (by apply (calm_alive _ _ _ Hc1), alive_upd).
  apply wp_bind. eapply wp_mono; [by apply set_active_upd|]. intros ? b2 Hc2.
  assert (Hal2 : alive b2 s) by (by apply (calm_alive _ _ _ Hc2), alive_upd).
  apply wp_bind, wp_mod. apply wp_bind, wp_gets. apply wp_bind.
  eapply wp_mono; [by apply mod_soft|]. intros ? b3 Hc3. apply wp_mod.
  assert (Hc : calm (upd s core_probe b) b3).
  { etrans; [|exact Hc3].
    transitivity b2; [|done]. etrans; [|exact Hc2]. etrans; [|apply upd_calm; [auto with mon|exact Hc1]].
    apply (upd_compose_calm b s (core_link BOND_LINK_BACK) (core_active true)). }
  by destruct Hc.
Qed.

(** No slave is up, so none is marked down. *)
Lemma probe_mark_ok b s sl :
  mslaves b !! s = Some sl -> ~ up b s -> wp (probe_mark s) (fun _ b' => b' = b) b.
Proof.
  intros Hs Hn. unfold probe_mark. apply wp_bind. eapply wp_get_s; [done|].
  rewrite (bool_decide_false (link sl = _)), andb_false_r; [by apply wp_ret|].
  by rewrite <- (up_link b s sl Hs).
Qed.

Lemma probe_next_ok b c :
  ab_base b -> (forall s, s ∈ slave_list b -> ~ up b s) ->
  wp (probe_next c) (fun r b' => b' = b /\ forall s, r = Some s -> s ∈ slave_list b) b.
Proof.
  intros Hb Hn. unfold probe_next. apply wp_bind, wp_gets. apply wp_bind.
  apply (wp_for_each (fun _ '(_, before, new) b' => b' = b /\
    (forall s, before = Some s -> s ∈ slave_list b) /\ forall s, new = Some s -> s ∈ slave_list b)).
  - done.
  - intros pre s post [[found before] new] b' Hl (-> & Hbe & Hne).
    assert (Hin : s ∈ slave_list b) by (rewrite Hl; set_solver).
    destruct (base_alive b Hb s Hin) as [sl Hs]. unfold probe_step.
    apply wp_bind. eapply wp_get_s; [done|]. apply wp_bind.
    eapply wp_mono; [by eapply probe_mark_ok; [|apply Hn]|]. intros ? b' ->. apply wp_ret.
    split; [done|]. split; intros k; case_match; naive_solver.
  - intros [[found before] new] b' (-> & Hbe & Hne). apply wp_ret. split; [done|].
    intros s Hs. destruct new; naive_solver.
Qed.

(** The first of some slaves that is up. *)
Fixpoint first_up (b : mbond) (l : list positive) : option positive :=
  match l with
  | [] => None
  | s :: l => if field b is_up false s then Some s else first_up b l
  end.

Lemma first_up_app b l1 l2 :
  first_up b (l1 ++ l2) = match first_up b l1 with Some s => Some s | None => first_up b l2 end.
Proof. induction l1 as [|s l1 IH]; simpl; [done|]. by destruct (field b is_up false s). Qed.

Lemma first_up_snoc b l s sl :
  mslaves b !! s = Some sl ->
  first_up b (l ++ [s]) = match first_up b l with Some k => Some k | None => if is_up sl then Some s else None end.
Proof.
  intros Hs. rewrite first_up_app. destruct (first_up b l); [done|]. simpl. by rewrite (field_eq b is_up false s sl Hs).
Qed.

(** The search is through the slaves behind the candidate, then through those up to it. *)
Lemma probe_next_first b c l1 l2 :
  ab_base b -> (forall s, s ∈ slave_list b -> ~ up b s) -> slave_list b = l1 ++ c :: l2 ->
  wp (probe_next c) (fun r b' => b' = b /\ r = first_up b (l2 ++ l1 ++ [c])) b.
Proof.
  intros Hb Hn Hl. unfold probe_next. apply wp_bind, wp_gets. apply wp_bind.
  assert (Hnd : NoDup (l1 ++ c :: l2)) by (rewrite <- Hl; apply Hb).
  set (I := fun (pre : list positive) (acc : bool * option positive * option positive) (b' : mbond) =>
    let '(found, before, new) := acc in b' = b /\
    if found then exists m, pre = l1 ++ c :: m /\ before = first_up b (l1 ++ [c]) /\ new = first_up b m
    else (c ∉ pre) /\ before = first_up b pre /\ new = None).
  apply (wp_for_each I).
  - split; [done|]. split; [set_solver|done].
  - intros pre s post [[found before] new] b' Hl' [-> Hi].
    assert (Hin : s ∈ slave_list b) by (rewrite Hl'; set_solver).
    destruct (base_alive b Hb s Hin) as [sl Hs]. unfold probe_step.
    apply wp_bind. eapply wp_get_s; [done|]. apply wp_bind.
    eapply wp_mono; [by eapply probe_mark_ok; [|apply Hn]|]. intros ? b' ->. apply wp_ret. split; [done|].
    destruct found; simpl.
    + destruct Hi as (m & -> & -> & ->). exists (m ++ [s]). split_and!; [by rewrite <- app_assoc|done|].
      rewrite (first_up_snoc b m s sl Hs). by destruct (first_up b m), (is_up sl).
    + destruct Hi as (Hc & -> & ->).
      assert (Hsn : (if bool_decide (first_up b pre = None) && is_up sl then Some s else first_up b pre) = first_up b (pre ++ [s])).
      { rewrite (first_up_snoc b pre s sl Hs). by destruct (first_up b pre), (is_up sl). }
      rewrite Hsn. clear Hsn. case_bool_decide as Hsc.
      * subst s. exists []. assert (pre = l1) as ->; [|done]. rewrite Hl in Hl'.
        apply app_two_splits_nodup in Hl'; done.
      * split_and!; [set_solver|done|done].
  - intros [[found before] new] b' [-> Hi]. apply wp_ret. split; [done|]. destruct found.
    + destruct Hi as (m & Hm & -> & ->). rewrite Hl in Hm. apply app_inv_head in Hm. injection Hm as <-.
      by rewrite (first_up_app b l2 (l1 ++ [c])).
    + destruct Hi as (Hc & _). exfalso. apply Hc. rewrite Hl. set_solver.
Qed.

Lemma must_notify_ok b : ab_base b -> wp must_notify (fun _ b' => b' = b) b.
Proof.
  intros Hb. unfold must_notify. apply wp_bind, wp_gets.
  apply (wp_for_each (fun _ _ b' => b' = b)); [done| |done].
  intros pre s post a b' Hl ->. destruct (base_alive b Hb s) as [sl Hs]; [rewrite Hl; set_solver|].
  apply wp_bind. eapply wp_get_s; [done|]. apply wp_ret. by case_match.
Qed.

Lemma probe_ok : stable true bond_ab_arp_probe.
Proof.
  intros b Hi Ha. pose proof (inv_base b Hi) as Hb. unfold bond_ab_arp_probe. apply wp_bind, wp_gets.
  destruct (curr_active_slave b) as [c|] eqn:Hc.
  { apply wp_bind, wp_mod, wp_ret. split; [|done]. by apply (inv_calm b). }
  do 2 apply wp_bind, wp_gets.
  assert (Hn : forall s, s ∈ slave_list b -> ~ up b s).
  { pose proof (inv_curr b Hi) as Hg. unfold curr_good in Hg. by rewrite Hc in Hg. }
  destruct (match current_arp_slave b with Some c => Some c | None => head (slave_list b) end) as [c|]; [|by apply wp_ret].
  apply wp_bind. eapply wp_mono; [by apply probe_next_ok|]. intros r b1 [-> Hr]. apply wp_bind.
  apply (wp_mono _ (fun _ b' => ab_inv b' /\ framed b b')).
  - destruct r as [s|]; [|by apply wp_ret]. simpl.
    eapply wp_mono; [apply probe_candidate_ok, (base_alive b Hb); auto|]. intros ? b2 Hc2.
    split; [|by apply calm_framed in Hc2]. apply (inv_calm _ _ Hc2). apply candidate_inv; auto.
  - intros ? b2 [Hi2 Hf2]. eapply wp_mono; [apply must_notify_ok, Hi2|]. by intros ? b3 ->.
Qed.

Lemma each_slave_calm f b :
  mem_ok b -> (forall sl, soft sl (f sl)) -> wp (each_slave f) (fun _ b' => calm b b') b.
Proof.
  intros Hok Hf. unfold each_slave. apply wp_bind, wp_gets.
  apply (wp_for_each (fun _ _ b' => calm b b')); [done| |done].
  intros pre s post a b' Hl Hc. apply wp_bind. eapply wp_mono; [apply mod_soft; [|done]|].
  - apply (calm_alive _ _ _ Hc), (mem_list b Hok). rewrite Hl. set_solver.
  - intros ? b2 Hc2. apply wp_ret. etrans; [exact Hc|exact Hc2].
Qed.

Lemma notify_locked_ok r : keeps (ab_notify_locked r).
Proof.
  apply keeps_gets. intros n. apply keeps_bind; [apply keeps_when, keeps_may_events|]. intros _.
  apply keeps_when, keeps_bind; [|intros _]; intros b Hok; (apply each_slave_calm; [done|]); intros sl.
  - destruct (state_notify_spec sl) as [k ->]. by split.
  - destruct (link_notify_spec sl) as [k ->]. by split.
Qed.

Lemma keeps_arp_rearm r : keeps (arp_rearm r).
Proof. apply keeps_gets. intros. apply keeps_ret. Qed.

Lemma ab_arp_rest_ok : stable true ab_arp_rest.
Proof.
  pose proof (fun r => stable_of_keeps true _ (keeps_arp_rearm r)) as Hre.
  apply stable_bind; [apply probe_ok|]. intros r. apply stable_gets. intros n. destruct (_ || _); [|apply Hre].
  apply stable_bind; [apply stable_of_keeps, keeps_attempt|]. intros [|]; simpl; [|apply Hre].
  apply stable_bind; [apply stable_of_keeps, notify_locked_ok|done].
Qed.

Lemma arp_mon_ok : stable true bond_activebackup_arp_mon.
Proof.
  pose proof (fun r => stable_of_keeps true _ (keeps_arp_rearm r)) as Hre.
  apply stable_gets. intros l. case_match; [apply Hre|]. apply stable_bind; [apply ab_inspect_ok|]. intros c.
  destruct (negb _); [|apply ab_arp_rest_ok].
  apply stable_bind; [apply stable_of_keeps, keeps_attempt|]. intros [|]; simpl; [|apply Hre].
  apply stable_bind; [apply ab_commit_ok|]. intros _. apply ab_arp_rest_ok.
Qed.
End mon.

(** * Failover: releasing slaves, events and options keep the invariant *)

From S2P Require Import MonEntry.

(** ** Without a slave *)

Definition unlinked (s : positive) (b : mbond) : mbond := b <| slave_list ::= filter (fun x => x <> s) |>.

Lemma elem_unlinked s k b : k ∈ slave_list (unlinked s b) <-> k <> s /\ k ∈ slave_list b.
Proof. unfold unlinked. rec_simpl. by rewrite list_elem_of_filter. Qed.

Definition without (s : positive) (b : mbond) : mbond :=
  unlinked s b <| curr_active_slave := if is_ptr (curr_active_slave b) s then None else curr_active_slave b |>.

Lemma base_without s b :
  ab_base b -> current_arp_slave b <> Some s -> primary_slave b <> Some s -> ab_base (without s b).
Proof.
  intros Hb Ha Hp. pose proof Hb as []. unfold without, is_ptr.
  assert (Hin : forall k, k ∈ slave_list (unlinked s b) -> k ∈ slave_list b) by (intros k; rewrite elem_unlinked; tauto).
  split; rec_simpl; try done.
  - by apply NoDup_filter.
  - intros k Hk. by apply base_alive, Hin.
  - intros k Hk. apply elem_unlinked. case_bool_decide as Hc; [done|]. split; [congruence|auto].
  - intros k Hk. change (primary_slave b = Some k) in Hk. apply elem_unlinked. split; [congruence|auto].
  - intros k Hk. change (current_arp_slave b = Some k) in Hk. apply elem_unlinked. split; [congruence|auto].
  - intros k sl Hk. by apply base_link, Hin.
  - intros Hna k sl Hk Hs Hact. pose proof (base_single Hna k sl (Hin k Hk) Hs Hact) as Hc.
    apply elem_unlinked in Hk as [? _]. rewrite Hc. by rewrite bool_decide_false by congruence.
  - intros Hat. destruct (base_delay Hat) as [Hu Hd]. split; [done|]. intros k sl Hk. by apply Hd, Hin.
Qed.

Lemma good_without s b : curr_good b -> curr_active_slave b <> Some s -> curr_good (without s b).
Proof.
  intros Hg Hc. unfold curr_good, without, is_ptr in *. rec_simpl. rewrite bool_decide_false by done.
  destruct (curr_active_slave b); [done|]. intros k [_ Hk]%elem_unlinked. by apply Hg.
Qed.

Lemma any_up_change new b :
  (forall s, new = Some s -> up b s) -> bmode b = BOND_MODE_ACTIVEBACKUP -> any_up (pure_change new b) = any_up b.
Proof.
  intros Hn Hm. destruct (decide (curr_active_slave b = new)) as [Hc|Hc].
  { unfold pure_change. by rewrite bool_decide_true. }
  unfold any_up. destruct (change_fields new b) as (-> & _). apply bool_decide_ext.
  assert (Hup : forall k, up (pure_change new b) k <-> up b k).
  { intros k. unfold up. rewrite lookup_change by done. destruct (mslaves b !! k) as [sl|] eqn:Hs; [|done]. simpl.
    destruct (changed_cases new (curr_active_slave b) k sl) as [(_ & -> & _)|(-> & _ & -> & _)]; [done|].
    specialize (Hn k eq_refl). apply (up_link b k sl Hs) in Hn. by rewrite Hn. }
  rewrite !Exists_exists. by setoid_rewrite Hup.
Qed.

Section calls.
Context `{MonLaws}.
Abbreviation W := (M mbond).

(** ** Selecting again *)

Lemma select_stable a : stable a bond_select_active_slave.
Proof.
  intros b [Hb Hg Hx] _. eapply wp_mono; [apply select_ok; [done|by apply good_loose]|].
  intros ? b' (? & ? & Hf & _ & _ & Hc). split; [|done]. split; [done|done|].
  destruct Hf as (_ & _ & ->). auto.
Qed.

Lemma change_stable b new :
  ab_inv b -> (forall s, new = Some s -> s ∈ slave_list b /\ up b s) ->
  wp (bond_change_active_slave new) (fun _ b' => ab_base b' /\ curr_loose b' /\ framed b b' /\
    (is_Some new -> curr_good b') /\ (carrier_right b -> carrier_right b')) b.
Proof.
  intros [Hb Hg Hx] Hn. eapply wp_mono; [apply change_active_ok; [by apply not_lb|by apply base_mem|]|].
  - intros s Hs. apply (base_alive b Hb). by apply Hn.
  - intros ? b' Hc. destruct (change_fields new b) as (Hl & Hcu & _ & _ & _ & Har & _ & Hca & Hxp).
    assert (He : forall s, new = Some s -> eligible b s).
    { intros s Hs. destruct (Hn s Hs). split; [done|by left]. }
    assert (Hgood : is_Some new -> curr_good b').
    { intros [s ->]. apply (curr_good_calm _ _ Hc), change_good; [done|by apply good_loose|]. auto. }
    split_and!.
    + apply (base_calm _ _ Hc). by apply change_base.
    + destruct new as [s|]; [apply good_loose, Hgood; eauto|].
      intros c. rewrite (calm_curr _ _ Hc), Hcu. done.
    + unfold framed. by rewrite (calm_list _ _ Hc), (calm_arp _ _ Hc), (calm_xdp _ _ Hc).
    + done.
    + intros Hr. apply (carrier_calm _ _ Hc). unfold carrier_right. rewrite Hca, any_up_change; [done| |apply Hb].
      intros s Hs. by apply Hn.
Qed.

(** ** Options *)

Lemma active_none_ok a : stable a (bond_option_active_slave_set None).
Proof.
  intros b Hi Ha. unfold bond_option_active_slave_set. apply wp_bind.
  eapply wp_mono; [by apply change_stable|]. intros ? b1 (Hb1 & Hl1 & Hf1 & _ & Hc1). apply wp_bind.
  eapply wp_mono; [by apply select_ok|]. intros ? b2 (? & ? & Hf2 & _ & _ & Hc2). apply wp_ret.
  split; [|by etrans]. split; [done|done|].
  destruct Hf1 as (_ & _ & Hx1), Hf2 as (_ & _ & Hx2). rewrite Hx2, Hx1. intros Hx. by apply Hc2, Hc1, Hi.
Qed.

Lemma active_some_ok b s :
  ab_inv b -> s ∈ slave_list b ->
  wp (bond_option_active_slave_set (Some s)) (fun _ b' => ab_inv b' /\ framed b b') b.
Proof.
  intros Hi Hin. pose proof (inv_base b Hi) as Hb. destruct (base_alive b Hb s Hin) as [sl Hs].
  unfold bond_option_active_slave_set. apply wp_bind, wp_gets. apply wp_bind. eapply wp_get_s; [done|].
  case_match; [by apply wp_ret|]. destruct (_ && _) eqn:Hcond; [|by apply wp_ret].
  apply andb_true_iff in Hcond as [[_ Hup]%andb_true_iff _]. apply bool_decide_eq_true in Hup.
  apply wp_bind. eapply wp_mono; [apply change_stable; [done|]|].
  - intros k [= <-]. split; [done|]. by apply (up_link b s sl Hs).
  - intros ? b1 (Hb1 & _ & Hf1 & Hg1 & Hc1). apply wp_ret. split; [|done]. split; [done|by apply Hg1|].
    destruct Hf1 as (_ & _ & ->). intros Hx. by apply Hc1, Hi.
Qed.

(** The primary slave is none, or a slave of the bond. *)
Lemma inv_prim b p :
  ab_inv b -> (forall s, p = Some s -> s ∈ slave_list b) -> ab_inv (b <| primary_slave := p |>).
Proof. intros [[] ? ?] Hp. by split. Qed.

Lemma reselect_ok a (f : mbond -> mbond) :
  (forall b, ab_inv b -> ab_inv (f b) /\ framed b (f b)) -> stable a (modify f ;;; bond_select_active_slave).
Proof.
  intros Hf. apply stable_bind; [|intros _; apply select_stable]. intros b Hi _. apply wp_mod. auto.
Qed.

Lemma prio_ok b s v :
  ab_inv b -> s ∈ slave_list b ->
  wp (bond_option_prio_set s v) (fun _ b' => ab_inv b' /\ framed b b') b.
Proof.
  intros Hi Hin. unfold bond_option_prio_set. apply wp_bind.
  eapply wp_mono; [apply mod_soft; [by apply (base_alive b (inv_base b Hi))|done]|]. intros ? b1 Hc.
  apply wp_bind, wp_gets. eapply wp_mono; [apply (stable_when (arp b)); [apply select_stable| |]|].
  - by apply (inv_calm _ _ Hc).
  - apply (calm_arp _ _ Hc).
  - intros ? b2 [? ?]. split; [done|]. etrans; [exact (calm_framed _ _ Hc)|done].
Qed.

Lemma slave_named_ok b name :
  ab_base b ->
  wp (slave_named name) (fun r b' => b' = b /\ forall s, r = Some s -> s ∈ slave_list b) b.
Proof.
  intros Hb. unfold slave_named. apply wp_bind, wp_gets.
  apply (wp_for_each (fun _ r b' => b' = b /\ r = None)); [done| |naive_solver].
  intros pre s post r b' Hl [-> ->]. assert (Hin : s ∈ slave_list b) by (rewrite Hl; set_solver).
  destruct (base_alive b Hb s Hin) as [sl Hs]. apply wp_bind. eapply wp_get_s; [done|]. apply wp_ret.
  case_bool_decide; naive_solver.
Qed.

Lemma primary_ok a v : stable a (bond_option_primary_set v).
Proof.
  unfold bond_option_primary_set. case_bool_decide.
  { apply reselect_ok. intros b Hi. split; [|done].
    apply (inv_calm (b <| primary_slave := None |>)); [done|]. by apply inv_prim. }
  intros b Hi Ha. apply wp_bind. eapply wp_mono; [apply slave_named_ok, Hi|]. intros r b1 [-> Hr].
  destruct r as [s|].
  - pose proof (inv_base b Hi) as Hb. destruct (base_alive b Hb s) as [sl Hs]; [auto|].
    apply wp_bind. eapply wp_get_s; [done|]. apply wp_bind, wp_mod.
    eapply wp_mono; [apply (select_stable (arp b)); [|done]|done].
    apply (inv_calm (b <| primary_slave := Some s |>)); [done|]. by apply inv_prim.
  - apply wp_bind, wp_gets. apply wp_bind.
    eapply wp_mono; [apply (stable_when a); [apply reselect_ok| |]; [|done|done]|].
    + intros b' Hi'. split; [|done]. by apply (inv_prim b' None).
    + intros ? b2 [Hi2 Hf2]. apply wp_mod. split; [|done]. by apply (inv_calm b2).
Qed.

Lemma primary_reselect_ok a v : stable a (bond_option_primary_reselect_set v).
Proof. apply reselect_ok. intros b Hi. split; [|done]. by apply (inv_calm b). Qed.

(** ** Events, opening and closing *)

Lemma event_change_ok b s :
  ab_inv b -> s ∈ slave_list b -> wp (event_change s ;;; event_array) (fun _ b' => ab_inv b' /\ framed b b') b.
Proof.
  intros Hi Hin. pose proof (inv_base b Hi) as Hb.
  apply (wp_mono _ (fun _ b' => calm b b')); [|intros ? b' Hc; split; [by apply (inv_calm _ _ Hc)|by apply calm_framed]].
  unfold event_change. do 2 apply wp_bind. apply wp_gets. rewrite (base_mode b Hb).
  rewrite !(bool_decide_false (_ = BOND_MODE_8023AD)) by done.
  apply wp_bind. eapply wp_mono; [apply update_speed_calm; by apply (base_alive b Hb)|]. intros u b1 Hc1.
  rewrite andb_false_r. apply wp_bind, wp_ret, wp_ret. unfold event_array. apply wp_bind, wp_gets.
  unfold when_. case_match; [apply wp_mod|apply wp_ret]; by destruct Hc1.
Qed.

Lemma event_array_keeps : keeps event_array.
Proof. apply keeps_gets. intros md. auto with mon. Qed.

Lemma event_rename_ok b s :
  ab_inv b -> s ∈ slave_list b -> wp (event_rename s) (fun _ b' => ab_inv b' /\ framed b b') b.
Proof.
  intros Hi Hin. pose proof (inv_base b Hi) as Hb. destruct (base_alive b Hb s Hin) as [sl Hs].
  unfold event_rename. apply wp_bind, wp_gets. apply wp_bind. eapply wp_get_s; [done|].
  assert (Hsel : forall p, (forall k, p = Some k -> k ∈ slave_list b) ->
    wp (modify (fun b => b <| primary_slave := p |>) ;;; bond_select_active_slave) (fun _ b' => ab_inv b' /\ framed b b') b).
  { intros p Hp. apply wp_bind, wp_mod. eapply wp_mono; [apply (select_stable (arp b)); [by apply inv_prim|done]|done]. }
  repeat case_match; [by apply wp_ret|by apply Hsel| |by apply wp_ret]. apply Hsel. by intros k [= <-].
Qed.

Lemma inactive_inv b s :
  ab_inv b -> s ∈ slave_list b -> curr_active_slave b <> Some s -> ab_inv (upd s (core_active false) b).
Proof.
  intros [Hb Hg Hx] Hin Hc. destruct (base_alive b Hb s Hin) as [sl Hs].
  assert (Hup : forall k, up (upd s (core_active false) b) k <-> up b k).
  { intros k. rewrite (up_upd b s _ k sl Hs). destruct (decide (k = s)) as [->|]; [|naive_solver].
    rewrite (up_link b s sl Hs). simpl. naive_solver. }
  split.
  - eapply base_upd; [done..| | | |]; [exact (base_link b Hb s sl Hin Hs)|done|done|].
    intros Hca. simpl. rewrite <- (up_link b s sl Hs). by apply (base_cand b Hb).
  - unfold curr_good in *. change (curr_active_slave (upd s (core_active false) b)) with (curr_active_slave b).
    destruct (curr_active_slave b) as [c|].
    + unfold good. rewrite lookup_upd, decide_False by congruence. done.
    + intros k. rewrite Hup. apply Hg.
  - intros Hx0. specialize (Hx Hx0). unfold carrier_right, any_up in *.
    change (dev_carrier b = bool_decide (Exists (up (upd s (core_active false) b)) (slave_list b))). rewrite Hx.
    apply bool_decide_ext. rewrite !Exists_exists. by setoid_rewrite Hup.
Qed.

Lemma open_slave_ok b s :
  ab_inv b -> s ∈ slave_list b ->
  wp (open_slave BOND_MODE_ACTIVEBACKUP (curr_active_slave b) s) (fun _ b' => ab_inv b' /\ framed b b' /\
    curr_active_slave b' = curr_active_slave b) b.
Proof.
  intros Hi Hin. pose proof (inv_base b Hi) as Hb. pose proof (base_alive b Hb s Hin) as Hal. unfold open_slave, is_ptr.
  assert (Hup : bond_uses_primary BOND_MODE_ACTIVEBACKUP = true) by (apply uses_primary_spec; by left).
  rewrite Hup. case_bool_decide as Hc; simpl.
  - eapply wp_mono; [by apply set_active_upd|]. intros ? b' Hc'.
    assert (Hcalm : calm b b').
    { etrans; [|exact Hc']. apply upd_id_calm. intros sl Hs. pose proof (inv_curr b Hi) as Hg. unfold curr_good in Hg.
      rewrite Hc in Hg. destruct Hg as (sl' & Hs' & Hact & _). simplify_eq. by split. }
    split_and!; [by apply (inv_calm _ _ Hcalm)|by apply calm_framed|apply (calm_curr _ _ Hcalm)].
  - eapply wp_mono; [apply set_inactive_upd; [by apply not_lb|done]|]. intros ? b' Hc'.
    split_and!; [|exact (upd_framed _ _ _ _ Hc')|apply (calm_curr _ _ Hc')].
    apply (inv_calm _ _ Hc'). by apply inactive_inv.
Qed.

Lemma stable_open a : stable a bond_open.
Proof.
  intros b Hi Ha. pose proof (inv_base b Hi) as Hb. unfold bond_open, open_counter. apply wp_bind, wp_bind, wp_gets.
  rewrite (base_mode b Hb), (bool_decide_false (_ = BOND_MODE_ROUNDROBIN)) by done. simpl. apply wp_ret. simpl.
  apply wp_bind, wp_gets. cbv zeta. rewrite (base_mode b Hb). apply wp_bind.
  apply (wp_for_each (fun _ _ b' => ab_inv b' /\ framed b b' /\ curr_active_slave b' = curr_active_slave b)); [done| |].
  - intros pre s post x b' Hl (Hi' & Hf' & Hc'). rewrite <- Hc'. apply wp_bind.
    eapply wp_mono; [apply open_slave_ok; [done|]|].
    + destruct Hf' as (-> & _). rewrite Hl. set_solver.
    + intros ? b'' (? & ? & Hc''). apply wp_ret. split_and!; [done|by etrans|done].
  - intros x b' (Hi' & Hf' & _).
    assert (Hlb : bond_is_lb BOND_MODE_ACTIVEBACKUP = false) by (rewrite <- (base_mode b Hb); by apply not_lb).
    rewrite Hlb. apply wp_bind, wp_ret. simpl.
    apply wp_bind, wp_ret. apply wp_bind. unfold when_. case_match; [apply wp_mod|apply wp_ret]; apply wp_ret; (split; [|done]); [|done].
    by apply (inv_calm b').
Qed.

Lemma flush_calm b s : alive b s -> wp (flush_slave s) (fun _ b' => calm b b') b.
Proof. intros [sl Hs]. apply wp_bind. eapply wp_get_s; [done|]. by apply wp_mod. Qed.

Lemma flush_keeps md : keeps (flush_slaves md).
Proof.
  intros b Hok. unfold flush_slaves. case_match; apply wp_bind, wp_gets.
  - destruct (curr_active_slave b) as [c|] eqn:Hc; [|by apply wp_ret]. apply flush_calm. by apply (mem_curr b Hok).
  - apply (wp_for_each (fun _ _ b' => calm b b')); [done| |done].
    intros pre s post x b' Hl Hc. apply wp_bind. eapply wp_mono; [apply flush_calm|].
    + apply (calm_alive _ _ _ Hc), (mem_list b Hok). rewrite Hl. set_solver.
    + intros ? b'' Hc'. apply wp_ret. etrans; [exact Hc|exact Hc'].
Qed.

Lemma close_keeps : keeps bond_close.
Proof.
  apply keeps_bind; [by apply keeps_mod|]. intros _. apply keeps_gets. intros md.
  apply keeps_bind; [auto with mon|]. intros _. apply flush_keeps.
Qed.
End calls.
