(* ===== verification/MonSlaves.v ===== *)
(** * Failover: enslaving and releasing a slave keep the invariant *)

From S2P Require Import Prelude.
From S2P Require Import BondXmit.
From S2P Require Import MonTypes.
From S2P Require Import MonOps.
From S2P Require Import MonLinks.
From S2P Require Import MonEntry.
From S2P Require Import MonSwitch.
From S2P Require Import MonBest.
From S2P Require Import MonInv.
From S2P Require Import MonKeep.
From S2P Require Import MonMon.

(** What stays when the slaves change. *)
Definition same_params (b b' : mbond) : Prop := arp b' = arp b /\ xdp_prog b' = xdp_prog b.

Lemma framed_params b b' : framed b b' -> same_params b b'.
Proof. by intros (_ & ? & ?). Qed.

Lemma same_params_trans x y z : same_params x y -> same_params y z -> same_params x z.
Proof. intros [] []. split; congruence. Qed.

(** Nothing is left of a slave. *)
Definition gone (s : positive) (b : mbond) : Prop := (s ∉ slave_list b) /\ mslaves b !! s = None.

(** A slave that is not in the list does not matter. *)
Lemma agree_delete b s : s ∉ slave_list b -> agree b (b <| mslaves ::= delete s |>).
Proof.
  intros Hn. split; try done. rec_simpl. intros k Hk. rewrite lookup_delete_ne by (intros ->; done).
  by destruct (mslaves b !! k); constructor.
Qed.

Lemma changed_none_other o s k sl : o = Some s -> k <> s -> soft sl (changed None o k sl).
Proof.
  intros -> Hk. unfold changed. rewrite !bool_decide_false by congruence. done.
Qed.

(** The active slave leaves the list. *)
Lemma agree_drop s y x :
  ab_base y -> curr_active_slave y = Some s -> calm (unlinked s y) x -> agree (without s y) (pure_change None x).
Proof.
  intros Hb Hc Hx. destruct (change_fields None x) as (Hl & Hcu & Hp & Has & Hm & Ha & Hu & Hca & Hxp).
  assert (Hcx : curr_active_slave x = Some s) by (by rewrite (calm_curr _ _ Hx)).
  unfold without, is_ptr. rewrite Hc, bool_decide_true by done.
  split; rewrite ?Hl, ?Hcu, ?Hp, ?Has, ?Hm, ?Ha, ?Hu, ?Hca, ?Hxp; rec_simpl; try (by apply Hx); [done|].
  intros k [Hk _]%elem_unlinked. rewrite lookup_change; [|by rewrite (calm_mode _ _ Hx); apply Hb|congruence].
  pose proof (calm_slaves _ _ Hx k) as Hs. change (mslaves (unlinked s y)) with (mslaves y) in Hs |- *.
  destruct Hs as [u v Huv|]; [|constructor]. constructor. etrans; [exact Huv|]. by eapply changed_none_other.
Qed.

Lemma agree_stay s y x :
  curr_active_slave y <> Some s -> calm (unlinked s y) x -> agree (without s y) x.
Proof.
  intros Hc Hx. apply calm_agree. unfold without, is_ptr. rewrite bool_decide_false by done. by destruct Hx.
Qed.

Lemma mem_ok_unlinked s y : ab_base y -> mem_ok (unlinked s y).
Proof.
  intros Hb. destruct (base_mem y Hb). split; try done. intros k [_ Hk]%elem_unlinked. exact (mem_list k Hk).
Qed.

Lemma unlinked_calm s b b' : calm b b' -> calm (unlinked s b) (unlinked s b').
Proof. intros []. split; try done. unfold unlinked. rec_simpl. congruence. Qed.

Lemma prim_calm p b b' : calm b b' -> calm (b <| primary_slave := p |>) (b' <| primary_slave := p |>).
Proof. by intros []. Qed.

Section slaves.
Context `{MonLaws}.
Abbreviation W := (M mbond).

(** The slave that leaves was the active one. *)
Lemma drop_ok s y x :
  ab_base y -> current_arp_slave y <> Some s -> primary_slave y <> Some s ->
  curr_active_slave y = Some s -> calm (unlinked s y) x ->
  wp (bond_change_active_slave None) (fun _ b' => ab_base b' /\ curr_loose b' /\ framed x b') x.
Proof.
  intros Hb Ha Hp Hc Hx. eapply wp_mono; [apply change_active_ok|].
  - rewrite (calm_mode _ _ Hx). exact (not_lb y Hb).
  - apply (calm_mem_ok _ _ Hx). by apply mem_ok_unlinked.
  - done.
  - intros ? b' Hc'. pose proof (agree_drop s y x Hb Hc Hx) as Hag. split_and!.
    + apply (base_calm _ _ Hc'), (base_agree _ _ Hag). by apply base_without.
    + intros c. rewrite (calm_curr _ _ Hc'). destruct (change_fields None x) as (_ & -> & _). done.
    + destruct (change_fields None x) as (Hl & _ & _ & _ & _ & Har & _ & _ & Hxp). unfold framed.
      by rewrite (calm_list _ _ Hc'), (calm_arp _ _ Hc'), (calm_xdp _ _ Hc').
Qed.

(** The carrier is set, and the slave is freed. *)
Lemma carrier_inv b :
  ab_base b -> curr_good b -> wp bond_set_carrier (fun _ b' => ab_inv b' /\ framed b b') b.
Proof.
  intros Hb Hg. eapply wp_mono; [apply set_carrier_ok; [by apply base_mem|by rewrite (base_mode _ Hb)]|].
  intros ? b' Hc. split; [|by apply calm_framed in Hc]. apply (inv_calm _ _ Hc). split; [by destruct Hb|done|done].
Qed.

(** ** Releasing *)

(** The state in which the slave is inactive, and neither the primary slave nor the candidate. *)
Definition unmarked (s : positive) (b : mbond) : mbond :=
  no_candidate (upd s (core_active false) b)
    <| primary_slave := if is_ptr (primary_slave b) s then None else primary_slave b |>.

Lemma unmarked_base s b : ab_base b -> s ∈ slave_list b -> ab_base (unmarked s b).
Proof.
  intros Hb Hin. destruct (base_alive b Hb s Hin) as [sl Hs].
  assert (Hb' : ab_base (no_candidate (upd s (core_active false) b))).
  { apply base_no_candidate. eapply base_upd; [done..| | |done|]; [exact (base_link b Hb s sl Hin Hs)|done|].
    intros Hca. simpl. rewrite <- (up_link b s sl Hs). by apply (base_cand b Hb). }
  destruct Hb'. split; try done. unfold unmarked. rec_simpl. intros k. case_match; [done|]. auto.
Qed.

Lemma unmarked_prim s b : primary_slave (unmarked s b) <> Some s.
Proof. unfold unmarked, is_ptr. rec_simpl. by case_bool_decide. Qed.

Lemma release_select {A} s b x (k : Z -> W A) Q :
  ab_inv b -> s ∈ slave_list b -> calm (unlinked s (unmarked s b)) x ->
  (forall r b', ab_inv b' -> framed x b' -> wp (k r) Q b') ->
  wp (when_ (is_ptr (curr_active_slave b) s) (bond_change_active_slave None) ;;;
      when_ (bond_is_lb BOND_MODE_ACTIVEBACKUP) (tell (AlbDeinitSlave s)) ;;;
      when_ (is_ptr (curr_active_slave b) s) bond_select_active_slave ;;;
      bind bond_set_carrier k) Q x.
Proof.
  intros Hi Hin Hx Hk. pose proof (inv_base b Hi) as Hb.
  pose proof (unmarked_base s b Hb Hin) as Hby. pose proof (unmarked_prim s b) as Hpy.
  assert (Hlb : bond_is_lb BOND_MODE_ACTIVEBACKUP = false) by (rewrite <- (base_mode b Hb); by apply not_lb).
  rewrite Hlb. unfold is_ptr. case_bool_decide as Hc; simpl.
  - apply wp_bind. eapply wp_mono; [by apply (drop_ok s (unmarked s b))|]. intros ? b1 (Hb1 & Hl1 & Hf1).
    apply wp_bind, wp_ret. apply wp_bind. eapply wp_mono; [by apply select_ok|].
    intros ? b2 (Hb2 & Hg2 & Hf2 & _). apply wp_bind. eapply wp_mono; [by apply carrier_inv|]. intros r b3 [Hi3 Hf3].
    apply Hk; [done|]. etrans; [exact Hf1|]. by etrans; [exact Hf2|].
  - apply wp_bind, wp_ret, wp_bind, wp_ret, wp_bind, wp_ret.
    pose proof (agree_stay s (unmarked s b) x Hc Hx) as Hag.
    assert (Hbw : ab_base (without s (unmarked s b))) by (by apply base_without).
    apply wp_bind. eapply wp_mono; [apply carrier_inv; [by apply (base_agree _ _ Hag)|]|].
    + apply (curr_good_agree _ _ Hag Hbw), good_without; [|done]. exact (inv_curr _ (inactive_inv b s Hi Hin Hc)).
    + intros r b' [? ?]. auto.
Qed.

Lemma release_ok b s :
  ab_inv b ->
  wp (bond_release_one s false) (fun r b' => ab_inv b' /\ same_params b b' /\
    r = bool_decide (s ∈ slave_list b) /\ (r = true -> gone s b')) b.
Proof.
  intros Hi. pose proof (inv_base b Hi) as Hb. unfold bond_release_one. apply wp_bind, wp_gets.
  case_bool_decide as Hin; simpl; [|by apply wp_ret]. apply wp_bind, wp_gets. rewrite (base_mode b Hb).
  rewrite (bool_decide_false (_ = BOND_MODE_8023AD)) by done. apply wp_bind.
  eapply wp_mono; [apply set_inactive_upd; [by apply not_lb|by apply (base_alive b Hb)]|]. intros ? b1 Hc1.
  apply wp_bind, wp_ret. apply wp_bind, wp_mod. apply wp_bind.
  apply (wp_mono _ (fun _ x => calm (unlinked s b1) x)).
  { unfold when_. case_match; [apply wp_mod|apply wp_ret]; done. }
  intros ? b2 Hc2. apply wp_bind, wp_gets. apply wp_bind, wp_mod. apply wp_bind, wp_gets. apply wp_bind.
  assert (Hcu : curr_active_slave b2 = curr_active_slave b) by (rewrite (calm_curr _ _ Hc2); apply (calm_curr _ _ Hc1)).
  assert (Hpr : primary_slave b2 = primary_slave b) by (rewrite (calm_prim _ _ Hc2); apply (calm_prim _ _ Hc1)).
  rec_simpl. rewrite Hcu, Hpr.
  apply (wp_mono _ (fun _ x => calm (unlinked s (unmarked s b)) x)).
  { assert (Hc : calm (no_candidate (unlinked s (upd s (core_active false) b))) (no_candidate b2)).
    { apply no_candidate_calm. etrans; [apply unlinked_calm; exact Hc1|exact Hc2]. }
    unfold when_, is_ptr. case_bool_decide as Hp; [apply wp_mod|apply wp_ret].
    - etrans; [|apply (prim_calm None _ _ Hc)]. unfold unmarked, is_ptr. by rewrite bool_decide_true.
    - etrans; [|exact Hc]. unfold unmarked, is_ptr. by rewrite bool_decide_false. }
  intros ? x Hx. apply (release_select s b x); [done|done|done|]. intros r b3 Hi3 Hf3.
  assert (Hn3 : s ∉ slave_list b3).
  { destruct Hf3 as (-> & _). rewrite (calm_list _ _ Hx), elem_unlinked. tauto. }
  apply wp_bind, wp_gets. apply wp_bind.
  apply (wp_mono _ (fun _ b4 => calm b3 b4)).
  { unfold when_. case_match; [apply wp_bind, wp_gets, wp_mod|apply wp_ret]; done. }
  intros ? b4 Hc4. apply wp_bind, wp_mod. apply wp_bind, wp_mod. apply wp_ret.
  set (b5 := b4 <| slave_cnt ::= Z.pred |>).
  assert (Hc5 : calm b3 b5) by (by destruct Hc4).
  assert (Hn5 : s ∉ slave_list b5) by (by rewrite (calm_list _ _ Hc5)).
  split_and!.
  - apply (inv_agree b5); [by apply agree_delete|]. by apply (inv_calm _ _ Hc5).
  - apply (same_params_trans _ b3); [|by split; [apply (calm_arp _ _ Hc5)|apply (calm_xdp _ _ Hc5)]].
    apply (same_params_trans _ x); [|by apply framed_params]. split; [apply (calm_arp _ _ Hx)|apply (calm_xdp _ _ Hx)].
  - done.
  - intros _. split; [done|]. rec_simpl. apply lookup_delete_eq.
Qed.

(** ** Enslaving *)

(** The new slave is in memory and has the property [P]; the rest is as in [b0]. *)
Definition on (s : positive) (b0 : mbond) (P : mslave -> Prop) (b : mbond) : Prop :=
  exists sl, mslaves b !! s = Some sl /\ P sl /\ calm (b0 <| mslaves ::= <[s := sl]> |>) b.

Lemma insert_calm b0 b s x y :
  calm (b0 <| mslaves ::= <[s := x]> |>) b ->
  calm (b0 <| mslaves ::= <[s := y]> |>) (b <| mslaves ::= <[s := y]> |>).
Proof.
  intros []. split; try done. rec_simpl. intros k. specialize (calm_slaves k). rec_simpl_all.
  destruct (decide (k = s)) as [->|Hk]; [rewrite !lookup_insert_eq; by constructor|].
  by rewrite !lookup_insert_ne in * by done.
Qed.

Lemma on_mod s b0 (P P' : mslave -> Prop) f b Q :
  on s b0 P b -> (forall sl, P sl -> P' (f sl)) -> (forall b', on s b0 P' b' -> Q tt b') -> wp (mod_s s f) Q b.
Proof.
  intros (sl & Hs & HP & Hc) Hf HQ. eapply wp_mod_s; [done|]. apply HQ. exists (f sl). split_and!.
  - rec_simpl. apply lookup_insert_eq.
  - auto.
  - by eapply insert_calm.
Qed.

Definition no_wait (sl : mslave) : Prop := delay sl = 0.

(** A new slave after its link was looked at. *)
Definition fresh (up : Z) (sl : mslave) : Prop :=
  (link sl = BOND_LINK_UP \/ link sl = BOND_LINK_DOWN \/ link sl = BOND_LINK_BACK) /\
  link_new_state sl = link sl /\ (up = 0 -> delay sl = 0).

Lemma on_speed s b0 b :
  on s b0 no_wait b -> wp (bond_update_speed_duplex s) (fun _ b' => on s b0 no_wait b') b.
Proof.
  intros Hon. pose proof Hon as (sl & Hs & _). unfold bond_update_speed_duplex. apply wp_bind. eapply wp_get_s; [done|].
  destruct (ksettings sl) as [[v d]|]; [case_match|];
    (apply wp_bind; eapply on_mod; [exact Hon| |intros; by apply wp_ret]; done).
Qed.

Lemma on_link s b0 l now u b Q :
  on s b0 no_wait b -> l = BOND_LINK_UP \/ l = BOND_LINK_DOWN \/ l = BOND_LINK_BACK ->
  (forall b', on s b0 (fun sl => fresh u sl /\ no_wait sl) b' -> Q tt b') -> wp (set_link s l now) Q b.
Proof.
  intros Hon Hl HQ. eapply on_mod; [exact Hon| |exact HQ]. intros sl Hd.
  destruct (set_link_spec l now sl) as [n ->]. unfold fresh, no_wait in *. by rec_simpl.
Qed.

Lemma enslave_link_ok s b0 b :
  on s b0 (fun _ => True) b -> wp (enslave_link s) (fun _ b' => on s b0 (fresh (updelay b0)) b') b.
Proof.
  intros Hon. pose proof Hon as (sl0 & _ & _ & Hc0). assert (Hu : updelay b = updelay b0) by apply (calm_updelay _ _ Hc0).
  unfold enslave_link. apply wp_bind, wp_gets. apply wp_bind. eapply (on_mod _ _ _ no_wait); [exact Hon|done|]. intros b1 Hon1.
  apply wp_bind. eapply wp_mono; [by apply on_speed|]. intros un b2 Hon2. apply wp_bind.
  apply (wp_mono _ (fun _ b' => on s b0 no_wait b')).
  { unfold when_. case_match; [|by apply wp_ret]. eapply (on_mod _ _ _ no_wait); [exact Hon2|done|done]. }
  intros ? b3 Hon3. apply wp_bind. eapply (on_mod _ _ _ no_wait); [exact Hon3|done|]. intros b4 Hon4.
  pose proof Hon4 as (sl & Hs & _). apply wp_bind. eapply wp_get_s; [done|]. apply wp_bind.
  apply (wp_mono _ (fun _ b' => on s b0 (fresh (updelay b0)) b')).
  - assert (Hweak : forall b', on s b0 (fun sl => fresh (updelay b0) sl /\ no_wait sl) b' -> on s b0 (fresh (updelay b0)) b').
    { intros b' (x & ? & [? _] & ?). by exists x. }
    repeat case_match; try (eapply on_link; [exact Hon4|tauto|exact Hweak]).
    apply wp_bind. eapply (on_link _ _ _ _ (updelay b0)); [exact Hon4|tauto|]. intros b5 Hon5.
    eapply (on_mod _ _ _ (fresh (updelay b0))); [exact Hon5| |done]. rewrite Hu. intros x [(? & ? & _) _]. unfold fresh. by rec_simpl.
  - intros ? b5 Hon5. pose proof Hon5 as (sl' & Hs' & _). apply wp_bind. eapply wp_get_s; [done|].
    unfold when_. case_match; [|by apply wp_ret]. eapply (on_mod _ _ _ (fresh (updelay b0))); [exact Hon5|done|done].
Qed.

(** Before the slave is linked: it is inactive, and may be the primary slave already. *)
Definition ready (s : positive) (b b' : mbond) : Prop :=
  exists p, (p = primary_slave b \/ p = Some s) /\
    on s (b <| primary_slave := p |>) (fun sl => fresh (updelay b) sl /\ active sl = false) b'.

Lemma ready_calm s b x y : ready s b x -> calm x y -> ready s b y.
Proof.
  intros (p & Hp & sl & Hs & [Hf Ha] & Hc) Hxy. exists p. split; [done|].
  destruct (calm_lookup _ _ _ _ Hxy Hs) as (sl' & Hs' & Hsoft). exists sl'. split; [done|]. split.
  - unfold fresh in *. by rewrite (soft_link _ _ Hsoft), (soft_new _ _ Hsoft), (soft_delay _ _ Hsoft), (soft_active _ _ Hsoft).
  - assert (Hxy' : calm (x <| mslaves ::= <[s := sl']> |>) y).
    { destruct Hxy. split; try done. rec_simpl. intros k. destruct (decide (k = s)) as [->|Hk].
      - rewrite lookup_insert_eq, Hs'. by constructor.
      - by rewrite lookup_insert_ne. }
    etrans; [by eapply insert_calm|exact Hxy'].
Qed.

Lemma prepare_ok s new b :
  ab_inv b ->
  wp (enslave_prepare s new) (fun _ b' => ready s b b') b.
Proof.
  intros Hi. pose proof (inv_base b Hi) as Hb. apply wp_bind, wp_mod. apply wp_bind.
  eapply wp_mono; [apply (enslave_link_ok s b)|].
  { exists new. rec_simpl. by rewrite lookup_insert_eq. }
  intros ? b1 (sl & Hs & Hf & Hc). apply wp_bind. unfold enslave_primary. apply wp_bind, wp_gets. apply wp_bind.
  eapply wp_get_s; [done|].
  apply (wp_mono _ (fun _ b' => exists p, (p = primary_slave b \/ p = Some s) /\
    on s (b <| primary_slave := p |>) (fresh (updelay b)) b')).
  { unfold when_. case_match; [apply wp_mod; exists (Some s)|apply wp_ret; exists (primary_slave b)].
    - split; [by right|]. exists sl. split; [done|]. split; [done|]. by destruct Hc.
    - split; [by left|]. exists sl. split; [done|]. split; [done|]. by destruct Hc. }
  intros ? b2 (p & Hp & Hon). unfold enslave_mode. do 2 apply wp_bind, wp_gets.
  pose proof Hon as (sl2 & Hs2 & _ & Hc2). assert (Hm : bmode b2 = BOND_MODE_ACTIVEBACKUP).
  { rewrite (calm_mode _ _ Hc2). apply Hb. }
  rewrite Hm. unfold set_inactive_flags. apply wp_bind, wp_gets. rewrite Hm.
  eapply on_mod; [exact Hon| |intros b3 Hon3; exists p; split; [done|exact Hon3]].
  intros x (Hl & Hn & Hd). destruct (inactive_flags_spec BOND_MODE_ACTIVEBACKUP BOND_SLAVE_NOTIFY_NOW x) as (ac & n & -> & Ha).
  rewrite Ha; [|rewrite <- (base_mode b Hb); by apply not_lb]. unfold fresh. by rec_simpl.
Qed.

(** The slave is not in the list, so no pointer but that to the primary slave is to it. *)
Lemma undo_ready s b b' :
  ab_inv b -> s ∉ slave_list b -> ready s b b' ->
  wp (enslave_undo s) (fun _ b'' => ab_inv b'' /\ same_params b b'' /\ gone s b'') b'.
Proof.
  intros Hi Hn (p & Hp & sl & Hs & _ & Hc). pose proof (inv_base b Hi) as Hb. unfold enslave_undo.
  apply wp_bind, wp_gets. rewrite (calm_prim _ _ Hc). rec_simpl. apply wp_bind.
  set (q := if is_ptr p s then None else p).
  apply (wp_mono _ (fun _ x => calm (b <| primary_slave := q |> <| mslaves ::= <[s := sl]> |>) x)).
  { unfold when_, q. case_match; [apply wp_mod|apply wp_ret]; by destruct Hc. }
  intros ? x Hx. apply wp_bind, wp_gets. apply wp_bind.
  assert (Hcs : is_ptr (curr_active_slave x) s = false).
  { unfold is_ptr. apply bool_decide_eq_false. rewrite (calm_curr _ _ Hx). rec_simpl.
    intros Hcu. by apply (base_curr b Hb) in Hcu. }
  rewrite Hcs. apply wp_ret, wp_mod.
  assert (Hq : forall k, q = Some k -> k ∈ slave_list b).
  { unfold q, is_ptr. intros k. case_bool_decide as Hps; [done|]. intros ->.
    destruct Hp as [Hp|Hp]; [by apply (base_prim b Hb)|congruence]. }
  assert (Hag : agree (b <| primary_slave := q |>) (x <| mslaves ::= delete s |>)).
  { destruct Hx. split; try done. rec_simpl. intros k Hk. assert (k <> s) by (intros ->; done).
    rewrite lookup_delete_ne by done. specialize (calm_slaves k). rec_simpl_all.
    by rewrite lookup_insert_ne in calm_slaves. }
  split; [apply (inv_agree _ _ Hag); by apply inv_prim|].
  split; [split; [apply (agree_arp _ _ Hag)|apply (agree_xdp _ _ Hag)]|].
  split; [by rewrite (agree_list _ _ Hag)|]. rec_simpl. apply lookup_delete_eq.
Qed.

(** Linked to the bond: the invariant, but for the active slave. *)
Definition linked (s : positive) (b : mbond) : mbond := b <| slave_list ::= fun l => l ++ [s] |>.

Lemma linked_calm s b b' : calm b b' -> calm (linked s b) (linked s b').
Proof. intros []. split; try done. unfold linked. rec_simpl. congruence. Qed.

Definition extended (s : positive) (sl : mslave) (p : option positive) (b : mbond) : mbond :=
  linked s (b <| primary_slave := p |> <| mslaves ::= <[s := sl]> |>).

Lemma elem_extended s sl p b k : k ∈ slave_list (extended s sl p b) <-> k ∈ slave_list b \/ k = s.
Proof. unfold extended, linked. rec_simpl. by rewrite elem_of_app, list_elem_of_singleton. Qed.

Lemma fresh_link_ok a u sl : fresh u sl -> link_ok a sl.
Proof.
  intros (Hl & Hn & _). unfold link_ok. rewrite Hn. destruct Hl as [-> | [-> | ->]]; (split_and!; [done|auto|auto]); done.
Qed.

Lemma extended_base s sl p b :
  ab_base b -> s ∉ slave_list b -> (p = primary_slave b \/ p = Some s) -> fresh (updelay b) sl -> active sl = false ->
  ab_base (extended s sl p b).
Proof.
  intros Hb Hn Hp Hf Hact. destruct Hb.
  assert (Hlk : forall k sl', k ∈ slave_list (extended s sl p b) -> mslaves (extended s sl p b) !! k = Some sl' ->
    (k = s /\ sl' = sl) \/ (k ∈ slave_list b /\ mslaves b !! k = Some sl')).
  { intros k sl' Hk. unfold extended, linked. rec_simpl. apply elem_extended in Hk as [Hk| ->].
    - rewrite lookup_insert_ne by (intros ->; done). by right.
    - rewrite lookup_insert_eq. intros [= ->]. by left. }
  assert (Hl : forall k, k ∈ slave_list b -> k ∈ slave_list (extended s sl p b)) by (intros k; rewrite elem_extended; tauto).
  split; try done; unfold extended, linked; rec_simpl.
  - apply NoDup_app. split_and!; [done| |by apply NoDup_singleton]. intros k Hk ->%list_elem_of_singleton. done.
  - intros k [Hk| ->%list_elem_of_singleton]%elem_of_app; unfold alive; rec_simpl; [|by rewrite lookup_insert_eq].
    rewrite lookup_insert_ne by (intros ->; done). exact (base_alive k Hk).
  - intros k Hk. by apply Hl, base_curr.
  - intros k Hk. apply (elem_extended s sl p b k). destruct Hp; [left; apply base_prim|right]; congruence.
  - intros k Hk. by apply Hl, base_arps.
  - intros k sl' Hk Hs. destruct (Hlk k sl' Hk Hs) as [[-> ->]|[? ?]]; [by eapply fresh_link_ok|by eapply base_link].
  - intros Ha k sl' Hk Hs Hac. destruct (Hlk k sl' Hk Hs) as [[-> ->]|[? ?]]; [congruence|by eapply base_single].
  - intros Ha. destruct (base_delay Ha) as [Hu Hd]. split; [done|]. intros k sl' Hk Hs.
    destruct (Hlk k sl' Hk Hs) as [[-> ->]|[? ?]]; [|by eapply Hd]. destruct Hf as (_ & _ & Hf). rewrite Hf by done. done.
  - intros k Hk. specialize (base_arps k Hk). unfold up. rec_simpl. rewrite lookup_insert_ne by (intros ->; done).
    by apply (base_cand k).
Qed.

Lemma linked_base s b b' :
  ab_inv b -> s ∉ slave_list b -> ready s b b' -> ab_base (linked s b') /\ curr_loose (linked s b').
Proof.
  intros [Hb Hg _] Hn (p & Hp & sl & Hs & [Hf Hact] & Hc). apply (linked_calm s) in Hc.
  pose proof (extended_base s sl p b Hb Hn Hp Hf Hact) as He. split; [by apply (base_calm _ _ Hc)|].
  apply (curr_loose_calm _ _ Hc). intros c Hcc. left. unfold curr_good in Hg.
  change (curr_active_slave b = Some c) in Hcc. rewrite Hcc in Hg. unfold good, linked in *. rec_simpl.
  rewrite lookup_insert_ne; [done|]. intros ->. by apply (base_curr b Hb) in Hcc.
Qed.

(** Undoing it after the active slave was selected. *)
Lemma undo_linked s y :
  ab_base y -> curr_good y -> s ∈ slave_list y -> current_arp_slave y <> Some s -> xdp_prog y = true ->
  wp (enslave_undo s) (fun _ b' => ab_inv b' /\ same_params y b' /\ gone s b') (unlinked s y).
Proof.
  intros Hb Hg Hin Has Hx. unfold enslave_undo. apply wp_bind, wp_gets. apply wp_bind.
  set (q := if is_ptr (primary_slave y) s then None else primary_slave y). set (y' := y <| primary_slave := q |>).
  assert (Hq : q <> Some s) by (unfold q, is_ptr; by case_bool_decide).
  assert (Hb' : ab_base y').
  { destruct Hb. split; try done. unfold y', q. rec_simpl. intros k. case_match; [done|auto]. }
  apply (wp_mono _ (fun _ x => calm (unlinked s y') x)).
  { change (primary_slave (unlinked s y)) with (primary_slave y).
    unfold when_, y', q, is_ptr. case_bool_decide as Hp; [apply wp_mod|apply wp_ret]; done. }
  intros ? x Hxc. apply wp_bind, wp_gets. rewrite (calm_curr _ _ Hxc).
  change (curr_active_slave (unlinked s y')) with (curr_active_slave y). apply wp_bind.
  apply (wp_mono _ (fun _ b' => ab_base b' /\ curr_good b' /\ framed x b')).
  - unfold is_ptr. case_bool_decide as Hc; simpl.
    + apply wp_bind. eapply wp_mono; [by apply (drop_ok s y')|]. intros ? b1 (Hb1 & Hl1 & Hf1).
      eapply wp_mono; [by apply select_ok|]. intros ? b2 (? & ? & Hf2 & _). split_and!; [done|done|by etrans].
    + apply wp_ret. pose proof (agree_stay s y' x Hc Hxc) as Hag.
      assert (Hbw : ab_base (without s y')) by (by apply base_without).
      split_and!; [by apply (base_agree _ _ Hag)| |done]. apply (curr_good_agree _ _ Hag Hbw). by apply good_without.
  - intros ? b1 (Hb1 & Hg1 & Hf1). apply wp_mod.
    assert (Hn : s ∉ slave_list b1).
    { destruct Hf1 as (-> & _). rewrite (calm_list _ _ Hxc), elem_unlinked. tauto. }
    pose proof (agree_delete b1 s Hn) as Hag. destruct Hf1 as (_ & Ha1 & Hx1).
    assert (Hxd : xdp_prog b1 = true) by (by rewrite Hx1, (calm_xdp _ _ Hxc)).
    split_and!; [split; [by apply (base_agree _ _ Hag)|by apply (curr_good_agree _ _ Hag)|]|split|split].
    + rewrite (agree_xdp _ _ Hag). congruence.
    + rewrite (agree_arp _ _ Hag), Ha1. apply (calm_arp _ _ Hxc).
    + rewrite (agree_xdp _ _ Hag), Hx1. apply (calm_xdp _ _ Hxc).
    + done.
    + rec_simpl. apply lookup_delete_eq.
Qed.

Lemma enslave_select_ok b :
  ab_base b -> curr_loose b ->
  wp enslave_select (fun _ b' => ab_inv b' /\ framed b b' /\ current_arp_slave b' = current_arp_slave b) b.
Proof.
  intros Hb Hl. unfold enslave_select. apply wp_bind, wp_mod. set (b0 := b <| slave_cnt ::= Z.succ |>).
  assert (Hc0 : calm b b0) by done. assert (Hb0 : ab_base b0) by (by apply (base_calm _ _ Hc0)).
  apply wp_bind. eapply wp_mono; [apply set_carrier_ok; [by apply base_mem|by rewrite (base_mode _ Hb0)]|].
  intros ? b1 Hc1. assert (Hb1 : ab_base b1) by (apply (base_calm _ _ Hc1); by destruct Hb0).
  assert (Hl1 : curr_loose b1) by (by apply (curr_loose_calm _ _ Hc1)).
  apply wp_bind, wp_gets. rewrite (base_mode b1 Hb1).
  assert (Hup : bond_uses_primary BOND_MODE_ACTIVEBACKUP = true) by (apply uses_primary_spec; by left).
  rewrite Hup. simpl. eapply wp_mono; [by apply select_ok|]. intros ? b2 (Hb2 & Hg2 & Hf2 & Ha2 & _ & Hr2).
  split_and!; [split; [done|done|]|etrans; [|exact Hf2]; exact (calm_framed _ _ Hc1)|rewrite Ha2; apply (calm_arps _ _ Hc1)].
  intros _. apply Hr2. apply (carrier_calm _ _ Hc1). done.
Qed.

Lemma enslave_xdp_ok b s :
  alive b s -> wp (enslave_xdp s) (fun failed b' => calm b b' /\ (failed = true -> xdp_prog b = true)) b.
Proof.
  intros [sl Hs]. unfold enslave_xdp. apply wp_bind, wp_gets. apply wp_bind. eapply wp_get_s; [done|].
  destruct (xdp_prog b); simpl; [|by apply wp_ret]. repeat case_match; by apply wp_ret.
Qed.

Lemma enslave_flags_ok b s : ab_base b -> wp (enslave_flags s) (fun failed b' => failed = false /\ b' = b) b.
Proof.
  intros Hb. unfold enslave_flags. apply wp_bind, wp_gets. rewrite (base_mode b Hb).
  assert (Hup : bond_uses_primary BOND_MODE_ACTIVEBACKUP = true) by (apply uses_primary_spec; by left).
  rewrite Hup. by apply wp_ret.
Qed.

Lemma filter_not_elem (l : list positive) s : s ∉ l -> filter (fun x => x <> s) (l ++ [s]) = l.
Proof.
  intros Hn. rewrite filter_app, filter_cons_False, filter_nil, app_nil_r by naive_solver.
  induction l as [|x l IH]; [done|]. apply not_elem_of_cons in Hn as [Hx Hn]. rewrite filter_cons_True by done. by rewrite IH.
Qed.

Lemma unlink_linked s b : s ∉ slave_list b -> calm b (unlinked s (linked s b)).
Proof. intros Hn. split; try done. unfold unlinked, linked. rec_simpl. by apply filter_not_elem. Qed.

Lemma attempt_wp b (Q : bool -> mbond -> Prop) : (forall ok b', calm b b' -> Q ok b') -> wp attempt Q b.
Proof. intros HQ. unfold attempt. apply wp_bind, wp_gets. apply wp_bind, wp_mod, wp_ret, HQ. done. Qed.

Lemma undo_ready_ret s b b' :
  ab_inv b -> s ∉ slave_list b -> ready s b b' ->
  wp (enslave_undo s ;;; ret false) (fun r b'' => ab_inv b'' /\ same_params b b'' /\ (if r then s ∈ slave_list b'' else gone s b'')) b'.
Proof.
  intros Hi Hn Hr. apply wp_bind. eapply wp_mono; [by apply (undo_ready s b)|]. intros ? b'' (? & ? & ?). by apply wp_ret.
Qed.

Lemma enslave_attach_ok s b b' :
  ab_inv b -> s ∉ slave_list b -> ready s b b' ->
  wp (enslave_attach s) (fun r b'' => ab_inv b'' /\ same_params b b'' /\ (if r then s ∈ slave_list b'' else gone s b'')) b'.
Proof.
  intros Hi Hn Hr. unfold enslave_attach. apply wp_bind, attempt_wp. intros ok1 b1 Hc1. apply (ready_calm _ _ _ b1) in Hr; [|done].
  destruct ok1; simpl; [|by apply (undo_ready_ret s b)].
  apply wp_bind, attempt_wp. intros ok2 b2 Hc2. apply (ready_calm _ _ _ b2) in Hr; [|done].
  destruct ok2; simpl; [|by apply (undo_ready_ret s b)].
  apply wp_bind, wp_mod. fold (linked s b2). pose proof (linked_base s b b2 Hi Hn Hr) as [Hb3 Hl3].
  assert (Hpar : same_params b b2 /\ slave_list b2 = slave_list b /\ current_arp_slave b2 = current_arp_slave b).
  { destruct Hr as (p & _ & sl & _ & _ & []). done. }
  destruct Hpar as (Hpar & Hlist & Harps). assert (Hn2 : s ∉ slave_list b2) by (by rewrite Hlist).
  apply wp_bind, attempt_wp. intros ok3 b4 Hc4. destruct ok3; simpl.
  2: { apply wp_bind, wp_mod. apply (undo_ready_ret s b); [done|done|]. eapply ready_calm; [exact Hr|].
       etrans; [by apply (unlink_linked s)|]. exact (unlinked_calm s _ _ Hc4). }
  assert (Hb4 : ab_base b4) by (by apply (base_calm _ _ Hc4)). assert (Hl4 : curr_loose b4) by (by apply (curr_loose_calm _ _ Hc4)).
  assert (Hin4 : s ∈ slave_list b4) by (rewrite (calm_list _ _ Hc4); unfold linked; rec_simpl; set_solver).
  apply wp_bind. eapply wp_mono; [by apply enslave_flags_ok|]. intros f b5 [-> ->].
  apply wp_bind. eapply wp_mono; [by apply enslave_select_ok|]. intros ? b6 (Hi6 & Hf6 & Ha6).
  pose proof (inv_base b6 Hi6) as Hb6. assert (Hin6 : s ∈ slave_list b6) by (by rewrite (proj1 Hf6)).
  assert (Hpar6 : same_params b b6).
  { apply (same_params_trans _ b2); [done|]. apply (same_params_trans _ b4); [|by apply framed_params].
    split; [apply (calm_arp _ _ Hc4)|apply (calm_xdp _ _ Hc4)]. }
  apply wp_bind. eapply wp_mono; [by apply enslave_xdp_ok, (base_alive b6 Hb6)|]. intros failed b7 [Hc7 Hx7].
  assert (Hi7 : ab_inv b7) by (by apply (inv_calm _ _ Hc7)).
  assert (Hpar7 : same_params b b7).
  { apply (same_params_trans _ b6); [done|]. split; [apply (calm_arp _ _ Hc7)|apply (calm_xdp _ _ Hc7)]. }
  assert (Hin7 : s ∈ slave_list b7) by (by rewrite (calm_list _ _ Hc7)). destruct failed.
  - apply wp_bind, wp_mod. apply wp_bind.
    eapply wp_mono; [apply (undo_linked s b7); [apply Hi7|apply Hi7|done| |]|].
    + rewrite (calm_arps _ _ Hc7), Ha6, (calm_arps _ _ Hc4). change (current_arp_slave b2 <> Some s). rewrite Harps.
      intros Ha. by apply (base_arps b (inv_base b Hi)) in Ha.
    + rewrite (calm_xdp _ _ Hc7). auto.
    + intros ? b8 (? & ? & ?). apply wp_ret. split_and!; [done|by eapply same_params_trans|done].
  - apply wp_bind. unfold enslave_array. apply wp_bind, wp_gets.
    apply (wp_mono _ (fun _ b8 => calm b7 b8)); [unfold when_; case_match; [apply wp_mod|apply wp_ret]; done|].
    intros ? b8 Hc8. apply wp_ret. split_and!; [by apply (inv_calm _ _ Hc8)| |by rewrite (calm_list _ _ Hc8)].
    apply (same_params_trans _ b7); [done|]. split; [apply (calm_arp _ _ Hc8)|apply (calm_xdp _ _ Hc8)].
Qed.

Lemma enslave_ok s new b :
  ab_inv b -> s ∉ slave_list b ->
  wp (bond_enslave s new) (fun r b' => ab_inv b' /\ same_params b b' /\ (if r then s ∈ slave_list b' else gone s b')) b.
Proof.
  intros Hi Hn. apply wp_bind. eapply wp_mono; [by apply prepare_ok|]. intros ? b1 Hr. by apply (enslave_attach_ok s b).
Qed.
End slaves.
