(* ===== verification/MonReach.v ===== *)
(** * Failover: the states of an active backup bond

    The calls that reach a bond, each one atomic; the two phases of a monitor are calls of their
    own, so that other calls come in between. *)

From S2P Require Import Prelude.
From S2P Require Import BondXmit.
From S2P Require Import MonTypes.
From S2P Require Import MonOps.
From S2P Require Import MonLinks.
From S2P Require Import MonEntry.
From S2P Require Import MonSwitch.
From S2P Require Import MonBest.
From S2P Require Import MonInv.
From S2P Require Import MonKeep.
From S2P Require Import MonMon.
From S2P Require Import MonSlaves.

Inductive mcall :=
  | Enslave (s : positive) (new : mslave)
  | Release (s : positive)
  | MiiInspect
  | MiiLocked (commit : bool)
  | MiiMonitor
  | ArpInspect
  | ArpCommit
  | ArpProbe
  | ArpNotify (rtnl : bool)
  | ArpMonitor
  | PeerNotify
  | Open
  | Close
  | Event (e : slave_event) (s : positive)
  | SetActive (new : option positive)
  | SetPrio (s : positive) (v : Z)
  | SetPrimary (name : ifname)
  | SetReselect (v : primary_reselect)
  | DeviceChange (s : positive) (d : mslave)
  | Tick (now : Z) (running : bool).

(** What a device says of itself. *)
Definition device_says (d sl : mslave) : mslave :=
  sl <| is_up := is_up d |> <| running := running d |> <| carrier := carrier d |>
     <| linkwatch_pending := linkwatch_pending d |> <| ksettings := ksettings d |>
     <| last_rx := last_rx d |> <| last_tx := last_tx d |> <| last_rx_of := last_rx_of d |>
     <| last_tx_of := last_tx_of d |> <| dev_mac := dev_mac d |> <| dev_name := dev_name d |>.

Section reach.
Context `{Mon}.
Abbreviation W := (M mbond).

Definition void {A} (m : W A) : W unit := let* _ := m in ret tt.

Definition run_call (c : mcall) : W unit :=
  match c with
  | Enslave s new => void (bond_enslave s new)
  | Release s => void (bond_release_one s false)
  | MiiInspect => void bond_miimon_inspect
  | MiiLocked commit => mii_locked commit
  | MiiMonitor => void bond_mii_monitor
  | ArpInspect => void bond_ab_arp_inspect
  | ArpCommit => bond_ab_arp_commit
  | ArpProbe => void bond_ab_arp_probe
  | ArpNotify rtnl => ab_notify_locked rtnl
  | ArpMonitor => void bond_arp_monitor
  | PeerNotify => void bond_peer_notify_handler
  | Open => void bond_open
  | Close => bond_close
  | Event e s => bond_slave_netdev_event e s
  | SetActive new => void (bond_option_active_slave_set new)
  | SetPrio s v => bond_option_prio_set s v
  | SetPrimary name => bond_option_primary_set name
  | SetReselect v => bond_option_primary_reselect_set v
  | DeviceChange s d => mod_s s (device_says d)
  | Tick now r => modify (fun b => b <| jiffies := now |> <| dev_running := r |>)
  end.

(** A device is enslaved once; a monitor runs if it has an interval; events and options come for
    slaves of the bond. *)
Definition call_allowed (b : mbond) (c : mcall) : Prop :=
  match c with
  | Enslave s _ => s ∉ slave_list b
  | MiiInspect | MiiLocked _ | MiiMonitor => arp b = false
  | ArpInspect | ArpCommit | ArpProbe | ArpNotify _ | ArpMonitor => arp b = true
  | Event _ s | SetPrio s _ | DeviceChange s _ => s ∈ slave_list b
  | SetActive (Some s) => s ∈ slave_list b
  | _ => True
  end.

(** A new bond in active backup mode.  With the ARP monitor there is no [updelay], which is an
    option of the MII monitor. *)
Definition new_bond (b : mbond) : Prop :=
  bmode b = BOND_MODE_ACTIVEBACKUP /\ slave_list b = [] /\ curr_active_slave b = None /\ primary_slave b = None /\
  current_arp_slave b = None /\ dev_carrier b = false /\ (arp b = true -> updelay b = 0).

Inductive bond_reach : mbond -> Prop :=
  | reach_new b : new_bond b -> bond_reach b
  | reach_call b c b' : bond_reach b -> call_allowed b c -> run_call c b = Ok (tt, b') -> bond_reach b'.
End reach.

Section reach_inv.
Context `{MonLaws}.

Lemma new_bond_inv b : new_bond b -> ab_inv b.
Proof.
  intros (Hm & Hl & Hc & Hp & Ha & Hd & Hu). split.
  - split; rewrite ?Hl, ?Hc, ?Hp, ?Ha; try done; [constructor|set_solver..|].
    intros Hat. split; [auto|set_solver].
  - unfold curr_good. rewrite Hc, Hl. set_solver.
  - intros _. unfold carrier_right, any_up. rewrite Hd, Hl. symmetry. apply bool_decide_eq_false. intros He. inversion He.
Qed.

Lemma void_ok {A} (m : M mbond A) (Q : mbond -> Prop) b : wp m (fun _ b' => Q b') b -> wp (void m) (fun _ b' => Q b') b.
Proof. intros Hm. apply wp_bind. eapply wp_mono; [done|]. intros. by apply wp_ret. Qed.

Lemma stable_run {A} a (m : M mbond A) b : stable a m -> ab_inv b -> arp b = a -> wp m (fun _ b' => ab_inv b') b.
Proof. intros Hm Hi Ha. eapply wp_mono; [by apply Hm|]. by intros ? b' [? _]. Qed.

Lemma device_quiet b s sl d :
  mslaves b !! s = Some sl -> quiet b (b <| mslaves ::= <[s := device_says d sl]> |>).
Proof. intros Hs. by eapply quiet_insert. Qed.

Lemma event_ok b e s :
  ab_inv b -> s ∈ slave_list b -> wp (bond_slave_netdev_event e s) (fun _ b' => ab_inv b') b.
Proof.
  intros Hi Hin. destruct e; simpl.
  - apply (void_ok (bond_release_one s false)). eapply wp_mono; [by apply release_ok|]. by intros ? b' (? & _).
  - eapply wp_mono; [by apply event_change_ok|]. by intros ? b' [? _].
  - eapply wp_mono; [by apply event_change_ok|]. by intros ? b' [? _].
  - by eapply stable_run; [apply stable_of_keeps, event_array_keeps| |].
  - by apply wp_ret.
  - eapply wp_mono; [by apply event_rename_ok|]. by intros ? b' [? _].
Qed.

Lemma arp_monitor_ok : stable true bond_arp_monitor.
Proof.
  intros b Hi Ha. unfold bond_arp_monitor. apply wp_bind, wp_gets.
  rewrite (base_mode b (inv_base b Hi)), bool_decide_true by done. by apply arp_mon_ok.
Qed.

(** Every call keeps the invariant, and does not fault. *)
Lemma run_call_ok b c : ab_inv b -> call_allowed b c -> wp (run_call c) (fun _ b' => ab_inv b') b.
Proof.
  intros Hi Hc. destruct c; simpl in *; try apply void_ok.
  - eapply wp_mono; [by apply enslave_ok|]. by intros ? b' (? & _).
  - eapply wp_mono; [by apply release_ok|]. by intros ? b' (? & _).
  - by eapply stable_run; [apply mii_inspect_ok| |].
  - by eapply stable_run; [apply mii_locked_ok| |].
  - by eapply stable_run; [apply mii_monitor_ok| |].
  - by eapply stable_run; [apply ab_inspect_ok| |].
  - by eapply stable_run; [apply ab_commit_ok| |].
  - by eapply stable_run; [apply probe_ok| |].
  - by eapply stable_run; [apply stable_of_keeps, notify_locked_ok| |].
  - by eapply stable_run; [apply arp_monitor_ok| |].
  - by eapply stable_run; [apply stable_of_keeps, keeps_handler| |].
  - by eapply stable_run; [apply stable_open| |].
  - by eapply stable_run; [apply stable_of_keeps, close_keeps| |].
  - by apply event_ok.
  - destruct new as [s|]; [|by eapply stable_run; [apply active_none_ok| |]].
    eapply wp_mono; [by apply active_some_ok|]. by intros ? b' [? _].
  - eapply wp_mono; [by apply prio_ok|]. by intros ? b' [? _].
  - by eapply stable_run; [apply primary_ok| |].
  - by eapply stable_run; [apply primary_reselect_ok| |].
  - destruct (base_alive b (inv_base b Hi) s Hc) as [sl Hs]. eapply wp_mod_s; [done|].
    eapply quiet_inv; [by eapply device_quiet|done].
  - apply wp_mod. by apply (inv_calm b).
Qed.

Lemma reach_inv b : bond_reach b -> ab_inv b.
Proof.
  induction 1 as [b Hn|b c b' _ Hi Hc Hr]; [by apply new_bond_inv|].
  pose proof (run_call_ok b c Hi Hc) as Hw. unfold wp in Hw. by rewrite Hr in Hw.
Qed.
End reach_inv.
