(* ===== verification/MonTime.v ===== *)
(** * Link monitoring: how long the MII monitor takes

    One slave is followed through the runs of the monitor. *)

From S2P Require Import Prelude.
From S2P Require Import BondXmit.
From S2P Require Import MonTypes.
From S2P Require Import MonOps.
From S2P Require Import MonLinks.
From S2P Require Import MonSwitch.
From S2P Require Import MonBest.
From S2P Require Import MonInv.
From S2P Require Import MonKeep.
From S2P Require Import MonMon.

Definition track (s : positive) (F : mslave -> Prop) (b : mbond) : Prop :=
  exists sl, mslaves b !! s = Some sl /\ F sl.

(** What becomes of a slave in a commit in active backup mode. *)
Definition core_commit (sl : mslave) : mslave :=
  match link_new_state sl with
  | BOND_LINK_UP => core_link BOND_LINK_UP sl
  | BOND_LINK_DOWN => core_down sl
  | _ => sl
  end.

(** A property that a commit keeps, of this slave and of others. *)
Record steady (F : mslave -> Prop) : Prop := {
  steady_moved : forall x y, moved x y -> F x -> F y;
  steady_commit : forall x, F x -> F (core_commit x)
}.

Lemma soft_moved x y : soft x y -> moved x y.
Proof. intros []. split; [done|done|by left]. Qed.

Lemma track_moves s F b b' : steady F -> moves b b' -> track s F b -> track s F b'.
Proof.
  intros HF Hm (sl & Hs & Hsl). destruct (moves_slaves _ _ Hm s sl Hs) as (sl' & Hs' & Hmv).
  exists sl'. split; [done|]. by eapply steady_moved.
Qed.

Lemma track_commit s k F b b' : steady F -> calm (upd k core_commit b) b' -> track s F b -> track s F b'.
Proof.
  intros HF Hc (sl & Hs & Hsl). apply (track_moves s F (upd k core_commit b)); [done|by apply calm_moves|].
  unfold track. rewrite lookup_upd. case_decide; [subst; rewrite Hs; simpl|by exists sl].
  eexists. split; [done|]. by apply steady_commit.
Qed.

(** ** Inspection *)

Lemma wp_and {S A} (m : M S A) (P Q : A -> S -> Prop) s : wp m P s -> wp m Q s -> wp m (fun a s' => P a s' /\ Q a s') s.
Proof. unfold wp. by destruct (m s) as [[a s']|]. Qed.

Section time.
Context `{MonLaws}.
Abbreviation W := (M mbond).

Lemma inspect_count b i c sl :
  let r := inspect_slave b i c sl in c <= r.1.2 /\ (r.1.2 = c -> link_new_state r.1.1 = BOND_LINK_NOCHANGE).
Proof.
  unfold inspect_slave, inspect_fail, inspect_back. rewrite !propose_spec. rec_simpl.
  destruct (link sl); repeat case_match; simpl; rewrite ?propose_spec; (split; [lia|]); (done || lia).
Qed.

Definition same_delays (b b' : mbond) : Prop := updelay b' = updelay b /\ downdelay b' = downdelay b.

(** The slave after an inspection, and when a commit follows. *)
Lemma inspect_track s (F G : mslave -> Prop) b :
  NoDup (slave_list b) -> (forall k, k ∈ slave_list b -> alive b k) -> s ∈ slave_list b -> track s F b ->
  (forall b0 i c x, same_delays b b0 -> F x -> G (inspect_slave b0 i c x).1.1) ->
  wp bond_miimon_inspect (fun c b' => same_delays b b' /\
    track s (fun y => G y /\ (c = 0 -> link_new_state y = BOND_LINK_NOCHANGE)) b') b.
Proof.
  intros Hnd Hal Hin (x & Hx & HF) HG. unfold bond_miimon_inspect. do 2 apply wp_bind, wp_gets. apply wp_bind.
  set (I := fun (pre : list positive) (acc : Z * bool) (b' : mbond) => (exists m, b' = b <| mslaves := m |>) /\ 0 <= acc.1 /\
    (forall k, k ∈ slave_list b -> alive b' k) /\
    (s ∉ pre -> mslaves b' !! s = Some x) /\
    (s ∈ pre -> track s (fun y => G y /\ (acc.1 = 0 -> link_new_state y = BOND_LINK_NOCHANGE)) b')).
  apply (wp_for_each I).
  - split_and!; [by exists (mslaves b); destruct b|simpl; lia|done|done|set_solver].
  - intros pre k post [c i] b' Hl ((m & ->) & Hc & Hal' & Hno & Hyes). rec_simpl_all.
    assert (Hk : k ∈ slave_list b) by (rewrite Hl; set_solver).
    assert (Hkp : k ∉ pre).
    { rewrite Hl in Hnd. apply NoDup_app in Hnd as (_ & Hd & _). intros Hk'. apply (Hd k Hk'). set_solver. }
    destruct (Hal' k Hk) as [sl Hs]. apply wp_bind, wp_gets. apply wp_bind. eapply wp_get_s; [done|].
    pose proof (inspect_count (b <| mslaves := m |>) i c sl) as [Hle Hz].
    pose proof (HG (b <| mslaves := m |>) i c) as HG'.
    destruct (inspect_slave _ i c sl) as [[sl' c'] i'] eqn:E. simpl in *.
    apply wp_bind. eapply wp_mod_s; [done|]. apply wp_ret. unfold I, track. rec_simpl. simpl. split_and!.
    + by exists (<[k := sl']> m).
    + lia.
    + intros j Hj. unfold alive. rec_simpl. destruct (decide (j = k)) as [->|]; [by rewrite lookup_insert_eq|].
      rewrite lookup_insert_ne by done. apply (Hal' j Hj).
    + intros Hn. rewrite lookup_insert_ne by set_solver. apply Hno. set_solver.
    + intros [Hp|Hp]%elem_of_app.
      * destruct (Hyes Hp) as (y & Hy & HGy & Hcy). exists y. rewrite lookup_insert_ne by (intros ->; done).
        split; [done|]. split; [done|]. intros ->. apply Hcy. lia.
      * apply list_elem_of_singleton in Hp as ->. exists sl'. rewrite lookup_insert_eq. split; [done|].
        rewrite (Hno Hkp) in Hs. injection Hs as <-. specialize (HG' x). rewrite E in HG'.
        split; [by apply HG'|]. intros ->. apply Hz. lia.
  - intros [c i] b' ((m & ->) & _ & _ & _ & Hyes). apply wp_ret. split; [done|]. by apply Hyes.
Qed.

(** ** Commit *)

Lemma commit_effect b k :
  ab_base b -> k ∈ slave_list b -> wp (commit_slave k) (fun _ b' => calm (upd k core_commit b) b') b.
Proof.
  intros Hb Hin. destruct (base_alive b Hb k Hin) as [sl Hs].
  assert (Hat : forall f, core_commit sl = f sl -> forall b', calm (upd k f b) b' -> calm (upd k core_commit b) b').
  { intros f Hf b' Hc. etrans; [|exact Hc]. apply upd_at_calm. intros x Hx. simplify_eq. by rewrite Hf. }
  assert (Hid : core_commit sl = sl -> calm (upd k core_commit b) b).
  { intros Hc. apply calm_sym, upd_id_calm. intros x Hx. simplify_eq. by rewrite Hc. }
  unfold commit_slave. apply wp_bind, wp_gets. apply wp_bind. eapply wp_get_s; [done|].
  destruct (link_new_state sl) eqn:E; try (apply wp_ret, Hid; unfold core_commit; by rewrite E).
  - eapply wp_mono; [by apply commit_up_ok|]. intros ? b' [Hc _]. eapply Hat; [|exact Hc]. unfold core_commit. by rewrite E.
  - eapply wp_mono; [by apply commit_down_ok|]. intros ? b' [Hc _]. eapply Hat; [|exact Hc]. unfold core_commit. by rewrite E.
  - rewrite (base_mode b Hb), (bool_decide_false (_ = BOND_MODE_8023AD)) by done.
    apply wp_bind, wp_ret, wp_ret, Hid. unfold core_commit. by rewrite E.
Qed.

Lemma commit_track s F b :
  steady F -> ab_inv b -> arp b = false -> s ∈ slave_list b -> track s (fun y => F (lb_take y)) b ->
  wp (commit_all ;;; bond_miimon_commit) (fun _ b' => (ab_inv b' /\ framed b b') /\ (same_delays b b' /\ track s F b')) b.
Proof.
  intros HF Hi Ha Hin (sl & Hs & Hsl). pose proof (inv_base b Hi) as Hb. apply wp_bind.
  eapply wp_mono; [apply wp_and; [by apply commit_all_ok|apply (commit_all_each b Hb)]|].
  intros ? b1 [[Hm Hf] Hc]. pose proof Hf as (Hl & Ha1 & _). rewrite <- Hl in Hm.
  set (R := fun b' => same_delays b b' /\ track s F b').
  assert (HR1 : R b1).
  { split; [split; [apply (calm_updelay _ _ Hc)|apply (calm_downdelay _ _ Hc)]|].
    apply (track_moves s F (each (slave_list b) lb_take b)); [done|by apply calm_moves|].
    exists (lb_take sl). rewrite lookup_each, Hs. simpl. by rewrite bool_decide_true. }
  assert (HRm : forall x y, moves x y -> R x -> R y).
  { intros x y Hmv [[Hu Hd] Ht]. split; [|by eapply track_moves]. destruct Hmv. split; congruence. }
  eapply wp_mono; [apply (commit_rest R commit_slave b1 Hm HR1 HRm)|].
  - intros flag todo b2 k (_ & Ha2 & _) Hm2 Hn Hin2 HR2. apply wp_and; [apply commit_slave_mid; try done; congruence|].
    eapply wp_mono; [apply commit_effect; [apply (mid_base _ _ _ Hm2)|done]|]. intros ? b3 Hc3.
    destruct HR2 as [[Hu Hd] Ht]. split; [|exact (track_commit s k F b2 b3 HF Hc3 Ht)].
    split; [rewrite (calm_updelay _ _ Hc3)|rewrite (calm_downdelay _ _ Hc3)]; done.
  - intros ? b2 [[Hi2 Hf2] HR2]. split; [split; [done|by etrans]|done].
Qed.

(** ** A run of the monitor *)

(** Every attempt to take the lock succeeds. *)
Hypothesis lock_free : forall n, succeeds n = true.

Lemma calm_same_delays b x y : same_delays b x -> calm x y -> same_delays b y.
Proof. intros [] []. split; congruence. Qed.

Lemma monitor_track s (F H' : mslave -> Prop) b :
  steady H' -> ab_inv b -> arp b = false -> s ∈ slave_list b -> track s F b ->
  (forall b0 i c x, same_delays b b0 -> F x -> H' (lb_take (inspect_slave b0 i c x).1.1)) ->
  wp bond_mii_monitor (fun _ b' => same_delays b b' /\ track s H' b') b.
Proof.
  intros HH Hi Ha Hin HF Hins. pose proof (inv_base b Hi) as Hb. unfold bond_mii_monitor. apply wp_bind, wp_gets.
  rewrite bool_decide_false by (intros Hn; rewrite Hn in Hin; set_solver). apply wp_bind.
  eapply wp_mono; [apply wp_and; [by apply (mii_inspect_ok b)|]|].
  { apply (inspect_track s F (fun y => H' (lb_take y)) b); try done; apply Hb. }
  intros c b1 [[Hi1 Hf1] [Hd1 Ht1]].
  assert (Hend : forall x r, (c = 0 \/ track s H' x) -> same_delays b x -> (c = 0 -> calm b1 x) ->
    wp (mii_rearm r) (fun _ b' => same_delays b b' /\ track s H' b') x).
  { intros x r Hor Hdx Hcx. apply wp_bind, wp_gets, wp_ret. split; [done|]. destruct Hor as [Hz|?]; [|done].
    destruct Ht1 as (y & Hy & Hty & Hny). unfold lb_take in Hty. rewrite bool_decide_true in Hty by auto.
    apply (track_moves s H' b1); [done|apply calm_moves; auto|]. by exists y. }
  apply wp_bind, wp_gets. destruct (Z.eqb_spec c 0) as [Hz|Hz]; simpl.
  - destruct (negb _); [|apply Hend; [by left|done|done]].
    apply wp_bind. unfold attempt. apply wp_bind, wp_gets. apply wp_bind, wp_mod, wp_ret. rewrite lock_free. simpl.
    apply wp_bind. unfold mii_locked. apply wp_bind, wp_ret.
    set (b2 := b1 <| calls := _ |>). assert (Hc2 : calm b1 b2) by done.
    eapply wp_mono; [apply keeps_pending, (calm_mem_ok _ _ Hc2), base_mem, Hi1|]. intros ? b3 Hc3.
    assert (Hc13 : calm b1 b3) by (etrans; [exact Hc2|exact Hc3]).
    apply Hend; [by left|by eapply calm_same_delays|done].
  - apply wp_bind. unfold attempt. apply wp_bind, wp_gets. apply wp_bind, wp_mod, wp_ret. rewrite lock_free. simpl.
    apply wp_bind. unfold mii_locked.
    set (b2 := b1 <| calls := _ |>). assert (Hc2 : calm b1 b2) by done. apply wp_bind.
    assert (Hi2 : ab_inv b2) by (by apply (inv_calm _ _ Hc2)).
    eapply wp_mono; [apply (commit_track s H' b2); try done|].
    + destruct Hf1 as (_ & ? & _). change (arp b1 = false). congruence.
    + destruct Hf1 as (Hl & _). change (s ∈ slave_list b1). by rewrite Hl.
    + destruct Ht1 as (y & Hy & Hty & _). by exists y.
    + intros ? b3 [[Hi3 Hf3] [Hd3 Ht3]].
      eapply wp_mono; [apply keeps_pending, base_mem, Hi3|]. intros ? b4 Hc4.
      apply Hend; [right; by apply (track_moves s H' b3); [|apply calm_moves|]| |done].
      eapply calm_same_delays; [|exact Hc4]. change (same_delays b1 b3) in Hd3. destruct Hd1, Hd3. split; congruence.
Qed.

(** ** Runs *)

Fixpoint runs (n : nat) : W unit :=
  match n with
  | O => ret tt
  | Datatypes.S n => let* _ := bond_mii_monitor in runs n
  end.

(** A family of properties through which a slave goes, run by run. *)
Lemma runs_track s (F : nat -> mslave -> Prop) U D n k b :
  (forall i, steady (F i)) ->
  (forall i j c b0 x, updelay b0 = U -> downdelay b0 = D -> F i x -> F (Datatypes.S i) (lb_take (inspect_slave b0 j c x).1.1)) ->
  ab_inv b -> arp b = false -> s ∈ slave_list b -> updelay b = U -> downdelay b = D -> track s (F k) b ->
  wp (runs n) (fun _ b' => ab_inv b' /\ framed b b' /\ track s (F (k + n)%nat) b') b.
Proof.
  intros HF Hstep. revert k b. induction n as [|n IH]; intros k b Hi Ha Hin HU HD Ht; simpl.
  - apply wp_ret. rewrite Nat.add_0_r. done.
  - apply wp_bind. eapply wp_mono; [apply wp_and; [by apply (mii_monitor_ok b)|
      apply (monitor_track s (F k) (F (Datatypes.S k)) b); try done]|].
    + intros b0 i c x [Hu Hd]. apply Hstep; congruence.
    + intros ? b1 [[Hi1 Hf1] [[Hu1 Hd1] Ht1]]. pose proof Hf1 as (Hl1 & Ha1 & _).
      eapply wp_mono; [apply (IH (Datatypes.S k) b1); try done; try congruence|].
      intros ? b2 (? & Hf2 & Ht2). rewrite <- Nat.add_succ_comm. split_and!; [done|by etrans|done].
Qed.

Definition dead (x : mslave) : Prop := running x && carrier x = false.
Definition live (x : mslave) : Prop := running x && carrier x = true.

(** A slave without a link: [n] runs after the link was lost. *)
Definition losing (D : Z) (n : nat) (x : mslave) : Prop :=
  dead x /\
  if decide (n = O) then link x = BOND_LINK_UP /\ link_new_state x <> BOND_LINK_DOWN
  else if Z.of_nat n <=? D then link x = BOND_LINK_FAIL /\ delay x = D - Z.of_nat n /\
    link_new_state x <> BOND_LINK_UP /\ link_new_state x <> BOND_LINK_DOWN
  else link x = BOND_LINK_DOWN /\ link_new_state x <> BOND_LINK_UP.

Lemma core_commit_device x : running (core_commit x) = running x /\ carrier (core_commit x) = carrier x.
Proof. unfold core_commit. by destruct (link_new_state x). Qed.

Lemma losing_steady D n : steady (losing D n).
Proof.
  split.
  - intros x y [Hr Hc Hl] [Hd Hx]. unfold losing, dead in *. rewrite Hr, Hc. split; [done|].
    repeat case_match; destruct Hl as [(-> & -> & Hde)|(Hl & _)]; rewrite ?Hde; try done; destruct Hx as [Hx _]; congruence.
  - intros x [Hd Hx]. destruct (core_commit_device x) as [Hr Hc]. unfold losing, dead in *. rewrite Hr, Hc. split; [done|].
    unfold core_commit. destruct (link_new_state x) eqn:E; repeat case_match; simpl; rewrite ?E; intuition congruence.
Qed.

Lemma losing_step D i j c b0 x :
  downdelay b0 = D -> losing D i x -> losing D (Datatypes.S i) (lb_take (inspect_slave b0 j c x).1.1).
Proof.
  intros HD [Hd Hx]. unfold losing, dead in *. rewrite decide_False by done.
  unfold inspect_slave, inspect_fail, lb_take. rewrite !propose_spec. rec_simpl. rewrite Hd.
  case_decide as Hi; [|destruct (Z.leb_spec (Z.of_nat i) D)].
  - destruct Hx as [Hlk _]. rewrite Hlk. rec_simpl. rewrite HD.
    destruct (Z.leb_spec D 0), (Z.leb_spec (Z.of_nat (Datatypes.S i)) D); try lia; simpl; rewrite ?propose_spec; rec_simpl;
      (split; [done|]); rewrite ?Hlk, ?Hde; (split_and!; try done; lia).
  - destruct Hx as (Hlk & Hde & _). rewrite Hlk, Hde.
    destruct (Z.leb_spec (D - Z.of_nat i) 0), (Z.leb_spec (Z.of_nat (Datatypes.S i)) D); try lia; simpl; rewrite ?propose_spec; rec_simpl;
      (split; [done|]); rewrite ?Hlk, ?Hde; (split_and!; try done; lia).
  - destruct Hx as (Hlk & _). rewrite Hlk. destruct (Z.leb_spec (Z.of_nat (Datatypes.S i)) D); [lia|]. simpl. by rewrite Hlk.
Qed.

(** A slave with a link: [n] runs after the link was found. *)
Definition gaining (U : Z) (n : nat) (x : mslave) : Prop :=
  live x /\
  ((link x = BOND_LINK_UP /\ link_new_state x <> BOND_LINK_DOWN) \/
   (n = O /\ link x = BOND_LINK_DOWN) \/
   (n <> O /\ Z.of_nat n <= U /\ link x = BOND_LINK_BACK /\ delay x = U - Z.of_nat n /\ link_new_state x <> BOND_LINK_DOWN)).

Lemma gaining_steady U n : steady (gaining U n).
Proof.
  split.
  - intros x y [Hr Hc Hl] [Hd Hx]. unfold gaining, live in *. rewrite Hr, Hc. split; [done|].
    destruct Hl as [(-> & -> & Hde)|(Hl & -> & ->)]; [rewrite Hde; done|]. by left.
  - intros x [Hd Hx]. destruct (core_commit_device x) as [Hr Hc]. unfold gaining, live in *. rewrite Hr, Hc. split; [done|].
    unfold core_commit. destruct (link_new_state x) eqn:E; simpl; rewrite ?E; try done; intuition congruence.
Qed.

Lemma gaining_step U i j c b0 x :
  updelay b0 = U -> gaining U i x -> gaining U (Datatypes.S i) (lb_take (inspect_slave b0 j c x).1.1).
Proof.
  intros HU [Hd Hx]. unfold gaining, live in *.
  unfold inspect_slave, inspect_back, lb_take. rewrite !propose_spec. rec_simpl. rewrite Hd. simpl.
  destruct Hx as [[Hlk _]|[[-> Hlk]|(Hi & Hle & Hlk & Hde & _)]]; rewrite Hlk.
  - simpl. split; [done|]. left. by rewrite Hlk.
  - rec_simpl. destruct j; rec_simpl; [simpl; rewrite ?propose_spec; rec_simpl; split; [done|by left]|].
    rewrite HU. destruct (Z.leb_spec U 0); simpl; rewrite ?propose_spec; rec_simpl; (split; [done|]); [by left|].
    right. right. rewrite ?Hlk, ?Hde. split_and!; try done; lia.
  - destruct j; rec_simpl; [simpl; rewrite ?propose_spec; rec_simpl; split; [done|by left]|]. rewrite Hde.
    destruct (Z.leb_spec (U - Z.of_nat i) 0); simpl; rewrite ?propose_spec; rec_simpl; (split; [done|]); [by left|].
    right. right. rewrite ?Hlk, ?Hde. split_and!; try done; lia.
Qed.

(** A slave that is up and keeps its link. *)
Definition staying (x : mslave) : Prop := live x /\ link x = BOND_LINK_UP /\ link_new_state x <> BOND_LINK_DOWN.

Lemma staying_steady : steady staying.
Proof.
  split.
  - intros x y [Hr Hc Hl] (Hd & Hx & Hn). unfold staying, live in *. rewrite Hr, Hc. split; [done|].
    destruct Hl as [(-> & -> & _)|(? & _)]; [done|congruence].
  - intros x (Hd & Hx & Hn). destruct (core_commit_device x) as [Hr Hc]. unfold staying, live in *. rewrite Hr, Hc.
    split; [done|]. unfold core_commit. destruct (link_new_state x) eqn:E; simpl; rewrite ?E; try done.
Qed.

Lemma staying_step j c b0 x : staying x -> staying (lb_take (inspect_slave b0 j c x).1.1).
Proof.
  intros (Hd & Hx & _). unfold staying, live in *.
  unfold inspect_slave, lb_take. rewrite !propose_spec. rec_simpl. rewrite Hd, Hx. simpl. by rewrite Hx.
Qed.
End time.

(** * Failover: how often peers are told of it *)

(** The notifications that were sent. *)
Definition notified (b : mbond) : Z := Z.of_nat (length (filter (fun e => e = NotifyPeers) (mevents b))).

Section peers.
Context `{Mon}.
Abbreviation W := (M mbond).

(** Runs of the monitor in which no link changes. *)
Fixpoint quiet_runs (n : nat) : W unit :=
  match n with
  | O => ret tt
  | Datatypes.S n => mii_locked false ;;; quiet_runs n
  end.

(** The bond has a carrier and an active slave that can send. *)
Definition can_announce (b : mbond) : Prop :=
  bmode b <> BOND_MODE_8023AD /\ dev_carrier b = true /\
  exists s sl, curr_active_slave b = Some s /\ mslaves b !! s = Some sl /\ linkwatch_pending sl = false.

Definition after_run (b : mbond) : mbond :=
  (if send_peer_notif b mod Z.max 1 (peer_notif_delay b) =? 0 then b <| mevents ::= cons NotifyPeers |> else b)
    <| send_peer_notif := (send_peer_notif b - 1) mod peer_notif_mod |>.

Lemma run_once b :
  can_announce b -> send_peer_notif b <> 0 -> wp (mii_locked false) (fun _ b' => b' = after_run b) b.
Proof.
  intros (Hm & Hc & s & sl & Hcu & Hs & Hp) Hn. unfold mii_locked. apply wp_bind, wp_ret. apply wp_bind, wp_gets.
  apply Z.eqb_neq in Hn. rewrite Hn. simpl. unfold bond_peer_notify_may_events. apply wp_bind.
  apply (wp_mono _ (fun r b' => b' = b /\ r = (send_peer_notif b mod Z.max 1 (peer_notif_delay b) =? 0))).
  - unfold bond_should_notify_peers. do 3 apply wp_bind, wp_gets. rewrite Hn, Hc.
    destruct (send_peer_notif b mod _ =? 0); simpl; [|by apply wp_ret]. apply wp_bind, wp_gets. rewrite bool_decide_false by done.
    apply wp_bind, wp_gets. rewrite Hcu. apply wp_bind. eapply wp_get_s; [done|]. apply wp_ret. by rewrite Hp.
  - intros r b' [-> ->]. unfold after_run.
    destruct (send_peer_notif b mod _ =? 0); [by apply wp_bind, wp_mod|by apply wp_bind, wp_ret, wp_mod].
Qed.

Lemma after_run_can b : can_announce b -> can_announce (after_run b).
Proof. intros (? & ? & s & sl & ? & ? & ?). unfold after_run. case_match; (split_and!; [done|done|]); by exists s, sl. Qed.

Lemma div_step m d : 0 < d -> m / d = (m - 1) / d + (if m mod d =? 0 then 1 else 0).
Proof.
  intros Hd. pose proof (Z.div_mod m d) as Hm. pose proof (Z.mod_pos_bound m d Hd) as Hb.
  destruct (Z.eqb_spec (m mod d) 0) as [E|E].
  - assert ((m - 1) / d = m / d - 1); [|lia]. symmetry. apply (Z.div_unique_pos _ _ _ (d - 1)); lia.
  - assert ((m - 1) / d = m / d); [|lia]. symmetry. apply (Z.div_unique_pos _ _ _ (m mod d - 1)); lia.
Qed.

Lemma after_run_notified b :
  0 < send_peer_notif b ->
  notified (after_run b) + (send_peer_notif b - 1) / Z.max 1 (peer_notif_delay b) =
    notified b + send_peer_notif b / Z.max 1 (peer_notif_delay b).
Proof.
  intros Hn. rewrite (div_step (send_peer_notif b)) by lia. unfold after_run, notified.
  destruct (send_peer_notif b mod _ =? 0); rec_simpl; [|lia]. rewrite filter_cons_True by done. simpl length. lia.
Qed.

Lemma runs_notify n b :
  can_announce b -> 0 <= send_peer_notif b < peer_notif_mod -> send_peer_notif b = Z.of_nat n ->
  wp (quiet_runs n) (fun _ b' => send_peer_notif b' = 0 /\
    notified b' = notified b + Z.of_nat n / Z.max 1 (peer_notif_delay b)) b.
Proof.
  revert b. induction n as [|n IH]; intros b Hc Hm Hn; simpl.
  - apply wp_ret. split; [done|]. rewrite Z.div_0_l by lia. lia.
  - apply wp_bind. eapply wp_mono; [apply run_once; [done|lia]|]. intros ? b' ->.
    assert (Hs : send_peer_notif (after_run b) = Z.of_nat n).
    { unfold after_run. case_match; rec_simpl; rewrite Z.mod_small by lia; lia. }
    eapply wp_mono; [apply IH; [by apply after_run_can|lia|done]|]. intros ? b2 [Hz Hno]. split; [done|].
    pose proof (after_run_notified b) as Hr. rewrite Hno.
    assert (Hd : peer_notif_delay (after_run b) = peer_notif_delay b) by (unfold after_run; by case_match).
    rewrite Hd. rewrite Hn in Hr. replace (Z.of_nat (Datatypes.S n) - 1) with (Z.of_nat n) in Hr by lia. lia.
Qed.
End peers.

(** * Failover: the addresses of the slaves with [fail_over_mac] *)

Definition mac_at (b : mbond) (s : positive) : option mac := dev_mac <$> mslaves b !! s.

(** No two slaves have the same address. *)
Definition macs_distinct (b : mbond) : Prop :=
  forall s t, s ∈ slave_list b -> t ∈ slave_list b -> mac_at b s = mac_at b t -> s = t.

(** The addresses after a change; all else is as before. *)
Definition macs_as (b : mbond) (f : positive -> option mac) (b' : mbond) : Prop :=
  slave_list b' = slave_list b /\ bond_mac b' = bond_mac b /\ forall s, mac_at b' s = f s.

Section mac.
Context `{Mon}.
Abbreviation W := (M mbond).
Hypothesis calls_succeed : forall n, succeeds n = true.

Lemma dev_set_mac_run b s a :
  alive b s -> wp (dev_set_mac s a) (fun ok b' => ok = true /\
    macs_as b (fun k => if decide (k = s) then Some a else mac_at b k) b') b.
Proof.
  intros [sl Hs]. unfold dev_set_mac. apply wp_bind. eapply wp_get_s; [done|].
  apply wp_bind. unfold attempt. apply wp_bind, wp_gets. apply wp_bind, wp_mod, wp_ret. rewrite calls_succeed.
  apply wp_bind. simpl. eapply wp_mod_s; [done|]. apply wp_ret. split; [done|]. split_and!; [done|done|].
  intros k. unfold mac_at. rec_simpl. case_decide; [subst; by rewrite lookup_insert_eq|by rewrite lookup_insert_ne].
Qed.

Lemma mac_alive b s a : mac_at b s = Some a -> alive b s.
Proof. unfold mac_at, alive. intros (sl & ? & _)%fmap_Some. by exists sl. Qed.

(** The new active slave and the slave that had the address of the bond exchange addresses. *)
Definition swapped (b : mbond) (new old : positive) (k : positive) : option mac :=
  if decide (k = old) then mac_at b new else if decide (k = new) then mac_at b old else mac_at b k.

Lemma swap_run b new old :
  alive b new -> alive b old ->
  wp (follow_mac new (Some old)) (fun _ b' => macs_as b (swapped b new old) b') b.
Proof.
  intros [nl Hn] [ol Ho]. unfold follow_mac. apply wp_bind, wp_ret.
  apply wp_bind. eapply wp_get_s; [done|]. apply wp_bind. eapply wp_get_s; [done|].
  apply wp_bind. eapply wp_mono; [apply dev_set_mac_run; by exists nl|]. intros ? b1 (-> & Hl1 & Hb1 & Hm1). simpl.
  assert (Ho1 : alive b1 old).
  { assert (exists a, mac_at b1 old = Some a) as [a Ha]; [|by eapply mac_alive]. rewrite Hm1.
    case_decide; [eauto|]. unfold mac_at. rewrite Ho. simpl. eauto. }
  apply wp_bind. eapply wp_mono; [by apply dev_set_mac_run|]. intros ? b2 (_ & Hl2 & Hb2 & Hm2). apply wp_ret.
  split_and!; [congruence|congruence|]. intros k. rewrite Hm2. unfold swapped. case_decide.
  - unfold mac_at. by rewrite Hn.
  - rewrite Hm1. case_decide; [unfold mac_at; by rewrite Ho|done].
Qed.

Lemma get_old_run b new :
  (forall s, s ∈ slave_list b -> alive b s) ->
  wp (bond_get_old_active new) (fun o b' => b' = b /\
    match o with
    | Some s => s ∈ slave_list b /\ s <> new /\ mac_at b s = Some (bond_mac b)
    | None => forall s, s ∈ slave_list b -> s <> new -> mac_at b s <> Some (bond_mac b)
    end) b.
Proof.
  intros Hal. unfold bond_get_old_active. do 2 apply wp_bind, wp_gets.
  apply (wp_for_each (fun pre o b' => b' = b /\ o = None /\
    forall s, s ∈ pre -> s <> new -> mac_at b s <> Some (bond_mac b))).
  - split_and!; [done|done|set_solver].
  - intros pre s post o b' Hl (-> & -> & Hpre). assert (Hin : s ∈ slave_list b) by (rewrite Hl; set_solver).
    assert (Hstep : (s <> new -> mac_at b s <> Some (bond_mac b)) ->
      forall k, k ∈ pre ++ [s] -> k <> new -> mac_at b k <> Some (bond_mac b)).
    { intros Hs k [Hk| ->%list_elem_of_singleton]%elem_of_app; auto. }
    case_bool_decide as Hsn; [apply wp_ret; split_and!; [done|done|by apply Hstep]|].
    destruct (Hal s Hin) as [sl Hs]. apply wp_bind. eapply wp_get_s; [done|]. apply wp_ret.
    assert (Hm : mac_at b s = Some (dev_mac sl)) by (unfold mac_at; by rewrite Hs).
    case_bool_decide as Hb; [split_and!; [done|done|done|by rewrite Hm, Hb]|].
    split_and!; [done|done|]. apply Hstep. intros _. rewrite Hm. congruence.
  - intros o b' (-> & -> & Hpre). done.
Qed.

Lemma swap_distinct b new old b' :
  macs_distinct b -> new ∈ slave_list b -> old ∈ slave_list b ->
  macs_as b (swapped b new old) b' -> macs_distinct b'.
Proof.
  intros Hd Hn Ho (Hl & _ & Hm) s t. rewrite Hl, !Hm. unfold swapped. intros Hs Ht.
  pose proof (Hd s t Hs Ht). pose proof (Hd s new Hs Hn). pose proof (Hd s old Hs Ho).
  pose proof (Hd t new Ht Hn). pose proof (Hd t old Ht Ho). pose proof (Hd new old Hn Ho).
  repeat case_decide; subst; intros; naive_solver.
Qed.

(** The new active slave has the address of the bond, and no other slave has it. *)
Lemma follow_ok b new old :
  (forall s, s ∈ slave_list b -> alive b s) -> fom b = BOND_FOM_FOLLOW -> new ∈ slave_list b ->
  (forall o, old = Some o -> o ∈ slave_list b /\ mac_at b o = Some (bond_mac b)) ->
  macs_distinct b ->
  wp (bond_do_fail_over_mac (Some new) old) (fun _ b' =>
    bond_mac b' = bond_mac b /\ mac_at b' new = Some (bond_mac b') /\ macs_distinct b') b.
Proof.
  intros Hal Hf Hn Ho Hd. unfold bond_do_fail_over_mac. apply wp_bind, wp_gets. rewrite Hf.
  assert (Hswap : forall o, o ∈ slave_list b -> mac_at b o = Some (bond_mac b) ->
    wp (follow_mac new (Some o)) (fun _ b' =>
      bond_mac b' = bond_mac b /\ mac_at b' new = Some (bond_mac b') /\ macs_distinct b') b).
  { intros o Hol Hom. eapply wp_mono; [apply swap_run; auto|]. intros ? b' Has.
    pose proof (swap_distinct b new o b' Hd Hn Hol Has) as Hd'. destruct Has as (_ & Hb & Hm).
    split_and!; [done| |done]. rewrite Hm, Hb. unfold swapped. repeat case_decide; subst; done. }
  destruct old as [o|]; [by apply Hswap; apply Ho|].
  unfold follow_mac. apply wp_bind. eapply wp_mono; [by apply get_old_run|]. intros o b1 [-> Hold].
  destruct o as [o|].
  - destruct Hold as (Hol & _ & Hom). exact (Hswap o Hol Hom).
  - apply wp_bind, wp_gets. apply wp_bind. eapply wp_mono; [apply dev_set_mac_run; auto|].
    intros ? b' (_ & Hl & Hb & Hm). apply wp_ret. split_and!; [done|rewrite Hm, Hb; by rewrite decide_True|].
    intros s t. rewrite Hl, !Hm. intros Hs Ht. pose proof (Hd s t Hs Ht). pose proof (Hold s Hs). pose proof (Hold t Ht).
    repeat case_decide; subst; intros; naive_solver.
Qed.
End mac.
