(* ===== verification/MonSample.v ===== *)
(** * Failover: an instance of the parameters, and sample bonds *)

From S2P Require Import Prelude.
From S2P Require Import BondXmit.
From S2P Require Import MonTypes.
From S2P Require Import MonOps.
From S2P Require Import MonLinks.
From S2P Require Import MonEntry.
From S2P Require Import MonReach.

(** The functions of the headers as Linux has them. *)
#[export] Instance LinuxMon : Mon := {
  bond_propose_link_state l s := s <| link_new_state := l |>;
  bond_commit_link_state now s :=
    if bool_decide (link_new_state s = BOND_LINK_NOCHANGE) then s
    else s <| link := link_new_state s |> <| should_notify_link := negb now && negb (should_notify_link s) |>;
  bond_set_slave_link_state l now s :=
    s <| link_new_state := l |> <| link := l |> <| should_notify_link := negb now && negb (should_notify_link s) |>;
  bond_set_slave_active_flags now s :=
    s <| active := true |> <| should_notify := if active s then should_notify s else negb now |>;
  bond_set_slave_inactive_flags m now s :=
    if bool_decide (m = BOND_MODE_TLB \/ m = BOND_MODE_ALB) then s
    else s <| active := false |> <| should_notify := if active s then negb now else should_notify s |>;
  bond_set_active_slave s := s <| active := true |> <| should_notify := should_notify s |>;
  bond_set_backup_slave s := s <| active := false |> <| should_notify := should_notify s |>;
  bond_slave_state_change s :=
    if bool_decide (link s = BOND_LINK_UP) then s <| active := true |>
    else if bool_decide (link s = BOND_LINK_DOWN) then s <| active := false |> else s;
  bond_slave_state_notify s := s <| should_notify := false |>;
  bond_slave_link_notify s := s <| should_notify_link := false |>;
  bond_uses_primary m := bool_decide (m = BOND_MODE_ACTIVEBACKUP \/ m = BOND_MODE_TLB \/ m = BOND_MODE_ALB);
  bond_is_lb m := bool_decide (m = BOND_MODE_TLB \/ m = BOND_MODE_ALB);
  bond_needs_speed_duplex m := bool_decide (m = BOND_MODE_8023AD \/ m = BOND_MODE_TLB \/ m = BOND_MODE_ALB);
  bond_mode_can_use_xmit_hash m :=
    bool_decide (m = BOND_MODE_8023AD \/ m = BOND_MODE_XOR \/ m = BOND_MODE_TLB \/ m = BOND_MODE_ALB);
  SPEED_UNKNOWN := 2 ^ 32 - 1;
  DUPLEX_UNKNOWN := 255;
  peer_notif_mod := 2 ^ 32;
  msecs_to_jiffies ms := ms;
  time_in_range a b c := (b <=? a) && (a <=? c);
  succeeds _ := true;
  random_mac n := [2; 0; 0; 0; 0; n mod 256]
}.

Lemma mslave_same s : s <| active := active s |> <| should_notify := should_notify s |> = s.
Proof. by destruct s. Qed.

#[export] Instance LinuxMonLaws : MonLaws.
Proof.
  split; simpl; intros; try by eexists.
  - case_bool_decide as Hm.
    + exists (active s), (should_notify s). by rewrite mslave_same.
    + by eexists _, _.
  - case_bool_decide; [by exists true, (should_notify s); destruct s|].
    case_bool_decide; [by exists false, (should_notify s); destruct s|].
    exists (active s), (should_notify s). by rewrite mslave_same.
  - by rewrite bool_decide_eq_true.
  - by rewrite bool_decide_eq_true.
  - by rewrite bool_decide_eq_true.
  - lia.
Qed.

(** A device with a link, of a gigabit and full duplex. *)
Definition sample_device (id : Z) : mslave :=
  {| link := BOND_LINK_UP; link_new_state := BOND_LINK_NOCHANGE; delay := 0; active := true; should_notify := false;
     should_notify_link := false; prio := 0; speed := 0; duplex := 0; link_failure_count := 0; last_link_up := 0;
     last_rx := 0; last_tx := 0; last_rx_of := 0; last_tx_of := 0; is_up := true; running := true; carrier := true;
     linkwatch_pending := false; ksettings := Some (1000, 1); dev_mac := [2; 0; 0; 0; 1; id]; dev_name := [101; id];
     xdp_ops := false; xdp_count := 0 |}.

(** A new bond: the mode, whether the ARP monitor is used, the delays. *)
Definition sample_new (m : bond_mode) (a : bool) (up down : Z) : mbond :=
  {| mslaves := ∅; slave_list := []; slave_cnt := 0; curr_active_slave := None; primary_slave := None;
     current_arp_slave := None; bmode := m; usable_count := None; primary_name := []; force_primary := false;
     reselect := BOND_PRI_RESELECT_ALWAYS; updelay := up; downdelay := down; miimon := if a then 0 else 100; arp_interval := if a then 100 else 0;
     missed_max := 2; fom := BOND_FOM_NONE; bond_mac := []; dev_running := true; dev_carrier := false;
     dev_promisc := false; dev_allmulti := false; xdp_prog := false; send_peer_notif := 0; num_peer_notif := 3;
     peer_notif_delay := 2; resend_igmp := 1; igmp_retrans := 0; rr_counter := false; jiffies := 1000; mevents := []; calls := 0 |}.

Definition unplugged (id : Z) : mslave := sample_device id <| carrier := false |> <| is_up := false |>.

(** A sequence of calls, each of them allowed. *)
#[export] Instance call_allowed_dec b c : Decision (call_allowed b c).
Proof. destruct c as [| | | | | | | | | | | | | | [] | | | | |]; simpl; apply _. Defined.

Fixpoint run_calls (l : list mcall) (b : mbond) : option mbond :=
  match l with
  | [] => Some b
  | c :: l =>
      if decide (call_allowed b c) then
        match run_call c b with Ok (_, b') => run_calls l b' | Err _ => None end
      else None
  end.

Lemma run_calls_reach l b b' : bond_reach b -> run_calls l b = Some b' -> bond_reach b'.
Proof.
  revert b. induction l as [|c l IH]; simpl; intros b Hb Hr; [by injection Hr as <-|].
  case_decide as Hc; [|done]. destruct (run_call c b) as [[[] b1]|] eqn:E; [|done].
  apply (IH b1); [|done]. by eapply reach_call.
Qed.

Lemma sample_new_reach a up down : (a = true -> up = 0) -> bond_reach (sample_new BOND_MODE_ACTIVEBACKUP a up down).
Proof. intros Hu. apply reach_new. destruct a; [by rewrite Hu|done]. Qed.

Definition after_calls (b : mbond) (l : list mcall) : mbond := default b (run_calls l b).

Lemma after_calls_reach b l : bond_reach b -> bond_reach (after_calls b l).
Proof.
  intros Hb. unfold after_calls. destruct (run_calls l b) as [b'|] eqn:E; [|done]. by eapply run_calls_reach.
Qed.

(** A bond with two slaves under the MII monitor, with an [updelay] of 3 and a [downdelay] of 2. *)
Definition sample_pair : mbond :=
  after_calls (sample_new BOND_MODE_ACTIVEBACKUP false 3 2)
    [Enslave 1 (sample_device 1); Enslave 2 (sample_device 2); MiiMonitor; MiiMonitor; MiiMonitor; MiiMonitor].

Lemma sample_pair_reach : bond_reach sample_pair.
Proof. apply after_calls_reach, sample_new_reach. discriminate. Qed.

(** Its active slave has just lost its link. *)
Definition sample_cut : mbond := after_calls sample_pair [DeviceChange 1 (unplugged 1)].

Lemma sample_cut_reach : bond_reach sample_cut.
Proof. apply after_calls_reach, sample_pair_reach. Qed.

(** A bond whose second slave has just got its link. *)
Definition sample_plugged : mbond :=
  after_calls (sample_new BOND_MODE_ACTIVEBACKUP false 3 2)
    [Enslave 1 (sample_device 1); Enslave 2 (unplugged 2); MiiMonitor; DeviceChange 2 (sample_device 2)].

Lemma sample_plugged_reach : bond_reach sample_plugged.
Proof. apply after_calls_reach, sample_new_reach. discriminate. Qed.

(** A bond whose slaves take over its address. *)
Definition sample_follow : mbond :=
  after_calls (sample_new BOND_MODE_ACTIVEBACKUP false 0 0 <| fom := BOND_FOM_FOLLOW |> <| bond_mac := [2; 0; 0; 0; 1; 1] |>)
    [Enslave 1 (sample_device 1); Enslave 2 (sample_device 2)].

Lemma sample_follow_reach : bond_reach sample_follow.
Proof. by apply after_calls_reach, reach_new. Qed.

(** A bond with three slaves under the ARP monitor, none of which has a link; the second device
    has come up. *)
Definition sample_arp : mbond :=
  after_calls (sample_new BOND_MODE_ACTIVEBACKUP true 0 0)
    [Enslave 1 (unplugged 1); Enslave 2 (unplugged 2); Enslave 3 (unplugged 3); DeviceChange 2 (sample_device 2)].

Lemma sample_arp_reach : bond_reach sample_arp.
Proof. by apply after_calls_reach, sample_new_reach. Qed.

Definition slave_of (b : mbond) (s : positive) : mslave := default (sample_device 0) (mslaves b !! s).

(** A device over which an answer has just come. *)
Definition answered (id : Z) : mslave :=
  sample_device id <| last_rx := 1000 |> <| last_rx_of := 1000 |> <| last_tx_of := 1000 |>.
