(* ===== verification/MonProps.v ===== *)
(** * Failover and link monitoring: properties *)

From S2P Require Import Prelude.
From S2P Require Import BondXmit.
From S2P Require Import MonTypes.
From S2P Require Import MonOps.
From S2P Require Import MonLinks.
From S2P Require Import MonEntry.
From S2P Require Import MonSwitch.
From S2P Require Import MonBest.
From S2P Require Import MonInv.
From S2P Require Import MonKeep.
From S2P Require Import MonMon.
From S2P Require Import MonSlaves.
From S2P Require Import MonReach.
From S2P Require Import MonTime.

Section props.
Context `{MonLaws}.

(** C6. In every state that an active backup bond reaches, and with any interleaving of the two
    phases of its monitors with other calls, every call that may come runs to its end: it
    follows no pointer to a slave that is not there. *)
Theorem failover_no_fault b c :
  bond_reach b -> call_allowed b c -> exists b', run_call c b = Ok (tt, b').
Proof.
  intros Hr Hc. apply reach_inv in Hr. destruct (wp_inv _ _ _ (run_call_ok b c Hr Hc)) as ([] & b' & Hrun & _). eauto.
Qed.

(** C7. In every reachable state of an active backup bond the active slave is one of its slaves,
    is marked active, and is up or, under the MII monitor, waits for the end of [downdelay]; if
    there is no active slave, no slave is up; under the MII monitor no other slave is marked
    active; and, unless an XDP program is attached, the bond has a carrier exactly if a slave is
    up. *)
Theorem active_slave_right b :
  bond_reach b ->
  (forall c, curr_active_slave b = Some c -> c ∈ slave_list b /\ good b c) /\
  (curr_active_slave b = None -> forall s, s ∈ slave_list b -> ~ up b s) /\
  (arp b = false -> forall s sl, s ∈ slave_list b -> mslaves b !! s = Some sl -> active sl = true ->
     curr_active_slave b = Some s) /\
  (xdp_prog b = false -> dev_carrier b = true <-> exists s, s ∈ slave_list b /\ up b s).
Proof.
  intros [Hb Hg Hx]%reach_inv. unfold curr_good in Hg. split_and!.
  - intros c Hc. rewrite Hc in Hg. split; [by apply (base_curr b Hb)|done].
  - intros Hc. by rewrite Hc in Hg.
  - apply (base_single b Hb).
  - intros Hp. rewrite (Hx Hp). unfold any_up. by rewrite bool_decide_eq_true, Exists_exists.
Qed.

(** C8. [bond_find_best_slave] chooses as it should: a primary slave that was just set; else the
    primary slave or, if it is not up, the first slave of the highest priority, unless the
    policy says to keep the active one; and, if no slave is up, the one that waits the shortest
    time until it is up. *)
Theorem best_slave_found b :
  bond_reach b -> wp bond_find_best_slave (fun r b' => choice_ok b r /\ unforced b b') b.
Proof.
  intros [Hb _ _]%reach_inv. apply find_best_ok; [by apply base_mem|apply (base_curr b Hb)].
Qed.

(** C16. Releasing a slave leaves nothing of it: it is not in the list or in memory, and neither
    the active slave, the primary slave nor the candidate of the ARP monitor is it. *)
Theorem release_leaves_nothing b s :
  bond_reach b -> s ∈ slave_list b ->
  wp (bond_release_one s false) (fun r b' => r = true /\ gone s b' /\
    curr_active_slave b' <> Some s /\ primary_slave b' <> Some s /\ current_arp_slave b' <> Some s) b.
Proof.
  intros Hr Hin. apply reach_inv in Hr. eapply wp_mono; [by apply release_ok|].
  intros r b' ([Hb' _ _] & _ & Hrt & Hg). rewrite bool_decide_true in Hrt by done. specialize (Hg Hrt).
  split; [done|]. split; [done|]. destruct Hg as [Hn _].
  split_and!; intros Hp; apply Hn; [apply (base_curr _ Hb')|apply (base_prim _ Hb')|apply (base_arps _ Hb')]; done.
Qed.

(** C17. Enslaving succeeds or is undone: wherever it fails, the bond holds no pointer to the
    device afterwards. *)
Theorem enslave_or_nothing b s new :
  bond_reach b -> s ∉ slave_list b ->
  wp (bond_enslave s new) (fun r b' => if r then s ∈ slave_list b' else gone s b' /\
    curr_active_slave b' <> Some s /\ primary_slave b' <> Some s /\ current_arp_slave b' <> Some s) b.
Proof.
  intros Hr Hn. apply reach_inv in Hr. eapply wp_mono; [by apply enslave_ok|].
  intros [] b' ([Hb' _ _] & _ & Hg); [done|]. split; [done|]. destruct Hg as [Hn' _].
  split_and!; intros Hp; apply Hn'; [apply (base_curr _ Hb')|apply (base_prim _ Hb')|apply (base_arps _ Hb')]; done.
Qed.

(** ** Time *)






(** C30. The ARP monitor looks for a new active slave in turn: the next candidate is the first
    slave that is up behind the present one, and from the start of the list again. *)
Theorem probe_in_turn b c l1 l2 :
  bond_reach b -> curr_active_slave b = None -> slave_list b = l1 ++ c :: l2 ->
  wp (probe_next c) (fun r b' => b' = b /\ r = first_up b (l2 ++ l1 ++ [c])) b.
Proof.
  intros [Hb Hg _]%reach_inv Hc Hl. unfold curr_good in Hg. rewrite Hc in Hg. by apply probe_next_first.
Qed.
End props.

(** ** Witnesses *)

From S2P Require Import MonSample.

Lemma failover_no_fault_witness : exists b', run_call MiiMonitor sample_cut = Ok (tt, b').
Proof.
  apply (failover_no_fault sample_cut MiiMonitor); [apply sample_cut_reach|]. vm_compute. reflexivity.
Defined.

Lemma active_slave_right_witness :
  bond_reach sample_pair /\ curr_active_slave sample_pair = Some 1%positive /\ good sample_pair 1.
Proof.
  assert (Hc : curr_active_slave sample_pair = Some 1%positive) by (vm_compute; reflexivity).
  refine (conj sample_pair_reach (conj Hc _)).
  exact (proj2 (proj1 (active_slave_right sample_pair sample_pair_reach) 1%positive Hc)).
Defined.

Lemma best_slave_found_witness :
  wp bond_find_best_slave (fun r b' => choice_ok sample_pair r /\ unforced sample_pair b') sample_pair.
Proof. apply (best_slave_found sample_pair). apply sample_pair_reach. Defined.

Lemma release_leaves_nothing_witness :
  wp (bond_release_one 1 false) (fun r b' => r = true /\ gone 1 b' /\ curr_active_slave b' <> Some 1%positive /\
    primary_slave b' <> Some 1%positive /\ current_arp_slave b' <> Some 1%positive) sample_pair.
Proof.
  apply (release_leaves_nothing sample_pair 1%positive); [apply sample_pair_reach|].
  apply (bool_decide_unpack _). vm_compute. exact I.
Defined.

Lemma enslave_or_nothing_witness :
  wp (bond_enslave 3 (sample_device 3)) (fun r b' => if r then 3%positive ∈ slave_list b' else gone 3 b' /\
    curr_active_slave b' <> Some 3%positive /\ primary_slave b' <> Some 3%positive /\
    current_arp_slave b' <> Some 3%positive) sample_pair.
Proof.
  apply (enslave_or_nothing sample_pair 3%positive); [apply sample_pair_reach|].
  apply (bool_decide_unpack _). vm_compute. exact I.
Defined.









Lemma probe_in_turn_witness :
  wp (probe_next 1) (fun r b' => b' = sample_arp /\ r = first_up sample_arp [2%positive; 3%positive; 1%positive]) sample_arp.
Proof.
  apply (probe_in_turn sample_arp 1%positive [] [2%positive; 3%positive]); [apply sample_arp_reach| |]; vm_compute; reflexivity.
Defined.

(** ** Where the bond is left without what it could have *)



(** Releasing a slave forgets the candidate of the ARP monitor also if that is another slave,
    which stays marked active: when a better slave comes up with it, both are. *)
Theorem release_forgets_candidate :
  let b := after_calls (sample_new BOND_MODE_ACTIVEBACKUP true 0 0)
             [Enslave 1 (unplugged 1); Enslave 2 (unplugged 2); Enslave 3 (unplugged 3);
              DeviceChange 1 (answered 1); ArpProbe; DeviceChange 3 (answered 3); SetPrio 3 5;
              Release 2; ArpInspect; ArpCommit] in
  bond_reach b /\ curr_active_slave b = Some 3%positive /\ active (slave_of b 1) = true /\ active (slave_of b 3) = true.
Proof.
  split; [by apply after_calls_reach, sample_new_reach|]. split_and!; vm_compute; reflexivity.
Qed.

(** Enslaving a device that cannot run the XDP program of the bond fails, and leaves the bond
    with a carrier and a count of one slave, but no slave. *)
Theorem failed_enslave_leaves_carrier :
  wp (bond_enslave 1 (sample_device 1))
    (fun r b' => r = false /\ slave_list b' = [] /\ slave_cnt b' = 1 /\ dev_carrier b' = true)
    (sample_new BOND_MODE_ACTIVEBACKUP false 0 0 <| xdp_prog := true |>).
Proof. vm_compute. repeat split. Qed.
